(** * Walmart importer: the extraction engine, embedded and verified

    This development embeds the pure core of the importer

      - [src/importer/utils.py]            ([money_to_float]),
      - [src/importer/parsing.py]          ([parse_order_page] and its patterns),
      - [src/importer/outlook_fetcher.py]  ([_parse_period], [_decode_candidates],
                                            [_extract_urls_from_safelinks],
                                            [extract_order_numbers_from_items]),
      - [src/importer/main.py]             ([run_pipeline], as far as its exit
                                            status is concerned),

    together with the parts of the Python runtime those functions call:
    [str] methods, [float], the [re] module, [urllib.parse] and [datetime].

    Conventions.
      - A Python [str] is a list of code points.  The alphabet of the
        development is the first 256 code points (Latin-1), carried by [ascii];
        the character classes [\s], [\w], [\d] and case folding are the ones
        CPython uses on that range.  A statement that compares what a
        case-insensitive pattern finds with [str.lower], or [\d] with the
        digits 0-9, is made for ASCII text ([isascii]), on which the two
        agree for every Python string.
      - A Python [float] is an IEEE-754 binary64 value, carried by the
        Standard Library's [spec_float] with [prec = 53] and [emax = 1024];
        decimal literals are read with correct rounding (to nearest, ties to
        even), as CPython's [float] does.
      - Code that can raise returns a [result]; [try]/[except] is [catch]. *)

From Stdlib Require Import Ascii String ZArith NArith Bool Arith Lia List.
From Stdlib Require Import Floats.SpecFloat.
From Stdlib Require Import Sorting.Sorted Sorting.Permutation.
Import ListNotations.


(* ================================================================== *)
(** * Exceptions *)

Inductive exn : Type :=
| ValueError
| OtherError.

Inductive result (A : Type) : Type :=
| Ok (a : A)
| Raise (e : exn).

Arguments Ok {A} a.
Arguments Raise {A} e.

Definition bind {A B : Type} (c : result A) (k : A -> result B) : result B :=
  match c with
  | Ok a => k a
  | Raise e => Raise e
  end.

(** [try: c except e: h e] *)
Definition catch {A : Type} (c : result A) (h : exn -> result A) : result A :=
  match c with
  | Ok a => Ok a
  | Raise e => h e
  end.

Notation "x <- c ;; k" := (bind c (fun x => k))
  (at level 61, c at next level, right associativity).

(* ================================================================== *)
(** * Python strings over the Latin-1 alphabet *)

Module Py.

Definition str := list ascii.

(** A string literal of the source. *)
Definition lit (s : string) : str := list_ascii_of_string s.

Definition code (c : ascii) : nat := nat_of_ascii c.

Definition in_range (lo hi : nat) (c : ascii) : bool :=
  (lo <=? code c) && (code c <=? hi).

Definition eqc (a b : ascii) : bool := Ascii.eqb a b.

Fixpoint eqs (a b : str) : bool :=
  match a, b with
  | [], [] => true
  | x :: a', y :: b' => eqc x y && eqs a' b'
  | _, _ => false
  end.

(** [str.isspace] on one code point; also [\s] of [re] on [str] patterns. *)
Definition is_space (c : ascii) : bool :=
  in_range 9 13 c || in_range 28 32 c || (code c =? 133) || (code c =? 160).

(** [[0-9]], which is also [\d] on Latin-1 (beyond Latin-1, [\d] and [int]
    take the decimal digits of other scripts as well). *)
Definition is_digit (c : ascii) : bool := in_range 48 57 c.

Definition is_upper_az (c : ascii) : bool := in_range 65 90 c.
Definition is_lower_az (c : ascii) : bool := in_range 97 122 c.
Definition is_alpha_az (c : ascii) : bool := is_upper_az c || is_lower_az c.

(** [\w] of [re] on [str] patterns: [str.isalnum] or the underscore. *)
Definition is_word (c : ascii) : bool :=
  is_digit c || is_alpha_az c || (code c =? 95)
  || (code c =? 170) || in_range 178 179 c || (code c =? 181)
  || in_range 185 186 c || in_range 188 190 c
  || in_range 192 214 c || in_range 216 246 c || in_range 248 255 c.

(** [str.lower] and [str.upper] on one code point.  On Latin-1 the lower-case
    map never changes the length of a string; the upper-case companions of
    181, 223 and 255 lie outside the alphabet and never occur in a pattern. *)
Definition lower_c (c : ascii) : ascii :=
  if is_upper_az c || in_range 192 214 c || in_range 216 222 c
  then ascii_of_nat (code c + 32) else c.

Definition upper_c (c : ascii) : ascii :=
  if is_lower_az c || in_range 224 246 c || in_range 248 254 c
  then ascii_of_nat (code c - 32) else c.

Definition lower (s : str) : str := map lower_c s.

(** ** [str] methods *)

Fixpoint lstrip_by (p : ascii -> bool) (s : str) : str :=
  match s with
  | c :: s' => if p c then lstrip_by p s' else s
  | [] => []
  end.

Definition rstrip_by (p : ascii -> bool) (s : str) : str :=
  rev (lstrip_by p (rev s)).

Definition strip_by (p : ascii -> bool) (s : str) : str :=
  rstrip_by p (lstrip_by p s).

(** [s.strip()] *)
Definition strip (s : str) : str := strip_by is_space s.

(** [s.rstrip(chars)] *)
Definition rstrip_chars (chars : str) (s : str) : str :=
  rstrip_by (fun c => existsb (eqc c) chars) s.

Fixpoint startswith (p s : str) : bool :=
  match p, s with
  | [], _ => true
  | x :: p', y :: s' => eqc x y && startswith p' s'
  | _ :: _, [] => false
  end.

Definition endswith (p s : str) : bool := startswith (rev p) (rev s).

(** Truth value of a string *)
Definition is_nonempty (s : str) : bool :=
  match s with [] => false | _ :: _ => true end.

(** [s.find(sub)]; [None] stands for -1. *)
Fixpoint find (sub s : str) : option nat :=
  if startswith sub s then Some 0
  else match s with
       | [] => None
       | _ :: s' => option_map S (find sub s')
       end.

(** [sub in s] *)
Definition contains (sub s : str) : bool :=
  match find sub s with Some _ => true | None => false end.

(** [s[i:j]] for [0 <= i <= j] *)
Definition slice (i j : nat) (s : str) : str := firstn (j - i) (skipn i s).

(** [s[1:-1]] *)
Definition slice_1_m1 (s : str) : str := removelast (tl s).

(** [s.replace(old, new)] for a non-empty [old] *)
Fixpoint replace (old new s : str) (fuel : nat) : str :=
  match fuel with
  | O => s
  | S fuel' =>
      if startswith old s then new ++ replace old new (skipn (length old) s) fuel'
      else match s with
           | [] => []
           | c :: s' => c :: replace old new s' fuel'
           end
  end.

Definition replace_all (old new s : str) : str := replace old new s (S (length s)).

(** [s.split()]: the maximal runs of non-whitespace. *)
Fixpoint split_ws_aux (cur : str) (s : str) : list str :=
  match s with
  | [] => match cur with [] => [] | _ => [rev cur] end
  | c :: s' =>
      if is_space c
      then match cur with [] => split_ws_aux [] s' | _ => rev cur :: split_ws_aux [] s' end
      else split_ws_aux (c :: cur) s'
  end.

Definition split_ws (s : str) : list str := split_ws_aux [] s.

(** [s.split(sep, 1)] as used through "in"/"split" pairs: the text before the
    first [c] and the text after it, or [None] when [c] does not occur. *)
Fixpoint partition_c (c : ascii) (s : str) : option (str * str) :=
  match s with
  | [] => None
  | x :: s' =>
      if eqc x c then Some ([], s')
      else match partition_c c s' with
           | Some (a, b) => Some (x :: a, b)
           | None => None
           end
  end.

(** [s.split(sep)] on a one-character separator. *)
Fixpoint split_c_aux (c : ascii) (cur : str) (s : str) : list str :=
  match s with
  | [] => [rev cur]
  | x :: s' => if eqc x c then rev cur :: split_c_aux c [] s'
               else split_c_aux c (x :: cur) s'
  end.

Definition split_c (c : ascii) (s : str) : list str := split_c_aux c [] s.

(** ** [int] of a string of ASCII digits *)

Definition digit_val (c : ascii) : N := N.of_nat (code c - 48).

Definition digits_val (ds : str) : N :=
  fold_left (fun acc c => (10 * acc + digit_val c)%N) ds 0%N.

(** [int(s)] for a string of ASCII digits.  CPython (3.11, and the
    security releases of the older branches) refuses to convert more than
    4300 digits. *)
Definition int (s : str) : result Z :=
  if 4300 <? length s then Raise ValueError else Ok (Z.of_N (digits_val s)).

(** [str.isalpha] on one code point *)
Definition is_alpha (c : ascii) : bool :=
  is_alpha_az c || (code c =? 170) || (code c =? 181) || (code c =? 186)
  || in_range 192 214 c || in_range 216 246 c || in_range 248 255 c.

(** [s.isalpha()] *)
Definition isalpha (s : str) : bool := is_nonempty s && forallb is_alpha s.

Fixpoint span (p : ascii -> bool) (s : str) : str * str :=
  match s with
  | c :: s' => if p c then let (a, b) := span p s' in (c :: a, b) else ([], s)
  | [] => ([], [])
  end.

(** ** [float] *)

Definition pyfloat := spec_float.

Definition prec : Z := 53.
Definition emax : Z := 1024.

Definition fneg : pyfloat -> pyfloat := SFopp.
Definition fabs : pyfloat -> pyfloat := SFabs.
Definition feq : pyfloat -> pyfloat -> bool := SFeqb.
Definition fle : pyfloat -> pyfloat -> bool := SFleb.

Definition is_finite (x : pyfloat) : bool :=
  match x with
  | S754_zero _ | S754_finite _ _ _ => true
  | S754_infinity _ | S754_nan => false
  end.

(** The float literal [0.0]. *)
Definition fzero : pyfloat := S754_zero false.

(** The binary64 value nearest to [n / d] (ties to even), with sign [neg]. *)
Definition float_of_ratio (neg : bool) (n d : positive) : pyfloat :=
  SFdiv prec emax (S754_finite neg n 0) (S754_finite false d 0).

(** The binary64 value nearest to [m * 10 ^ e], with sign [neg]. *)
Definition float_of_decimal (neg : bool) (m : N) (e : Z) : pyfloat :=
  match m with
  | N0 => S754_zero neg
  | Npos p =>
      match e with
      | Zneg k => float_of_ratio neg p (Pos.pow 10 k)
      | Z0 => float_of_ratio neg p 1
      | Zpos k => float_of_ratio neg (p * Pos.pow 10 k) 1
      end
  end.

(** The whitespace [float] strips from both ends of its argument. *)
Definition is_float_space (c : ascii) : bool :=
  in_range 9 13 c || (code c =? 32) || (code c =? 133) || (code c =? 160).

(** Underscores may only stand between two digits; they are removed before
    the number is read. *)
Fixpoint drop_underscores (prev : ascii) (s : str) : option str :=
  match s with
  | [] => if eqc prev "_" then None else Some []
  | c :: s' =>
      if eqc c "_" then
        if is_digit prev then drop_underscores c s' else None
      else if eqc prev "_" && negb (is_digit c) then None
      else option_map (cons c) (drop_underscores c s')
  end.

Definition take_sign (s : str) : bool * str :=
  match s with
  | c :: s' => if eqc c "-" then (true, s')
               else if eqc c "+" then (false, s')
               else (false, s)
  | [] => (false, [])
  end.

(** The exponent part: [None] when the text is not an exponent followed by
    nothing else. *)
Definition read_exponent (s : str) : option Z :=
  match s with
  | [] => Some 0%Z
  | c :: s' =>
      if eqc (lower_c c) "e" then
        let (neg, s1) := take_sign s' in
        let (ds, s2) := span is_digit s1 in
        match ds, s2 with
        | _ :: _, [] =>
            let v := Z.of_N (digits_val ds) in
            Some (if neg then (- v)%Z else v)
        | _, _ => None
        end
      else None
  end.

Definition read_number (neg : bool) (s : str) : option pyfloat :=
  let (ip, s1) := span is_digit s in
  let (fp, s2) :=
    match s1 with
    | c :: s1' => if eqc c "." then span is_digit s1' else ([], s1)
    | [] => ([], [])
    end in
  match ip ++ fp with
  | [] => None
  | _ :: _ =>
      match read_exponent s2 with
      | Some e =>
          Some (float_of_decimal neg (digits_val (ip ++ fp))
                  (e - Z.of_nat (length fp)))
      | None => None
      end
  end.

(** [float(s)] for a [str] argument; the only exception is [ValueError]. *)
Definition float (s : str) : result pyfloat :=
  match drop_underscores "000" (strip_by is_float_space s) with
  | None => Raise ValueError
  | Some t =>
      let (neg, body) := take_sign t in
      let l := lower body in
      if eqs l (lit "inf") || eqs l (lit "infinity") then Ok (S754_infinity neg)
      else if eqs l (lit "nan") then Ok S754_nan
      else match read_number neg body with
           | Some x => Ok x
           | None => Raise ValueError
           end
  end.

End Py.

(* ================================================================== *)
(** * The [re] module: a backtracking matcher

    [run r st] lists every way [r] can match at the position [st], in the
    order in which a backtracking matcher tries them; the head of the list
    is the match Python reports.  Every repetition in the patterns of the
    importer has a body that consumes at least one character, so an
    iteration that consumes nothing is simply not repeated. *)

Module Re.
Import Py.

Inductive regex : Type :=
| Eps
| Cls (f : ascii -> bool)          (* one character of a class *)
| Seq (a b : regex)
| Alt (a b : regex)                (* a|b, a tried first *)
| Star (greedy : bool) (a : regex) (* a* and a*? *)
| Grp (n : nat) (a : regex)        (* capturing group number n *)
| WordB                            (* \b *)
| Bos                              (* ^ *)
| Eos.                             (* $ *)

(** A position in the subject: the character before it, the text after it,
    and the groups captured so far (latest first). *)
Record mstate : Type := MState {
  prev : option ascii;
  rest : str;
  caps : list (nat * str)
}.

Definition is_word_opt (o : option ascii) : bool :=
  match o with Some c => is_word c | None => false end.

Definition at_boundary (st : mstate) : bool :=
  xorb (is_word_opt (prev st)) (is_word_opt (hd_error (rest st))).

(** The text between a position and a later one. *)
Definition consumed (s s' : str) : str := firstn (length s - length s') s.

Definition shorter (st st' : mstate) : bool :=
  length (rest st') <? length (rest st).

Fixpoint star_loop (greedy : bool) (step : mstate -> list mstate)
         (fuel : nat) (st : mstate) : list mstate :=
  match fuel with
  | O => [st]
  | S fuel' =>
      let more := flat_map (star_loop greedy step fuel')
                           (filter (shorter st) (step st)) in
      if greedy then more ++ [st] else st :: more
  end.

Definition set_group (n : nat) (st st' : mstate) : mstate :=
  MState (prev st') (rest st') ((n, consumed (rest st) (rest st')) :: caps st').

Fixpoint run (r : regex) (st : mstate) : list mstate :=
  match r with
  | Eps => [st]
  | Cls f =>
      match rest st with
      | c :: s' => if f c then [MState (Some c) s' (caps st)] else []
      | [] => []
      end
  | Seq a b => flat_map (run b) (run a st)
  | Alt a b => run a st ++ run b st
  | Star g a => star_loop g (run a) (length (rest st)) st
  | Grp n a => map (set_group n st) (run a st)
  | WordB => if at_boundary st then [st] else []
  | Bos => match prev st with None => [st] | Some _ => [] end
  | Eos =>
      match rest st with
      | [] => [st]
      | [c] => if eqc c "010" then [st] else []
      | _ => []
      end
  end.

(** A match object. [m_start] counts from the position the scan started at. *)
Record rmatch : Type := RMatch {
  m_start : nat;
  m_text : str;                  (* group(0) *)
  m_caps : list (nat * str);
  m_prev : option ascii;
  m_rest : str                   (* the subject after the match *)
}.

Fixpoint lookup (n : nat) (c : list (nat * str)) : option str :=
  match c with
  | [] => None
  | (k, v) :: c' => if Nat.eqb k n then Some v else lookup n c'
  end.

(** [m.group(n)] for [n >= 1]; [None] when the group took no part. *)
Definition group (n : nat) (m : rmatch) : option str := lookup n (m_caps m).

(** [m.group(n)] where a string is needed: a group that took no part is
    [None], and a method call on it raises. *)
Definition group_str (n : nat) (m : rmatch) : result str :=
  match group n m with
  | Some g => Ok g
  | None => Raise OtherError
  end.

Definition start_state (p : option ascii) (s : str) : mstate := MState p s [].

Definition match_of (i : nat) (s : str) (st : mstate) : rmatch :=
  RMatch i (consumed s (rest st)) (caps st) (prev st) (rest st).

Fixpoint search_at (r : regex) (p : option ascii) (s : str) (i : nat)
  : option rmatch :=
  match run r (start_state p s) with
  | st :: _ => Some (match_of i s st)
  | [] =>
      match s with
      | [] => None
      | c :: s' => search_at r (Some c) s' (S i)
      end
  end.

(** [re.search] *)
Definition search (r : regex) (s : str) : option rmatch := search_at r None s 0.

(** [re.match] *)
Definition match_ (r : regex) (s : str) : option rmatch :=
  match run r (start_state None s) with
  | st :: _ => Some (match_of 0 s st)
  | [] => None
  end.

Definition at_end (st : mstate) : bool :=
  match rest st with [] => true | _ :: _ => false end.

(** [re.fullmatch] *)
Definition fullmatch (r : regex) (s : str) : option rmatch :=
  match filter at_end (run r (start_state None s)) with
  | st :: _ => Some (match_of 0 s st)
  | [] => None
  end.

(** [re.finditer]: the scan resumes where the previous match ended (one
    character further after an empty match). *)
Fixpoint finditer_at (r : regex) (fuel : nat) (p : option ascii) (s : str)
  : list rmatch :=
  match fuel with
  | O => []
  | S fuel' =>
      match search_at r p s 0 with
      | None => []
      | Some m =>
          m :: match m_text m, m_rest m with
               | [], [] => []
               | [], c :: s' => finditer_at r fuel' (Some c) s'
               | _ :: _, s' => finditer_at r fuel' (m_prev m) s'
               end
      end
  end.

Definition finditer (r : regex) (s : str) : list rmatch :=
  finditer_at r (S (length s)) None s.

(** [re.sub] with a constant replacement. *)
Fixpoint sub_at (r : regex) (repl : str) (fuel : nat) (p : option ascii)
         (s : str) : str :=
  match fuel with
  | O => s
  | S fuel' =>
      match search_at r p s 0 with
      | None => s
      | Some m =>
          firstn (m_start m) s ++ repl ++
          match m_text m, m_rest m with
          | [], [] => []
          | [], c :: s' => c :: sub_at r repl fuel' (Some c) s'
          | _ :: _, s' => sub_at r repl fuel' (m_prev m) s'
          end
      end
  end.

Definition sub (r : regex) (repl : str) (s : str) : str :=
  sub_at r repl (S (length s)) None s.

(** ** Pattern syntax *)

Fixpoint seqs (l : list regex) : regex :=
  match l with
  | [] => Eps
  | r :: l' => match l' with [] => r | _ :: _ => Seq r (seqs l') end
  end.

Definition chr (c : ascii) : regex := Cls (eqc c).

(** A literal character under [re.IGNORECASE]: on the alphabet, the
    characters with the same lower case (beyond Latin-1, CPython also folds
    U+0130 and U+0131 onto i, U+017F onto s and U+212A onto k). *)
Definition chri (c : ascii) : regex :=
  Cls (fun x => eqc (lower_c x) (lower_c c)).

Definition text (s : string) : regex := seqs (map chr (lit s)).
Definition texti (s : string) : regex := seqs (map chri (lit s)).

(** A bracketed class of literal characters and ranges under
    [re.IGNORECASE]. *)
Definition ci (f : ascii -> bool) (c : ascii) : bool :=
  f c || f (lower_c c) || f (upper_c c).

Definition opt (r : regex) : regex := Alt r Eps.           (* r? *)
Definition star (r : regex) : regex := Star true r.        (* r* *)
Definition lazy (r : regex) : regex := Star false r.       (* r*? *)
Definition plus (r : regex) : regex := Seq r (Star true r). (* r+ *)

Fixpoint times (n : nat) (r : regex) : regex :=            (* r{n} *)
  match n with
  | O => Eps
  | S n' => match n' with O => r | S _ => Seq r (times n' r) end
  end.

Fixpoint upto (n : nat) (r : regex) : regex :=             (* r{0,n} *)
  match n with
  | O => Eps
  | S n' => opt (Seq r (upto n' r))
  end.

Definition rep (lo hi : nat) (r : regex) : regex :=        (* r{lo,hi} *)
  Seq (times lo r) (upto (hi - lo) r).

Fixpoint lazy_upto (n : nat) (r : regex) : regex :=        (* r{0,n}? *)
  match n with
  | O => Eps
  | S n' => Alt Eps (Seq r (lazy_upto n' r))
  end.

Definition lazy_rep (lo hi : nat) (r : regex) : regex :=   (* r{lo,hi}? *)
  Seq (times lo r) (lazy_upto (hi - lo) r).

Definition d : regex := Cls is_digit.                      (* \d and [0-9] *)
Definition s_ : regex := Cls is_space.                     (* \s *)
Definition any : regex := Cls (fun _ => true).             (* . under DOTALL *)
Definition dot : regex := Cls (fun c => negb (eqc c "010")). (* . *)

End Re.

(* ================================================================== *)
(** * [src/importer/utils.py] *)

Module Utils.
Import Py.

(** The class [[$\s,\xa0]]. *)
Definition money_noise (c : ascii) : bool :=
  eqc c "$" || is_space c || eqc c "," || (code c =? 160).

(** Lines 25-38 of [money_to_float]: the sign found so far and the text
    that is handed to [float]. *)
Definition clean (value : str) : bool * str :=
  let cleaned := strip value in
  let cleaned := Re.sub (Re.Cls money_noise) [] cleaned in
  let '(is_negative, cleaned) :=
    if startswith (lit "(") cleaned && endswith (lit ")") cleaned
    then (true, slice_1_m1 cleaned) else (false, cleaned) in
  if startswith (lit "-") cleaned
  then (true, skipn 1 cleaned) else (is_negative, cleaned).

Definition money_to_float (value : str) : result pyfloat :=
  match value with
  | [] => Ok fzero
  | _ :: _ =>
      let '(is_negative, cleaned) := clean value in
      catch (result <- float cleaned ;;
             Ok (if is_negative then fneg result else result))
            (fun e => match e with
                      | ValueError => Ok fzero
                      | _ => Raise e
                      end)
  end.

(** [sre_constants.MAXREPEAT]: a repetition count from here on is refused
    when the pattern is compiled. *)
Definition MAXREPEAT : N := 4294967295.

(** The pattern of [find_text_near_label] for one label: the escaped label,
    then r'\s*[:\-]?\s*(.{1,N}?)\s*(?:\n|$)' with N = str(max_distance),
    compiled with re.IGNORECASE.  An escaped label matches itself in either
    case.  The pattern does not compile for N = 0, nor from [MAXREPEAT]
    on. *)
Definition near_label (label : str) (max_distance : N) : result Re.regex :=
  if ((max_distance =? 0) || (MAXREPEAT <=? max_distance))%N
  then Raise OtherError
  else Ok (Re.seqs [Re.seqs (map Re.chri label); Re.star Re.s_;
                    Re.opt (Re.Cls (fun c => eqc c ":" || eqc c "-"));
                    Re.star Re.s_;
                    Re.Grp 1 (Re.lazy_rep 1 (N.to_nat max_distance) Re.dot);
                    Re.star Re.s_; Re.Alt (Re.chr "010") Re.Eos]).

(** The loop of [find_text_near_label] over the label variants, for a
    [max_distance] that is not negative. *)
Fixpoint near_labels (text : str) (label_variants : list str)
         (max_distance : N) : result (option str) :=
  match label_variants with
  | [] => Ok None
  | label :: label_variants' =>
      pattern <- near_label label max_distance ;;
      match Re.search pattern text with
      | Some m => g <- Re.group_str 1 m ;; Ok (Some (strip g))
      | None => near_labels text label_variants' max_distance
      end
  end.

Definition find_text_near_label (text : str) (label_variants : list str)
           (max_distance : N) : result (option str) :=
  match text with
  | [] => Ok None
  | _ :: _ => near_labels text label_variants max_distance
  end.

(** The characters that [sanitize_filename] replaces: less-than,
    greater-than, colon, double quote, slash, backslash, bar, question mark
    and asterisk. *)
Definition invalid_char (c : ascii) : bool :=
  existsb (eqc c) (lit "<>:" ++ "034"%char :: lit "/\|?*").

Definition sanitize_filename (filename : str) : str :=
  Re.sub (Re.Cls invalid_char) (lit "_") filename.

End Utils.

(* ================================================================== *)
(** * [src/importer/parsing.py] *)

Module Parsing.
Import Py Re.

Record OrderItem : Type := {
  title : str;
  qty : Z;
  price_each : pyfloat
}.

Record OrderSummary : Type := {
  order_no : str;
  url : str;
  date_str : str;
  payment_last4 : str;
  name : str;
  subtotal : pyfloat;
  discount : pyfloat;
  delivery : pyfloat;
  taxes : pyfloat;
  total : pyfloat;
  items : list OrderItem
}.

(** [[A-Z]], [[a-z]] and [[A-Za-z]] *)
Definition AZ : regex := Cls is_upper_az.
Definition az : regex := Cls is_lower_az.

(** The class of letters (A-Z, a-z and the Latin-1 letters of the ranges
    192-214, 216-246, 248-255), apostrophe and hyphen; [sp] adds the blank
    that the class of [RE_ADDRESS_NAME_LINE] also has. *)
Definition name_char (sp : bool) (c : ascii) : bool :=
  is_alpha_az c || in_range 192 214 c || in_range 216 246 c
  || in_range 248 255 c || eqc c "'" || eqc c "-" || (sp && eqc c " ").

(** [[0-9]+\.[0-9]{2}] *)
Definition amount2 : regex := seqs [plus d; chr "."; times 2 d].

(** r"Delivered on\s+([A-Za-z]{3,9}\s+\d{1,2})", re.IGNORECASE *)
Definition RE_DATE_DELIVERED : regex :=
  seqs [texti "Delivered on"; plus s_;
        Grp 1 (seqs [rep 3 9 (Cls (ci is_alpha_az)); plus s_; rep 1 2 d])].

(** r"\b([A-Z][a-z]{2}\s+\d{1,2},\s+\d{4})\b.*?\bOrder#\b",
    re.IGNORECASE | re.DOTALL *)
Definition RE_DATE_HEADER : regex :=
  seqs [WordB;
        Grp 1 (seqs [Cls (ci is_upper_az); times 2 (Cls (ci is_lower_az));
                     plus s_; rep 1 2 d; chr ","; plus s_; times 4 d]);
        WordB; lazy any; WordB; texti "Order#"; WordB].

(** r"\b([A-Z][a-z]{2})\s+(\d{1,2}),\s*(\d{4})\b" *)
Definition RE_HEADER_SIMPLE : regex :=
  seqs [WordB; Grp 1 (seqs [AZ; times 2 az]); plus s_;
        Grp 2 (rep 1 2 d); chr ","; star s_; Grp 3 (times 4 d); WordB].

(** r"\bTotal\b\s*\$?\s*([0-9]+\.[0-9]{2})", re.IGNORECASE *)
Definition RE_TOTAL : regex :=
  seqs [WordB; texti "Total"; WordB; star s_; opt (chr "$"); star s_;
        Grp 1 amount2].

(** r"\bSubtotal\b\s*\$?\s*([0-9]+\.[0-9]{2})", re.IGNORECASE *)
Definition RE_SUBTOTAL : regex :=
  seqs [WordB; texti "Subtotal"; WordB; star s_; opt (chr "$"); star s_;
        Grp 1 amount2].

(** The label of [RE_DISCOUNT]:
    (?:Savings|Multisave\s*Discount|[\w\s]*Discount) *)
Definition discount_label : regex :=
  Alt (texti "Savings")
      (Alt (seqs [texti "Multisave"; star s_; texti "Discount"])
           (seqs [star (Cls (fun c => is_word c || is_space c));
                  texti "Discount"])).

(** r"\b(?:Savings|Multisave\s*Discount|[\w\s]*Discount)\b\s*[-]?\s*\$?\s*([0-9]+(?:\.[0-9]{2})?)",
    re.IGNORECASE *)
Definition RE_DISCOUNT : regex :=
  seqs [WordB; discount_label; WordB; star s_; opt (chr "-"); star s_;
        opt (chr "$"); star s_;
        Grp 1 (seqs [plus d; opt (seqs [chr "."; times 2 d])])].

(** The label of [RE_DELIVERY]:
    (?:Delivery(?:\s*fee)?|Shipping(?:\s*fee)?|Free Delivery From Store) *)
Definition delivery_label : regex :=
  Alt (seqs [texti "Delivery"; opt (seqs [star s_; texti "fee"])])
      (Alt (seqs [texti "Shipping"; opt (seqs [star s_; texti "fee"])])
           (texti "Free Delivery From Store")).

(** r"\b(?:Delivery(?:\s*fee)?|Shipping(?:\s*fee)?|Free Delivery From Store)\b.*?\$?\s*([0-9]+\.[0-9]{2})",
    re.IGNORECASE | re.DOTALL *)
Definition RE_DELIVERY : regex :=
  seqs [WordB; delivery_label; WordB; lazy any; opt (chr "$"); star s_;
        Grp 1 amount2].

(** r"\bTaxes\b\s*\$?\s*([0-9]+\.[0-9]{2})", re.IGNORECASE *)
Definition RE_TAXES : regex :=
  seqs [WordB; texti "Taxes"; WordB; star s_; opt (chr "$"); star s_;
        Grp 1 amount2].

(** The brand patterns, each compiled with [re.IGNORECASE]. *)
Definition PAYMENT_BRANDS : list regex :=
  [ seqs [texti "Apple"; star s_; texti "Pay"];
    seqs [texti "Google"; star s_; texti "Pay"];
    texti "PayPal";
    texti "Visa";
    Alt (seqs [texti "Master"; star s_; texti "Card"]) (texti "Mastercard");
    Alt (seqs [texti "American"; star s_; texti "Express"]) (texti "Amex");
    texti "Discover";
    seqs [texti "Debit"; opt (seqs [star s_; texti "Card"])];
    seqs [texti "Credit"; star s_; texti "Card"];
    Alt (seqs [texti "Gift"; star s_; texti "Card"])
        (seqs [texti "Walmart"; star s_; texti "Gift"; star s_; texti "Card"]) ].

(** r"Ending in\s*(\d{4})", re.IGNORECASE *)
Definition RE_ENDING_IN : regex :=
  seqs [texti "Ending in"; star s_; Grp 1 (times 4 d)].

(** Address\s+( [A-Z] N{1,} (?: \s+ [A-Z] N{1,} )* ) with re.IGNORECASE,
    where N is the class [name_char true] (spaces added for reading). *)
Definition RE_ADDRESS_NAME_LINE : regex :=
  seqs [texti "Address"; plus s_;
        Grp 1 (seqs [Cls (ci is_upper_az); plus (Cls (ci (name_char true)));
                     star (seqs [plus s_; Cls (ci is_upper_az);
                                 plus (Cls (ci (name_char true)))])])].

(** ^N+$ where N is the class [name_char false] *)
Definition RE_NAME_TOKEN : regex := seqs [Bos; plus (Cls (name_char false)); Eos].

(** r"\bQty\s*([0-9]+)\b", re.IGNORECASE *)
Definition RE_QTY : regex :=
  seqs [WordB; texti "Qty"; star s_; Grp 1 (plus d); WordB].

(** r"\$([0-9]+(?:\.[0-9]{2}))" *)
Definition RE_PRICE : regex :=
  seqs [chr "$"; Grp 1 (seqs [plus d; seqs [chr "."; times 2 d]])].

(** r"[ \t]+" *)
Definition RE_BLANKS : regex := plus (Cls (fun c => eqc c " " || eqc c "009")).


(** The text the patterns are applied to. *)
Definition normalize (text : str) : str := sub RE_BLANKS (lit " ") text.

(** [x or y] on match objects *)
Definition or_else {A : Type} (x y : option A) : option A :=
  match x with Some _ => x | None => y end.

(** Truth value of an optional string: [None] and the empty string are
    falsy. *)
Definition truthy (o : option str) : bool :=
  match o with Some s => is_nonempty s | None => false end.

(** A group inside an f-string: a group that took no part is formatted as
    the name of [None]. *)
Definition format_group (g : option str) : str :=
  match g with Some x => x | None => lit "None" end.

(** Lines 105-121: the date as displayed, with a year spliced in. *)
Definition extract_date (text_norm : str) : result str :=
  date_str <-
    match search RE_DATE_DELIVERED text_norm with
    | Some m => g <- group_str 1 m ;; Ok (strip g)
    | None =>
        match search RE_DATE_HEADER text_norm with
        | Some m2 => g <- group_str 1 m2 ;; Ok (strip g)
        | None => Ok []
        end
    end ;;
  if is_nonempty date_str && negb (contains (lit ",") date_str) then
    match search RE_HEADER_SIMPLE text_norm with
    | Some m =>
        match split_ws date_str with
        | p0 :: p1 :: _ =>
            Ok (p0 ++ lit " " ++ p1 ++ lit ", " ++ format_group (group 3 m))
        | _ => Ok date_str
        end
    | None => Ok date_str
    end
  else Ok date_str.

(** Lines 127-128: the text searched for the payment method. *)
Definition payment_window (text_norm : str) : str :=
  match find (lit "payment method") (lower text_norm) with
  | Some idx => slice idx (idx + 500) text_norm
  | None => text_norm
  end.

(** Lines 130-135, the loop over [PAYMENT_BRANDS]: the first pattern that is
    found in the window. *)
Fixpoint first_brand (pats : list regex) (window : str) : option str :=
  match pats with
  | [] => None
  | pat :: pats' =>
      match search pat window with
      | Some m =>
          let payment_brand := strip (sub (plus s_) (lit " ") (m_text m)) in
          Some (replace_all (lit "American Express") (lit "Amex")
                  (replace_all (lit "Master Card") (lit "Mastercard")
                     payment_brand))
      | None => first_brand pats' window
      end
  end.

(** Lines 137-139 *)
Definition extract_last4 (text_norm : str) : result (option str) :=
  let window := payment_window text_norm in
  match or_else (search RE_ENDING_IN window) (search RE_ENDING_IN text_norm) with
  | Some m4 => g <- group_str 1 m4 ;; Ok (Some g)
  | None => Ok None
  end.

(** Lines 141-148 *)
Definition extract_name (text_norm : str) : result str :=
  match search RE_ADDRESS_NAME_LINE text_norm with
  | Some m =>
      g <- group_str 1 m ;;
      let candidate := strip g in
      let name_tokens :=
        filter (fun t => match match_ RE_NAME_TOKEN t with
                         | Some _ => true
                         | None => false
                         end)
               (split_ws candidate) in
      Ok (match name_tokens with t :: _ => t | [] => [] end)
  | None => Ok []
  end.

(** [money_to_float(m.group(1))]; [None] is falsy, so the first test of
    [money_to_float] answers 0.0 for it. *)
Definition money_of_group (m : rmatch) : result pyfloat :=
  match group 1 m with
  | Some g => Utils.money_to_float g
  | None => Ok fzero
  end.

(** [x = 0.0; m = RE.search(text_norm); if m: x = money_to_float(m.group(1))] *)
Definition money_field (re : regex) (text_norm : str) : result pyfloat :=
  match search re text_norm with
  | Some m => money_of_group m
  | None => Ok fzero
  end.

(** Lines 159-164 *)
Definition extract_discount (text_norm : str) : result pyfloat :=
  match search RE_DISCOUNT text_norm with
  | Some m =>
      discount_value <- money_of_group m ;;
      Ok (fneg (fabs discount_value))
  | None => Ok fzero
  end.

(** Lines 184-189 *)
Definition payment_display (payment_brand payment_last4 : option str) : str :=
  if truthy payment_brand && truthy payment_last4 then
    lit "****" ++ match payment_last4 with Some l => l | None => [] end
  else if truthy payment_last4 then
    lit "****" ++ match payment_last4 with Some l => l | None => [] end
  else lit "N/A".

(** [parse_order_page], from the text that
    [soup.get_text(separator=' ', strip=True)] returns for the page
    (BeautifulSoup is a third-party library; the spec calls this text the
    flattened text). *)
Definition parse_order_page (text : str) (order_no url : str)
  : result OrderSummary :=
  let text_norm := normalize text in
  date_str <- extract_date text_norm ;;
  let payment_brand := first_brand PAYMENT_BRANDS (payment_window text_norm) in
  payment_last4 <- extract_last4 text_norm ;;
  name <- extract_name text_norm ;;
  subtotal <- money_field RE_SUBTOTAL text_norm ;;
  discount <- extract_discount text_norm ;;
  delivery <- money_field RE_DELIVERY text_norm ;;
  taxes <- money_field RE_TAXES text_norm ;;
  total <- money_field RE_TOTAL text_norm ;;
  Ok {| order_no := order_no;
        url := url;
        date_str := date_str;
        payment_last4 := payment_display payment_brand payment_last4;
        name := name;
        subtotal := subtotal;
        discount := discount;
        delivery := delivery;
        taxes := taxes;
        total := total;
        items := [] |}.

End Parsing.

(* ================================================================== *)
(** * [src/importer/outlook_fetcher.py] *)

Module Outlook.
Import Py Re.

(** r"/orders/(\d+)", re.IGNORECASE *)
Definition ORDER_RE : regex := seqs [texti "/orders/"; Grp 1 (plus d)].

(** ** [datetime] *)

Record datetime : Type := {
  year : Z; month : Z; day : Z; hour : Z; minute : Z; second : Z
}.

Definition is_leap (y : Z) : bool :=
  ((y mod 4 =? 0) && negb (y mod 100 =? 0) || (y mod 400 =? 0))%Z.

Definition days_in_month (y m : Z) : Z :=
  if (m =? 2)%Z then (if is_leap y then 29 else 28)%Z
  else if ((m =? 4) || (m =? 6) || (m =? 9) || (m =? 11))%Z then 30%Z
  else 31%Z.

Definition between (lo x hi : Z) : bool := ((lo <=? x) && (x <=? hi))%Z.

(** [dt.datetime(y, m, d, hh, mm, ss)]: [ValueError] outside the ranges of
    the [datetime] module (years 1 to 9999). *)
Definition mk_datetime (y m d hh mm ss : Z) : result datetime :=
  if between 1 y 9999 && between 1 m 12 && between 1 d (days_in_month y m)
     && between 0 hh 23 && between 0 mm 59 && between 0 ss 59
  then Ok {| year := y; month := m; day := d;
             hour := hh; minute := mm; second := ss |}
  else Raise ValueError.

(** [int(s)] for a string of ASCII digits *)
Definition int_of (s : str) : Z := Z.of_N (digits_val s).

(** r"(\d{4})-(\d{1,2})" *)
Definition RE_PERIOD : regex := seqs [Grp 1 (times 4 d); chr "-"; Grp 2 (rep 1 2 d)].

Definition _parse_period (period : str) : result (option (datetime * datetime)) :=
  match fullmatch RE_PERIOD (strip period) with
  | None => Ok None
  | Some m =>
      g1 <- group_str 1 m ;;
      g2 <- group_str 2 m ;;
      let year := int_of g1 in
      let month := int_of g2 in
      if negb (between 1 month 12) then Ok None
      else
        start <- mk_datetime year month 1 0 0 0 ;;
        end_ <- (if (month =? 12)%Z
                 then mk_datetime (year + 1) 1 1 0 0 0
                 else mk_datetime year (month + 1) 1 0 0 0) ;;
        Ok (Some (start, end_))
  end.

(** ** The Outlook object model, as far as the importer touches it

    Every property read or method call on a COM object may raise. *)

Record message : Type := {
  Subject : result (option str);
  HTMLBody : result (option str);
  Body : result (option str)
}.

Record collection : Type := {
  Count : result nat;
  Item : nat -> result message
}.

(** The filter string built in [get_items_for_period],
    "[ReceivedTime] >= 'since' AND [ReceivedTime] < 'before'", both bounds
    rendered by [_to_outlook_dt]. *)
Record received_filter : Type := {
  since : datetime;     (* inclusive *)
  before : datetime     (* exclusive *)
}.

Record folder_items : Type := {
  members : collection;
  Sort : result unit;
  Restrict : received_filter -> result collection
}.

Record folder : Type := {
  Items : result folder_items
}.

Definition get_items_for_period (fld : folder) (period : str)
  : result (option collection) :=
  parsed <- _parse_period period ;;
  match parsed with
  | None => Ok None
  | Some (start, end_) =>
      catch (items <- Items fld ;;
             _ <- Sort items ;;
             c <- Restrict items {| since := start; before := end_ |} ;;
             Ok (Some c))
            (fun _ => Ok None)
  end.

(** ** The folder tree

    A folder (or a store) of the MAPI tree: its [Name], its [Folders] in
    the order in which they are iterated, and the object that
    [get_items_for_period] is given. *)
Inductive mapi_folder : Type :=
| MapiFolder (name : result str) (subfolders : result (list mapi_folder))
             (object : folder).

Definition Name (f : mapi_folder) : result str :=
  match f with MapiFolder n _ _ => n end.

Definition Folders (f : mapi_folder) : result (list mapi_folder) :=
  match f with MapiFolder _ fs _ => fs end.

(** [namespace.Folders]: the stores in the order of iteration, and
    [Item(1)], which may be [None]. *)
Record store_list : Type := {
  stores : list mapi_folder;
  Item1 : result (option mapi_folder)
}.

Record mapi_namespace : Type := {
  ns_Folders : result store_list
}.

(** [x.Name.lower() == name.lower()] *)
Definition named (name : str) (x : mapi_folder) : result bool :=
  n <- Name x ;; Ok (eqs (lower n) (lower name)).

(** [for f in fs: if f.Name.lower() == name.lower(): found = f; break] *)
Fixpoint find_named (name : str) (fs : list mapi_folder)
  : result (option mapi_folder) :=
  match fs with
  | [] => Ok None
  | f :: fs' =>
      b <- named name f ;;
      if b then Ok (Some f) else find_named name fs'
  end.

(** Lines 69-81: down the hierarchy, one part of the path at a time. *)
Fixpoint descend (current : mapi_folder) (names : list str)
  : result (option mapi_folder) :=
  match names with
  | [] => Ok (Some current)
  | name :: names' =>
      fs <- Folders current ;;
      found <- find_named name fs ;;
      match found with
      | None => Ok None
      | Some f => descend f names'
      end
  end.

(** Lines 57-64: the default store, tried when no store has the name. *)
Definition try_default_store (folders : store_list) (name : str)
  : option mapi_folder :=
  match (default_store <- Item1 folders ;;
         match default_store with
         | Some ds => b <- named name ds ;; Ok (if b then Some ds else None)
         | None => Ok None
         end) with
  | Ok root => root
  | Raise _ => None
  end.

Definition get_folder_by_path (namespace : mapi_namespace) (path : str)
  : option mapi_folder :=
  match filter is_nonempty (split_c "/" path) with
  | [] => None
  | part0 :: parts' =>
      match (folders <- ns_Folders namespace ;;
             root <- find_named part0 (stores folders) ;;
             let root :=
               match root with
               | Some _ => root
               | None => try_default_store folders part0
               end in
             match root with
             | None => Ok None
             | Some r => descend r parts'
             end) with
      | Ok found => found
      | Raise _ => None
      end
  end.

(** ** [urllib.parse] *)

Definition hexval (c : ascii) : option nat :=
  if is_digit c then Some (code c - 48)
  else if in_range 65 70 c then Some (code c - 55)
  else if in_range 97 102 c then Some (code c - 87)
  else None.

(** Percent-decoding of the escapes %00 to %7F.  This is
    [urllib.parse.unquote] on every string that has no escape from %80 up;
    such an escape stands for a code point outside the alphabet (or for
    U+FFFD) and is left as it is here. *)
Fixpoint unquote_ascii (s : str) : str :=
  match s with
  | [] => []
  | c :: s' =>
      if eqc c "%" then
        match s' with
        | h1 :: ((h2 :: s'') as t) =>
            match hexval h1, hexval h2 with
            | Some a, Some b =>
                if 16 * a + b <? 128
                then ascii_of_nat (16 * a + b) ::
                     match t with _ :: u => unquote_ascii u | [] => [] end
                else c :: unquote_ascii s'
            | _, _ => c :: unquote_ascii s'
            end
        | _ => c :: unquote_ascii s'
        end
      else c :: unquote_ascii s'
  end.

Record ParseResult : Type := {
  scheme : str; netloc : str; path : str; query : str; fragment : str
}.

Definition scheme_char (c : ascii) : bool :=
  is_alpha_az c || is_digit c || eqc c "+" || eqc c "-" || eqc c ".".

Definition has (c : ascii) (s : str) : bool := existsb (eqc c) s.

Section Library.

(** [html.unescape] and [urllib.parse.unquote] are taken as they come; they
    are allowed to raise.  [check_bracketed_netloc] is the validation of a
    bracketed host that CPython applies from 3.11.4 on (older versions
    accept every netloc with both brackets).  [set_iter] is the order in
    which a [set] of strings is iterated, which depends on the hash seed
    of the process. *)
Variable unescape : str -> result str.
Variable unquote : str -> result str.
Variable check_bracketed_netloc : str -> result unit.
Variable set_iter : list str -> list str.

(** [urlparse(url)]; the path keeps its parameters, which are not used.
    The netloc check for characters that normalise to a delimiter never
    fires on Latin-1 text. *)
Definition urlparse (url : str) : result ParseResult :=
  let url := lstrip_by (fun c => code c <=? 32) url in
  let url := filter (fun c => negb (eqc c "009" || eqc c "010" || eqc c "013")) url in
  let '(scheme, url) :=
    match find (lit ":") url with
    | Some (S i) =>
        if is_alpha_az (hd "000"%char url) && forallb scheme_char (firstn (S i) url)
        then (lower (firstn (S i) url), skipn (S (S i)) url)
        else ([], url)
    | _ => ([], url)
    end in
  splitted <-
    (if startswith (lit "//") url then
       let '(netloc, rest) :=
         span (fun c => negb (eqc c "/" || eqc c "?" || eqc c "#")) (skipn 2 url) in
       if xorb (has "[" netloc) (has "]" netloc) then Raise ValueError
       else
         _ <- (if has "[" netloc && has "]" netloc
               then check_bracketed_netloc netloc else Ok tt) ;;
         Ok (netloc, rest)
     else Ok ([], url)) ;;
  let '(netloc, url) := splitted in
  let '(url, fragment) :=
    match partition_c "#" url with
    | Some (a, b) => (a, b)
    | None => (url, [])
    end in
  let '(url, query) :=
    match partition_c "?" url with
    | Some (a, b) => (a, b)
    | None => (url, [])
    end in
  Ok {| scheme := scheme; netloc := netloc; path := url;
        query := query; fragment := fragment |}.

Definition plus_to_space (s : str) : str :=
  map (fun c => if eqc c "+" then " "%char else c) s.

(** [parse_qsl(qs)] with its default arguments: fields are separated by
    ampersands, blank values are dropped. *)
Fixpoint parse_pairs (fields : list str) : result (list (str * str)) :=
  match fields with
  | [] => Ok []
  | name_value :: fields' =>
      match partition_c "=" name_value with
      | Some (n, v) =>
          if is_nonempty v then
            name <- unquote (plus_to_space n) ;;
            value <- unquote (plus_to_space v) ;;
            r <- parse_pairs fields' ;;
            Ok ((name, value) :: r)
          else parse_pairs fields'
      | None => parse_pairs fields'
      end
  end.

Definition parse_qsl (qs : str) : result (list (str * str)) :=
  parse_pairs (split_c "&" qs).

(** [parse_qs(qs).get(key, [None])[0]]: the first value given for [key]. *)
Fixpoint first_value (key : str) (pairs : list (str * str)) : option str :=
  match pairs with
  | [] => None
  | (n, v) :: pairs' => if eqs n key then Some v else first_value key pairs'
  end.

(** ** The decoder *)

Definition mem (x : str) (l : list str) : bool := existsb (eqs x) l.

(** [if x not in variants: variants.append(x)] *)
Definition append_new (x : str) (variants : list str) : list str :=
  if mem x variants then variants else variants ++ [x].

Definition _decode_candidates (s : str) : list str :=
  match s with
  | [] => []
  | _ :: _ =>
      let variants := [s] in
      match unescape s with
      | Raise _ => variants
      | Ok h =>
          let variants := if negb (eqs h s) then variants ++ [h] else variants in
          match unquote h with
          | Raise _ => variants
          | Ok u1 =>
              let variants := append_new u1 variants in
              match unquote u1 with
              | Raise _ => variants
              | Ok u2 =>
                  let variants := append_new u2 variants in
                  match unquote u2 with
                  | Raise _ => variants
                  | Ok u3 => append_new u3 variants
                  end
              end
          end
      end
  end.

(** ** The link unwrapper *)

(** r"https?://\S+" *)
Definition URL_RE : regex :=
  seqs [text "http"; opt (chr "s"); text "://";
        plus (Cls (fun c => negb (is_space c)))].

(** The characters of the argument of [rstrip]: quote, closing parenthesis,
    full stop, comma, greater-than, backslash, double quote, closing
    bracket. *)
Definition TRAILING : str := lit "').,>\" ++ ["034"%char; "]"%char].

Definition SAFELINKS_HOST : str := lit "safelinks.protection.outlook.com".

(** The body of the loop for one URL: what it appends to [out]. *)
Definition unwrap (url : str) : result (list str) :=
  parsed <- urlparse url ;;
  if contains SAFELINKS_HOST (netloc parsed) then
    qs <- parse_qsl (query parsed) ;;
    match first_value (lit "url") qs with
    | Some target =>
        if is_nonempty target then
          t1 <- unquote target ;;
          t2 <- unquote t1 ;;
          t3 <- unquote t2 ;;
          Ok [t3]
        else Ok []
    | None => Ok []
    end
  else Ok [url].

(** The loop inside [try]: an exception leaves [out] as it is by then. *)
Fixpoint safelinks_loop (ms : list rmatch) (out : list str) : list str :=
  match ms with
  | [] => out
  | m :: ms' =>
      match unwrap (rstrip_chars TRAILING (m_text m)) with
      | Ok l => safelinks_loop ms' (out ++ l)
      | Raise _ => out
      end
  end.

Definition _extract_urls_from_safelinks (s : str) : list str :=
  match s with
  | [] => []
  | _ :: _ => safelinks_loop (finditer URL_RE s) []
  end.

(** ** The identifier extractor *)

(** [numbers.add(x)] on a set kept as a list without repetition *)
Definition set_add (x : str) (numbers : list str) : list str :=
  if mem x numbers then numbers else numbers ++ [x].

(** The order of Python on [str]: lexicographic on code points. *)
Fixpoint str_leb (a b : str) : bool :=
  match a, b with
  | [], _ => true
  | _ :: _, [] => false
  | x :: a', y :: b' =>
      if code x <? code y then true
      else if code y <? code x then false
      else str_leb a' b'
  end.

Fixpoint insert_sorted (x : str) (l : list str) : list str :=
  match l with
  | [] => [x]
  | y :: l' => if str_leb x y then x :: l else y :: insert_sorted x l'
  end.

(** [sorted(l)] *)
Definition sorted (l : list str) : list str := fold_right insert_sorted [] l.

(** [x or ""] on a property that may be [None] *)
Definition or_empty (o : option str) : str :=
  match o with Some s => s | None => [] end.

(** The property read inside its own [try]/[except: pass]. *)
Definition body_or_empty (b : result (option str)) : str :=
  match b with Ok o => or_empty o | Raise _ => [] end.

(** [m.group(1)] of the matches of [ORDER_RE] in [s]; group 1 takes part in
    every match of [ORDER_RE]. *)
Definition order_numbers_in (s : str) : list str :=
  flat_map (fun m => match group 1 m with Some g => [g] | None => [] end)
           (finditer ORDER_RE s).

(** Lines 235-268, the second [try] of the loop body, for one message. *)
Definition scan_message (subject_exact : option str) (it : message)
           (numbers : list str) : list str :=
  match Subject it with
  | Raise _ => numbers
  | Ok subject =>
      let sub := strip (or_empty subject) in
      let skip :=
        match subject_exact with
        | Some ((_ :: _) as wanted) => negb (eqs (lower sub) (lower (strip wanted)))
        | _ => false
        end in
      if skip then numbers
      else
        let html_body := body_or_empty (HTMLBody it) in
        let text_body := body_or_empty (Body it) in
        let cand_strings := _decode_candidates html_body ++ _decode_candidates text_body in
        let all_urls := flat_map _extract_urls_from_safelinks cand_strings in
        let cand_strings := cand_strings ++ flat_map _decode_candidates all_urls in
        fold_left (fun acc g => set_add g acc)
                  (flat_map order_numbers_in cand_strings) numbers
  end.

(** [for i in range(1, n + 1)], counting [k] items from index [i] *)
Fixpoint scan_items (subject_exact : option str) (items : collection)
         (i k : nat) (numbers : list str) : list str :=
  match k with
  | O => numbers
  | S k' =>
      let numbers :=
        match Item items i with
        | Raise _ => numbers
        | Ok it => scan_message subject_exact it numbers
        end in
      scan_items subject_exact items (S i) k' numbers
  end.

Definition extract_order_numbers_from_items (items : option collection)
           (subject_exact : option str) : list str :=
  match items with
  | None => []
  | Some items =>
      let numbers :=
        match Count items with
        | Raise _ => []
        | Ok n => scan_items subject_exact items 1 n []
        end in
      sorted (set_iter numbers)
  end.

End Library.

End Outlook.

(* ================================================================== *)
(** * [src/importer/main.py] *)

Module Main.
Import Py Outlook.

(** How a run of the pipeline ends. *)
Inductive outcome : Type :=
| Returned
| SysExit (code : Z)
| Uncaught (e : exn).

(** The exit status of the interpreter. *)
Definition exit_status (o : outcome) : Z :=
  match o with
  | Returned => 0%Z
  | SysExit c => c
  | Uncaught _ => 1%Z
  end.

(** What the pipeline meets outside the program. *)
Record world : Type := {
  mkdir_output : result unit;        (* OUTPUT_DIR.mkdir(...) *)
  connect_outlook : option unit;     (* the namespace, or None *)
  get_folder_by_path : option folder;
  fetch_orders : list str -> result unit
}.

Section Library.

Variable unescape : str -> result str.
Variable unquote : str -> result str.
Variable check_bracketed_netloc : str -> result unit.
Variable set_iter : list str -> list str.
Variable EMAIL_SUBJECT_FILTER : option str.

Definition run_pipeline (w : world) (period : str) : outcome :=
  match mkdir_output w with
  | Raise e => Uncaught e
  | Ok _ =>
  match connect_outlook w with
  | None => SysExit 1
  | Some _ =>
  match get_folder_by_path w with
  | None => SysExit 1
  | Some fld =>
  (* folder.Items.Count, for the message that is printed *)
  match (its <- Items fld ;; Count (members its)) with
  | Raise e => Uncaught e
  | Ok _ =>
  match get_items_for_period fld period with
  | Raise e => Uncaught e
  | Ok None => SysExit 1
  | Ok (Some items_in_period) =>
  match Count items_in_period with
  | Raise e => Uncaught e
  | Ok _ =>
      let order_numbers :=
        extract_order_numbers_from_items unescape unquote
          check_bracketed_netloc set_iter
          (Some items_in_period) EMAIL_SUBJECT_FILTER in
      let order_numbers := sorted order_numbers in
      match order_numbers with
      | _ :: _ =>
          match fetch_orders w order_numbers with
          | Raise e => Uncaught e
          | Ok _ => Returned
          end
      | [] => Returned
      end
  end end end end end end.

End Library.

End Main.

(* ================================================================== *)
(** * [src/importer/walmart_fetcher.py], the parts that do not drive the
      browser *)

Module Fetcher.
Import Py Re Parsing.

(** [WALMART_ORDER_URL_TEMPLATE.format(order_no=order_no)] *)
Definition order_url (order_no : str) : str :=
  lit "https://www.walmart.ca/en/orders/" ++ order_no.

(** What [_parse_items_from_dom] reads from one item tile; each read is
    [locator(...).first.inner_text(timeout=...)] and may raise. *)
Record tile : Type := {
  productName : result str;          (* [data-testid='productName'] *)
  bill_item_quantity : result str;   (* .bill-item-quantity *)
  qty_node : result str;             (* any node whose text contains qty *)
  line_price : result str;           (* [data-testid='line-price'] *)
  tile_text : result str             (* the text of the whole tile *)
}.

(** [try: x = read.strip() except Exception: x = fallback] *)
Definition stripped_or (read : result str) (fallback : str) : str :=
  match read with Ok s => strip s | Raise _ => fallback end.

(** [m = RE_PRICE.search(txt); if m: price = float(m.group(1))] *)
Definition price_in (txt : str) (price : pyfloat) : result pyfloat :=
  match search RE_PRICE txt with
  | Some m => g <- group_str 1 m ;; float g
  | None => Ok price
  end.

(** Lines 165-180 *)
Definition tile_price (t : tile) : pyfloat :=
  let price := fzero in
  match (price_txt <- line_price t ;; price_in (strip price_txt) price) with
  | Ok price => price
  | Raise _ =>
      match (anytxt <- tile_text t ;; price_in anytxt price) with
      | Ok price => price
      | Raise _ => fzero
      end
  end.

(** Truth value of a float *)
Definition nonzero (x : pyfloat) : bool :=
  match x with S754_zero _ => false | _ => true end.

(** The body of the loop of [_parse_items_from_dom] for one tile: the items
    it appends. *)
Definition tile_items (t : tile) : list OrderItem :=
  match (let name := stripped_or (productName t) [] in
         let qty_txt :=
           match bill_item_quantity t with
           | Ok s => strip s
           | Raise _ => stripped_or (qty_node t) []
           end in
         qty <- match search RE_QTY qty_txt with
                | Some mqty => g <- group_str 1 mqty ;; int g
                | None => Ok 1%Z
                end ;;
         let price := tile_price t in
         Ok (if is_nonempty name && nonzero price
             then [{| title := name; qty := qty; price_each := price |}]
             else [])) with
  | Ok l => l
  | Raise _ => []
  end.

(** [_parse_items_from_dom], from the tiles the page shows *)
Definition _parse_items_from_dom (tiles : list tile) : list OrderItem :=
  flat_map tile_items tiles.

(** What [_extract_first_name_dom] reads for one XPath: [loc.count()] and
    [loc.inner_text(timeout=2000)]. *)
Record located : Type := {
  count : result nat;
  inner_text : result str
}.

(** The body of the loop of [_extract_first_name_dom] for one XPath: the
    name it returns, if it returns. *)
Definition first_name_at (loc : located) : result (option str) :=
  c <- count loc ;;
  if negb (c =? 0) then
    t <- inner_text loc ;;
    let txt := strip t in
    if is_nonempty txt && negb (eqs (lower txt) (lit "address")) then
      match split_ws txt with
      | first :: _ =>
          if (1 <? length first) && isalpha first then Ok (Some first)
          else Ok None
      | [] => Raise OtherError
      end
    else Ok None
  else Ok None.

Fixpoint _extract_first_name_dom (xpaths : list located) : str :=
  match xpaths with
  | [] => []
  | loc :: xpaths' =>
      match first_name_at loc with
      | Ok (Some first) => first
      | _ => _extract_first_name_dom xpaths'
      end
  end.

End Fetcher.

(* ================================================================== *)
(** * [src/reference/outlook_fetcher.py]: the period of the reference
      implementation *)

Module Reference.
Import Py Re Outlook.

Definition _parse_period (period : str) : result (option (datetime * datetime)) :=
  match fullmatch RE_PERIOD (strip period) with
  | None => Ok None
  | Some m =>
      g1 <- group_str 1 m ;;
      g2 <- group_str 2 m ;;
      let year := int_of g1 in
      let month := int_of g2 in
      if negb (between 1 month 12) then Ok None
      else
        start <- mk_datetime year month 1 0 0 0 ;;
        end_ <- mk_datetime (year + month / 12) (month mod 12 + 1) 1 0 0 0 ;;
        Ok (Some (start, end_))
  end.

End Reference.

(* ================================================================== *)
(** * Specification vocabulary *)

Module Spec.
Import Py Re.

(** Every character of the alphabet, for facts checked by enumeration. *)
Definition all_ascii : list ascii := map ascii_of_nat (seq 0 256).

(** A float with sign bit [neg] that is not a NaN. *)
Definition signed (neg : bool) (x : pyfloat) : Prop :=
  match x with
  | S754_zero s | S754_infinity s | S754_finite s _ _ => s = neg
  | S754_nan => False
  end.

(** ** What a pattern can match

    [lang r w]: the text [w] is matched by [r], positions and captures set
    aside (the assertions \b, ^ and $ match the empty text). *)

Inductive starL (L : str -> Prop) : str -> Prop :=
| starL_nil : starL L []
| starL_app (w1 w2 : str) :
    L w1 -> w1 <> [] -> starL L w2 -> starL L (w1 ++ w2).

Fixpoint lang (r : regex) (w : str) : Prop :=
  match r with
  | Eps | WordB | Bos | Eos => w = []
  | Cls f => exists c, w = [c] /\ f c = true
  | Seq a b => exists w1 w2, w = w1 ++ w2 /\ lang a w1 /\ lang b w2
  | Alt a b => lang a w \/ lang b w
  | Star _ a => starL (lang a) w
  | Grp _ a => lang a w
  end.

(** Every captured text satisfies [P]. *)
Definition caps_ok (P : nat -> str -> Prop) (c : list (nat * str)) : Prop :=
  forall n v, In (n, v) c -> P n v.

(** Every group of [r] can only capture texts that satisfy [P]. *)
Fixpoint grp_ok (P : nat -> str -> Prop) (r : regex) : Prop :=
  match r with
  | Grp n a => (forall w, lang a w -> P n w) /\ grp_ok P a
  | Seq a b | Alt a b => grp_ok P a /\ grp_ok P b
  | Star _ a => grp_ok P a
  | _ => True
  end.

(** Group [n] takes part in every match of [r]. *)
Fixpoint sets (n : nat) (r : regex) : bool :=
  match r with
  | Grp k a => Nat.eqb k n || sets n a
  | Seq a b => sets n a || sets n b
  | Alt a b => sets n a && sets n b
  | _ => false
  end.

(** [r] has no assertion: whether it matches at a position does not depend
    on the text before or after the match. *)
Fixpoint ctxfree (r : regex) : bool :=
  match r with
  | WordB | Bos | Eos => false
  | Seq a b | Alt a b => ctxfree a && ctxfree b
  | Star _ a | Grp _ a => ctxfree a
  | _ => true
  end.

(** The character before the position reached after [pre]. *)
Definition prev_after (p : option ascii) (pre : str) : option ascii :=
  match rev pre with c :: _ => Some c | [] => p end.

(** ** Amounts *)

Definition all_digits (w : str) : Prop := forallb is_digit w = true.

(** The float that the decimal literal "ip.fp" denotes. *)
Definition decimal_value (ip fp : str) : pyfloat :=
  float_of_decimal false (digits_val (ip ++ fp)) (0 - Z.of_nat (length fp)).

(** A text of the form digits, point, two digits; and its value. *)
Definition is_amount2 (w : str) (x : pyfloat) : Prop :=
  exists ip d1 d2,
    w = ip ++ "."%char :: [d1; d2] /\ ip <> [] /\ all_digits ip /\
    all_digits [d1; d2] /\ x = decimal_value ip [d1; d2].

(** A text of the form digits, or digits, point, two digits; and its value. *)
Definition is_magnitude (w : str) (x : pyfloat) : Prop :=
  (w <> [] /\ all_digits w /\ x = decimal_value w []) \/ is_amount2 w x.

(** What group 1 of a money pattern captures. *)
Definition amount_group (n : nat) (w : str) : Prop :=
  n = 1 -> exists x, is_amount2 w x.

Definition magnitude_group (n : nat) (w : str) : Prop :=
  n = 1 -> exists x, is_magnitude w x.

(** ** Labels *)

(** [w] occurs in [s]. *)
Definition occurs (w s : str) : Prop := exists a b, s = a ++ w ++ b.

(** The text mentions the label [l] (given in lower case), in any case. *)
Definition mentions (l : string) (s : str) : Prop :=
  exists w, occurs w s /\ lower w = lit l.

(** [l in s.lower()].  For ASCII text this is what a case-insensitive
    pattern for [l] finds; see [isascii]. *)
Definition mentions_b (l : string) (s : str) : bool := contains (lit l) (lower s).

(** [s.isascii()]: every character of [s] is below 128.  On such a text
    the case folding that [re.IGNORECASE] applies to an ASCII pattern is
    that of [str.lower], and [\d], [\w] and [\s] are the ASCII classes, in
    CPython as in this development; statements that compare a pattern with
    [str.lower] or with the digits 0-9 are made for ASCII text. *)
Definition isascii (s : str) : bool := forallb (fun c => code c <? 128) s.

(** The value of a float literal of Python source, such as 75.71. *)
Definition literal (s : string) : pyfloat :=
  match float (lit s) with
  | Ok x => x
  | Raise _ => S754_nan
  end.

(** What group 1 of [RE_ENDING_IN] captures. *)
Definition last4_group (n : nat) (w : str) : Prop :=
  n = 1 -> length w = 4 /\ all_digits w.

(** [st'] is the first way in which [r] matches at [st]: the match that a
    backtracking matcher reports when nothing after [r] fails. *)
Definition first (r : regex) (st st' : mstate) : Prop :=
  exists l, run r st = st' :: l.

(** The text ends here or goes on with a character outside the class. *)
Definition stops (f : ascii -> bool) (t : str) : Prop :=
  match t with [] => True | x :: _ => f x = false end.

(** A pattern that begins with \b and a label whose first letter is [l]
    (in lower case) cannot start at the character [c] that comes after the
    character [p]: [c] is another letter, or [p] is a word character. *)
Definition no_label_start (l : ascii) (p : option ascii) (c : ascii) : bool :=
  negb (eqc (lower_c c) l) || is_word_opt p.

(** The condition [no] holds at every position of [pre], which comes after
    the character [p]. *)
Fixpoint nowhere (no : option ascii -> ascii -> bool) (p : option ascii)
         (pre : str) : bool :=
  match pre with
  | [] => true
  | c :: pre' => no p c && nowhere no (Some c) pre'
  end.

(** Replacing every run of characters of the class [f] by [repl];
    [in_run] tells that the character before belongs to a run. *)
Fixpoint squeeze (f : ascii -> bool) (repl : str) (in_run : bool) (s : str)
  : str :=
  match s with
  | [] => []
  | c :: s' =>
      if f c then
        if in_run then squeeze f repl true s'
        else repl ++ squeeze f repl true s'
      else c :: squeeze f repl false s'
  end.

(** A blank or a tab. *)
Definition is_blank (c : ascii) : bool := eqc c " " || eqc c "009".

(** No tab, and no blank after a blank; [after_blank] tells that the
    character before is a blank. *)
Fixpoint spaced_once (after_blank : bool) (s : str) : bool :=
  match s with
  | [] => true
  | c :: s' =>
      if eqc c "009" then false
      else if eqc c " " then negb after_blank && spaced_once true s'
      else spaced_once false s'
  end.

(** What group 1 of [RE_ADDRESS_NAME_LINE] captures: a letter, then letters,
    apostrophes, hyphens and white space. *)
Definition name_line (w : str) : Prop :=
  exists c w', w = c :: w' /\ ci is_upper_az c = true /\
    forallb (fun x => ci (Parsing.name_char true) x || is_space x) w' = true.

Definition name_group (n : nat) (w : str) : Prop := n = 1 -> name_line w.

(** What group 1 of the pattern of [find_text_near_label] captures: between
    one and [k] characters, none of them a line break. *)
Definition near_group (k : nat) (n : nat) (w : str) : Prop :=
  n = 1 ->
  1 <= length w <= k /\ forallb (fun c => negb (eqc c "010")) w = true.

(** [r] has no capturing group. *)
Fixpoint groupless (r : regex) : bool :=
  match r with
  | Grp _ _ => false
  | Seq a b | Alt a b => groupless a && groupless b
  | Star _ a => groupless a
  | _ => true
  end.

(** ** The money normaliser *)

(** The text left when the noise is taken out. *)
Definition denoise (value : str) : str :=
  filter (fun c => negb (Utils.money_noise c)) value.

(** What [clean] does once the noise is out: the sign found, and the text
    handed to [float]. *)
Definition signs (cleaned : str) : bool * str :=
  let '(is_negative, cleaned) :=
    if startswith (lit "(") cleaned && endswith (lit ")") cleaned
    then (true, slice_1_m1 cleaned) else (false, cleaned) in
  if startswith (lit "-") cleaned
  then (true, skipn 1 cleaned) else (is_negative, cleaned).

End Spec.

(** ** Vocabulary for the mail side *)

Module OutlookSpec.
Import Py Re Spec Outlook.

(** The form YYYY-MM: four digits, a hyphen, two digits. *)
Definition yyyy_mm (s : str) : Prop :=
  exists y m, s = y ++ "-"%char :: m /\ length y = 4 /\ all_digits y /\
              length m = 2 /\ all_digits m.

(** The form the code accepts after trimming: four digits, a hyphen, one or
    two digits. *)
Definition period_form (s : str) (y m : str) : Prop :=
  s = y ++ "-"%char :: m /\ length y = 4 /\ all_digits y /\
  (length m = 1 \/ length m = 2) /\ all_digits m.

Definition midnight (y m : Z) : datetime :=
  {| year := y; month := m; day := 1; hour := 0; minute := 0; second := 0 |}.

(** The first instant of the month after month [m] of year [y]. *)
Definition next_month (y m : Z) : datetime :=
  if (m =? 12)%Z then midnight (y + 1) 1 else midnight y (m + 1).

Section Library.
Variable unescape : str -> result str.
Variable unquote : str -> result str.
Variable check_bracketed_netloc : str -> result unit.

(** The decoder in the words of its contract: successive rounds of
    percent-decoding, as far as they succeed. *)
Fixpoint unquote_rounds (n : nat) (x : str) : list str :=
  match n with
  | O => []
  | S n' =>
      match unquote x with
      | Ok u => u :: unquote_rounds n' u
      | Raise _ => []
      end
  end.

(** Appends each candidate that differs from all the variants collected. *)
Definition collect (variants candidates : list str) : list str :=
  fold_left (fun acc x => append_new x acc) candidates variants.

(** The original string; its unescaped form; three rounds of
    percent-decoding of the unescaped form. *)
Definition decode_spec (s : str) : list str :=
  match unescape s with
  | Ok h => collect [s] (h :: unquote_rounds 3 h)
  | Raise _ => [s]
  end.

(** The URLs the scanner finds, trimmed. *)
Definition found_urls (s : str) : list str :=
  map (fun m => rstrip_chars TRAILING (m_text m)) (finditer URL_RE s).

(** What is emitted when the URLs are handled in turn until one fails. *)
Fixpoint emitted (outs : list (result (list str))) : list str :=
  match outs with
  | [] => []
  | Ok l :: outs' => l ++ emitted outs'
  | Raise _ :: _ => []
  end.

Definition all_ok (outs : list (result (list str))) : Prop :=
  Forall (fun o => exists l, o = Ok l) outs.

End Library.

(** A mailbox for examples: a delivery notice whose HTML body wraps the
    order link, an item that cannot be read, and a notice with a plain-text
    body. *)
Definition example_inbox : collection :=
  {| Count := Ok 3;
     Item := fun i =>
       match i with
       | 1 => Ok {| Subject := Ok (Some (lit " Your Walmart order was DELIVERED "));
                    HTMLBody := Ok (Some (lit "<a href='https://nam12.safelinks.protection.outlook.com/?url=https%3A%2F%2Fwww.walmart.ca%2Fen%2Forders%2F987&data=05'>order</a>"));
                    Body := Raise OtherError |}
       | 2 => Raise OtherError
       | _ => Ok {| Subject := Ok (Some (lit "Your Walmart order was delivered"));
                    HTMLBody := Ok None;
                    Body := Ok (Some (lit "See www.walmart.ca%2Fen%2Forders%2F1234 and /orders/987")) |}
       end |}.

(** The order of Python on strings, as a relation. *)
Definition str_le (a b : str) : Prop := str_leb a b = true.

(** What group 1 of [ORDER_RE] captures. *)
Definition digits_group (n : nat) (w : str) : Prop :=
  n = 1 -> w <> [] /\ all_digits w.

(** An identifier: a non-empty string of digits. *)
Definition is_identifier (w : str) : Prop := w <> [] /\ all_digits w.

(** What holds of a collected number whatever the alphabet: it is not
    empty, and when it is made of ASCII characters these are digits. *)
Definition digits_if_ascii (w : str) : Prop :=
  w <> [] /\ (isascii w = true -> all_digits w).

(** [n] is what group 1 of [ORDER_RE], the run of [\d], captured at an
    order link of some text. *)
Definition link_capture (n : str) : Prop :=
  exists s m, In m (finditer ORDER_RE s) /\ group 1 m = Some n.

(** The text ends here, or goes on with an ASCII character that is not a
    digit. *)
Definition ends_number (t : str) : Prop :=
  stops (fun c => is_digit c || negb (code c <? 128)) t.

(** The invariant of the set of collected numbers. *)
Definition collected (numbers : list str) : Prop :=
  NoDup numbers /\ Forall is_identifier numbers.

(** The collection that holds the items [l], in this order; an item that
    cannot be read is a [Raise]. *)
Definition mailbox_of (l : list (result message)) : collection :=
  {| Count := Ok (length l);
     Item := fun i => nth (i - 1) l (Raise OtherError) |}.

(** The message passes the subject filter. *)
Definition passes (subject_exact : option str) (it : message) : Prop :=
  exists subject,
    Subject it = Ok subject /\
    match subject_exact with
    | Some (c :: wanted) =>
        lower (strip (or_empty subject)) = lower (strip (c :: wanted))
    | _ => True
    end.

(** The text has an order link with the number [n]: "/orders/" in any case,
    the digits [n], and no digit after them. *)
Definition has_order_link (n : str) (text : str) : Prop :=
  exists pre w post,
    text = pre ++ w ++ n ++ post /\ lower w = lit "/orders/" /\
    n <> [] /\ all_digits n /\ stops is_digit post.

(** A slash that was percent-encoded [k] times: "/", "%2F", "%252F",
    "%25252F", and so on. *)
Fixpoint encoded_percent (k : nat) : str :=
  match k with
  | O => []
  | S k' => lit "25" ++ encoded_percent k'
  end.

Definition encoded_slash (k : nat) : str :=
  match k with
  | O => lit "/"
  | S k' => "%"%char :: encoded_percent k' ++ lit "2F"
  end.

(** The order link with the number [n], percent-encoded [k] times. *)
Definition encoded_link (k : nat) (n : str) : str :=
  encoded_slash k ++ lit "orders" ++ encoded_slash k ++ n.

(** A mailbox with one message, whose text body is [body]. *)
Definition one_message (subject : option str) (body : str) : collection :=
  mailbox_of [Ok {| Subject := Ok subject; HTMLBody := Ok None;
                    Body := Ok (Some body) |}].

(** ** The folder tree *)

(** The parts of a folder path. *)
Definition path_parts (path : str) : list str :=
  filter is_nonempty (split_c "/" path).

(** The folder has the name [name], case apart. *)
Definition has_name (name : str) (f : mapi_folder) : Prop :=
  exists n, Name f = Ok n /\ lower n = lower name.

(** From [f] down through subfolders named [names], in turn, to [g]. *)
Inductive leads_to : mapi_folder -> list str -> mapi_folder -> Prop :=
| leads_here (f : mapi_folder) : leads_to f [] f
| leads_down (f : mapi_folder) (fs : list mapi_folder) (name : str)
             (names : list str) (child g : mapi_folder) :
    Folders f = Ok fs -> In child fs -> has_name name child ->
    leads_to child names g -> leads_to f (name :: names) g.

(** A mailbox for examples: one store, Inbox, with one subfolder. *)
Definition example_mailbox : mapi_namespace :=
  let object := {| Items := Raise OtherError |} in
  {| ns_Folders :=
       Ok {| stores :=
               [MapiFolder (Ok (lit "Inbox"))
                  (Ok [MapiFolder (Ok (lit "Walmart")) (Ok []) object])
                  object];
             Item1 := Ok None |} |}.

End OutlookSpec.

(** ** Vocabulary for the pipeline *)

Module MainSpec.
Import Py Outlook OutlookSpec Main.

(** A world for examples: everything works, the folder holds the example
    mailbox, and the fetcher is [fetch]. *)
Definition example_world (fetch : list str -> result unit) : world :=
  {| mkdir_output := Ok tt;
     connect_outlook := Some tt;
     get_folder_by_path :=
       Some {| Items := Ok {| members := example_inbox; Sort := Ok tt;
                              Restrict := fun _ => Ok example_inbox |} |};
     fetch_orders := fetch |}.

End MainSpec.
(* ================================================================== *)
(** * Characters *)

Section CharFacts.
Import Py Spec.

Lemma all_ascii_complete (c : ascii) : In c all_ascii.
Proof.
  unfold all_ascii. rewrite <- (ascii_nat_embedding c).
  apply in_map, in_seq. pose proof (nat_ascii_bounded c). lia.
Qed.

Lemma forall_ascii (P : ascii -> bool) :
  forallb P all_ascii = true -> forall c, P c = true.
Proof.
  intros H c. rewrite forallb_forall in H. apply H, all_ascii_complete.
Qed.

Lemma eqc_eq (a b : ascii) : eqc a b = true <-> a = b.
Proof. apply Ascii.eqb_eq. Qed.

Lemma eqc_refl (a : ascii) : eqc a a = true.
Proof. apply Ascii.eqb_refl. Qed.

Lemma eqs_eq (a b : str) : eqs a b = true <-> a = b.
Proof.
  revert b. induction a as [|x a IH]; intros [|y b]; simpl; split; intro H;
    try reflexivity; try discriminate.
  - apply andb_true_iff in H as [H1 H2]. apply eqc_eq in H1. apply IH in H2.
    congruence.
  - inversion H; subst. rewrite eqc_refl. simpl. apply IH. reflexivity.
Qed.

Lemma eqs_refl (a : str) : eqs a a = true.
Proof. apply eqs_eq. reflexivity. Qed.

End CharFacts.

(** [ascii_fact P] proves [forall c, P c = true] by running [P] on the 256
    characters. *)
Ltac ascii_fact := apply forall_ascii; vm_compute; reflexivity.

(* ================================================================== *)
(** * Floats *)

Section FloatFacts.
Import Py Spec.

Lemma shr_1_nonneg mrs : (0 <= shr_m mrs)%Z -> (0 <= shr_m (shr_1 mrs))%Z.
Proof.
  destruct mrs as [m r s]. simpl. intros H.
  destruct m as [|[p|p|]|p]; simpl; lia.
Qed.

Lemma iter_shr_1_nonneg p : forall mrs,
  (0 <= shr_m mrs)%Z -> (0 <= shr_m (iter_pos shr_1 p mrs))%Z.
Proof.
  induction p as [p IH|p IH|]; intros mrs H; simpl.
  - apply IH, IH, shr_1_nonneg, H.
  - apply IH, IH, H.
  - apply shr_1_nonneg, H.
Qed.

Lemma shr_fexp_nonneg m e l :
  (0 <= m)%Z -> (0 <= shr_m (fst (shr_fexp prec emax m e l)))%Z.
Proof.
  intros H. unfold shr_fexp, shr.
  assert (H0 : (0 <= shr_m (shr_record_of_loc m l))%Z).
  { destruct l as [|[| |]]; simpl; exact H. }
  destruct (_ - e)%Z; simpl; auto using iter_shr_1_nonneg.
Qed.

Lemma round_nearest_even_nonneg m l :
  (0 <= m)%Z -> (0 <= round_nearest_even m l)%Z.
Proof.
  intros H. destruct l as [|[| |]]; simpl; try lia.
  destruct (Z.even m); lia.
Qed.

Lemma binary_round_aux_signed sx mx ex lx :
  (0 <= mx)%Z -> signed sx (binary_round_aux prec emax sx mx ex lx).
Proof.
  intros H. unfold binary_round_aux.
  pose proof (shr_fexp_nonneg mx ex lx H) as H1.
  destruct (shr_fexp prec emax mx ex lx) as [mrs' e'] eqn:E1. simpl in H1.
  pose proof (round_nearest_even_nonneg _ (loc_of_shr_record mrs') H1) as H2.
  pose proof (shr_fexp_nonneg _ e' loc_Exact H2) as H3.
  destruct (shr_fexp prec emax _ e' loc_Exact) as [mrs'' e''] eqn:E2.
  simpl in H3.
  destruct (shr_m mrs'') as [|m|m]; simpl; try reflexivity.
  - destruct (Z.leb e'' _); reflexivity.
  - lia.
Qed.

Lemma float_of_ratio_signed neg n d : signed neg (float_of_ratio neg n d).
Proof.
  unfold float_of_ratio, SFdiv.
  destruct (SFdiv_core_binary prec emax (Zpos n) 0 (Zpos d) 0) as [[mz ez] lz] eqn:E.
  rewrite xorb_false_r. apply binary_round_aux_signed.
  unfold SFdiv_core_binary in E.
  set (m' := match _ with Zpos _ => _ | Z0 => _ | Zneg _ => _ end) in E.
  assert (Hm : (0 <= m')%Z).
  { subst m'. destruct (_ - _ - _)%Z; try lia. apply Z.shiftl_nonneg. lia. }
  pose proof (Z.div_eucl_eq m' (Zpos d) ltac:(lia)) as Hq.
  pose proof (Z.mod_pos_bound m' (Zpos d) ltac:(lia)) as Hr.
  unfold Z.modulo in Hr.
  destruct (Z.div_eucl m' (Zpos d)) as [q r]. inversion E; subst. nia.
Qed.

Lemma float_of_decimal_signed neg m e : signed neg (float_of_decimal neg m e).
Proof.
  unfold float_of_decimal. destruct m; [reflexivity|].
  destruct e; apply float_of_ratio_signed.
Qed.

Lemma fneg_fabs_signed x : signed false x -> signed true (fneg (fabs x)).
Proof. destruct x; simpl; auto. Qed.

Lemma signed_true_le_zero x : signed true x -> fle x fzero = true.
Proof. destruct x as [s|s| |s m e]; simpl; intros H; subst; auto; contradiction. Qed.

Lemma signed_fneg neg x : signed neg x -> signed (negb neg) (fneg x).
Proof. destruct x; simpl; intros; subst; auto. Qed.

End FloatFacts.
(* ================================================================== *)
(** * The matcher *)

Section MatcherFacts.
Import Py Re Spec.

Lemma consumed_app (w s : str) : consumed (w ++ s) s = w.
Proof.
  unfold consumed. rewrite length_app, Nat.add_sub.
  rewrite firstn_app, Nat.sub_diag, firstn_all. simpl. apply app_nil_r.
Qed.

Lemma star_loop_self g step fuel st : In st (star_loop g step fuel st).
Proof.
  destruct fuel; simpl; [left; reflexivity|].
  destruct g; [apply in_or_app; right|]; left; reflexivity.
Qed.

Lemma star_loop_inv g step fuel st st' :
  In st' (star_loop g step (S fuel) st) ->
  st' = st \/
  exists st1, In st1 (step st) /\ shorter st st1 = true /\
              In st' (star_loop g step fuel st1).
Proof.
  simpl. intros H.
  assert (H' : st = st' \/
               In st' (flat_map (star_loop g step fuel)
                                (filter (shorter st) (step st)))).
  { destruct g.
    - apply in_app_or in H as [H|[H|[]]]; auto.
    - destruct H; auto. }
  destruct H' as [H'|H']; [left; congruence|right].
  apply in_flat_map in H' as (st1 & H1 & H2).
  apply filter_In in H1 as [H1 H3]. eauto.
Qed.

Lemma star_loop_intro g step fuel st st1 st' :
  In st1 (step st) -> shorter st st1 = true ->
  In st' (star_loop g step fuel st1) ->
  In st' (star_loop g step (S fuel) st).
Proof.
  intros H1 H2 H3. simpl.
  assert (H : In st' (flat_map (star_loop g step fuel)
                               (filter (shorter st) (step st)))).
  { apply in_flat_map. exists st1. split; [|exact H3].
    apply filter_In. auto. }
  destruct g; [apply in_or_app; left|right]; exact H.
Qed.

Lemma run_sound r : forall st st',
  In st' (run r st) -> exists w, rest st = w ++ rest st' /\ lang r w.
Proof.
  induction r as [|f|a IHa b IHb|a IHa b IHb|g a IHa|n a IHa| | |];
    intros st st' H; simpl in H.
  - destruct H as [<-|[]]. exists []. split; reflexivity.
  - destruct (rest st) as [|c s'] eqn:E; [contradiction|].
    destruct (f c) eqn:Ef; [|contradiction].
    destruct H as [<-|[]]. exists [c]. simpl. split; [reflexivity|eauto].
  - apply in_flat_map in H as (st1 & H1 & H2).
    apply IHa in H1 as (w1 & E1 & L1). apply IHb in H2 as (w2 & E2 & L2).
    exists (w1 ++ w2). split.
    + rewrite E1, E2. apply app_assoc.
    + simpl. eauto.
  - apply in_app_or in H as [H|H].
    + apply IHa in H as (w & E & L). exists w. simpl. auto.
    + apply IHb in H as (w & E & L). exists w. simpl. auto.
  - revert H. generalize (length (rest st)) as fuel. intros fuel. revert st.
    induction fuel as [|fuel IHf]; intros st H.
    + destruct H as [<-|[]]. exists []. split; [reflexivity|constructor].
    + apply star_loop_inv in H as [->|(st1 & H1 & H2 & H3)].
      * exists []. split; [reflexivity|constructor].
      * apply IHa in H1 as (w1 & E1 & L1).
        apply IHf in H3 as (w2 & E2 & L2).
        exists (w1 ++ w2). split.
        -- rewrite E1, E2. apply app_assoc.
        -- constructor; auto. intros ->. unfold shorter in H2.
           rewrite E1 in H2. simpl in H2. apply Nat.ltb_lt in H2. lia.
  - apply in_map_iff in H as (st0 & <- & H). apply IHa in H. exact H.
  - destruct (at_boundary st); [|contradiction].
    destruct H as [<-|[]]. exists []. split; reflexivity.
  - destruct (prev st); [contradiction|].
    destruct H as [<-|[]]. exists []. split; reflexivity.
  - assert (st' = st) as ->.
    { destruct (rest st) as [|c [|c' s']]; try contradiction.
      - destruct H as [<-|[]]. reflexivity.
      - destruct (eqc c "010"); [|contradiction].
        destruct H as [<-|[]]. reflexivity. }
    exists []. split; reflexivity.
Qed.

(** Captures are only ever added. *)
Lemma run_caps_extend r : forall st st',
  In st' (run r st) -> exists l, caps st' = l ++ caps st.
Proof.
  induction r as [|f|a IHa b IHb|a IHa b IHb|g a IHa|n a IHa| | |];
    intros st st' H; simpl in H.
  - destruct H as [<-|[]]. exists []. reflexivity.
  - destruct (rest st) as [|c s']; [contradiction|].
    destruct (f c); [|contradiction].
    destruct H as [<-|[]]. exists []. reflexivity.
  - apply in_flat_map in H as (st1 & H1 & H2).
    apply IHa in H1 as (l1 & E1). apply IHb in H2 as (l2 & E2).
    exists (l2 ++ l1). rewrite E2, E1. apply app_assoc.
  - apply in_app_or in H as [H|H]; eauto.
  - revert H. generalize (length (rest st)) as fuel. intros fuel. revert st.
    induction fuel as [|fuel IHf]; intros st H.
    + destruct H as [<-|[]]. exists []. reflexivity.
    + apply star_loop_inv in H as [->|(st1 & H1 & H2 & H3)].
      * exists []. reflexivity.
      * apply IHa in H1 as (l1 & E1). apply IHf in H3 as (l2 & E2).
        exists (l2 ++ l1). rewrite E2, E1. apply app_assoc.
  - apply in_map_iff in H as (st0 & <- & H).
    apply IHa in H as (l & E). simpl.
    exists ((n, consumed (rest st) (rest st0)) :: l). rewrite E. reflexivity.
  - destruct (at_boundary st); [|contradiction].
    destruct H as [<-|[]]. exists []. reflexivity.
  - destruct (prev st); [contradiction|].
    destruct H as [<-|[]]. exists []. reflexivity.
  - assert (st' = st) as ->.
    { destruct (rest st) as [|c [|c' s']]; try contradiction.
      - destruct H as [<-|[]]. reflexivity.
      - destruct (eqc c "010"); [|contradiction].
        destruct H as [<-|[]]. reflexivity. }
    exists []. reflexivity.
Qed.

Lemma run_caps r P : grp_ok P r -> forall st st',
  In st' (run r st) -> caps_ok P (caps st) -> caps_ok P (caps st').
Proof.
  induction r as [|f|a IHa b IHb|a IHa b IHb|g a IHa|n a IHa| | |];
    intros G st st' H C; simpl in H, G.
  - destruct H as [<-|[]]. exact C.
  - destruct (rest st) as [|c s']; [contradiction|].
    destruct (f c); [|contradiction].
    destruct H as [<-|[]]. exact C.
  - destruct G as [Ga Gb].
    apply in_flat_map in H as (st1 & H1 & H2). eauto.
  - destruct G as [Ga Gb]. apply in_app_or in H as [H|H]; eauto.
  - revert H. generalize (length (rest st)) as fuel. intros fuel. revert st C.
    induction fuel as [|fuel IHf]; intros st C H.
    + destruct H as [<-|[]]. exact C.
    + apply star_loop_inv in H as [->|(st1 & H1 & H2 & H3)]; eauto.
  - destruct G as [Gn Ga].
    apply in_map_iff in H as (st0 & <- & H).
    pose proof (run_sound _ _ _ H) as (w & E & L).
    intros k v [Hkv|Hkv].
    + inversion Hkv; subst. rewrite E, consumed_app. auto.
    + revert k v Hkv. eapply IHa; eauto.
  - destruct (at_boundary st); [|contradiction].
    destruct H as [<-|[]]. exact C.
  - destruct (prev st); [contradiction|].
    destruct H as [<-|[]]. exact C.
  - assert (st' = st) as ->; [|exact C].
    destruct (rest st) as [|c [|c' s']]; try contradiction.
    + destruct H as [<-|[]]. reflexivity.
    + destruct (eqc c "010"); [|contradiction].
      destruct H as [<-|[]]. reflexivity.
Qed.

Lemma lookup_In n c v : lookup n c = Some v -> In (n, v) c.
Proof.
  induction c as [|[k u] c IH]; simpl; [discriminate|].
  destruct (Nat.eqb k n) eqn:E.
  - apply Nat.eqb_eq in E. intros [= ->]. left. congruence.
  - auto.
Qed.

Lemma lookup_app_some n l c :
  lookup n c <> None -> lookup n (l ++ c) <> None.
Proof.
  intros H. induction l as [|[k u] l IH]; simpl; [exact H|].
  destruct (Nat.eqb k n); [discriminate|exact IH].
Qed.

Lemma run_sets n r : sets n r = true -> forall st st',
  In st' (run r st) -> lookup n (caps st') <> None.
Proof.
  induction r as [|f|a IHa b IHb|a IHa b IHb|g a IHa|k a IHa| | |];
    intros S st st' H; simpl in H, S; try discriminate.
  - apply in_flat_map in H as (st1 & H1 & H2).
    apply orb_true_iff in S as [S|S].
    + apply run_caps_extend in H2 as (l & ->).
      apply lookup_app_some. eauto.
    + eauto.
  - apply andb_true_iff in S as [Sa Sb].
    apply in_app_or in H as [H|H]; eauto.
  - apply in_map_iff in H as (st0 & <- & H). simpl.
    destruct (Nat.eqb k n) eqn:E; [discriminate|].
    simpl in S. eauto.
Qed.

(** ** Completeness for patterns without assertions *)

Lemma run_complete r : ctxfree r = true -> forall w, lang r w ->
  forall p s c, exists st', In st' (run r (MState p (w ++ s) c)) /\ rest st' = s.
Proof.
  induction r as [|f|a IHa b IHb|a IHa b IHb|g a IHa|n a IHa| | |];
    intros F w L p s c; simpl in F, L; try discriminate.
  - subst. eexists. split; [left; reflexivity|reflexivity].
  - destruct L as (x & -> & Hx). simpl. rewrite Hx.
    eexists. split; [left; reflexivity|reflexivity].
  - apply andb_true_iff in F as [Fa Fb].
    destruct L as (w1 & w2 & -> & L1 & L2).
    destruct (IHa Fa _ L1 p (w2 ++ s) c) as ([p1 r1 c1] & H1 & E1).
    simpl in E1. subst r1.
    destruct (IHb Fb _ L2 p1 s c1) as (st' & H2 & E2).
    exists st'. split; [|exact E2]. simpl. apply in_flat_map.
    rewrite <- app_assoc. eauto.
  - apply andb_true_iff in F as [Fa Fb]. destruct L as [L|L].
    + destruct (IHa Fa _ L p s c) as (st' & H & E).
      exists st'. split; [|exact E]. simpl. apply in_or_app. auto.
    + destruct (IHb Fb _ L p s c) as (st' & H & E).
      exists st'. split; [|exact E]. simpl. apply in_or_app. auto.
  - simpl.
    assert (G : forall fuel, length (w ++ s) <= fuel ->
              exists st', In st' (star_loop g (run a) fuel (MState p (w ++ s) c))
                          /\ rest st' = s).
    { clear -IHa F L. revert p c.
      induction L as [|w1 w2 L1 N1 L2 IH]; intros p c fuel Hf.
      - eexists. split; [apply star_loop_self|reflexivity].
      - destruct (IHa F _ L1 p (w2 ++ s) c) as ([p1 r1 c1] & H1 & E1).
        simpl in E1. subst r1.
        destruct fuel as [|fuel].
        { destruct w1; [congruence|simpl in Hf; lia]. }
        destruct (IH p1 c1 fuel) as (st' & H2 & E2).
        { rewrite !length_app in *. destruct w1; [congruence|].
          simpl in Hf. lia. }
        exists st'. split; [|exact E2].
        eapply star_loop_intro; [| |exact H2].
        + rewrite <- app_assoc. exact H1.
        + unfold shorter. simpl. apply Nat.ltb_lt.
          rewrite !length_app. destruct w1; [congruence|simpl; lia]. }
    apply G. reflexivity.
  - destruct (IHa F _ L p s c) as (st' & H & E).
    exists (set_group n (MState p (w ++ s) c) st'). split; [|exact E].
    simpl. apply in_map. exact H.
Qed.

(** ** Scanning *)

Lemma prev_after_snoc p pre c : prev_after p (pre ++ [c]) = Some c.
Proof. unfold prev_after. rewrite rev_app_distr. reflexivity. Qed.

Lemma prev_after_cons p c pre :
  prev_after p (c :: pre) = prev_after (Some c) pre.
Proof. unfold prev_after. simpl. destruct (rev pre); reflexivity. Qed.

Lemma search_at_unfold r p s i :
  search_at r p s i =
  match run r (start_state p s) with
  | st :: _ => Some (match_of i s st)
  | [] => match s with
          | [] => None
          | c :: s' => search_at r (Some c) s' (S i)
          end
  end.
Proof. destruct s; reflexivity. Qed.

Lemma search_at_some r : forall s p i m,
  search_at r p s i = Some m ->
  exists pre suf st',
    s = pre ++ suf /\
    In st' (run r (start_state (prev_after p pre) suf)) /\
    m = match_of (i + length pre) suf st'.
Proof.
  induction s as [|c s IH]; intros p i m H; rewrite search_at_unfold in H;
    destruct (run r (start_state p _)) as [|st l] eqn:E.
  - discriminate.
  - inversion H; subst. exists [], [], st. unfold prev_after. simpl.
    rewrite E, Nat.add_0_r. repeat split. left. reflexivity.
  - apply IH in H as (pre & suf & st' & -> & H1 & ->).
    exists (c :: pre), suf, st'. repeat split.
    + rewrite prev_after_cons. exact H1.
    + f_equal. simpl. lia.
  - inversion H; subst. exists [], (c :: s), st. unfold prev_after. simpl.
    rewrite E, Nat.add_0_r. repeat split. left. reflexivity.
Qed.

Lemma search_at_none r : forall pre suf p i,
  search_at r p (pre ++ suf) i = None ->
  run r (start_state (prev_after p pre) suf) = [].
Proof.
  induction pre as [|c pre IH]; intros suf p i H;
    rewrite search_at_unfold in H;
    destruct (run r (start_state p _)) as [|st l] eqn:E; try discriminate.
  - exact E.
  - simpl in H. apply IH in H. rewrite prev_after_cons. exact H.
Qed.

Lemma search_at_lang r s p i m :
  search_at r p s i = Some m ->
  exists pre suf, s = pre ++ m_text m ++ suf /\ lang r (m_text m)
                  /\ m_rest m = suf /\ m_start m = i + length pre.
Proof.
  intros H. apply search_at_some in H as (pre & suf & st' & -> & H & ->).
  apply run_sound in H as (w & E & L). simpl in E.
  exists pre, (rest st'). simpl. rewrite E, consumed_app. auto.
Qed.

Lemma search_at_complete r pre w suf p i :
  ctxfree r = true -> lang r w -> search_at r p (pre ++ w ++ suf) i <> None.
Proof.
  intros F L H. apply search_at_none in H.
  destruct (run_complete r F w L (prev_after p pre) suf []) as (st' & H1 & _).
  unfold start_state in H. rewrite H in H1. contradiction.
Qed.

(** A pattern without assertions that is found in a slice of a text is found
    in the text. *)
Lemma search_slice r i j s :
  ctxfree r = true -> search r (slice i j s) <> None -> search r s <> None.
Proof.
  intros F H. unfold search in *.
  destruct (search_at r None (slice i j s) 0) as [m|] eqn:E; [|congruence].
  apply search_at_lang in E as (pre & suf & E & L & _).
  unfold slice in E.
  rewrite <- (firstn_skipn i s).
  rewrite <- (firstn_skipn (j - i) (skipn i s)), E.
  replace (firstn i s ++ (pre ++ m_text m ++ suf) ++ skipn (j - i) (skipn i s))
    with ((firstn i s ++ pre) ++ m_text m ++ (suf ++ skipn (j - i) (skipn i s))).
  - apply search_at_complete; assumption.
  - rewrite <- !app_assoc. reflexivity.
Qed.

(** ** Groups of a reported match *)

Lemma search_at_group r P s p i m n g :
  grp_ok P r -> search_at r p s i = Some m -> group n m = Some g -> P n g.
Proof.
  intros G H Hg. apply search_at_some in H as (pre & suf & st' & _ & H & ->).
  apply lookup_In in Hg. simpl in Hg.
  assert (C : caps_ok P (caps st')).
  { apply (run_caps r P G _ _ H). intros k v []. }
  apply C, Hg.
Qed.

Lemma search_at_group_some r s p i m n :
  sets n r = true -> search_at r p s i = Some m -> exists g, group n m = Some g.
Proof.
  intros S H. apply search_at_some in H as (pre & suf & st' & _ & H & ->).
  apply (run_sets n r S) in H. unfold group. simpl.
  destruct (lookup n (caps st')); [eauto|congruence].
Qed.

Lemma finditer_at_In r : forall fuel p s m,
  In m (finditer_at r fuel p s) ->
  exists p' s', search_at r p' s' 0 = Some m.
Proof.
  induction fuel as [|fuel IH]; intros p s m H; simpl in H; [contradiction|].
  destruct (search_at r p s 0) as [m0|] eqn:E; [|contradiction].
  destruct H as [<-|H]; [eauto|].
  destruct (m_text m0), (m_rest m0); try contradiction; eauto.
Qed.

Lemma fullmatch_some r s m :
  fullmatch r s = Some m ->
  exists st', In st' (run r (start_state None s)) /\ rest st' = []
              /\ m = match_of 0 s st'.
Proof.
  unfold fullmatch. intros H.
  destruct (filter at_end (run r (start_state None s))) as [|st l] eqn:E;
    [discriminate|].
  inversion H; subst.
  assert (I : In st (filter at_end (run r (start_state None s)))).
  { rewrite E. left. reflexivity. }
  apply filter_In in I as [I A]. exists st. repeat split; auto.
  unfold at_end in A. destruct (rest st); [reflexivity|discriminate].
Qed.

(** A pattern without groups leaves the captures alone. *)
Lemma run_groupless r : groupless r = true -> forall st st',
  In st' (run r st) -> caps st' = caps st.
Proof.
  induction r as [|f|a IHa b IHb|a IHa b IHb|g a IHa|n a IHa| | |];
    intros G st st' H; simpl in H, G; try discriminate.
  - destruct H as [<-|[]]. reflexivity.
  - destruct (rest st) as [|c s']; [contradiction|].
    destruct (f c); [|contradiction].
    destruct H as [<-|[]]. reflexivity.
  - apply andb_true_iff in G as [Ga Gb].
    apply in_flat_map in H as (st1 & H1 & H2).
    rewrite (IHb Gb _ _ H2). apply (IHa Ga _ _ H1).
  - apply andb_true_iff in G as [Ga Gb].
    apply in_app_or in H as [H|H]; eauto.
  - revert H. generalize (length (rest st)) as fuel. intros fuel. revert st.
    induction fuel as [|fuel IHf]; intros st H.
    + destruct H as [<-|[]]. reflexivity.
    + apply star_loop_inv in H as [->|(st1 & H1 & H2 & H3)]; [reflexivity|].
      rewrite (IHf _ H3). apply (IHa G _ _ H1).
  - destruct (at_boundary st); [|contradiction].
    destruct H as [<-|[]]. reflexivity.
  - destruct (prev st); [contradiction|].
    destruct H as [<-|[]]. reflexivity.
  - destruct (rest st) as [|c [|c' s']]; try contradiction.
    + destruct H as [<-|[]]. reflexivity.
    + destruct (eqc c "010"); [|contradiction].
      destruct H as [<-|[]]. reflexivity.
Qed.

End MatcherFacts.
(* ================================================================== *)
(** * [money_to_float] *)

Section MoneyFacts.
Import Py Re Spec Utils.

(** The characters of a plain decimal literal are left alone by every
    cleaning step. *)
Lemma plain_char_b c :
  implb (is_digit c || eqc c ".")
        (negb (is_space c) && negb (money_noise c) && negb (is_float_space c)
         && negb (eqc c "_")) = true.
Proof. revert c. ascii_fact. Qed.

Lemma plain_char c :
  (is_digit c || eqc c ".") = true ->
  negb (is_space c) = true /\ negb (money_noise c) = true /\
  negb (is_float_space c) = true /\ negb (eqc c "_") = true.
Proof.
  intros H. pose proof (plain_char_b c) as F. rewrite H in F. simpl in F.
  apply andb_true_iff in F as [F F4]. apply andb_true_iff in F as [F F3].
  apply andb_true_iff in F as [F1 F2]. auto.
Qed.

Lemma digit_char_b c :
  implb (is_digit c)
        (negb (eqc "(" c) && negb (eqc "-" c) && negb (eqc c "-")
         && negb (eqc c "+") && negb (eqc (lower_c c) "i")
         && negb (eqc (lower_c c) "n") && negb (eqc c ".")) = true.
Proof. revert c. ascii_fact. Qed.

Lemma digit_char c :
  is_digit c = true ->
  eqc "(" c = false /\ eqc "-" c = false /\ eqc c "-" = false /\
  eqc c "+" = false /\ eqc (lower_c c) "i" = false /\
  eqc (lower_c c) "n" = false /\ eqc c "." = false.
Proof.
  intros H. pose proof (digit_char_b c) as F. rewrite H in F. simpl in F.
  repeat match type of F with
         | (_ && _) = true => let G := fresh "G" in apply andb_true_iff in F as [F G]; apply negb_true_iff in G
         end.
  apply negb_true_iff in F. repeat split; assumption.
Qed.

Lemma forallb_imp (f g : ascii -> bool) (s : str) :
  (forall c, f c = true -> g c = true) ->
  forallb f s = true -> forallb g s = true.
Proof.
  intros I H. rewrite forallb_forall in *. auto.
Qed.

Lemma lstrip_by_none p s :
  forallb (fun c => negb (p c)) s = true -> lstrip_by p s = s.
Proof.
  destruct s as [|c s]; simpl; [reflexivity|].
  intros H. apply andb_true_iff in H as [H _].
  destruct (p c); [discriminate|reflexivity].
Qed.

Lemma forallb_rev (f : ascii -> bool) (s : str) :
  forallb f s = true -> forallb f (rev s) = true.
Proof.
  intros H. rewrite forallb_forall in *. intros c Hc.
  apply H, in_rev, Hc.
Qed.

Lemma strip_by_none p s :
  forallb (fun c => negb (p c)) s = true -> strip_by p s = s.
Proof.
  intros H. unfold strip_by, rstrip_by. rewrite (lstrip_by_none p s H).
  rewrite lstrip_by_none; [apply rev_involutive|apply forallb_rev, H].
Qed.

Lemma search_cls_none f : forall s p i,
  forallb (fun c => negb (f c)) s = true -> search_at (Cls f) p s i = None.
Proof.
  induction s as [|c s IH]; intros p i H; [reflexivity|].
  simpl in H. apply andb_true_iff in H as [H1 H2].
  rewrite search_at_unfold. simpl.
  destruct (f c); [discriminate|]. apply IH, H2.
Qed.

Lemma sub_cls_none f repl s :
  forallb (fun c => negb (f c)) s = true -> sub (Cls f) repl s = s.
Proof.
  intros H. unfold sub. simpl. rewrite search_cls_none; auto.
Qed.

Lemma drop_underscores_none : forall s prev,
  eqc prev "_" = false ->
  forallb (fun c => negb (eqc c "_")) s = true ->
  drop_underscores prev s = Some s.
Proof.
  induction s as [|c s IH]; intros prev Hp H; simpl.
  - rewrite Hp. reflexivity.
  - simpl in H. apply andb_true_iff in H as [H1 H2].
    apply negb_true_iff in H1. rewrite H1, Hp. simpl.
    rewrite IH; auto.
Qed.

Lemma span_digits ip tail :
  all_digits ip ->
  match tail with [] => True | c :: _ => is_digit c = false end ->
  span is_digit (ip ++ tail) = (ip, tail).
Proof.
  unfold all_digits. induction ip as [|c ip IH]; simpl; intros H T.
  - destruct tail as [|c tail]; [reflexivity|]. simpl. rewrite T. reflexivity.
  - apply andb_true_iff in H as [H1 H2]. rewrite H1, IH; auto.
Qed.

Lemma plain_forall (w : str) (g : ascii -> bool) :
  (forall c, (is_digit c || eqc c ".") = true -> g c = true) ->
  forallb (fun c => is_digit c || eqc c ".") w = true ->
  forallb g w = true.
Proof. apply forallb_imp. Qed.

(** [float] on a plain decimal literal "ip" or "ip.fp". *)
Lemma float_plain ip tail fp :
  ip <> [] -> all_digits ip -> all_digits fp ->
  tail = [] /\ fp = [] \/ tail = "."%char :: fp ->
  float (ip ++ tail) = Ok (decimal_value ip fp).
Proof.
  intros N Di Df T.
  assert (P : forallb (fun c => is_digit c || eqc c ".") (ip ++ tail) = true).
  { rewrite forallb_app. apply andb_true_iff. split.
    - revert Di. apply forallb_imp. intros c ->. reflexivity.
    - destruct T as [[-> _]| ->]; [reflexivity|]. simpl.
      revert Df. apply forallb_imp. intros c ->. reflexivity. }
  assert (Q : forall g : ascii -> bool,
            (forall c, (is_digit c || eqc c ".") = true -> g c = true) ->
            forallb g (ip ++ tail) = true).
  { intros g G. revert P. apply forallb_imp, G. }
  unfold float.
  rewrite strip_by_none.
  2:{ apply Q. intros c Hc. apply plain_char in Hc. tauto. }
  rewrite drop_underscores_none; [|reflexivity|].
  2:{ apply Q. intros c Hc. apply plain_char in Hc. tauto. }
  destruct ip as [|c ip]; [congruence|]. clear N.
  pose proof Di as Dc. unfold all_digits in Dc. simpl in Dc.
  apply andb_true_iff in Dc as [Dc Di'].
  destruct (digit_char c Dc) as (_ & _ & E3 & E4 & E5 & E6 & _).
  simpl app. unfold take_sign.
  rewrite E3, E4. unfold lower. simpl map. simpl eqs.
  rewrite E5, E6. simpl.
  unfold read_number.
  change (c :: ip ++ tail) with ((c :: ip) ++ tail).
  rewrite span_digits; [|exact Di|].
  2:{ destruct T as [[-> _]| ->]; [exact I|reflexivity]. }
  destruct T as [[-> ->]| ->].
  - simpl. unfold decimal_value. rewrite !app_nil_r. reflexivity.
  - rewrite eqc_refl.
    replace fp with (fp ++ []) at 1 by apply app_nil_r.
    rewrite span_digits; [|exact Df|exact I].
    simpl. reflexivity.
Qed.

Lemma startswith_single x c s : startswith [x] (c :: s) = eqc x c.
Proof. simpl. apply andb_true_r. Qed.

Lemma clean_plain ip tail :
  ip <> [] -> all_digits ip ->
  forallb (fun c => is_digit c || eqc c ".") tail = true ->
  clean (ip ++ tail) = (false, ip ++ tail).
Proof.
  intros N Di Dt.
  assert (P : forallb (fun c => is_digit c || eqc c ".") (ip ++ tail) = true).
  { rewrite forallb_app. apply andb_true_iff. split; [|exact Dt].
    revert Di. apply forallb_imp. intros c ->. reflexivity. }
  assert (Q : forall g : ascii -> bool,
            (forall c, (is_digit c || eqc c ".") = true -> g c = true) ->
            forallb g (ip ++ tail) = true).
  { intros g G. revert P. apply forallb_imp, G. }
  unfold clean, strip.
  rewrite strip_by_none.
  2:{ apply Q. intros c Hc. apply plain_char in Hc. tauto. }
  rewrite sub_cls_none.
  2:{ apply Q. intros c Hc. apply plain_char in Hc. tauto. }
  destruct ip as [|c ip]; [congruence|].
  unfold all_digits in Di. simpl in Di.
  apply andb_true_iff in Di as [Dc Di'].
  destruct (digit_char c Dc) as (E1 & E2 & _).
  change (lit "(") with ["("%char]. change (lit "-") with ["-"%char].
  change ((c :: ip) ++ tail) with (c :: ip ++ tail).
  rewrite startswith_single, E1. cbn [andb].
  rewrite startswith_single, E2. reflexivity.
Qed.

Lemma money_to_float_plain ip tail fp :
  ip <> [] -> all_digits ip -> all_digits fp ->
  tail = [] /\ fp = [] \/ tail = "."%char :: fp ->
  money_to_float (ip ++ tail) = Ok (decimal_value ip fp).
Proof.
  intros N Di Df T. unfold money_to_float.
  destruct (ip ++ tail) as [|c v] eqn:E.
  { destruct ip; [congruence|discriminate]. }
  rewrite <- E. rewrite clean_plain; auto.
  - rewrite (float_plain ip tail fp); auto.
  - destruct T as [[-> _]| ->]; [reflexivity|]. simpl.
    revert Df. apply forallb_imp. intros x ->. reflexivity.
Qed.

Lemma money_to_float_amount2 w x :
  is_amount2 w x -> money_to_float w = Ok x.
Proof.
  intros (ip & d1 & d2 & -> & N & Di & Df & ->).
  apply money_to_float_plain; auto.
Qed.

Lemma money_to_float_magnitude w x :
  is_magnitude w x -> money_to_float w = Ok x.
Proof.
  intros [(N & D & ->)|H].
  - rewrite <- (app_nil_r w) at 1. apply money_to_float_plain; auto.
    reflexivity.
  - apply money_to_float_amount2, H.
Qed.

Lemma is_magnitude_signed w x : is_magnitude w x -> signed false x.
Proof.
  intros [(_ & _ & ->)|(ip & d1 & d2 & _ & _ & _ & _ & ->)];
    apply float_of_decimal_signed.
Qed.

(** [float] raises nothing but [ValueError]. *)
Lemma float_raises s e : float s = Raise e -> e = ValueError.
Proof.
  unfold float. destruct (drop_underscores _ _) as [t|]; [|congruence].
  destruct (take_sign t) as [neg body].
  destruct (_ || _); [discriminate|].
  destruct (eqs _ _); [discriminate|].
  destruct (read_number neg body); congruence.
Qed.

(** [money_to_float] never raises. *)
Lemma money_to_float_total value : exists x, money_to_float value = Ok x.
Proof.
  unfold money_to_float. destruct value as [|c v]; [eauto|].
  destruct (clean (c :: v)) as [neg cleaned].
  destruct (float cleaned) as [x|e] eqn:E; simpl; [eauto|].
  apply float_raises in E. subst. eauto.
Qed.

End MoneyFacts.
(* ================================================================== *)
(** * What the patterns of the parser match *)

Section PatternFacts.
Import Py Re Spec Utils Parsing.

Lemma starL_cls f w : starL (lang (Cls f)) w -> forallb f w = true.
Proof.
  induction 1 as [|w1 w2 L1 N1 L2 IH]; [reflexivity|].
  destruct L1 as (c & -> & Hc). simpl. rewrite Hc. exact IH.
Qed.

Lemma lang_plus_cls f w :
  lang (plus (Cls f)) w -> w <> [] /\ forallb f w = true.
Proof.
  intros (w1 & w2 & -> & (c & -> & Hc) & L2). apply starL_cls in L2.
  split; [discriminate|]. simpl. rewrite Hc. exact L2.
Qed.

Lemma lang_two_digits w :
  lang (times 2 d) w -> exists d1 d2, w = [d1; d2] /\ all_digits [d1; d2].
Proof.
  intros (w1 & w2 & -> & (c1 & -> & H1) & (c2 & -> & H2)).
  exists c1, c2. split; [reflexivity|]. unfold all_digits. simpl.
  rewrite H1, H2. reflexivity.
Qed.

Lemma lang_chr c w : lang (chr c) w -> w = [c].
Proof. intros (x & -> & Hx). apply eqc_eq in Hx. congruence. Qed.

Lemma lang_amount2 w : lang amount2 w -> exists x, is_amount2 w x.
Proof.
  intros (ip & w2 & -> & Li & (w3 & w4 & -> & Lp & Lf)).
  apply lang_plus_cls in Li as [N D]. apply lang_chr in Lp as ->.
  apply lang_two_digits in Lf as (d1 & d2 & -> & Df).
  eexists. exists ip, d1, d2. repeat split; auto.
Qed.

Lemma lang_magnitude w :
  lang (seqs [plus d; opt (seqs [chr "."; times 2 d])]) w ->
  exists x, is_magnitude w x.
Proof.
  intros (ip & w2 & -> & Li & [(w3 & w4 & -> & Lp & Lf)| ->]).
  - apply lang_plus_cls in Li as [N D]. apply lang_chr in Lp as ->.
    apply lang_two_digits in Lf as (d1 & d2 & -> & Df).
    eexists. right. exists ip, d1, d2. repeat split; auto.
  - apply lang_plus_cls in Li as [N D]. rewrite app_nil_r.
    eexists. left. repeat split; auto.
Qed.

(** A literal under IGNORECASE matches the texts that lower-case to it. *)
Lemma lang_texti_chars : forall (l : str) w,
  l <> [] -> lang (seqs (map chri l)) w -> lower w = lower l.
Proof.
  induction l as [|c l IH]; intros w N L; [congruence|].
  destruct l as [|c' l].
  - destruct L as (x & -> & Hx). apply eqc_eq in Hx. simpl. congruence.
  - change (seqs (map chri (c :: c' :: l)))
      with (Seq (chri c) (seqs (map chri (c' :: l)))) in L.
    destruct L as (w1 & w2 & -> & (x & -> & Hx) & L2).
    apply eqc_eq in Hx. apply IH in L2; [|discriminate].
    simpl in *. congruence.
Qed.

Lemma lang_texti (s : string) w :
  lit s <> [] -> lang (texti s) w -> lower w = lower (lit s).
Proof. apply lang_texti_chars. Qed.

(** ** Occurrences *)

Lemma occurs_app_l w a s : occurs w s -> occurs w (a ++ s).
Proof.
  intros (x & y & ->). exists (a ++ x), y. rewrite <- app_assoc. reflexivity.
Qed.

Lemma occurs_app_r w s b : occurs w s -> occurs w (s ++ b).
Proof.
  intros (x & y & ->). exists x, (y ++ b). rewrite <- !app_assoc. reflexivity.
Qed.

Lemma occurs_mid w a b : occurs w (a ++ w ++ b).
Proof. exists a, b. reflexivity. Qed.

Lemma occurs_trans w v s : occurs w v -> occurs v s -> occurs w s.
Proof.
  intros (a & b & ->) (x & y & ->). exists (x ++ a), (b ++ y).
  rewrite <- !app_assoc. reflexivity.
Qed.

Lemma mentions_occurs l v s : mentions l v -> occurs v s -> mentions l s.
Proof.
  intros (w & O & E) O'. exists w. split; [|exact E].
  eapply occurs_trans; eauto.
Qed.

(** A text that lower-cases to a string in which [l] occurs mentions [l]. *)
Lemma mentions_lower (l : string) w :
  occurs (lit l) (lower w) -> mentions l w.
Proof.
  intros (a & b & E). unfold lower in E.
  apply map_eq_app in E as (a' & r & -> & Ea & E).
  apply map_eq_app in E as (m & b' & -> & Em & Eb).
  exists m. split; [apply occurs_mid|exact Em].
Qed.

Lemma prefix_without c b y : forall w a,
  forallb (fun x => negb (eqc x c)) w = true ->
  a ++ c :: b = w ++ y -> exists t, a = w ++ t.
Proof.
  induction w as [|w0 w IH]; intros a F E.
  - exists a. reflexivity.
  - simpl in F. apply andb_true_iff in F as [F0 F].
    destruct a as [|a0 a]; simpl in E; inversion E; subst.
    + rewrite eqc_refl in F0. discriminate.
    + destruct (IH a F H1) as (t & ->). exists t. reflexivity.
Qed.

(** A text without the character [c] that occurs in [a ++ c :: b] occurs in
    [a] or in [b]. *)
Lemma occurs_split w a b c :
  forallb (fun x => negb (eqc x c)) w = true ->
  occurs w (a ++ c :: b) -> occurs w a \/ occurs w b.
Proof.
  intros F (x & y & E). revert a E.
  induction x as [|x0 x IH]; intros a E.
  - simpl in E. destruct (prefix_without c b y w a F E) as (t & ->).
    left. exists [], t. reflexivity.
  - destruct a as [|a0 a]; simpl in E; inversion E; subst.
    + right. apply occurs_mid.
    + destruct (IH a H1) as [O|O]; [left|right; exact O].
      destruct O as (u & v & ->). eexists (_ :: u), v. reflexivity.
Qed.

End PatternFacts.
(* ================================================================== *)
(** * The field parser *)

Section ParserFacts.
Import Py Re Spec Utils Parsing.

(** ** Normalisation keeps the labels *)

Lemma RE_BLANKS_nonempty w : lang RE_BLANKS w -> w <> [].
Proof. intros L. apply lang_plus_cls in L. tauto. Qed.

Lemma sub_blanks_occurs w : forall fuel p s,
  forallb (fun x => negb (eqc x " ")) w = true ->
  occurs w (sub_at RE_BLANKS (lit " ") fuel p s) -> occurs w s.
Proof.
  induction fuel as [|fuel IH]; intros p s F O; [exact O|].
  simpl in O.
  destruct (search_at RE_BLANKS p s 0) as [m|] eqn:E; [|exact O].
  apply search_at_lang in E as (pre & suf & -> & L & Er & Es).
  apply RE_BLANKS_nonempty in L.
  rewrite Es in O. simpl in O.
  rewrite firstn_app, Nat.sub_diag, firstn_all in O. simpl in O.
  rewrite app_nil_r in O.
  destruct (m_text m) as [|t0 t] eqn:Et; [congruence|].
  apply occurs_split in O as [O|O]; [| |exact F].
  - apply occurs_app_r. exact O.
  - rewrite Er in O. apply IH in O; [|exact F].
    apply occurs_app_l, occurs_app_l. exact O.
Qed.

Lemma lower_space_b c : Bool.eqb (eqc (lower_c c) " ") (eqc c " ") = true.
Proof. revert c. ascii_fact. Qed.

Lemma no_space_lower w :
  forallb (fun x => negb (eqc x " ")) (lower w) = true ->
  forallb (fun x => negb (eqc x " ")) w = true.
Proof.
  induction w as [|c w IH]; simpl; [reflexivity|]. intros H.
  apply andb_true_iff in H as [H1 H2].
  pose proof (lower_space_b c) as B. apply eqb_prop in B.
  rewrite <- B, H1. simpl. apply IH, H2.
Qed.

(** A label without a space that the normalised text mentions is mentioned
    by the text. *)
Lemma mentions_normalize (l : string) text :
  forallb (fun x => negb (eqc x " ")) (lit l) = true ->
  mentions l (normalize text) -> mentions l text.
Proof.
  intros F (w & O & E). exists w. split; [|exact E].
  unfold normalize, sub in O. eapply sub_blanks_occurs; [|exact O].
  apply no_space_lower. rewrite E. exact F.
Qed.

(** ** Labels of the discount and delivery patterns *)

Lemma texti_mentions_part (s l : string) w :
  lit s <> [] -> occurs (lit l) (lower (lit s)) ->
  lang (texti s) w -> mentions l w.
Proof.
  intros N O L. apply lang_texti in L; [|exact N].
  apply mentions_lower. rewrite L. exact O.
Qed.

Lemma mentions_app_l l a b : mentions l b -> mentions l (a ++ b).
Proof.
  intros M. eapply mentions_occurs; [exact M|].
  exists a, []. rewrite app_nil_r. reflexivity.
Qed.

Lemma mentions_app_r l a b : mentions l a -> mentions l (a ++ b).
Proof.
  intros M. eapply mentions_occurs; [exact M|].
  exists [], b. reflexivity.
Qed.

Lemma discount_label_mentions w :
  lang discount_label w -> mentions "discount" w \/ mentions "savings" w.
Proof.
  intros [L|[L|L]].
  - right. apply texti_mentions_part with (l := "savings"%string) in L;
      [exact L|discriminate|exists [], []; reflexivity].
  - left. destruct L as (w1 & w2 & -> & _ & (w3 & w4 & -> & _ & L)).
    apply mentions_app_l, mentions_app_l.
    apply texti_mentions_part with (l := "discount"%string) in L;
      [exact L|discriminate|exists [], []; reflexivity].
  - left. destruct L as (w1 & w2 & -> & _ & L).
    apply mentions_app_l.
    apply texti_mentions_part with (l := "discount"%string) in L;
      [exact L|discriminate|exists [], []; reflexivity].
Qed.

Lemma delivery_label_mentions w :
  lang delivery_label w -> mentions "delivery" w \/ mentions "shipping" w.
Proof.
  intros [L|[L|L]].
  - left. destruct L as (w1 & w2 & -> & L & _).
    apply mentions_app_r.
    apply texti_mentions_part with (l := "delivery"%string) in L;
      [exact L|discriminate|exists [], []; reflexivity].
  - right. destruct L as (w1 & w2 & -> & L & _).
    apply mentions_app_r.
    apply texti_mentions_part with (l := "shipping"%string) in L;
      [exact L|discriminate|exists [], []; reflexivity].
  - left. apply texti_mentions_part with (l := "delivery"%string) in L;
      [exact L|discriminate|].
    exists (lit "free "), (lit " from store"). reflexivity.
Qed.

Lemma search_discount_mentions tn m :
  search RE_DISCOUNT tn = Some m ->
  mentions "discount" tn \/ mentions "savings" tn.
Proof.
  intros H. apply search_at_lang in H as (pre & suf & -> & L & _).
  destruct L as (w0 & w1 & -> & _ & (w2 & w3 & -> & L & _)).
  apply discount_label_mentions in L.
  destruct L as [M|M]; [left|right];
    (eapply mentions_occurs; [exact M|]);
    exists (pre ++ w0), (w3 ++ suf); rewrite <- !app_assoc; reflexivity.
Qed.

Lemma search_delivery_mentions tn m :
  search RE_DELIVERY tn = Some m ->
  mentions "delivery" tn \/ mentions "shipping" tn.
Proof.
  intros H. apply search_at_lang in H as (pre & suf & -> & L & _).
  destruct L as (w0 & w1 & -> & _ & (w2 & w3 & -> & L & _)).
  apply delivery_label_mentions in L.
  destruct L as [M|M]; [left|right];
    (eapply mentions_occurs; [exact M|]);
    exists (pre ++ w0), (w3 ++ suf); rewrite <- !app_assoc; reflexivity.
Qed.

(** ** Captured amounts *)

Lemma amount_field_ok label :
  grp_ok amount_group
    (seqs [WordB; texti label; WordB; star s_; opt (chr "$"); star s_;
           Grp 1 amount2]).
Proof.
  assert (G : forall l : str, grp_ok amount_group (seqs (map chri l))).
  { induction l as [|c [|c' l] IH]; simpl; auto. }
  cbn -[lang texti amount2].
  repeat match goal with |- _ /\ _ => split end; try exact I.
  - apply G.
  - intros w L _. apply lang_amount2, L.
  - cbn. auto.
Qed.

Lemma RE_DELIVERY_ok : grp_ok amount_group RE_DELIVERY.
Proof.
  cbn -[lang amount2]. repeat match goal with |- _ /\ _ => split end;
    try exact I.
  - intros w L _. apply lang_amount2, L.
  - cbn. auto.
Qed.

Lemma RE_DISCOUNT_ok : grp_ok magnitude_group RE_DISCOUNT.
Proof.
  cbn -[lang]. repeat match goal with |- _ /\ _ => split end;
    try exact I.
  intros w L _. apply lang_magnitude, L.
Qed.

Lemma search_amount r tn m :
  grp_ok amount_group r -> sets 1 r = true -> search r tn = Some m ->
  exists g x, group 1 m = Some g /\ is_amount2 g x.
Proof.
  intros G S H.
  destruct (search_at_group_some r tn None 0 m 1 S H) as (g & Eg).
  destruct (search_at_group r amount_group tn None 0 m 1 g G H Eg eq_refl)
    as (x & A).
  eauto.
Qed.

Lemma search_magnitude tn m :
  search RE_DISCOUNT tn = Some m ->
  exists g x, group 1 m = Some g /\ is_magnitude g x.
Proof.
  intros H.
  destruct (search_at_group_some RE_DISCOUNT tn None 0 m 1 eq_refl H)
    as (g & Eg).
  destruct (search_at_group RE_DISCOUNT magnitude_group tn None 0 m 1 g
              RE_DISCOUNT_ok H Eg eq_refl) as (x & A).
  eauto.
Qed.

(** What [money_field] returns for a pattern whose group 1 is a two-decimal
    amount. *)
Lemma money_field_spec r tn :
  grp_ok amount_group r -> sets 1 r = true ->
  match search r tn with
  | Some m => exists g x, group 1 m = Some g /\ is_amount2 g x /\
                          money_field r tn = Ok x
  | None => money_field r tn = Ok fzero
  end.
Proof.
  intros G S. unfold money_field.
  destruct (search r tn) as [m|] eqn:E; [|reflexivity].
  destruct (search_amount r tn m G S E) as (g & x & Eg & A).
  exists g, x. repeat split; auto.
  unfold money_of_group. rewrite Eg. apply money_to_float_amount2, A.
Qed.

Lemma money_field_total r tn : exists x, money_field r tn = Ok x.
Proof.
  unfold money_field, money_of_group. destruct (search r tn) as [m|]; [|eauto].
  destruct (group 1 m); [apply money_to_float_total|eauto].
Qed.

Lemma extract_discount_spec tn :
  match search RE_DISCOUNT tn with
  | Some m => exists g x, group 1 m = Some g /\ is_magnitude g x /\
                          extract_discount tn = Ok (fneg (fabs x))
  | None => extract_discount tn = Ok fzero
  end.
Proof.
  unfold extract_discount.
  destruct (search RE_DISCOUNT tn) as [m|] eqn:E; [|reflexivity].
  destruct (search_magnitude tn m E) as (g & x & Eg & A).
  exists g, x. repeat split; auto.
  unfold money_of_group. rewrite Eg.
  rewrite (money_to_float_magnitude g x A). reflexivity.
Qed.

(** ** The parser always returns a record *)

Lemma group_str_ok r s m n :
  sets n r = true -> search r s = Some m -> exists g, group_str n m = Ok g.
Proof.
  intros S H. destruct (search_at_group_some r s None 0 m n S H) as (g & E).
  exists g. unfold group_str. rewrite E. reflexivity.
Qed.

Lemma extract_date_total tn : exists x, extract_date tn = Ok x.
Proof.
  unfold extract_date.
  assert (A : exists x,
    match search RE_DATE_DELIVERED tn with
    | Some m => g <- group_str 1 m ;; Ok (strip g)
    | None =>
        match search RE_DATE_HEADER tn with
        | Some m2 => g <- group_str 1 m2 ;; Ok (strip g)
        | None => Ok []
        end
    end = Ok x).
  { destruct (search RE_DATE_DELIVERED tn) as [m|] eqn:E1.
    - destruct (group_str_ok RE_DATE_DELIVERED _ _ 1 eq_refl E1) as (g & ->).
      simpl. eauto.
    - destruct (search RE_DATE_HEADER tn) as [m|] eqn:E2; [|eauto].
      destruct (group_str_ok RE_DATE_HEADER _ _ 1 eq_refl E2) as (g & ->).
      simpl. eauto. }
  destruct A as (x & ->). simpl.
  destruct (_ && _); [|eauto].
  destruct (search RE_HEADER_SIMPLE tn) as [m|] eqn:E3; [|eauto].
  destruct (split_ws x) as [|p0 [|p1 ps]]; eauto.
Qed.

Lemma or_else_search r a b m :
  or_else (search r a) (search r b) = Some m ->
  search r a = Some m \/ search r b = Some m.
Proof. unfold or_else. destruct (search r a); auto. Qed.

Lemma extract_last4_spec tn :
  match or_else (search RE_ENDING_IN (payment_window tn))
                (search RE_ENDING_IN tn) with
  | Some m => exists g, group 1 m = Some g /\ extract_last4 tn = Ok (Some g)
  | None => extract_last4 tn = Ok None
  end.
Proof.
  unfold extract_last4.
  destruct (or_else _ _) as [m|] eqn:E; [|reflexivity].
  apply or_else_search in E as [E|E];
    destruct (search_at_group_some RE_ENDING_IN _ _ _ _ 1 eq_refl E) as (g & Eg);
    exists g; unfold group_str; rewrite Eg; auto.
Qed.

Lemma extract_last4_total tn : exists x, extract_last4 tn = Ok x.
Proof.
  pose proof (extract_last4_spec tn) as H.
  destruct (or_else _ _); [destruct H as (g & _ & H)|]; eauto.
Qed.

Lemma extract_name_total tn : exists x, extract_name tn = Ok x.
Proof.
  unfold extract_name.
  destruct (search RE_ADDRESS_NAME_LINE tn) as [m|] eqn:E; [|eauto].
  destruct (group_str_ok RE_ADDRESS_NAME_LINE _ _ 1 eq_refl E) as (g & ->).
  simpl. eauto.
Qed.

Lemma extract_discount_total tn : exists x, extract_discount tn = Ok x.
Proof.
  pose proof (extract_discount_spec tn) as H.
  destruct (search RE_DISCOUNT tn); [destruct H as (g & x & _ & _ & H)|]; eauto.
Qed.

(** [parse_order_page] returns a record, whose fields are what the blocks
    of the function computed. *)
Lemma parse_order_page_fields text order_no url :
  exists r,
    parse_order_page text order_no url = Ok r /\
    extract_discount (normalize text) = Ok (discount r) /\
    money_field RE_DELIVERY (normalize text) = Ok (delivery r) /\
    money_field RE_SUBTOTAL (normalize text) = Ok (subtotal r) /\
    money_field RE_TAXES (normalize text) = Ok (taxes r) /\
    money_field RE_TOTAL (normalize text) = Ok (total r) /\
    (exists l4, extract_last4 (normalize text) = Ok l4 /\
       payment_last4 r =
       payment_display
         (first_brand PAYMENT_BRANDS (payment_window (normalize text))) l4) /\
    items r = [].
Proof.
  unfold parse_order_page.
  destruct (extract_date_total (normalize text)) as (d & ->).
  destruct (extract_last4_total (normalize text)) as (l4 & E4).
  destruct (extract_name_total (normalize text)) as (n & ->).
  destruct (money_field_total RE_SUBTOTAL (normalize text)) as (a & Ea).
  destruct (extract_discount_total (normalize text)) as (b & Eb).
  destruct (money_field_total RE_DELIVERY (normalize text)) as (c & Ec).
  destruct (money_field_total RE_TAXES (normalize text)) as (e & Ee).
  destruct (money_field_total RE_TOTAL (normalize text)) as (f & Ef).
  rewrite E4, Ea, Eb, Ec, Ee, Ef. simpl.
  eexists. split; [reflexivity|]. simpl. repeat split; eauto.
Qed.

End ParserFacts.
(* ================================================================== *)
(** * The first match of a pattern *)

Section FirstMatch.
Import Py Re Spec.

Lemma first_eps st : first Eps st st.
Proof. exists []. reflexivity. Qed.

Lemma first_cls f p c s cs :
  f c = true -> first (Cls f) (MState p (c :: s) cs) (MState (Some c) s cs).
Proof. intros H. exists []. simpl. rewrite H. reflexivity. Qed.

Lemma first_seq a b st st1 st2 :
  first a st st1 -> first b st1 st2 -> first (Seq a b) st st2.
Proof.
  intros (l1 & E1) (l2 & E2). unfold first. simpl. rewrite E1. simpl.
  rewrite E2. eexists. reflexivity.
Qed.

(** The first way of [a] leads nowhere, the second one does. *)
Lemma first_seq_retry a b st st0 st1 st2 l :
  run a st = st0 :: st1 :: l -> run b st0 = [] -> first b st1 st2 ->
  first (Seq a b) st st2.
Proof.
  intros E1 E0 (l2 & E2). unfold first. simpl. rewrite E1. simpl.
  rewrite E0, E2. eexists. reflexivity.
Qed.

Lemma first_alt_l a b st st' : first a st st' -> first (Alt a b) st st'.
Proof.
  intros (l & E). unfold first. simpl. rewrite E. eexists. reflexivity.
Qed.

Lemma first_alt_r a b st st' :
  run a st = [] -> first b st st' -> first (Alt a b) st st'.
Proof.
  intros E0 (l & E). unfold first. simpl. rewrite E0, E.
  eexists. reflexivity.
Qed.

Lemma first_grp n a st st' :
  first a st st' -> first (Grp n a) st (set_group n st st').
Proof.
  intros (l & E). unfold first. simpl. rewrite E. eexists. reflexivity.
Qed.

Lemma first_wordb st : at_boundary st = true -> first WordB st st.
Proof. intros H. exists []. simpl. rewrite H. reflexivity. Qed.

Lemma star_loop_S g step fuel st :
  star_loop g step (S fuel) st =
  if g
  then flat_map (star_loop g step fuel) (filter (shorter st) (step st)) ++ [st]
  else st :: flat_map (star_loop g step fuel) (filter (shorter st) (step st)).
Proof. destruct g; reflexivity. Qed.

Lemma shorter_tail p q x s cs cs' :
  shorter (MState p (x :: s) cs) (MState q s cs') = true.
Proof. unfold shorter. simpl. apply Nat.ltb_lt. lia. Qed.

Lemma run_cls_take f p x s cs :
  f x = true -> run (Cls f) (MState p (x :: s) cs) = [MState (Some x) s cs].
Proof. intros H. simpl. rewrite H. reflexivity. Qed.

Lemma run_cls_stops f p t cs : stops f t -> run (Cls f) (MState p t cs) = [].
Proof.
  destruct t as [|x t]; simpl; [reflexivity|]. intros ->. reflexivity.
Qed.

Lemma star_loop_cls_stops g f fuel p t cs :
  stops f t ->
  star_loop g (run (Cls f)) fuel (MState p t cs) = [MState p t cs].
Proof.
  intros H. destruct fuel as [|fuel]; [reflexivity|].
  rewrite star_loop_S, (run_cls_stops f p t cs H). destruct g; reflexivity.
Qed.

Lemma first_star_loop_cls f : forall w t p cs fuel,
  forallb f w = true -> stops f t -> length w <= fuel ->
  exists l,
    star_loop true (run (Cls f)) fuel (MState p (w ++ t) cs)
    = MState (prev_after p w) t cs :: l.
Proof.
  induction w as [|x w IH]; intros t p cs fuel F S L.
  - simpl app. rewrite star_loop_cls_stops by exact S.
    exists []. reflexivity.
  - simpl in F. apply andb_true_iff in F as [Fx F].
    destruct fuel as [|fuel]; [simpl in L; lia|].
    destruct (IH t (Some x) cs fuel F S ltac:(simpl in L; lia)) as (l & E).
    change ((x :: w) ++ t) with (x :: w ++ t).
    rewrite star_loop_S, (run_cls_take f p x (w ++ t) cs Fx).
    cbn [filter]. rewrite shorter_tail. cbn [flat_map].
    rewrite E, prev_after_cons. eexists. reflexivity.
Qed.

(** A greedy repetition of a class first takes the whole run. *)
Lemma first_star_cls f w t p cs :
  forallb f w = true -> stops f t ->
  first (Star true (Cls f)) (MState p (w ++ t) cs)
        (MState (prev_after p w) t cs).
Proof.
  intros F S. unfold first.
  change (run (Star true (Cls f)) (MState p (w ++ t) cs))
    with (star_loop true (run (Cls f)) (length (w ++ t))
            (MState p (w ++ t) cs)).
  apply first_star_loop_cls; auto. rewrite length_app. lia.
Qed.

Lemma first_plus_cls f w t p cs :
  w <> [] -> forallb f w = true -> stops f t ->
  first (plus (Cls f)) (MState p (w ++ t) cs) (MState (prev_after p w) t cs).
Proof.
  intros N F S. destruct w as [|x w]; [congruence|].
  simpl in F. apply andb_true_iff in F as [Fx F].
  apply first_seq with (st1 := MState (Some x) (w ++ t) cs).
  - apply first_cls, Fx.
  - rewrite prev_after_cons. apply first_star_cls; assumption.
Qed.

(** A lazy repetition first takes nothing, then one character. *)
Lemma run_lazy_any p x s cs :
  exists l, run (lazy any) (MState p (x :: s) cs)
            = MState p (x :: s) cs :: MState (Some x) s cs :: l.
Proof.
  unfold lazy, any.
  change (run (Star false (Cls (fun _ => true))) (MState p (x :: s) cs))
    with (star_loop false (run (Cls (fun _ => true))) (S (length s))
            (MState p (x :: s) cs)).
  rewrite star_loop_S, (run_cls_take (fun _ => true) p x s cs eq_refl).
  cbn [filter]. rewrite shorter_tail. cbn [flat_map].
  destruct (length s) as [|n]; [|rewrite star_loop_S]; eexists; reflexivity.
Qed.

Lemma first_texti_chars : forall (l w t : str) p cs,
  l <> [] -> lower w = lower l ->
  first (seqs (map chri l)) (MState p (w ++ t) cs)
        (MState (prev_after p w) t cs).
Proof.
  induction l as [|c l IH]; intros w t p cs N E; [congruence|].
  destruct w as [|x w]; [discriminate|].
  simpl in E. inversion E as [[Ex Ew]].
  destruct l as [|c' l].
  - destruct w; [|discriminate]. simpl. unfold prev_after. simpl.
    apply first_cls. rewrite Ex. apply eqc_refl.
  - change (seqs (map chri (c :: c' :: l)))
      with (Seq (chri c) (seqs (map chri (c' :: l)))).
    apply first_seq with (st1 := MState (Some x) (w ++ t) cs).
    + apply first_cls. rewrite Ex. apply eqc_refl.
    + rewrite prev_after_cons. apply IH; [discriminate|exact Ew].
Qed.

Lemma first_texti (s : string) w t p cs :
  lit s <> [] -> lower w = lower (lit s) ->
  first (texti s) (MState p (w ++ t) cs) (MState (prev_after p w) t cs).
Proof. apply first_texti_chars. Qed.

Lemma first_opt_take r st st' : first r st st' -> first (opt r) st st'.
Proof. apply first_alt_l. Qed.

Lemma first_opt_skip r st : run r st = [] -> first (opt r) st st.
Proof. intros E. apply first_alt_r; [exact E|apply first_eps]. Qed.

(** The first match at the start of the text is what [search] reports. *)
Lemma search_first r s st :
  first r (start_state None s) st -> search r s = Some (match_of 0 s st).
Proof.
  intros (l & E). unfold search. rewrite search_at_unfold, E. reflexivity.
Qed.

End FirstMatch.
(* ================================================================== *)
(** * Amounts after a label *)

Section AmountFamilies.
Import Py Re Spec Utils Parsing.

Lemma digit_not_space c : is_digit c = true -> is_space c = false.
Proof.
  intros H. destruct (plain_char c) as (F & _).
  - rewrite H. reflexivity.
  - apply negb_true_iff in F. exact F.
Qed.

Lemma stops_space_digits ip t : ip <> [] -> all_digits ip -> stops is_space (ip ++ t).
Proof.
  intros N D. destruct ip as [|c ip]; [congruence|].
  unfold all_digits in D. simpl in D. apply andb_true_iff in D as [D _].
  simpl. apply digit_not_space, D.
Qed.

Lemma run_star_one f p c t cs :
  f c = true -> stops f t ->
  run (Star true (Cls f)) (MState p (c :: t) cs)
  = [MState (Some c) t cs; MState p (c :: t) cs].
Proof.
  intros F Hs.
  change (run (Star true (Cls f)) (MState p (c :: t) cs))
    with (star_loop true (run (Cls f)) (S (length t)) (MState p (c :: t) cs)).
  rewrite star_loop_S, (run_cls_take f p c t cs F).
  cbn [filter]. rewrite shorter_tail. cbn [flat_map].
  rewrite (star_loop_cls_stops true f (length t) (Some c) t cs Hs).
  reflexivity.
Qed.

Lemma run_plus_stops f p t cs r :
  stops f t -> run (Seq (plus (Cls f)) r) (MState p t cs) = [].
Proof.
  intros Hs. unfold plus.
  change (run (Seq (Seq (Cls f) (Star true (Cls f))) r) (MState p t cs))
    with (flat_map (run r)
            (flat_map (run (Star true (Cls f)))
               (run (Cls f) (MState p t cs)))).
  rewrite (run_cls_stops f p t cs Hs). reflexivity.
Qed.

(** The magnitude of the discount pattern on "ip.x": only [ip] is taken. *)
Lemma first_magnitude_one p ip x cs :
  ip <> [] -> all_digits ip -> is_digit x = true ->
  first (Grp 1 (seqs [plus d; opt (seqs [chr "."; times 2 d])]))
        (MState p (ip ++ "."%char :: [x]) cs)
        (MState (prev_after p ip) ("."%char :: [x]) ((1, ip) :: cs)).
Proof.
  intros N D Hx.
  replace (MState (prev_after p ip) ("."%char :: [x]) ((1, ip) :: cs))
    with (set_group 1 (MState p (ip ++ "."%char :: [x]) cs)
            (MState (prev_after p ip) ("."%char :: [x]) cs)).
  2:{ unfold set_group. cbn [prev rest caps]. rewrite consumed_app.
      reflexivity. }
  apply first_grp.
  apply first_seq with (st1 := MState (prev_after p ip) ("."%char :: [x]) cs).
  - apply first_plus_cls; [exact N|exact D|reflexivity].
  - apply first_opt_skip.
    change (run (seqs [chr "."; times 2 d])
              (MState (prev_after p ip) ("."%char :: [x]) cs))
      with (flat_map (fun st => flat_map (run d) (run d st))
              (run (Cls (eqc ".")) (MState (prev_after p ip) ("."%char :: [x]) cs))).
    rewrite (run_cls_take (eqc ".") _ "."%char [x] cs eq_refl).
    cbn [flat_map]. unfold d at 2.
    rewrite (run_cls_take is_digit _ x [] cs Hx). reflexivity.
Qed.

(** The magnitude of the discount pattern on "ip.xy": all of it is taken. *)
Lemma first_magnitude_two p ip x y cs :
  ip <> [] -> all_digits ip -> all_digits [x; y] ->
  first (Grp 1 (seqs [plus d; opt (seqs [chr "."; times 2 d])]))
        (MState p (ip ++ "."%char :: [x; y]) cs)
        (MState (Some y) [] ((1, ip ++ "."%char :: [x; y]) :: cs)).
Proof.
  intros N D Dxy. unfold all_digits in Dxy. simpl in Dxy.
  apply andb_true_iff in Dxy as [Hx Hy].
  apply andb_true_iff in Hy as [Hy _].
  replace (MState (Some y) [] ((1, ip ++ "."%char :: [x; y]) :: cs))
    with (set_group 1 (MState p (ip ++ "."%char :: [x; y]) cs)
            (MState (Some y) [] cs)).
  2:{ unfold set_group. cbn [prev rest caps].
      rewrite <- (app_nil_r (ip ++ "."%char :: [x; y])) at 1.
      rewrite consumed_app. reflexivity. }
  apply first_grp.
  apply first_seq with (st1 := MState (prev_after p ip) ("."%char :: [x; y]) cs).
  - apply first_plus_cls; [exact N|exact D|reflexivity].
  - apply first_opt_take.
    apply first_seq with (st1 := MState (Some "."%char) [x; y] cs).
    + apply first_cls. reflexivity.
    + apply first_seq with (st1 := MState (Some x) [y] cs);
        apply first_cls; assumption.
Qed.

(** The same for the two-decimal amount of the other money patterns. *)
Lemma first_amount2 p ip x y cs :
  ip <> [] -> all_digits ip -> all_digits [x; y] ->
  first (Grp 1 amount2)
        (MState p (ip ++ "."%char :: [x; y]) cs)
        (MState (Some y) [] ((1, ip ++ "."%char :: [x; y]) :: cs)).
Proof.
  intros N D Dxy. unfold all_digits in Dxy. simpl in Dxy.
  apply andb_true_iff in Dxy as [Hx Hy].
  apply andb_true_iff in Hy as [Hy _].
  replace (MState (Some y) [] ((1, ip ++ "."%char :: [x; y]) :: cs))
    with (set_group 1 (MState p (ip ++ "."%char :: [x; y]) cs)
            (MState (Some y) [] cs)).
  2:{ unfold set_group. cbn [prev rest caps].
      rewrite <- (app_nil_r (ip ++ "."%char :: [x; y])) at 1.
      rewrite consumed_app. reflexivity. }
  apply first_grp.
  apply first_seq with (st1 := MState (prev_after p ip) ("."%char :: [x; y]) cs).
  - apply first_plus_cls; [exact N|exact D|reflexivity].
  - apply first_seq with (st1 := MState (Some "."%char) [x; y] cs).
    + apply first_cls. reflexivity.
    + apply first_seq with (st1 := MState (Some x) [y] cs);
        apply first_cls; assumption.
Qed.

(** What follows the label in [RE_DISCOUNT], on " $amount" and on
    " -$amount". *)
Lemma first_discount_tail (minus : bool) p X st' body :
  stops is_space X ->
  first (Grp 1 body) (MState (Some "$"%char) X []) st' ->
  first (seqs [star s_; opt (chr "-"); star s_; opt (chr "$"); star s_;
               Grp 1 body])
        (MState p (" "%char :: (if minus then ["-"%char] else []) ++ "$"%char :: X) [])
        st'.
Proof.
  intros Hs F.
  change (seqs [star s_; opt (chr "-"); star s_; opt (chr "$"); star s_;
                Grp 1 body])
    with (Seq (star s_) (Seq (opt (chr "-")) (Seq (star s_)
            (Seq (opt (chr "$")) (Seq (star s_) (Grp 1 body)))))).
  destruct minus; cbn [app].
  - apply first_seq with (st1 := MState (Some " "%char) ("-"%char :: "$"%char :: X) []).
    { apply (first_star_cls is_space [" "%char]); reflexivity. }
    apply first_seq with (st1 := MState (Some "-"%char) ("$"%char :: X) []).
    { apply first_opt_take, first_cls. reflexivity. }
    apply first_seq with (st1 := MState (Some "-"%char) ("$"%char :: X) []).
    { apply (first_star_cls is_space []); reflexivity. }
    apply first_seq with (st1 := MState (Some "$"%char) X []).
    { apply first_opt_take, first_cls. reflexivity. }
    apply first_seq with (st1 := MState (Some "$"%char) X []).
    { apply (first_star_cls is_space []); [reflexivity|exact Hs]. }
    exact F.
  - apply first_seq with (st1 := MState (Some " "%char) ("$"%char :: X) []).
    { apply (first_star_cls is_space [" "%char]); reflexivity. }
    apply first_seq with (st1 := MState (Some " "%char) ("$"%char :: X) []).
    { apply first_opt_skip. apply run_cls_stops. reflexivity. }
    apply first_seq with (st1 := MState (Some " "%char) ("$"%char :: X) []).
    { apply (first_star_cls is_space []); reflexivity. }
    apply first_seq with (st1 := MState (Some "$"%char) X []).
    { apply first_opt_take, first_cls. reflexivity. }
    apply first_seq with (st1 := MState (Some "$"%char) X []).
    { apply (first_star_cls is_space []); [reflexivity|exact Hs]. }
    exact F.
Qed.

(** [RE_DISCOUNT] on "Savings $amount" and "Savings -$amount". *)
Lemma first_discount_savings (minus : bool) X st' :
  stops is_space X ->
  first (Grp 1 (seqs [plus d; opt (seqs [chr "."; times 2 d])]))
        (MState (Some "$"%char) X []) st' ->
  first RE_DISCOUNT
        (start_state None
           (lit "Savings " ++ (if minus then ["-"%char] else []) ++ "$"%char :: X))
        st'.
Proof.
  intros Hs F.
  change RE_DISCOUNT
    with (Seq WordB (Seq discount_label (Seq WordB
            (seqs [star s_; opt (chr "-"); star s_; opt (chr "$"); star s_;
                   Grp 1 (seqs [plus d; opt (seqs [chr "."; times 2 d])])])))).
  set (T := (if minus then ["-"%char] else []) ++ "$"%char :: X).
  change (start_state None (lit "Savings " ++ T))
    with (MState None (lit "Savings" ++ " "%char :: T) []).
  apply first_seq with (st1 := MState None (lit "Savings" ++ " "%char :: T) []).
  { apply first_wordb. reflexivity. }
  apply first_seq with (st1 := MState (Some "s"%char) (" "%char :: T) []).
  { apply first_alt_l.
    apply (first_texti "Savings" (lit "Savings") (" "%char :: T) None []);
      [discriminate|reflexivity]. }
  apply first_seq with (st1 := MState (Some "s"%char) (" "%char :: T) []).
  { apply first_wordb. reflexivity. }
  subst T. apply first_discount_tail; assumption.
Qed.

Lemma fabs_signed x : signed false x -> fabs x = x.
Proof. destruct x; simpl; intros H; subst; auto; contradiction. Qed.

(** The discount read from "Savings $ip.x": the decimal is lost. *)
Lemma discount_one_decimal (minus : bool) tn ip x :
  ip <> [] -> all_digits ip -> is_digit x = true ->
  tn = lit "Savings " ++ (if minus then ["-"%char] else []) ++
       "$"%char :: ip ++ "."%char :: [x] ->
  extract_discount tn = Ok (fneg (decimal_value ip [])).
Proof.
  intros N D Hx ->. unfold extract_discount.
  rewrite (search_first RE_DISCOUNT _ _
             (first_discount_savings minus _ _
                (stops_space_digits ip _ N D)
                (first_magnitude_one (Some "$"%char) ip x [] N D Hx))).
  unfold money_of_group, group. cbn [match_of m_caps caps lookup Nat.eqb].
  rewrite <- (app_nil_r ip) at 1.
  rewrite (money_to_float_plain ip [] [] N D eq_refl (or_introl (conj eq_refl eq_refl))).
  cbn [bind]. rewrite fabs_signed by apply float_of_decimal_signed.
  reflexivity.
Qed.

(** The discount read from "Savings $ip.xy" and from "Savings -$ip.xy". *)
Lemma discount_two_decimals (minus : bool) tn ip x y :
  ip <> [] -> all_digits ip -> all_digits [x; y] ->
  tn = lit "Savings " ++ (if minus then ["-"%char] else []) ++
       "$"%char :: ip ++ "."%char :: [x; y] ->
  extract_discount tn = Ok (fneg (decimal_value ip [x; y])).
Proof.
  intros N D Dxy ->. unfold extract_discount.
  rewrite (search_first RE_DISCOUNT _ _
             (first_discount_savings minus _ _
                (stops_space_digits ip _ N D)
                (first_magnitude_two (Some "$"%char) ip x y [] N D Dxy))).
  unfold money_of_group, group. cbn [match_of m_caps caps lookup Nat.eqb].
  rewrite (money_to_float_plain ip ("."%char :: [x; y]) [x; y] N D Dxy
             (or_intror eq_refl)).
  cbn [bind]. rewrite fabs_signed by apply float_of_decimal_signed.
  reflexivity.
Qed.

End AmountFamilies.
Section DeliveryFamilies.
Import Py Re Spec Utils Parsing.

(** What follows the label in [RE_DELIVERY], on " $amount": taking nothing
    for the lazy repetition leads nowhere, taking the blank does. *)
Lemma first_delivery_tail p X st' :
  stops is_space X -> stops is_digit [" "%char] ->
  first (Grp 1 amount2) (MState (Some "$"%char) X []) st' ->
  first (seqs [lazy any; opt (chr "$"); star s_; Grp 1 amount2])
        (MState p (" "%char :: "$"%char :: X) []) st'.
Proof.
  intros Hs _ F.
  change (seqs [lazy any; opt (chr "$"); star s_; Grp 1 amount2])
    with (Seq (lazy any)
            (Seq (opt (chr "$")) (Seq (star s_) (Grp 1 amount2)))).
  destruct (run_lazy_any p " "%char ("$"%char :: X) []) as (l & E).
  apply (first_seq_retry _ _ _ _ _ _ _ E).
  - change (run (Seq (opt (chr "$")) (Seq (star s_) (Grp 1 amount2)))
              (MState p (" "%char :: "$"%char :: X) []))
      with (flat_map
              (fun st => flat_map (run (Grp 1 amount2)) (run (star s_) st))
              (run (Cls (eqc "$")) (MState p (" "%char :: "$"%char :: X) [])
               ++ [MState p (" "%char :: "$"%char :: X) []])).
    rewrite run_cls_stops by reflexivity. cbn [app flat_map].
    unfold star, s_.
    rewrite (run_star_one is_space p " "%char ("$"%char :: X) [] eq_refl eq_refl).
    cbn [flat_map].
    change (run (Grp 1 amount2) ?st)
      with (map (set_group 1 st) (run amount2 st)).
    unfold amount2.
    change (seqs [plus d; chr "."; times 2 d])
      with (Seq (plus d) (Seq (chr ".") (times 2 d))).
    unfold d at 1 3.
    rewrite !run_plus_stops; reflexivity.
  - apply first_seq with (st1 := MState (Some "$"%char) X []).
    { apply first_opt_take, first_cls. reflexivity. }
    apply first_seq with (st1 := MState (Some "$"%char) X []).
    { apply (first_star_cls is_space []); [reflexivity|exact Hs]. }
    exact F.
Qed.

(** [RE_DELIVERY] on "Delivery fee $amount". *)
Lemma first_delivery_fee X st' :
  stops is_space X ->
  first (Grp 1 amount2) (MState (Some "$"%char) X []) st' ->
  first RE_DELIVERY (start_state None (lit "Delivery fee $" ++ X)) st'.
Proof.
  intros Hs F.
  change RE_DELIVERY
    with (Seq WordB (Seq delivery_label (Seq WordB
            (seqs [lazy any; opt (chr "$"); star s_; Grp 1 amount2])))).
  set (T := " "%char :: "$"%char :: X).
  change (start_state None (lit "Delivery fee $" ++ X))
    with (MState None (lit "Delivery" ++ " "%char :: lit "fee" ++ T) []).
  apply first_seq
    with (st1 := MState None (lit "Delivery" ++ " "%char :: lit "fee" ++ T) []).
  { apply first_wordb. reflexivity. }
  apply first_seq with (st1 := MState (Some "e"%char) T []).
  { apply first_alt_l.
    apply first_seq
      with (st1 := MState (Some "y"%char) (" "%char :: lit "fee" ++ T) []).
    - apply (first_texti "Delivery" (lit "Delivery")
               (" "%char :: lit "fee" ++ T) None []);
        [discriminate|reflexivity].
    - apply first_opt_take.
      apply first_seq
        with (st1 := MState (Some " "%char) (lit "fee" ++ T) []).
      + apply (first_star_cls is_space [" "%char]); reflexivity.
      + apply (first_texti "fee" (lit "fee") T (Some " "%char) []);
          [discriminate|reflexivity]. }
  apply first_seq with (st1 := MState (Some "e"%char) T []).
  { apply first_wordb. reflexivity. }
  subst T. apply first_delivery_tail; [exact Hs|reflexivity|exact F].
Qed.

(** [RE_DELIVERY] on "Shipping $amount". *)
Lemma first_delivery_shipping X st' :
  stops is_space X ->
  first (Grp 1 amount2) (MState (Some "$"%char) X []) st' ->
  first RE_DELIVERY (start_state None (lit "Shipping $" ++ X)) st'.
Proof.
  intros Hs F.
  change RE_DELIVERY
    with (Seq WordB (Seq delivery_label (Seq WordB
            (seqs [lazy any; opt (chr "$"); star s_; Grp 1 amount2])))).
  set (T := " "%char :: "$"%char :: X).
  change (start_state None (lit "Shipping $" ++ X))
    with (MState None (lit "Shipping" ++ T) []).
  apply first_seq with (st1 := MState None (lit "Shipping" ++ T) []).
  { apply first_wordb. reflexivity. }
  apply first_seq with (st1 := MState (Some "g"%char) T []).
  { apply first_alt_r; [reflexivity|].
    apply first_alt_l.
    apply first_seq with (st1 := MState (Some "g"%char) T []).
    - apply (first_texti "Shipping" (lit "Shipping") T None []);
        [discriminate|reflexivity].
    - apply first_opt_skip. subst T.
      change (run (seqs [star s_; texti "fee"])
                (MState (Some "g"%char) (" "%char :: "$"%char :: X) []))
        with (flat_map (run (texti "fee"))
                (run (Star true (Cls is_space))
                   (MState (Some "g"%char) (" "%char :: "$"%char :: X) []))).
      rewrite (run_star_one is_space _ " "%char ("$"%char :: X) []
                 eq_refl eq_refl).
      reflexivity. }
  apply first_seq with (st1 := MState (Some "g"%char) T []).
  { apply first_wordb. reflexivity. }
  subst T. apply first_delivery_tail; [exact Hs|reflexivity|exact F].
Qed.

(** The delivery read from "Delivery fee $ip.xy" and "Shipping $ip.xy". *)
Lemma delivery_amount (label : string) tn ip x y :
  label = "Delivery fee"%string \/ label = "Shipping"%string ->
  ip <> [] -> all_digits ip -> all_digits [x; y] ->
  tn = lit label ++ lit " $" ++ ip ++ "."%char :: [x; y] ->
  money_field RE_DELIVERY tn = Ok (decimal_value ip [x; y]).
Proof.
  intros L N D Dxy ->. unfold money_field.
  assert (E : search RE_DELIVERY
                (lit label ++ lit " $" ++ ip ++ "."%char :: [x; y])
              = Some (match_of 0
                        (lit label ++ lit " $" ++ ip ++ "."%char :: [x; y])
                        (MState (Some y) [] [(1, ip ++ "."%char :: [x; y])]))).
  { destruct L as [-> | ->]; apply search_first.
    - apply (first_delivery_fee (ip ++ "."%char :: [x; y])).
      + apply stops_space_digits; assumption.
      + apply first_amount2; assumption.
    - apply (first_delivery_shipping (ip ++ "."%char :: [x; y])).
      + apply stops_space_digits; assumption.
      + apply first_amount2; assumption. }
  rewrite E. unfold money_of_group, group.
  cbn [match_of m_caps caps lookup Nat.eqb].
  apply (money_to_float_plain ip ("."%char :: [x; y]) [x; y] N D Dxy
           (or_intror eq_refl)).
Qed.

End DeliveryFamilies.
(* ================================================================== *)
(** * The delivery amount in the middle of a page *)

Section DeliveryMidPage.
Import Py Re Spec Utils Parsing.

Lemma startswith_app w s : startswith w (w ++ s) = true.
Proof.
  induction w as [|c w IH]; simpl; [reflexivity|].
  rewrite eqc_refl. exact IH.
Qed.

Lemma find_occurs w : forall a b, find w (a ++ w ++ b) <> None.
Proof.
  induction a as [|c a IH]; intros b.
  - simpl app. destruct (w ++ b) eqn:E; simpl;
      rewrite <- E, startswith_app; discriminate.
  - simpl. destruct (startswith w (c :: a ++ w ++ b)); [discriminate|].
    specialize (IH b). destruct (find w (a ++ w ++ b)); [discriminate|congruence].
Qed.

Lemma mentions_mentions_b l s : mentions l s -> mentions_b l s = true.
Proof.
  intros (w & (a & b & ->) & E). unfold mentions_b, contains, lower.
  rewrite !map_app. fold (lower w). rewrite E.
  pose proof (find_occurs (lit l) (map lower_c a) (map lower_c b)) as F.
  destruct (find _ _); [reflexivity|congruence].
Qed.

Lemma first_amount2_then p ip x y t cs :
  ip <> [] -> all_digits ip -> all_digits [x; y] ->
  first (Grp 1 amount2)
        (MState p (ip ++ "."%char :: x :: y :: t) cs)
        (MState (Some y) t ((1, ip ++ "."%char :: [x; y]) :: cs)).
Proof.
  intros N D Dxy. unfold all_digits in Dxy. simpl in Dxy.
  apply andb_true_iff in Dxy as [Hx Hy].
  apply andb_true_iff in Hy as [Hy _].
  replace (MState (Some y) t ((1, ip ++ "."%char :: [x; y]) :: cs))
    with (set_group 1 (MState p (ip ++ "."%char :: x :: y :: t) cs)
            (MState (Some y) t cs)).
  2:{ unfold set_group. cbn [prev rest caps].
      change (ip ++ "."%char :: x :: y :: t)
        with (ip ++ ("."%char :: [x; y]) ++ t).
      rewrite app_assoc, consumed_app. reflexivity. }
  apply first_grp.
  apply first_seq with (st1 := MState (prev_after p ip) ("."%char :: x :: y :: t) cs).
  - apply first_plus_cls; [exact N|exact D|reflexivity].
  - apply first_seq with (st1 := MState (Some "."%char) (x :: y :: t) cs).
    + apply first_cls. reflexivity.
    + apply first_seq with (st1 := MState (Some x) (y :: t) cs);
        apply first_cls; assumption.
Qed.

(** ** Lists *)

(** Where the first character of a class stands in a text. *)
Lemma split_first (f : ascii -> bool) : forall (a a' : str) x x' (r r' : str),
  forallb (fun c => negb (f c)) a = true -> f x = true ->
  forallb (fun c => negb (f c)) a' = true -> f x' = true ->
  a ++ x :: r = a' ++ x' :: r' -> a = a' /\ x = x' /\ r = r'.
Proof.
  induction a as [|c a IH]; intros a' x x' r r' Fa Hx Fa' Hx' E.
  - destruct a' as [|c' a']; simpl in E.
    + inversion E. auto.
    + inversion E; subst. simpl in Fa'. rewrite Hx in Fa'. discriminate.
  - destruct a' as [|c' a']; simpl in E.
    + inversion E; subst. simpl in Fa. rewrite Hx' in Fa. discriminate.
    + inversion E; subst. simpl in Fa, Fa'.
      apply andb_true_iff in Fa as [_ Fa].
      apply andb_true_iff in Fa' as [_ Fa'].
      destruct (IH a' x x' r r' Fa Hx Fa' Hx' H1) as (-> & -> & ->). auto.
Qed.

(** What is left of a text after a prefix that stops before the first
    character of a class. *)
Lemma rest_after_prefix (f : ascii -> bool) : forall (w n : str) c (t r : str),
  forallb (fun x => negb (f x)) w = true ->
  forallb (fun x => negb (f x)) n = true -> f c = true ->
  w ++ r = n ++ c :: t ->
  exists nd, r = nd ++ c :: t /\ forallb (fun x => negb (f x)) nd = true.
Proof.
  induction w as [|x w IH]; intros n c t r Fw Fn Hc E.
  - exists n. split; [exact E|exact Fn].
  - destruct n as [|y n]; simpl in E; inversion E; subst.
    + simpl in Fw. rewrite Hc in Fw. discriminate.
    + simpl in Fw, Fn. apply andb_true_iff in Fw as [_ Fw].
      apply andb_true_iff in Fn as [_ Fn].
      apply (IH n c t r Fw Fn Hc H1).
Qed.

Lemma digits_point_unique : forall (a a' r r' : str),
  all_digits a -> all_digits a' ->
  a ++ "."%char :: r = a' ++ "."%char :: r' -> a = a' /\ r = r'.
Proof.
  unfold all_digits.
  induction a as [|c a IH]; intros a' r r' D D' E.
  - destruct a' as [|c' a']; simpl in E.
    + inversion E. auto.
    + inversion E; subst. simpl in D'. discriminate.
  - destruct a' as [|c' a']; simpl in E.
    + inversion E; subst. simpl in D. discriminate.
    + inversion E; subst. simpl in D, D'.
      apply andb_true_iff in D as [_ D]. apply andb_true_iff in D' as [_ D'].
      destruct (IH a' r r' D D' H1) as (-> & ->). auto.
Qed.

Lemma stops_app f (l m : str) : l <> [] -> stops f (l ++ m) -> stops f l.
Proof. destruct l; [congruence|]. intros _ H. exact H. Qed.

(** A word that begins where a stretch of text begins lies inside the
    stretch, when the stretch ends with a character that is not a word
    character. *)
Lemma word_prefix_inside : forall (w b t0 more : str),
  forallb is_word w = true -> b <> [] -> stops is_word (rev b) ->
  b ++ t0 = w ++ more -> exists t, b = w ++ t /\ t <> [].
Proof.
  induction w as [|c w IH]; intros b t0 more Fw Nb Sb E.
  - exists b. split; [reflexivity|exact Nb].
  - destruct b as [|c' b]; [congruence|]. simpl in E. inversion E; subst c'.
    simpl in Fw. apply andb_true_iff in Fw as [Fc Fw].
    destruct b as [|c2 b].
    + simpl in Sb. congruence.
    + destruct (IH (c2 :: b) t0 more Fw ltac:(discriminate)) as (t & Et & Nt).
      * change (rev (c :: c2 :: b)) with (rev (c2 :: b) ++ [c]) in Sb.
        apply (stops_app is_word _ [c]); [|exact Sb].
        simpl. destruct (rev b); discriminate.
      * exact H1.
      * exists t. rewrite Et. split; [reflexivity|exact Nt].
Qed.

Lemma flat_map_head {A B : Type} (g : A -> list B) (Q : B -> Prop) :
  forall l,
    (forall b, In b l -> g b = [] \/ exists y t, g b = y :: t /\ Q y) ->
    (exists b, In b l /\ g b <> []) ->
    exists y t, flat_map g l = y :: t /\ Q y.
Proof.
  induction l as [|a l IH]; intros H (b & Ib & Nb); [contradiction|].
  cbn [flat_map].
  destruct (H a (or_introl eq_refl)) as [E|(y & t & E & Qy)].
  - rewrite E. cbn [app]. apply IH.
    + intros b' Ib'. apply H. right. exact Ib'.
    + destruct Ib as [->|Ib]; [congruence|]. exists b. auto.
  - rewrite E. exists y, (t ++ flat_map g l). split; [reflexivity|exact Qy].
Qed.

(** ** Characters *)

Lemma letter_word_b c : implb (is_lower_az (lower_c c)) (is_word c) = true.
Proof. revert c. ascii_fact. Qed.

Lemma lower_letters_word : forall (w l : str),
  lower w = l -> forallb is_lower_az l = true -> forallb is_word w = true.
Proof.
  induction w as [|c w IH]; intros l E F; [reflexivity|].
  destruct l as [|x l]; [discriminate|]. simpl in E. inversion E; subst.
  simpl in F. apply andb_true_iff in F as [Fc F].
  pose proof (letter_word_b c) as B. rewrite Fc in B. simpl in B.
  simpl. rewrite B. apply (IH _ eq_refl F).
Qed.

Lemma lower_digit_b c : implb (is_digit c) (is_digit (lower_c c)) = true.
Proof. revert c. ascii_fact. Qed.

Lemma lower_no_digit : forall (w l : str),
  lower w = l -> forallb (fun c => negb (is_digit c)) l = true ->
  forallb (fun c => negb (is_digit c)) w = true.
Proof.
  induction w as [|c w IH]; intros l E F; [reflexivity|].
  destruct l as [|x l]; [discriminate|]. simpl in E. inversion E; subst.
  simpl in F. apply andb_true_iff in F as [Fc F].
  pose proof (lower_digit_b c) as B. cbn [forallb].
  destruct (is_digit c); [simpl in B; rewrite B in Fc; discriminate|].
  cbn [negb andb]. apply (IH _ eq_refl F).
Qed.

Lemma sign_space_no_digit_b c :
  implb (is_space c || eqc "$" c) (negb (is_digit c)) = true.
Proof. revert c. ascii_fact. Qed.

Lemma spaces_no_digit (w : str) :
  forallb is_space w = true -> forallb (fun c => negb (is_digit c)) w = true.
Proof.
  intros F. eapply forallb_imp; [|exact F]. intros c Hc.
  pose proof (sign_space_no_digit_b c) as B. rewrite Hc in B. exact B.
Qed.

(** ** Membership in the results of a pattern *)

Lemma in_run_seq a b st st' :
  In st' (run (Seq a b) st) <-> exists s1, In s1 (run a st) /\ In st' (run b s1).
Proof. simpl. apply in_flat_map. Qed.

Lemma in_run_grp n a st st' :
  In st' (run (Grp n a) st) <-> exists s, In s (run a st) /\ st' = set_group n st s.
Proof.
  simpl. rewrite in_map_iff. split; intros (s & H1 & H2); exists s; auto.
Qed.

Lemma first_in r st st' : first r st st' -> In st' (run r st).
Proof. intros (l & E). rewrite E. left. reflexivity. Qed.

(** A lazy repetition of any character gives every later position in
    turn. *)
Lemma run_lazy_any_cons p x s cs :
  run (lazy any) (MState p (x :: s) cs)
  = MState p (x :: s) cs :: run (lazy any) (MState (Some x) s cs).
Proof.
  unfold lazy, any.
  change (run (Star false (Cls (fun _ => true))) (MState p (x :: s) cs))
    with (star_loop false (run (Cls (fun _ => true))) (S (length s))
            (MState p (x :: s) cs)).
  rewrite star_loop_S, (run_cls_take (fun _ => true) p x s cs eq_refl).
  cbn [filter]. rewrite shorter_tail. cbn [flat_map]. rewrite app_nil_r.
  reflexivity.
Qed.

(** Scanning past a stretch of text at no place of which the pattern
    matches. *)
Lemma search_at_skip r : forall pre suf p i,
  (forall a b, pre = a ++ b -> b <> [] ->
               run r (start_state (prev_after p a) (b ++ suf)) = []) ->
  search_at r p (pre ++ suf) i
  = search_at r (prev_after p pre) suf (i + length pre).
Proof.
  induction pre as [|c pre IH]; intros suf p i H.
  - simpl. rewrite Nat.add_0_r. reflexivity.
  - rewrite <- app_comm_cons, search_at_unfold.
    pose proof (H [] (c :: pre) eq_refl ltac:(discriminate)) as H0.
    change (run r (start_state p (c :: pre ++ suf)) = []) in H0.
    rewrite H0, (IH suf (Some c) (S i)).
    + rewrite prev_after_cons. simpl length. f_equal. lia.
    + intros a b E N. specialize (H (c :: a) b).
      rewrite prev_after_cons in H. apply H; [rewrite E; reflexivity|exact N].
Qed.

(** ** What follows the label of [RE_DELIVERY] *)

(** After text without a digit, the amount pattern can only capture the
    amount that comes next. *)
Lemma amount_tail_caps nd ip x y post p cs st' :
  forallb (fun c => negb (is_digit c)) nd = true ->
  ip <> [] -> all_digits ip -> all_digits [x; y] ->
  In st' (run (seqs [opt (chr "$"); star s_; Grp 1 amount2])
            (MState p (nd ++ ip ++ "."%char :: x :: y :: post) cs)) ->
  caps st' = (1, ip ++ "."%char :: [x; y]) :: cs.
Proof.
  intros Fn N D Dxy H.
  change (seqs [opt (chr "$"); star s_; Grp 1 amount2])
    with (Seq (opt (chr "$")) (Seq (star s_) (Grp 1 amount2))) in H.
  apply in_run_seq in H as (s1 & H1 & H).
  apply in_run_seq in H as (s2 & H2 & H).
  apply in_run_grp in H as (s3 & H3 & ->).
  pose proof (run_groupless (opt (chr "$")) eq_refl _ _ H1) as C1.
  pose proof (run_groupless (star s_) eq_refl _ _ H2) as C2.
  pose proof (run_groupless amount2 eq_refl _ _ H3) as C3.
  apply run_sound in H1 as (u1 & E1 & L1).
  apply run_sound in H2 as (u2 & E2 & L2).
  apply run_sound in H3 as (w & E3 & L3).
  cbn [rest caps] in E1, C1.
  unfold set_group. cbn [caps prev rest]. rewrite C3, C2, C1.
  f_equal. f_equal. rewrite E3, consumed_app.
  apply lang_amount2 in L3 as (v & ip' & d1 & d2 & -> & N' & D' & Dd & _).
  assert (F1 : forallb (fun c => negb (is_digit c)) (u1 ++ u2) = true).
  { rewrite forallb_app. apply andb_true_iff. split.
    - destruct L1 as [L1| ->]; [|reflexivity].
      apply lang_chr in L1 as ->. reflexivity.
    - apply spaces_no_digit, starL_cls, L2. }
  rewrite E2, E3 in E1.
  destruct ip as [|i0 ip]; [congruence|].
  destruct ip' as [|j0 ip']; [congruence|].
  unfold all_digits in D, D'. simpl in D, D'.
  apply andb_true_iff in D as [Di D]. apply andb_true_iff in D' as [Dj D'].
  rewrite <- !app_assoc in E1. cbn [app] in E1.
  rewrite (app_assoc u1 u2) in E1.
  destruct (split_first is_digit nd (u1 ++ u2) i0 j0 _ _ Fn Di F1 Dj E1)
    as (_ & <- & E).
  destruct (digits_point_unique ip ip' _ _ D D' E) as (<- & E').
  inversion E'. reflexivity.
Qed.

(** From any place before the amount, with no digit in between, the rest of
    [RE_DELIVERY] first captures the amount. *)
Lemma delivery_tail_first : forall nd p cs ip x y post,
  forallb (fun c => negb (is_digit c)) nd = true ->
  ip <> [] -> all_digits ip -> all_digits [x; y] ->
  exists st' l,
    run (seqs [lazy any; opt (chr "$"); star s_; Grp 1 amount2])
        (MState p (nd ++ ip ++ "."%char :: x :: y :: post) cs) = st' :: l /\
    caps st' = (1, ip ++ "."%char :: [x; y]) :: cs.
Proof.
  induction nd as [|c nd IH]; intros p cs ip x y post Fn N D Dxy.
  - assert (F : first (seqs [lazy any; opt (chr "$"); star s_; Grp 1 amount2])
                  (MState p (ip ++ "."%char :: x :: y :: post) cs)
                  (MState (Some y) post ((1, ip ++ "."%char :: [x; y]) :: cs))).
    { change (seqs [lazy any; opt (chr "$"); star s_; Grp 1 amount2])
        with (Seq (lazy any)
                (Seq (opt (chr "$")) (Seq (star s_) (Grp 1 amount2)))).
      assert (S1 : stops is_space (ip ++ "."%char :: x :: y :: post))
        by (apply stops_space_digits; assumption).
      assert (S2 : stops (eqc "$") (ip ++ "."%char :: x :: y :: post)).
      { destruct ip as [|i0 ip]; [congruence|].
        unfold all_digits in D. cbn [forallb] in D.
        apply andb_true_iff in D as [Di _]. cbn [app stops].
        pose proof (sign_space_no_digit_b i0) as B. rewrite Di in B.
        destruct (eqc "$" i0); [|reflexivity].
        rewrite orb_true_r in B. discriminate B. }
      apply first_seq with (st1 := MState p (ip ++ "."%char :: x :: y :: post) cs).
      { destruct ip as [|i0 ip]; [congruence|]. cbn [app]. unfold first.
        eexists. apply run_lazy_any_cons. }
      apply first_seq with (st1 := MState p (ip ++ "."%char :: x :: y :: post) cs).
      { apply first_opt_skip. apply run_cls_stops, S2. }
      apply first_seq with (st1 := MState p (ip ++ "."%char :: x :: y :: post) cs).
      { apply (first_star_cls is_space [] _ p cs); [reflexivity|exact S1]. }
      apply first_amount2_then; assumption. }
    destruct F as (l & E). cbn [app]. eexists. exists l.
    split; [exact E|reflexivity].
  - simpl in Fn. apply andb_true_iff in Fn as [Fc Fn'].
    destruct (IH (Some c) cs ip x y post Fn' N D Dxy) as (st1 & l1 & E1 & C1).
    change (run (seqs [lazy any; opt (chr "$"); star s_; Grp 1 amount2])
              (MState p ((c :: nd) ++ ip ++ "."%char :: x :: y :: post) cs))
      with (flat_map (run (seqs [opt (chr "$"); star s_; Grp 1 amount2]))
              (run (lazy any)
                 (MState p (c :: nd ++ ip ++ "."%char :: x :: y :: post) cs))).
    rewrite run_lazy_any_cons. cbn [flat_map].
    change (flat_map (run (seqs [opt (chr "$"); star s_; Grp 1 amount2]))
              (run (lazy any)
                 (MState (Some c) (nd ++ ip ++ "."%char :: x :: y :: post) cs)))
      with (run (seqs [lazy any; opt (chr "$"); star s_; Grp 1 amount2])
              (MState (Some c) (nd ++ ip ++ "."%char :: x :: y :: post) cs)).
    rewrite E1.
    destruct (run (seqs [opt (chr "$"); star s_; Grp 1 amount2])
                (MState p (c :: nd ++ ip ++ "."%char :: x :: y :: post) cs))
      as [|s0 l0] eqn:E0.
    + exists st1, l1. split; [reflexivity|exact C1].
    + exists s0, (l0 ++ st1 :: l1). split; [reflexivity|].
      apply (amount_tail_caps (c :: nd) ip x y post p cs s0); auto.
      * simpl. rewrite Fc. exact Fn'.
      * cbn [app]. rewrite E0. left. reflexivity.
Qed.

(** ** The label *)

Lemma lang_seqs_app : forall (l1 l2 : list regex) v,
  l1 <> [] -> l2 <> [] -> lang (seqs (l1 ++ l2)) v ->
  exists v1 v2, v = v1 ++ v2 /\ lang (seqs l1) v1 /\ lang (seqs l2) v2.
Proof.
  induction l1 as [|r l1 IH]; intros l2 v N1 N2 Lv; [congruence|].
  destruct l1 as [|r' l1].
  - destruct l2 as [|r2 l2]; [congruence|].
    destruct Lv as (v1 & v2 & -> & La & Lb). exists v1, v2. auto.
  - change (seqs ((r :: r' :: l1) ++ l2))
      with (Seq r (seqs ((r' :: l1) ++ l2))) in Lv.
    destruct Lv as (v1 & v2 & -> & La & Lb).
    destruct (IH l2 v2 ltac:(discriminate) N2 Lb) as (u1 & u2 & -> & Lc & Ld).
    exists (v1 ++ u1), u2. rewrite app_assoc. split; [reflexivity|].
    split; [|exact Ld]. exists v1, u1. auto.
Qed.

Lemma delivery_label_no_digit w :
  lang delivery_label w -> forallb (fun c => negb (is_digit c)) w = true.
Proof.
  assert (T : forall (s : string) v,
            lit s <> [] ->
            forallb (fun c => negb (is_digit c)) (lower (lit s)) = true ->
            lang (texti s) v ->
            forallb (fun c => negb (is_digit c)) v = true).
  { intros s v N F L. apply lang_texti in L; [|exact N].
    apply (lower_no_digit v _ L F). }
  assert (O : forall v,
            lang (opt (seqs [star s_; texti "fee"])) v ->
            forallb (fun c => negb (is_digit c)) v = true).
  { intros v [(v1 & v2 & -> & L1 & L2)| ->]; [|reflexivity].
    rewrite forallb_app. apply andb_true_iff. split.
    - apply spaces_no_digit, starL_cls, L1.
    - apply (T "fee"%string); [discriminate|reflexivity|exact L2]. }
  intros [L|[L|L]].
  - destruct L as (w1 & w2 & -> & L1 & L2). rewrite forallb_app.
    apply andb_true_iff. split; [|apply O, L2].
    apply (T "Delivery"%string); [discriminate|reflexivity|exact L1].
  - destruct L as (w1 & w2 & -> & L1 & L2). rewrite forallb_app.
    apply andb_true_iff. split; [|apply O, L2].
    apply (T "Shipping"%string); [discriminate|reflexivity|exact L1].
  - apply (T "Free Delivery From Store"%string);
      [discriminate|reflexivity|exact L].
Qed.

(** No match of [RE_DELIVERY] begins before the label, in a text that does
    not have "delivery" or "shipping" before it. *)
Lemma delivery_not_before (label : string) pre t :
  label = "Delivery fee"%string \/ label = "Shipping"%string ->
  mentions_b "delivery" pre = false -> mentions_b "shipping" pre = false ->
  stops is_word (rev pre) ->
  forall a b, pre = a ++ b -> b <> [] ->
    run RE_DELIVERY (start_state (prev_after None a) (b ++ lit label ++ t)) = [].
Proof.
  intros Hl Md Ms Sp a b Ep Nb.
  destruct (run RE_DELIVERY (start_state (prev_after None a) (b ++ lit label ++ t)))
    as [|st' sts] eqn:E; [reflexivity|exfalso].
  assert (I : In st' (run RE_DELIVERY
                        (start_state (prev_after None a) (b ++ lit label ++ t))))
    by (rewrite E; left; reflexivity).
  clear E sts. apply run_sound in I as (w & Ew & L). cbn [rest start_state] in Ew.
  change RE_DELIVERY
    with (Seq WordB (Seq delivery_label (Seq WordB
            (seqs [lazy any; opt (chr "$"); star s_; Grp 1 amount2])))) in L.
  destruct L as (w0 & w1 & -> & L0 & (lab & w3 & -> & Llab & _)).
  simpl in L0. subst w0. cbn [app] in Ew.
  assert (Sb : stops is_word (rev b)).
  { rewrite Ep, rev_app_distr in Sp. apply (stops_app is_word _ (rev a)); [|exact Sp].
    destruct b as [|c b]; [congruence|]. simpl. destruct (rev b); discriminate. }
  assert (W : forall (s : string) (l : string) (v b' more : str),
            lit s <> [] ->
            forallb is_lower_az (lower (lit s)) = true ->
            occurs (lit l) (lower (lit s)) ->
            lang (texti s) v ->
            b' <> [] -> stops is_word (rev b') -> occurs b' pre ->
            b' ++ lit label ++ t = v ++ more ->
            mentions l pre).
  { intros s l v b' more N F O Lv Nb' Sb' Ob' Eb'.
    pose proof (lang_texti s v N Lv) as Ev.
    destruct (word_prefix_inside v b' _ more
                (lower_letters_word v _ Ev F) Nb' Sb' Eb') as (t1 & -> & _).
    eapply mentions_occurs; [|exact Ob'].
    apply mentions_app_r.
    apply (texti_mentions_part s l v N O Lv). }
  assert (Ob : occurs b pre) by (exists a, []; rewrite app_nil_r; exact Ep).
  destruct Llab as [L|[L|L]].
  - destruct L as (w8 & o & -> & L & _). rewrite <- !app_assoc in Ew.
    assert (M : mentions "delivery" pre).
    { apply (W "Delivery"%string "delivery"%string w8 b (o ++ w3 ++ rest st'));
        [discriminate|reflexivity|exists [], []; reflexivity|exact L
        |exact Nb|exact Sb|exact Ob|exact Ew]. }
    apply mentions_mentions_b in M. congruence.
  - destruct L as (w8 & o & -> & L & _). rewrite <- !app_assoc in Ew.
    assert (M : mentions "shipping" pre).
    { apply (W "Shipping"%string "shipping"%string w8 b (o ++ w3 ++ rest st'));
        [discriminate|reflexivity|exists [], []; reflexivity|exact L
        |exact Nb|exact Sb|exact Ob|exact Ew]. }
    apply mentions_mentions_b in M. congruence.
  - change (texti "Free Delivery From Store")
      with (seqs (map chri (lit "Free" ++ " "%char :: lit "Delivery From Store")))
      in L.
    rewrite map_app in L.
    destruct (lang_seqs_app (map chri (lit "Free"))
                (map chri (" "%char :: lit "Delivery From Store")) _
                ltac:(cbn; discriminate) ltac:(cbn; discriminate) L)
      as (f4 & r20 & -> & Lf & Lr).
    change (map chri (" "%char :: lit "Delivery From Store"))
      with ([chri " "] ++ map chri (lit "Delivery From Store")) in Lr.
    destruct (lang_seqs_app [chri " "] (map chri (lit "Delivery From Store")) _
                ltac:(discriminate) ltac:(cbn; discriminate) Lr)
      as (sp & r19 & -> & Lsp & Lr19).
    destruct Lsp as (s & -> & Hs).
    pose proof (lower_space_b s) as Bs. apply eqb_prop in Bs.
    change (lower_c " ") with " "%char in Hs. rewrite Bs in Hs.
    apply eqc_eq in Hs. subst s.
    rewrite <- !app_assoc in Ew. cbn [app] in Ew.
    pose proof (lang_texti_chars (lit "Free") f4 ltac:(discriminate) Lf) as Ef.
    destruct (word_prefix_inside f4 b _ _
                (lower_letters_word f4 _ Ef eq_refl) Nb Sb Ew) as (t1 & Eb & Nt1).
    rewrite Eb, <- app_assoc in Ew. apply app_inv_head in Ew.
    destruct t1 as [|s1 t2]; [congruence|]. cbn [app] in Ew.
    inversion Ew as [[Es1 Ew']]. subst s1.
    change (map chri (lit "Delivery From Store"))
      with (map chri (lit "Delivery") ++ map chri (lit " From Store")) in Lr19.
    destruct (lang_seqs_app (map chri (lit "Delivery"))
                (map chri (lit " From Store")) _
                ltac:(cbn; discriminate) ltac:(cbn; discriminate) Lr19)
      as (w8 & r11 & -> & Lw8 & Lr11).
    destruct t2 as [|c2 t2].
    + (* the label itself would have to read "Delivery From Store" *)
      cbn [app] in Ew'.
      pose proof (lang_texti_chars (lit "Delivery") w8 ltac:(discriminate) Lw8)
        as E8.
      pose proof (lang_texti_chars (lit " From Store") r11 ltac:(discriminate) Lr11)
        as E11.
      destruct Hl as [-> | ->].
      * destruct w8 as [|a0 [|a1 [|a2 [|a3 [|a4 [|a5 [|a6 [|a7 [|]]]]]]]]];
          try discriminate.
        destruct r11 as [|b0 [|b1 [|b2 r11]]]; try discriminate.
        cbn in Ew'. inversion Ew'; subst. cbn in E11. discriminate.
      * destruct w8 as [|a0 w8]; [discriminate|].
        cbn in Ew'. inversion Ew'; subst. cbn in E8. discriminate.
    + assert (M : mentions "delivery" pre).
      { apply (W "Delivery"%string "delivery"%string w8 (c2 :: t2)
                 (r11 ++ w3 ++ rest st'));
          [discriminate|reflexivity|exists [], []; reflexivity|exact Lw8
          |discriminate| | |].
        - rewrite Eb, rev_app_distr in Sb.
          change (rev (" "%char :: c2 :: t2))
            with (rev (c2 :: t2) ++ [" "%char]) in Sb.
          rewrite <- app_assoc in Sb.
          apply (stops_app is_word _ ([" "%char] ++ rev f4)); [|exact Sb].
          simpl. destruct (rev t2); discriminate.
        - eapply occurs_trans; [|exact Ob]. rewrite Eb.
          exists (f4 ++ [" "%char]), []. rewrite app_nil_r, <- app_assoc.
          reflexivity.
        - rewrite Ew', <- !app_assoc. reflexivity. }
      apply mentions_mentions_b in M. congruence.
Qed.

(** At the label, what [RE_DELIVERY] first captures is the amount that
    comes next. *)
Lemma delivery_at_label (label : string) p mid ip x y post :
  label = "Delivery fee"%string \/ label = "Shipping"%string ->
  is_word_opt p = false ->
  mid <> [] -> stops is_word mid ->
  forallb (fun c => negb (is_digit c)) mid = true ->
  ip <> [] -> all_digits ip -> all_digits [x; y] ->
  exists st' l,
    run RE_DELIVERY
        (start_state p (lit label ++ mid ++ ip ++ "."%char :: x :: y :: post))
    = st' :: l /\
    caps st' = [(1, ip ++ "."%char :: [x; y])].
Proof.
  intros Hl Hp Nm Sm Fm N D Dxy.
  set (A := ip ++ "."%char :: x :: y :: post).
  set (st0 := start_state p (lit label ++ mid ++ A)).
  set (TAIL := seqs [lazy any; opt (chr "$"); star s_; Grp 1 amount2]).
  set (g := fun b : mstate => if at_boundary b then run TAIL b else []).
  assert (R : run RE_DELIVERY st0 = flat_map g (run delivery_label st0)).
  { change RE_DELIVERY
      with (Seq WordB (Seq delivery_label (Seq WordB TAIL))).
    change (run (Seq WordB (Seq delivery_label (Seq WordB TAIL))) st0)
      with (flat_map (run (Seq delivery_label (Seq WordB TAIL)))
              (if at_boundary st0 then [st0] else [])).
    assert (B0 : at_boundary st0 = true).
    { unfold at_boundary, st0. cbn [prev rest start_state]. rewrite Hp.
      destruct Hl as [-> | ->]; reflexivity. }
    rewrite B0. cbn [flat_map]. rewrite app_nil_r.
    change (run (Seq delivery_label (Seq WordB TAIL)) st0)
      with (flat_map (run (Seq WordB TAIL)) (run delivery_label st0)).
    apply flat_map_ext. intros b. unfold g.
    change (run (Seq WordB TAIL) b)
      with (flat_map (run TAIL) (if at_boundary b then [b] else [])).
    destruct (at_boundary b); [|reflexivity].
    cbn [flat_map]. apply app_nil_r. }
  rewrite R.
  apply (flat_map_head g
           (fun st' => caps st' = [(1, ip ++ "."%char :: [x; y])])).
  - intros b Ib.
    pose proof (run_groupless delivery_label eq_refl _ _ Ib) as Cb.
    apply run_sound in Ib as (w & Ew & Lw).
    apply delivery_label_no_digit in Lw.
    unfold st0 in Ew, Cb. cbn [rest caps start_state] in Ew, Cb.
    destruct ip as [|i0 ip]; [congruence|].
    unfold all_digits in D. pose proof D as D0. simpl in D0.
    apply andb_true_iff in D0 as [Di _].
    assert (Fl : forallb (fun c => negb (is_digit c)) (lit label ++ mid) = true).
    { rewrite forallb_app, Fm. destruct Hl as [-> | ->]; reflexivity. }
    unfold A in Ew. rewrite app_assoc in Ew. cbn [app] in Ew.
    symmetry in Ew.
    destruct (rest_after_prefix is_digit w (lit label ++ mid) i0 _ (rest b)
                Lw Fl Di Ew) as (nd & Eb & Fnd).
    unfold g. destruct (at_boundary b); [|left; reflexivity]. right.
    destruct b as [pb rb cb]. cbn [rest caps] in Eb, Cb. subst rb cb.
    destruct (delivery_tail_first nd pb [] (i0 :: ip) x y post Fnd
                ltac:(discriminate) D Dxy) as (st' & l & E & C).
    exists st', l. split; [exact E|exact C].
  - destruct mid as [|m0 mid]; [congruence|]. simpl in Sm.
    assert (T : forall pb,
              is_word_opt pb = true ->
              g (MState pb (m0 :: mid ++ A) []) <> []).
    { intros pb Hpb. unfold g, at_boundary. cbn [prev rest hd_error is_word_opt].
      rewrite Hpb, Sm. cbn [xorb].
      simpl in Fm.
      destruct (delivery_tail_first (m0 :: mid) pb [] ip x y post Fm N D Dxy)
        as (st' & l & E & _).
      unfold TAIL, A. cbn [app] in E. rewrite E. discriminate. }
    destruct Hl as [-> | ->].
    + exists (MState (Some "e"%char) (m0 :: mid ++ A) []). split; [|apply T; reflexivity].
      apply first_in. unfold st0.
      change (start_state p (lit "Delivery fee" ++ (m0 :: mid) ++ A))
        with (MState p (lit "Delivery" ++ " "%char :: lit "fee" ++ m0 :: mid ++ A) []).
      apply first_alt_l.
      apply first_seq
        with (st1 := MState (Some "y"%char)
                       (" "%char :: lit "fee" ++ m0 :: mid ++ A) []).
      * apply (first_texti "Delivery" (lit "Delivery")
                 (" "%char :: lit "fee" ++ m0 :: mid ++ A) p []);
          [discriminate|reflexivity].
      * apply first_opt_take.
        apply first_seq
          with (st1 := MState (Some " "%char) (lit "fee" ++ m0 :: mid ++ A) []).
        -- apply (first_star_cls is_space [" "%char]); reflexivity.
        -- apply (first_texti "fee" (lit "fee") (m0 :: mid ++ A)
                    (Some " "%char) []); [discriminate|reflexivity].
    + exists (MState (Some "g"%char) (m0 :: mid ++ A) []). split; [|apply T; reflexivity].
      unfold st0.
      change (start_state p (lit "Shipping" ++ (m0 :: mid) ++ A))
        with (MState p (lit "Shipping" ++ m0 :: mid ++ A) []).
      unfold delivery_label.
      change (run (Alt ?a ?b) ?st) with (run a st ++ run b st).
      apply in_or_app. right.
      change (run (Alt ?a ?b) ?st) with (run a st ++ run b st).
      apply in_or_app. left.
      change (seqs [texti "Shipping"; opt (seqs [star s_; texti "fee"])])
        with (Seq (texti "Shipping") (opt (seqs [star s_; texti "fee"]))).
      apply in_run_seq. exists (MState (Some "g"%char) (m0 :: mid ++ A) []).
      split.
      * apply first_in.
        apply (first_texti "Shipping" (lit "Shipping") (m0 :: mid ++ A) p []);
          [discriminate|reflexivity].
      * unfold opt.
        change (run (Alt ?a ?b) ?st) with (run a st ++ run b st).
        apply in_or_app. right. left. reflexivity.
Qed.

(** The delivery read from a page that has the label in its middle. *)
Lemma delivery_mid_page (label : string) pre mid ip x y post :
  label = "Delivery fee"%string \/ label = "Shipping"%string ->
  mentions_b "delivery" pre = false -> mentions_b "shipping" pre = false ->
  stops is_word (rev pre) ->
  mid <> [] -> stops is_word mid ->
  forallb (fun c => negb (is_digit c)) mid = true ->
  ip <> [] -> all_digits ip -> all_digits [x; y] ->
  money_field RE_DELIVERY
    (pre ++ lit label ++ mid ++ ip ++ "."%char :: x :: y :: post)
  = Ok (decimal_value ip [x; y]).
Proof.
  intros Hl Md Ms Sp Nm Sm Fm N D Dxy. unfold money_field, search.
  rewrite (search_at_skip RE_DELIVERY pre _ None 0).
  2:{ intros a b Ep Nb.
      apply (delivery_not_before label pre _ Hl Md Ms Sp a b Ep Nb). }
  assert (Hp : is_word_opt (prev_after None pre) = false).
  { unfold prev_after. destruct (rev pre) as [|c r]; [reflexivity|].
    simpl in Sp. exact Sp. }
  destruct (delivery_at_label label (prev_after None pre) mid ip x y post
              Hl Hp Nm Sm Fm N D Dxy) as (st' & l & E & C).
  rewrite search_at_unfold, E.
  unfold money_of_group, group. cbn [match_of m_caps]. rewrite C.
  cbn [lookup Nat.eqb].
  apply (money_to_float_plain ip ("."%char :: [x; y]) [x; y] N D Dxy
           (or_intror eq_refl)).
Qed.

End DeliveryMidPage.
(* ================================================================== *)
(** * Properties of the field parser and of the money normaliser *)

Section ParserClaims.
Import Py Re Spec Utils Parsing.

(** C1. On every page text the parser returns a record whose discount is at
    most zero.  When the discount pattern is found, its group is an unsigned
    magnitude (digits, or digits with two decimals) and the discount is minus
    the absolute value of its float, with the sign bit set.  A minus sign in
    the text changes nothing: a text that reads "Savings $A" or
    "Savings -$A" once blanks are collapsed, for any two-decimal amount A,
    gives minus the float of A (the two texts of the tests give -0.76).
    When the pattern is not found, the discount is the float 0.0 with a
    clear sign bit; this is the case of every ASCII text that has neither
    "discount" nor "savings" in any case. *)
Theorem discount_sign_invariant :
  forall text order_no url,
  exists r,
    parse_order_page text order_no url = Ok r /\
    fle (discount r) fzero = true /\
    match search RE_DISCOUNT (normalize text) with
    | Some m =>
        exists g x, group 1 m = Some g /\ is_magnitude g x /\
                    discount r = fneg (fabs x) /\ signed true (discount r)
    | None => discount r = fzero
    end /\
    (isascii text = true -> mentions_b "discount" text = false ->
     mentions_b "savings" text = false -> discount r = fzero) /\
    (forall (minus : bool) ip x y,
       ip <> [] -> all_digits ip -> all_digits [x; y] ->
       normalize text =
         lit "Savings " ++ (if minus then ["-"%char] else []) ++
         "$"%char :: ip ++ "."%char :: [x; y] ->
       discount r = fneg (decimal_value ip [x; y])) /\
    (text = lit "Subtotal $75.71 Multisave Discount $0.76 Taxes $5.00 Total $80.71"
     \/ text = lit "Subtotal $75.71 Savings -$0.76 Taxes $5.00 Total $80.71" ->
     discount r = fneg (literal "0.76")).
Proof.
  intros text order_no url.
  destruct (parse_order_page_fields text order_no url)
    as (r & E & Ed & _).
  exists r. split; [exact E|].
  pose proof (extract_discount_spec (normalize text)) as S.
  assert (M : match search RE_DISCOUNT (normalize text) with
              | Some m =>
                  exists g x, group 1 m = Some g /\ is_magnitude g x /\
                    discount r = fneg (fabs x) /\ signed true (discount r)
              | None => discount r = fzero
              end).
  { destruct (search RE_DISCOUNT (normalize text)) as [m|].
    - destruct S as (g & x & Eg & A & S). rewrite S in Ed.
      inversion Ed as [Ex]. exists g, x. repeat split; auto.
      apply fneg_fabs_signed, (is_magnitude_signed g x A).
    - congruence. }
  split; [|split; [exact M|split; [|split]]].
  - destruct (search RE_DISCOUNT (normalize text)) as [m|].
    + destruct M as (g & x & _ & _ & _ & Sg).
      apply signed_true_le_zero, Sg.
    + rewrite M. reflexivity.
  - intros _ N1 N2.
    destruct (search RE_DISCOUNT (normalize text)) as [m|] eqn:Es; [|exact M].
    apply search_discount_mentions in Es as [Mn|Mn];
      apply mentions_normalize in Mn; try reflexivity;
      apply mentions_mentions_b in Mn; congruence.
  - intros minus ip x y N D Dxy En.
    rewrite (discount_two_decimals minus _ ip x y N D Dxy En) in Ed.
    congruence.
  - intros [-> | ->]; vm_compute in E; inversion E; subst r; vm_compute;
      reflexivity.
Qed.

Lemma discount_sign_invariant_witness :
  (exists r,
     parse_order_page (lit "Subtotal $75.71 Taxes $5.00 Total $80.71") [] [] = Ok r
     /\ discount r = fzero) /\
  (exists r,
     parse_order_page (lit "Savings   -$12.50") [] [] = Ok r
     /\ discount r = fneg (literal "12.50")).
Proof.
  split.
  - destruct (discount_sign_invariant
                (lit "Subtotal $75.71 Taxes $5.00 Total $80.71") [] [])
      as (r & E & _ & _ & H & _).
    exists r. split; [exact E|]. apply H; vm_compute; reflexivity.
  - destruct (discount_sign_invariant (lit "Savings   -$12.50") [] [])
      as (r & E & _ & _ & _ & H & _).
    exists r. split; [exact E|].
    apply (H true (lit "12") "5"%char "0"%char);
      [discriminate|reflexivity|reflexivity|vm_compute; reflexivity].
Defined.

(** C2. On every page text the parser returns a record with a delivery
    field.  When the delivery pattern is not found the field is the float
    0.0; this is the case of every ASCII text that has neither "delivery"
    nor "shipping" in any case.  When the pattern is found, its group is a
    two-decimal amount and the field is the float of that amount.  The label
    may stand in the middle of the page: when the text, once blanks are
    collapsed, reads [pre], then "Delivery fee" or "Shipping", then [mid],
    then a two-decimal amount A, then anything, where [pre] has neither
    "delivery" nor "shipping" and is empty or ends with a character that is
    not a word character, and [mid] has no digit and begins with a character
    that is not a word character ([pre] and [mid] being ASCII), the field is
    the float of A.  So "Delivery fee $5.00" gives 5.00 and
    "Shipping $3.50" gives 3.50, alone or inside the page of the tests. *)
Theorem delivery_default_and_amount :
  forall text order_no url,
  exists r,
    parse_order_page text order_no url = Ok r /\
    (isascii text = true -> mentions_b "delivery" text = false ->
     mentions_b "shipping" text = false -> delivery r = fzero) /\
    match search RE_DELIVERY (normalize text) with
    | Some m =>
        exists g x, group 1 m = Some g /\ is_amount2 g x /\ delivery r = x
    | None => delivery r = fzero
    end /\
    (forall (label : string) pre mid ip x y post,
       label = "Delivery fee"%string \/ label = "Shipping"%string ->
       isascii (pre ++ mid) = true ->
       mentions_b "delivery" pre = false ->
       mentions_b "shipping" pre = false ->
       stops is_word (rev pre) ->
       mid <> [] -> stops is_word mid ->
       forallb (fun c => negb (is_digit c)) mid = true ->
       ip <> [] -> all_digits ip -> all_digits [x; y] ->
       normalize text =
         pre ++ lit label ++ mid ++ ip ++ "."%char :: x :: y :: post ->
       delivery r = decimal_value ip [x; y]) /\
    (text = lit "Delivery fee $5.00" \/
     text = lit "Subtotal $75.71 Delivery fee $5.00 Taxes $5.00 Total $85.71" ->
     delivery r = literal "5.00") /\
    (text = lit "Shipping $3.50" \/
     text = lit "Subtotal $75.71 Shipping $3.50 Taxes $5.00 Total $84.21" ->
     delivery r = literal "3.50").
Proof.
  intros text order_no url.
  destruct (parse_order_page_fields text order_no url)
    as (r & E & _ & Ed & _).
  exists r. split; [exact E|].
  pose proof (money_field_spec RE_DELIVERY (normalize text)
                RE_DELIVERY_ok eq_refl) as S.
  assert (M : match search RE_DELIVERY (normalize text) with
              | Some m =>
                  exists g x, group 1 m = Some g /\ is_amount2 g x /\
                              delivery r = x
              | None => delivery r = fzero
              end).
  { destruct (search RE_DELIVERY (normalize text)) as [m|].
    - destruct S as (g & x & Eg & A & S). exists g, x.
      repeat split; auto. congruence.
    - congruence. }
  split; [|split; [exact M|split; [|split]]].
  - intros _ N1 N2.
    destruct (search RE_DELIVERY (normalize text)) as [m|] eqn:Es; [|exact M].
    apply search_delivery_mentions in Es as [Mn|Mn];
      apply mentions_normalize in Mn; try reflexivity;
      apply mentions_mentions_b in Mn; congruence.
  - intros label pre mid ip x y post L _ Md Ms Sp Nm Sm Fm N D Dxy En.
    rewrite En in Ed.
    rewrite (delivery_mid_page label pre mid ip x y post
               L Md Ms Sp Nm Sm Fm N D Dxy) in Ed.
    congruence.
  - intros [-> | ->]; vm_compute in E; inversion E; subst r; vm_compute;
      reflexivity.
  - intros [-> | ->]; vm_compute in E; inversion E; subst r; vm_compute;
      reflexivity.
Qed.

Lemma delivery_default_and_amount_witness :
  (exists r,
     parse_order_page (lit "Subtotal $75.71 Taxes $5.00 Total $80.71") [] [] = Ok r
     /\ delivery r = fzero) /\
  (exists r,
     parse_order_page
       (lit "Subtotal $75.71 Delivery fee $5.00 Taxes $5.00 Total $85.71")
       [] [] = Ok r
     /\ delivery r = literal "5.00") /\
  (exists r,
     parse_order_page
       (lit "Subtotal $75.71   Shipping: $13.99 (Total $89.70)") [] [] = Ok r
     /\ delivery r = literal "13.99").
Proof.
  split; [|split].
  - destruct (delivery_default_and_amount
                (lit "Subtotal $75.71 Taxes $5.00 Total $80.71") [] [])
      as (r & E & H & _).
    exists r. split; [exact E|]. apply H; vm_compute; reflexivity.
  - destruct (delivery_default_and_amount
                (lit "Subtotal $75.71 Delivery fee $5.00 Taxes $5.00 Total $85.71")
                [] [])
      as (r & E & _ & _ & H & _).
    exists r. split; [exact E|].
    apply (H "Delivery fee"%string (lit "Subtotal $75.71 ") (lit " $")
             (lit "5") "0"%char "0"%char (lit " Taxes $5.00 Total $85.71"));
      [left; reflexivity|reflexivity|reflexivity|reflexivity|reflexivity
      |discriminate|reflexivity|reflexivity|discriminate|reflexivity
      |reflexivity|vm_compute; reflexivity].
  - destruct (delivery_default_and_amount
                (lit "Subtotal $75.71   Shipping: $13.99 (Total $89.70)") [] [])
      as (r & E & _ & _ & H & _).
    exists r. split; [exact E|].
    apply (H "Shipping"%string (lit "Subtotal $75.71 ") (lit ": $")
             (lit "13") "9"%char "9"%char (lit " (Total $89.70)"));
      [right; reflexivity|reflexivity|reflexivity|reflexivity|reflexivity
      |discriminate|reflexivity|reflexivity|discriminate|reflexivity
      |reflexivity|vm_compute; reflexivity].
Defined.

(** C4. The page text of the end-to-end scenario parses to subtotal 75.71,
    discount -0.76, delivery 0.00, taxes 5.00 and total 80.71; the total is
    not the amount that follows "Subtotal". *)
Theorem end_to_end_scenario :
  forall order_no url,
  exists r,
    parse_order_page
      (lit "Subtotal $75.71 Multisave Discount $0.76 Taxes $5.00 Total $80.71")
      order_no url = Ok r /\
    subtotal r = literal "75.71" /\
    discount r = fneg (literal "0.76") /\
    delivery r = literal "0.00" /\
    taxes r = literal "5.00" /\
    total r = literal "80.71" /\
    feq (total r) (subtotal r) = false.
Proof.
  intros order_no url. eexists. split; [vm_compute; reflexivity|].
  vm_compute. repeat split.
Qed.

(** C8, as the code has it.  The group of the discount pattern is a run of
    digits with no decimals or with exactly two: whenever the pattern is
    found, the discount is minus the float of such a magnitude, never of a
    number with one decimal digit.  An amount with one decimal digit is
    captured up to the point only: a text that reads "Savings $D.d" or
    "Savings -$D.d" once blanks are collapsed, for any digits D and digit d,
    gives minus the float of D; "Savings $0.7" gives -0.0, while
    "Savings $0.70" gives -0.7 and "Savings $7" gives -7.0. *)
Theorem discount_zero_or_two_decimals :
  forall text order_no url,
  exists r,
    parse_order_page text order_no url = Ok r /\
    match search RE_DISCOUNT (normalize text) with
    | Some m =>
        exists g x, group 1 m = Some g /\ is_magnitude g x /\
                    discount r = fneg (fabs x)
    | None => discount r = fzero
    end /\
    (forall (minus : bool) ip x,
       ip <> [] -> all_digits ip -> is_digit x = true ->
       normalize text =
         lit "Savings " ++ (if minus then ["-"%char] else []) ++
         "$"%char :: ip ++ "."%char :: [x] ->
       discount r = fneg (decimal_value ip [])) /\
    (text = lit "Savings $0.7" -> discount r = fneg (literal "0")) /\
    (text = lit "Savings $0.70" -> discount r = fneg (literal "0.7")) /\
    (text = lit "Savings $7" -> discount r = fneg (literal "7.0")).
Proof.
  intros text order_no url.
  destruct (parse_order_page_fields text order_no url)
    as (r & E & Ed & _).
  exists r. split; [exact E|].
  pose proof (extract_discount_spec (normalize text)) as S.
  split; [|split; [|split; [|split]]].
  - destruct (search RE_DISCOUNT (normalize text)) as [m|].
    + destruct S as (g & x & Eg & A & S). rewrite S in Ed.
      inversion Ed. exists g, x. auto.
    + congruence.
  - intros minus ip x N D Hx En.
    rewrite (discount_one_decimal minus _ ip x N D Hx En) in Ed. congruence.
  - intros ->. vm_compute in E. inversion E; subst r. vm_compute. reflexivity.
  - intros ->. vm_compute in E. inversion E; subst r. vm_compute. reflexivity.
  - intros ->. vm_compute in E. inversion E; subst r. vm_compute. reflexivity.
Qed.

Lemma discount_zero_or_two_decimals_witness :
  exists r,
    parse_order_page (lit "Savings $0.7") [] [] = Ok r /\
    discount r = fneg (decimal_value (lit "0") []).
Proof.
  destruct (discount_zero_or_two_decimals (lit "Savings $0.7") [] [])
    as (r & E & _ & H & _).
  exists r. split; [exact E|].
  apply (H false (lit "0") "7"%char);
    [discriminate|reflexivity|reflexivity|vm_compute; reflexivity].
Defined.

(** C8 as stated fails: for the page text "Savings $0.7" the parsed discount
    is -0.0, which is not equal to -0.7. *)
Lemma discount_one_decimal_counterexample :
  exists r,
    parse_order_page (lit "Savings $0.7") [] [] = Ok r /\
    discount r = S754_zero true /\
    feq (discount r) (fneg (literal "0.7")) = false.
Proof.
  eexists. split; [vm_compute; reflexivity|]. vm_compute. split; reflexivity.
Qed.

End ParserClaims.
Section PaymentAndMoneyClaims.
Import Py Re Spec Utils Parsing.

Lemma lang_four_digits w :
  lang (times 4 d) w -> length w = 4 /\ all_digits w.
Proof.
  intros L.
  destruct L as (w1 & w2 & -> & (c1 & -> & H1) & L).
  destruct L as (w3 & w4 & -> & (c2 & -> & H2) & L).
  destruct L as (w5 & w6 & -> & (c3 & -> & H3) & (c4 & -> & H4)).
  split; [reflexivity|]. unfold all_digits. simpl.
  rewrite H1, H2, H3, H4. reflexivity.
Qed.

Lemma RE_ENDING_IN_ok : grp_ok last4_group RE_ENDING_IN.
Proof.
  cbn -[lang]. repeat match goal with |- _ /\ _ => split end;
    try exact I.
  intros w L _. apply lang_four_digits, L.
Qed.

Lemma payment_display_last4 brand g :
  g <> [] -> payment_display brand (Some g) = lit "****" ++ g.
Proof.
  intros N. unfold payment_display, truthy.
  destruct g; [congruence|]. simpl.
  destruct brand as [[|]|]; reflexivity.
Qed.

Lemma payment_display_none brand : payment_display brand None = lit "N/A".
Proof.
  unfold payment_display, truthy. rewrite andb_false_r. reflexivity.
Qed.

(** C10. The payment display is "N/A" on every page text in which [Ending
    in] with four digits is not found (the text being read after blanks are
    collapsed), whatever brand was found in the payment window.  When
    [Ending in] is found, in the payment window or else in the whole text,
    the display is "****" followed by the group of that match, which has
    four characters (digits, on an ASCII text).  So the display has the
    form "****" and four characters exactly when [Ending in] is found, and
    it is never anything else than "N/A" or that form: a brand alone is
    never rendered. *)
Theorem payment_display_needs_last4 :
  forall text order_no url,
  exists r,
    parse_order_page text order_no url = Ok r /\
    (search RE_ENDING_IN (normalize text) = None ->
     payment_last4 r = lit "N/A") /\
    (forall m,
       or_else (search RE_ENDING_IN (payment_window (normalize text)))
               (search RE_ENDING_IN (normalize text)) = Some m ->
       exists g, group 1 m = Some g /\ length g = 4 /\
                 (isascii text = true -> all_digits g) /\
                 payment_last4 r = lit "****" ++ g) /\
    (search RE_ENDING_IN (normalize text) <> None <->
     exists g, length g = 4 /\ payment_last4 r = lit "****" ++ g) /\
    (payment_last4 r = lit "N/A" \/
     exists g, length g = 4 /\ payment_last4 r = lit "****" ++ g).
Proof.
  intros text order_no url.
  destruct (parse_order_page_fields text order_no url)
    as (r & E & _ & _ & _ & _ & _ & (l4 & E4 & Ep) & _).
  exists r. split; [exact E|].
  set (tn := normalize text) in *.
  pose proof (extract_last4_spec tn) as S.
  assert (W : search RE_ENDING_IN tn = None ->
              or_else (search RE_ENDING_IN (payment_window tn))
                      (search RE_ENDING_IN tn) = None).
  { intros N. unfold or_else.
    destruct (search RE_ENDING_IN (payment_window tn)) as [m|] eqn:Ew;
      [|exact N].
    exfalso. unfold payment_window in Ew.
    destruct (find (lit "payment method") (lower tn)) as [idx|];
      [|congruence].
    apply (search_slice RE_ENDING_IN idx (idx + 500) tn eq_refl);
      congruence. }
  assert (F : forall m,
            or_else (search RE_ENDING_IN (payment_window tn))
                    (search RE_ENDING_IN tn) = Some m ->
            exists g, group 1 m = Some g /\ length g = 4 /\
                      (isascii text = true -> all_digits g) /\
                      payment_last4 r = lit "****" ++ g).
  { intros m Em. rewrite Em in S. destruct S as (g & Eg & S).
    assert (G : length g = 4 /\ all_digits g).
    { apply or_else_search in Em as [Em|Em];
        exact (search_at_group RE_ENDING_IN last4_group _ None 0 m 1 g
                 RE_ENDING_IN_ok Em Eg eq_refl). }
    destruct G as [G1 G2]. exists g. repeat split; auto.
    rewrite Ep. rewrite S in E4. inversion E4; subst l4.
    apply payment_display_last4. destruct g; [discriminate|discriminate]. }
  assert (Z : search RE_ENDING_IN tn = None -> payment_last4 r = lit "N/A").
  { intros N. apply W in N. rewrite N in S. rewrite S in E4.
    inversion E4; subst l4. rewrite Ep. apply payment_display_none. }
  assert (Y : search RE_ENDING_IN tn <> None ->
              exists g, length g = 4 /\ payment_last4 r = lit "****" ++ g).
  { intros N.
    destruct (or_else (search RE_ENDING_IN (payment_window tn))
                      (search RE_ENDING_IN tn)) as [m|] eqn:Em.
    - destruct (F m eq_refl) as (g & _ & Lg & _ & Pg). exists g. auto.
    - unfold or_else in Em.
      destruct (search RE_ENDING_IN (payment_window tn)); congruence. }
  split; [exact Z|split; [exact F|split; [split|]]].
  - exact Y.
  - intros (g & _ & Eg) N. apply Z in N. rewrite N in Eg. discriminate.
  - assert (D : search RE_ENDING_IN tn = None \/ search RE_ENDING_IN tn <> None).
    { destruct (search RE_ENDING_IN tn); [right; discriminate|left; reflexivity]. }
    destruct D as [D|D]; [left; apply Z, D|right; apply Y, D].
Qed.

Lemma payment_display_needs_last4_witness :
  (first_brand PAYMENT_BRANDS
     (payment_window (normalize (lit "Payment method Visa"))) = Some (lit "Visa")
   /\ exists r,
        parse_order_page (lit "Payment method Visa") [] [] = Ok r /\
        payment_last4 r = lit "N/A") /\
  (exists r,
     parse_order_page (lit "Payment method  Visa ending in 1529 Total $5.00")
       [] [] = Ok r /\
     payment_last4 r = lit "****1529").
Proof.
  split; [split; [vm_compute; reflexivity|]|].
  - destruct (payment_display_needs_last4 (lit "Payment method Visa") [] [])
      as (r & E & H & _).
    exists r. split; [exact E|]. apply H. vm_compute. reflexivity.
  - destruct (payment_display_needs_last4
                (lit "Payment method  Visa ending in 1529 Total $5.00") [] [])
      as (r & E & _ & H & _).
    exists r. split; [exact E|].
    eassert (Eo : or_else
                    (search RE_ENDING_IN
                       (payment_window
                          (normalize
                             (lit "Payment method  Visa ending in 1529 Total $5.00"))))
                    (search RE_ENDING_IN
                       (normalize
                          (lit "Payment method  Visa ending in 1529 Total $5.00")))
                  = Some _) by (vm_compute; reflexivity).
    destruct (H _ Eo) as (g & Eg & _ & _ & Pg).
    rewrite Pg. vm_compute in Eg. inversion Eg. reflexivity.
Defined.

(** C3 as stated fails: "inf" is read by [float] as infinity, which is not a
    finite number. *)
Lemma money_to_float_inf_counterexample :
  money_to_float (lit "inf") = Ok (S754_infinity false) /\
  is_finite (S754_infinity false) = false.
Proof. split; vm_compute; reflexivity. Qed.

(** C3, as the code has it.  [money_to_float] never raises.  It returns 0.0
    for the empty string and whenever [float] rejects the cleaned remainder;
    "$1,234.56" gives 1234.56, "(12.34)" gives -12.34 and "-$5.00" gives
    -5.00.  The result is finite unless [float] reads the cleaned remainder
    as an infinity or a NaN ("inf", "infinity", "nan", or a number too large
    for a binary64): "inf" gives infinity, "nan" a NaN, and "1e999"
    infinity. *)
Theorem money_to_float_total_and_zero_on_failure :
  (forall value, exists x, money_to_float value = Ok x) /\
  money_to_float [] = Ok fzero /\
  money_to_float (lit "$1,234.56") = Ok (literal "1234.56") /\
  money_to_float (lit "(12.34)") = Ok (fneg (literal "12.34")) /\
  money_to_float (lit "-$5.00") = Ok (fneg (literal "5.00")) /\
  (forall value e,
     float (snd (clean value)) = Raise e -> money_to_float value = Ok fzero) /\
  (forall value x,
     money_to_float value = Ok x -> is_finite x = false ->
     exists y, float (snd (clean value)) = Ok y /\ is_finite y = false) /\
  money_to_float (lit "nan") = Ok S754_nan /\
  money_to_float (lit "1e999") = Ok (S754_infinity false).
Proof.
  split; [exact money_to_float_total|].
  split; [reflexivity|].
  split; [vm_compute; reflexivity|].
  split; [vm_compute; reflexivity|].
  split; [vm_compute; reflexivity|].
  split; [|split; [|split; vm_compute; reflexivity]].
  - intros value e H. unfold money_to_float.
    destruct value as [|c v]; [reflexivity|].
    destruct (clean (c :: v)) as [neg cleaned]. simpl in H.
    rewrite H. simpl. apply float_raises in H. subst e. reflexivity.
  - intros value x H N. unfold money_to_float in H.
    destruct value as [|c v].
    { inversion H; subst x. discriminate. }
    destruct (clean (c :: v)) as [neg cleaned]. simpl.
    destruct (float cleaned) as [y|e] eqn:F; simpl in H.
    + exists y. split; [reflexivity|]. inversion H; subst x.
      destruct neg; [|exact N]. destruct y; simpl in *; congruence.
    + apply float_raises in F. subst e. inversion H; subst x. discriminate.
Qed.

Lemma money_to_float_total_and_zero_on_failure_witness :
  money_to_float (lit "12.3.4") = Ok fzero /\
  (exists y, float (snd (clean (lit "(inf)"))) = Ok y /\ is_finite y = false).
Proof.
  destruct money_to_float_total_and_zero_on_failure
    as (_ & _ & _ & _ & _ & H1 & H2 & _).
  split.
  - apply (H1 (lit "12.3.4") ValueError). vm_compute. reflexivity.
  - apply (H2 (lit "(inf)") (S754_infinity true)); vm_compute; reflexivity.
Defined.

End PaymentAndMoneyClaims.
(* ================================================================== *)
(** * The decoder and the link unwrapper *)

Section DecoderClaims.
Import Py Re Spec Outlook OutlookSpec.

Variable unescape : str -> result str.
Variable unquote : str -> result str.
Variable check_bracketed_netloc : str -> result unit.

Lemma mem_In x l : mem x l = true <-> In x l.
Proof.
  unfold mem. rewrite existsb_exists. split.
  - intros (y & H & E). apply eqs_eq in E. congruence.
  - intros H. exists x. split; [exact H|apply eqs_refl].
Qed.

Lemma append_new_NoDup x l : NoDup l -> NoDup (append_new x l).
Proof.
  intros N. unfold append_new. destruct (mem x l) eqn:E; [exact N|].
  apply NoDup_app; [exact N|repeat constructor; intros []|].
  intros y Hy [<-|[]]. apply mem_In in Hy. congruence.
Qed.

Lemma append_new_hd x s l :
  hd_error (append_new x (s :: l)) = Some s.
Proof. unfold append_new. destruct (mem x (s :: l)); reflexivity. Qed.

Lemma append_new_length x l : length (append_new x l) <= S (length l).
Proof.
  unfold append_new. destruct (mem x l); [lia|].
  rewrite length_app. simpl. lia.
Qed.

Lemma collect_NoDup c : forall v, NoDup v -> NoDup (collect v c).
Proof.
  unfold collect. induction c as [|x c IH]; intros v N; simpl; [exact N|].
  apply IH, append_new_NoDup, N.
Qed.

Lemma collect_inv c : forall v s,
  hd_error v = Some s ->
  hd_error (collect v c) = Some s /\
  length (collect v c) <= length v + length c.
Proof.
  unfold collect. induction c as [|x c IH]; intros v s H; simpl.
  - split; [exact H|lia].
  - destruct v as [|s' v]; [discriminate|]. inversion H; subst s'.
    destruct (IH (append_new x (s :: v)) s (append_new_hd x s v)) as [H1 H2].
    split; [exact H1|].
    pose proof (append_new_length x (s :: v)). simpl in *. lia.
Qed.

Lemma unquote_rounds_length n : forall x,
  length (unquote_rounds unquote n x) <= n.
Proof.
  induction n as [|n IH]; intros x; simpl; [lia|].
  destruct (unquote x) as [u|e]; simpl; [|lia].
  specialize (IH u). lia.
Qed.

Lemma append_new_single h s :
  (if negb (eqs h s) then [s] ++ [h] else [s]) = append_new h [s].
Proof.
  unfold append_new, mem. simpl. rewrite orb_false_r.
  destruct (eqs h s); reflexivity.
Qed.

Lemma decode_refines s :
  s <> [] ->
  _decode_candidates unescape unquote s = decode_spec unescape unquote s.
Proof.
  intros N. destruct s as [|c s]; [congruence|].
  unfold _decode_candidates, decode_spec, collect.
  destruct (unescape (c :: s)) as [h|e]; [|reflexivity].
  rewrite append_new_single. simpl.
  generalize (append_new h [c :: s]) as v. intros v.
  destruct (unquote h) as [u1|e1]; [|reflexivity]. simpl.
  destruct (unquote u1) as [u2|e2]; [|reflexivity]. simpl.
  destruct (unquote u2) as [u3|e3]; reflexivity.
Qed.

(** C5, as the code has it.  For the empty string the decoder returns the
    empty sequence.  For every other string [s] it returns, in order, [s],
    the unescaped form if it differs from [s], and the results of up to
    three successive rounds of percent-decoding of the unescaped form, each
    only if it differs from all the variants collected before; so the result
    starts with [s], has no repetition and at most five entries.  The
    decoder itself never raises: when unescaping or a round of decoding
    raises, the variants collected up to there are returned (only [s] when
    unescaping raises). *)
Theorem decode_candidates_contract :
  _decode_candidates unescape unquote [] = [] /\
  forall s, s <> [] ->
    _decode_candidates unescape unquote s = decode_spec unescape unquote s /\
    hd_error (_decode_candidates unescape unquote s) = Some s /\
    NoDup (_decode_candidates unescape unquote s) /\
    length (_decode_candidates unescape unquote s) <= 5 /\
    (forall e, unescape s = Raise e ->
               _decode_candidates unescape unquote s = [s]) /\
    (forall h e, unescape s = Ok h -> unquote h = Raise e ->
                 _decode_candidates unescape unquote s = append_new h [s]).
Proof.
  split; [reflexivity|]. intros s N.
  rewrite (decode_refines s N). split; [reflexivity|].
  unfold decode_spec.
  destruct (unescape s) as [h|e] eqn:Eh.
  - destruct (collect_inv (h :: unquote_rounds unquote 3 h) [s] s eq_refl)
      as [H1 H2].
    pose proof (unquote_rounds_length 3 h) as L.
    split; [exact H1|]. split.
    { apply collect_NoDup. repeat constructor. intros []. }
    split.
    { eapply Nat.le_trans; [exact H2|]. cbn [length Nat.add].
      do 2 apply le_n_S. exact L. }
    split; [discriminate|].
    intros h' e E Eu. inversion E; subst h'.
    unfold collect. simpl. rewrite Eu. reflexivity.
  - split; [reflexivity|]. split.
    { repeat constructor. intros []. }
    split; [simpl; lia|]. split; [reflexivity|discriminate].
Qed.

(** ** The link unwrapper *)

Lemma safelinks_loop_emitted : forall ms out,
  safelinks_loop unquote check_bracketed_netloc ms out =
  out ++ emitted
           (map (unwrap unquote check_bracketed_netloc)
                (map (fun m => rstrip_chars TRAILING (m_text m)) ms)).
Proof.
  induction ms as [|m ms IH]; intros out; simpl.
  - symmetry. apply app_nil_r.
  - destruct (unwrap unquote check_bracketed_netloc _) as [l|e].
    + rewrite IH. symmetry. apply app_assoc.
    + symmetry. apply app_nil_r.
Qed.

Lemma emitted_In (f : str -> result (list str)) (l : list str) :
  all_ok (map f l) -> forall u lu x,
  In u l -> f u = Ok lu -> In x lu -> In x (emitted (map f l)).
Proof.
  unfold all_ok. induction l as [|v l IH]; intros A u lu x Hu Ef Hx;
    [contradiction|].
  simpl in A. inversion A as [|o os (lv & Ev) A']; subst.
  simpl. rewrite Ev. apply in_or_app.
  destruct Hu as [->|Hu].
  - left. congruence.
  - right. eapply IH; eauto.
Qed.

End DecoderClaims.

Section DecoderExamples.
Import Py Re Spec Outlook OutlookSpec.

(** C5 as stated fails on the empty string, for which the result does not
    start with the original string: it is empty. *)
Lemma decode_candidates_counterexample :
  ~ (forall (unescape unquote : str -> result str) (s : str),
       exists variants,
         _decode_candidates unescape unquote s = s :: variants).
Proof.
  intros H. destruct (H (fun s => Ok s) (fun s => Ok s) []) as (v & E).
  discriminate.
Qed.

Lemma decode_candidates_contract_witness :
  _decode_candidates (fun s => Ok s) (fun s => Ok (unquote_ascii s))
                     (lit "%252541")
  = [lit "%252541"; lit "%2541"; lit "%41"; lit "A"].
Proof.
  destruct (decode_candidates_contract
              (fun s => Ok s) (fun s => Ok (unquote_ascii s))) as (_ & H).
  destruct (H (lit "%252541") ltac:(discriminate)) as (E & _).
  rewrite E. vm_compute. reflexivity.
Defined.

End DecoderExamples.

Section UnwrapperClaims.
Import Py Re Spec Outlook OutlookSpec.

(** C6, as the code has it.  The URLs the scanner finds are handled from
    left to right, each after trimming trailing punctuation, until one of
    them makes [urlparse] or a decoding step raise; what was emitted up to
    there is returned.  A URL whose network location does not contain the
    redirector's host name is emitted as it is.  A URL whose network
    location contains it and whose query has a [url] parameter contributes
    the value of that parameter, as [parse_qs] gives it, percent-decoded
    three times, and not the wrapper URL; without such a parameter, or with
    an empty value, it contributes nothing.  For the wrapper that embeds
    https%3A%2F%2Fwww.walmart.ca%2Fen%2Forders%2F123456 the output is
    https://www.walmart.ca/en/orders/123456. *)
Theorem link_unwrapper_contract :
  forall (unquote : str -> result str)
         (check_bracketed_netloc : str -> result unit),
  let unwrap_ := unwrap unquote check_bracketed_netloc in
  let urlparse_ := urlparse check_bracketed_netloc in
  (forall s,
     _extract_urls_from_safelinks unquote check_bracketed_netloc s =
     emitted (map unwrap_ (found_urls s))) /\
  (forall url p,
     urlparse_ url = Ok p -> contains SAFELINKS_HOST (netloc p) = false ->
     unwrap_ url = Ok [url]) /\
  (forall url p qs target t1 t2 t3,
     urlparse_ url = Ok p -> contains SAFELINKS_HOST (netloc p) = true ->
     parse_qsl unquote (query p) = Ok qs ->
     first_value (lit "url") qs = Some target -> target <> [] ->
     unquote target = Ok t1 -> unquote t1 = Ok t2 -> unquote t2 = Ok t3 ->
     unwrap_ url = Ok [t3]) /\
  (forall url p qs,
     urlparse_ url = Ok p -> contains SAFELINKS_HOST (netloc p) = true ->
     parse_qsl unquote (query p) = Ok qs ->
     first_value (lit "url") qs = None \/ first_value (lit "url") qs = Some [] ->
     unwrap_ url = Ok []) /\
  (forall s url p,
     all_ok (map unwrap_ (found_urls s)) ->
     In url (found_urls s) ->
     urlparse_ url = Ok p -> contains SAFELINKS_HOST (netloc p) = false ->
     In url (_extract_urls_from_safelinks unquote check_bracketed_netloc s)) /\
  _extract_urls_from_safelinks
    (fun s => Ok (unquote_ascii s)) (fun _ => Ok tt)
    (lit "https://nam12.safelinks.protection.outlook.com/?url=https%3A%2F%2Fwww.walmart.ca%2Fen%2Forders%2F123456&data=05")
  = [lit "https://www.walmart.ca/en/orders/123456"].
Proof.
  intros unquote chk unwrap_ urlparse_.
  assert (A : forall s,
     _extract_urls_from_safelinks unquote chk s =
     emitted (map unwrap_ (found_urls s))).
  { intros s. destruct s as [|c s]; [reflexivity|].
    unfold _extract_urls_from_safelinks, found_urls.
    rewrite safelinks_loop_emitted. reflexivity. }
  assert (B : forall url p,
     urlparse_ url = Ok p -> contains SAFELINKS_HOST (netloc p) = false ->
     unwrap_ url = Ok [url]).
  { intros url p Ep Ec. unfold unwrap_, unwrap. fold urlparse_.
    rewrite Ep. cbn [bind]. rewrite Ec. reflexivity. }
  split; [exact A|]. split; [exact B|]. split; [|split; [|split]].
  - intros url p qs target t1 t2 t3 Ep Ec Eq Ef Nt E1 E2 E3.
    unfold unwrap_, unwrap. fold urlparse_. rewrite Ep. cbn [bind].
    rewrite Ec, Eq. cbn [bind]. rewrite Ef.
    destruct target as [|c target]; [congruence|]. cbn [is_nonempty].
    rewrite E1. cbn [bind]. rewrite E2. cbn [bind]. rewrite E3. reflexivity.
  - intros url p qs Ep Ec Eq Ef.
    unfold unwrap_, unwrap. fold urlparse_. rewrite Ep. cbn [bind].
    rewrite Ec, Eq. cbn [bind]. destruct Ef as [-> | ->]; reflexivity.
  - intros s url p Ok_ Hin Ep Ec. rewrite A.
    apply (emitted_In unwrap_ (found_urls s) Ok_ url [url] url Hin).
    + apply (B url p Ep Ec).
    + left. reflexivity.
  - vm_compute. reflexivity.
Qed.

Lemma link_unwrapper_contract_witness :
  In (lit "http://a.b/c")
     (_extract_urls_from_safelinks
        (fun s => Ok (unquote_ascii s)) (fun _ => Ok tt)
        (lit "see http://a.b/c). and https://x.safelinks.protection.outlook.com/?url=http%253A%252F%252Fd.e%252Forders%252F7&y=1")).
Proof.
  destruct (link_unwrapper_contract
              (fun s => Ok (unquote_ascii s)) (fun _ => Ok tt))
    as (_ & _ & _ & _ & H & _).
  apply (H _ (lit "http://a.b/c")
           {| scheme := lit "http"; netloc := lit "a.b"; path := lit "/c";
              query := []; fragment := [] |}).
  - vm_compute. repeat constructor; eexists; reflexivity.
  - vm_compute. left. reflexivity.
  - vm_compute. reflexivity.
  - vm_compute. reflexivity.
Defined.

(** C6 as stated fails: the scanner finds a URL whose host is the
    redirector, but its query has no [url] parameter; nothing is emitted for
    it, neither a decoded target nor the wrapper. *)
Lemma link_unwrapper_counterexample :
  found_urls (lit "https://nam12.safelinks.protection.outlook.com/?data=05")
  = [lit "https://nam12.safelinks.protection.outlook.com/?data=05"] /\
  _extract_urls_from_safelinks
    (fun s => Ok (unquote_ascii s)) (fun _ => Ok tt)
    (lit "https://nam12.safelinks.protection.outlook.com/?data=05") = [].
Proof. split; vm_compute; reflexivity. Qed.

End UnwrapperClaims.
(* ================================================================== *)
(** * The identifier extractor *)

Section OrderFacts.
Import Py Re Spec Outlook OutlookSpec.

Lemma code_inj x y : code x = code y -> x = y.
Proof.
  unfold code. intros H.
  rewrite <- (ascii_nat_embedding x), <- (ascii_nat_embedding y), H.
  reflexivity.
Qed.

Lemma str_le_total a : forall b, str_le a b \/ str_le b a.
Proof.
  unfold str_le.
  induction a as [|x a IH]; intros [|y b]; simpl; auto.
  destruct (code x <? code y) eqn:E1; [auto|].
  destruct (code y <? code x) eqn:E2; [auto|]. apply IH.
Qed.

Lemma str_le_trans a : forall b c, str_le a b -> str_le b c -> str_le a c.
Proof.
  unfold str_le.
  induction a as [|x a IH]; intros [|y b] [|z c]; simpl; auto;
    try discriminate.
  destruct (code x <? code y) eqn:E1; destruct (code y <? code z) eqn:E2;
    destruct (code x <? code z) eqn:E3; destruct (code y <? code x) eqn:E4;
    destruct (code z <? code y) eqn:E5; destruct (code z <? code x) eqn:E6;
    try rewrite Nat.ltb_lt in *; try rewrite Nat.ltb_ge in *;
    intros H1 H2; try discriminate; try reflexivity; try lia.
  eapply IH; eauto.
Qed.

Lemma str_le_antisym a : forall b, str_le a b -> str_le b a -> a = b.
Proof.
  unfold str_le.
  induction a as [|x a IH]; intros [|y b]; simpl; auto; try discriminate.
  destruct (code x <? code y) eqn:E1; destruct (code y <? code x) eqn:E2;
    try rewrite Nat.ltb_lt in *; try rewrite Nat.ltb_ge in *;
    intros H1 H2; try discriminate; try lia.
  f_equal; [apply code_inj; lia|apply IH; assumption].
Qed.

Lemma insert_sorted_perm x l : Permutation (insert_sorted x l) (x :: l).
Proof.
  induction l as [|y l IH]; simpl; [reflexivity|].
  destruct (str_leb x y); [reflexivity|].
  rewrite IH. apply perm_swap.
Qed.

Lemma insert_sorted_sorted x l :
  Sorted str_le l -> Sorted str_le (insert_sorted x l).
Proof.
  induction l as [|y l IH]; intros S; simpl.
  - repeat constructor.
  - destruct (str_leb x y) eqn:E.
    + constructor; [exact S|constructor; exact E].
    + inversion S as [|? ? S' H]; subst.
      constructor; [apply IH, S'|].
      assert (Lyx : str_le y x).
      { destruct (str_le_total x y) as [T|T]; [unfold str_le in T; congruence|exact T]. }
      destruct l as [|z l]; simpl.
      * constructor. exact Lyx.
      * destruct (str_leb x z); constructor; [exact Lyx|].
        inversion H; assumption.
Qed.

Lemma sorted_perm l : Permutation (sorted l) l.
Proof.
  induction l as [|x l IH]; simpl; [reflexivity|].
  rewrite insert_sorted_perm, IH. reflexivity.
Qed.

Lemma sorted_sorted l : Sorted str_le (sorted l).
Proof.
  induction l as [|x l IH]; simpl; [constructor|].
  apply insert_sorted_sorted, IH.
Qed.

(** Two ascending lists with the same elements are the same list. *)
Lemma sorted_unique l1 : forall l2,
  Sorted str_le l1 -> Sorted str_le l2 -> Permutation l1 l2 -> l1 = l2.
Proof.
  induction l1 as [|x l1 IH]; intros l2 S1 S2 P.
  - apply Permutation_nil in P. congruence.
  - destruct l2 as [|y l2].
    { apply Permutation_sym, Permutation_nil in P. discriminate. }
    assert (T : Relations_1.Transitive str_le).
    { intros a b c. apply str_le_trans. }
    apply Sorted_StronglySorted in S1; [|exact T].
    apply Sorted_StronglySorted in S2; [|exact T].
    inversion S1 as [|? ? S1' F1]; inversion S2 as [|? ? S2' F2]; subst.
    assert (E : x = y).
    { assert (I1 : In y (x :: l1)).
      { apply (Permutation_in y (Permutation_sym P)). left. reflexivity. }
      assert (I2 : In x (y :: l2)).
      { apply (Permutation_in x P). left. reflexivity. }
      rewrite Forall_forall in F1, F2.
      destruct I1 as [I1|I1]; [congruence|].
      destruct I2 as [I2|I2]; [congruence|].
      apply str_le_antisym; auto. }
    subst y. f_equal.
    apply IH; try (apply StronglySorted_Sorted; assumption).
    apply (Permutation_cons_inv P).
Qed.

(** ** What is collected *)

Lemma ORDER_RE_ok : grp_ok digits_group ORDER_RE.
Proof.
  cbn -[lang]. repeat match goal with |- _ /\ _ => split end; try exact I.
  intros w L _. apply lang_plus_cls in L. exact L.
Qed.

Lemma order_numbers_in_identifier s g :
  In g (order_numbers_in s) -> is_identifier g.
Proof.
  unfold order_numbers_in. intros H.
  apply in_flat_map in H as (m & Hm & Hg).
  destruct (group 1 m) as [g'|] eqn:Eg; [|contradiction].
  destruct Hg as [<-|[]].
  apply finditer_at_In in Hm as (p' & s' & Es).
  exact (search_at_group ORDER_RE digits_group s' p' 0 m 1 g'
           ORDER_RE_ok Es Eg eq_refl).
Qed.

Lemma set_add_collected g numbers :
  is_identifier g -> collected numbers -> collected (set_add g numbers).
Proof.
  intros Ig [N F]. unfold set_add. destruct (mem g numbers) eqn:E.
  - split; assumption.
  - split.
    + apply NoDup_app; [exact N|repeat constructor; intros []|].
      intros y Hy [<-|[]]. apply mem_In in Hy. congruence.
    + apply Forall_app. split; [exact F|].
      constructor; [exact Ig|constructor].
Qed.

Lemma fold_set_add_collected gs : forall numbers,
  Forall is_identifier gs -> collected numbers ->
  collected (fold_left (fun acc g => set_add g acc) gs numbers).
Proof.
  induction gs as [|g gs IH]; intros numbers F C; simpl; [exact C|].
  inversion F; subst. apply IH; [assumption|].
  apply set_add_collected; assumption.
Qed.

Section Library.
Variable unescape : str -> result str.
Variable unquote : str -> result str.
Variable check_bracketed_netloc : str -> result unit.

Lemma scan_message_collected subject_exact it numbers :
  collected numbers ->
  collected (scan_message unescape unquote check_bracketed_netloc
               subject_exact it numbers).
Proof.
  intros C. unfold scan_message.
  destruct (Subject it) as [subject|e]; [|exact C].
  match goal with |- collected (if ?b then _ else _) => destruct b end;
    [exact C|].
  apply fold_set_add_collected; [|exact C].
  apply Forall_forall. intros g Hg.
  apply in_flat_map in Hg as (s & _ & Hg).
  apply order_numbers_in_identifier in Hg. exact Hg.
Qed.

Lemma scan_items_collected subject_exact items k : forall i numbers,
  collected numbers ->
  collected (scan_items unescape unquote check_bracketed_netloc
               subject_exact items i k numbers).
Proof.
  induction k as [|k IH]; intros i numbers C; simpl; [exact C|].
  apply IH. destruct (Item items i) as [it|e]; [|exact C].
  apply scan_message_collected, C.
Qed.

End Library.

End OrderFacts.

Section Captures.
Import Py Re Spec Outlook OutlookSpec.

Variable P : str -> Prop.
Hypothesis P_capture : forall s g, In g (order_numbers_in s) -> P g.

Lemma fold_set_add_forall gs : forall numbers,
  Forall P gs -> Forall P numbers ->
  Forall P (fold_left (fun acc g => set_add g acc) gs numbers).
Proof.
  induction gs as [|g gs IH]; intros numbers F C; simpl; [exact C|].
  inversion F; subst. apply IH; [assumption|].
  unfold set_add. destruct (mem g numbers); [exact C|].
  apply Forall_app. split; [exact C|]. constructor; [assumption|constructor].
Qed.

Variable unescape : str -> result str.
Variable unquote : str -> result str.
Variable check_bracketed_netloc : str -> result unit.

Lemma scan_message_forall subject_exact it numbers :
  Forall P numbers ->
  Forall P (scan_message unescape unquote check_bracketed_netloc
              subject_exact it numbers).
Proof.
  intros C. unfold scan_message.
  destruct (Subject it) as [subject|e]; [|exact C].
  match goal with |- Forall P (if ?b then _ else _) => destruct b end;
    [exact C|].
  apply fold_set_add_forall; [|exact C].
  apply Forall_forall. intros g Hg.
  apply in_flat_map in Hg as (s & _ & Hg). apply (P_capture s g Hg).
Qed.

Lemma scan_items_forall subject_exact items k : forall i numbers,
  Forall P numbers ->
  Forall P (scan_items unescape unquote check_bracketed_netloc
              subject_exact items i k numbers).
Proof.
  induction k as [|k IH]; intros i numbers C; simpl; [exact C|].
  apply IH. destruct (Item items i) as [it|e]; [|exact C].
  apply scan_message_forall, C.
Qed.

(** Every number of the result was captured in some text. *)
Lemma extract_forall set_iter items subject_exact :
  (forall l, Permutation (set_iter l) l) ->
  Forall P (extract_order_numbers_from_items unescape unquote
              check_bracketed_netloc set_iter items subject_exact).
Proof.
  intros Hp. unfold extract_order_numbers_from_items.
  destruct items as [items|]; [|constructor].
  apply (Permutation_Forall (Permutation_sym (sorted_perm _))).
  apply (Permutation_Forall (Permutation_sym (Hp _))).
  destruct (Count items) as [n|e]; [|constructor].
  apply scan_items_forall. constructor.
Qed.

End Captures.

Section CaptureFacts.
Import Py Re Spec Outlook OutlookSpec.

Lemma order_numbers_in_capture s g :
  In g (order_numbers_in s) -> link_capture g.
Proof.
  unfold order_numbers_in. intros H.
  apply in_flat_map in H as (m & Hm & Hg).
  destruct (group 1 m) as [g'|] eqn:Eg; [|contradiction].
  destruct Hg as [<-|[]]. exists s, m. auto.
Qed.

End CaptureFacts.

Section ExtractorClaims.
Import Py Re Spec Outlook OutlookSpec.

(** C7. For a fixed message collection and subject filter, the result of the
    identifier extractor does not depend on the order in which the set of
    collected numbers is iterated (the one thing that differs between two
    runs); it is ascending in the order of strings and has no duplicates.
    Each of its entries is what the digit group [(\d+)] of the order pattern
    captured in some text: a non-empty string, made of the digits 0 to 9
    when it is made of ASCII characters. *)
Theorem identifier_extractor_deterministic :
  forall (unescape unquote : str -> result str)
         (check_bracketed_netloc : str -> result unit)
         (set_iter1 set_iter2 : list str -> list str)
         (items : option collection) (subject_exact : option str),
  (forall l, Permutation (set_iter1 l) l) ->
  (forall l, Permutation (set_iter2 l) l) ->
  let run1 := extract_order_numbers_from_items unescape unquote
                check_bracketed_netloc set_iter1 items subject_exact in
  let run2 := extract_order_numbers_from_items unescape unquote
                check_bracketed_netloc set_iter2 items subject_exact in
  run1 = run2 /\
  Sorted str_le run1 /\ NoDup run1 /\
  Forall link_capture run1 /\ Forall digits_if_ascii run1.
Proof.
  intros unescape unquote chk it1 it2 items subject_exact P1 P2 run1 run2.
  pose proof (extract_forall link_capture order_numbers_in_capture
                unescape unquote chk it1 items subject_exact P1) as Fc.
  fold run1 in Fc. revert Fc.
  subst run1 run2. unfold extract_order_numbers_from_items. intros Fc.
  destruct items as [items|].
  2:{ repeat split; constructor. }
  revert Fc.
  set (numbers := match Count items with
                  | Ok n => scan_items unescape unquote chk subject_exact
                              items 1 n []
                  | Raise _ => []
                  end).
  assert (C : collected numbers).
  { subst numbers. destruct (Count items) as [n|e].
    - apply scan_items_collected. split; constructor.
    - split; constructor. }
  destruct C as [N F]. intros Fc.
  assert (Q1 : Permutation (sorted (it1 numbers)) numbers).
  { rewrite sorted_perm. apply P1. }
  assert (Q2 : Permutation (sorted (it2 numbers)) numbers).
  { rewrite sorted_perm. apply P2. }
  split; [|split; [|split; [|split]]].
  - apply sorted_unique; try apply sorted_sorted.
    rewrite Q1, Q2. reflexivity.
  - apply sorted_sorted.
  - apply (Permutation_NoDup (Permutation_sym Q1) N).
  - exact Fc.
  - apply (Permutation_Forall (Permutation_sym Q1)).
    eapply Forall_impl; [|exact F].
    intros n [Nn Dn]. split; [exact Nn|intros _; exact Dn].
Qed.

Lemma identifier_extractor_deterministic_witness :
  extract_order_numbers_from_items
    (fun s => Ok s) (fun s => Ok (unquote_ascii s)) (fun _ => Ok tt)
    (fun l => l) (Some example_inbox)
    (Some (lit "Your Walmart order was delivered"))
  = extract_order_numbers_from_items
      (fun s => Ok s) (fun s => Ok (unquote_ascii s)) (fun _ => Ok tt)
      (@rev str) (Some example_inbox)
      (Some (lit "Your Walmart order was delivered"))
  /\ extract_order_numbers_from_items
       (fun s => Ok s) (fun s => Ok (unquote_ascii s)) (fun _ => Ok tt)
       (@rev str) (Some example_inbox)
       (Some (lit "Your Walmart order was delivered"))
     = [lit "1234"; lit "987"].
Proof.
  split; [|vm_compute; reflexivity].
  apply (identifier_extractor_deterministic
           (fun s => Ok s) (fun s => Ok (unquote_ascii s)) (fun _ => Ok tt)
           (fun l => l) (@rev str) (Some example_inbox)
           (Some (lit "Your Walmart order was delivered"))).
  - intros l. apply Permutation_refl.
  - intros l. apply Permutation_sym, Permutation_rev.
Defined.

End ExtractorClaims.
(* ================================================================== *)
(** * The period *)

Section PeriodFacts.
Import Py Re Spec Outlook OutlookSpec.

Lemma lang_one_or_two_digits w :
  lang (rep 1 2 d) w -> (length w = 1 \/ length w = 2) /\ all_digits w.
Proof.
  intros L. destruct L as (w1 & w2 & -> & (c1 & -> & H1) & L).
  destruct L as [(w3 & w4 & -> & (c2 & -> & H2) & ->)| ->].
  - split; [right; reflexivity|]. unfold all_digits. simpl.
    rewrite H1, H2. reflexivity.
  - split; [left; reflexivity|]. unfold all_digits. simpl.
    rewrite H1. reflexivity.
Qed.

Lemma four_digits_lang y :
  length y = 4 -> all_digits y -> lang (times 4 d) y.
Proof.
  intros L D. destruct y as [|a [|b [|c [|e [|]]]]]; try discriminate.
  unfold all_digits in D. simpl in D.
  repeat (apply andb_true_iff in D as [? D]).
  exists [a], [b; c; e]. split; [reflexivity|]. split; [exists a; auto|].
  exists [b], [c; e]. split; [reflexivity|]. split; [exists b; auto|].
  exists [c], [e]. split; [reflexivity|]. split; [exists c; auto|].
  exists e; auto.
Qed.

Lemma one_or_two_digits_lang m :
  length m = 1 \/ length m = 2 -> all_digits m -> lang (rep 1 2 d) m.
Proof.
  intros L D. unfold all_digits in D.
  destruct m as [|a [|b [|]]]; simpl in L; try (destruct L; discriminate);
    simpl in D; repeat (apply andb_true_iff in D as [? D]).
  - exists [a], []. split; [reflexivity|]. split; [exists a; auto|].
    right. reflexivity.
  - exists [a], [b]. split; [reflexivity|]. split; [exists a; auto|].
    left. exists [b], []. split; [reflexivity|]. split; [exists b; auto|].
    reflexivity.
Qed.

Lemma app_inv_length (a a' b b' : str) :
  a ++ b = a' ++ b' -> length a = length a' -> a = a' /\ b = b'.
Proof.
  revert a'. induction a as [|x a IH]; intros [|x' a'] E L;
    simpl in *; try discriminate; auto.
  inversion E; subst. destruct (IH a' H1) as [-> ->]; [lia|auto].
Qed.

(** What a full match of the period pattern says about the string and the
    two groups. *)
Lemma fullmatch_period_inv s m :
  fullmatch RE_PERIOD s = Some m ->
  exists y mo, period_form s y mo /\ group 1 m = Some y /\ group 2 m = Some mo.
Proof.
  intros H. apply fullmatch_some in H as (st' & H & Er & ->).
  change RE_PERIOD
    with (Seq (Grp 1 (times 4 d)) (Seq (chr "-") (Grp 2 (rep 1 2 d)))) in H.
  cbn [run] in H.
  apply in_flat_map in H as (st1 & H1 & H).
  apply in_flat_map in H as (st2 & H2 & H3).
  apply in_map_iff in H1 as (sA & <- & HA).
  apply in_map_iff in H3 as (sB & <- & HB).
  pose proof (run_sound _ _ _ HA) as (y & Ey & Ly).
  pose proof (run_groupless (times 4 d) eq_refl _ _ HA) as Ca.
  pose proof (run_sound _ _ _ H2) as (w & Ew & Lw).
  pose proof (run_groupless (chr "-") eq_refl _ _ H2) as Cw.
  pose proof (run_sound _ _ _ HB) as (mo & Em & Lm).
  pose proof (run_groupless (rep 1 2 d) eq_refl _ _ HB) as Cb.
  apply lang_chr in Lw. subst w.
  apply lang_four_digits in Ly as [Ly Dy].
  apply lang_one_or_two_digits in Lm as [Lm Dm].
  simpl in Er, Ey, Ew, Ca, Cw. rewrite Er, app_nil_r in Em.
  exists y, mo. split; [|split].
  - split; [|auto]. rewrite Ey, Ew, Em. reflexivity.
  - unfold group. simpl. rewrite Cb, Cw. simpl.
    rewrite Ey, consumed_app. reflexivity.
  - unfold group. simpl. rewrite Em, Er. unfold consumed. simpl.
    rewrite Nat.sub_0_r, firstn_all. reflexivity.
Qed.

Lemma fullmatch_period_form s y mo :
  period_form s y mo ->
  exists m, fullmatch RE_PERIOD s = Some m /\
            group 1 m = Some y /\ group 2 m = Some mo.
Proof.
  intros (-> & Ly & Dy & Lm & Dm).
  assert (L : lang RE_PERIOD (y ++ "-"%char :: mo)).
  { exists y, ("-"%char :: mo). split; [reflexivity|].
    split; [apply four_digits_lang; assumption|].
    exists ["-"%char], mo. split; [reflexivity|].
    split; [exists "-"%char; auto|].
    apply one_or_two_digits_lang; assumption. }
  destruct (run_complete RE_PERIOD eq_refl _ L None [] []) as (st' & H & Er).
  rewrite app_nil_r in H.
  destruct (fullmatch RE_PERIOD (y ++ "-"%char :: mo)) as [m|] eqn:E.
  - exists m. split; [reflexivity|].
    destruct (fullmatch_period_inv _ _ E) as (y' & mo' & (E' & Ly' & _) & G1 & G2).
    apply app_inv_length in E' as [<- E']; [|congruence].
    inversion E'; subst mo'. auto.
  - exfalso. unfold fullmatch in E.
    assert (I : In st' (filter at_end
                 (run RE_PERIOD (start_state None (y ++ "-"%char :: mo))))).
    { apply filter_In. split; [exact H|]. unfold at_end. rewrite Er.
      reflexivity. }
    destruct (filter at_end _); [contradiction|discriminate].
Qed.

Lemma digit_val_bound c : is_digit c = true -> (digit_val c <= 9)%N.
Proof.
  unfold is_digit, in_range, digit_val. intros H.
  apply andb_true_iff in H as [H1 H2].
  apply Nat.leb_le in H1, H2. lia.
Qed.

Lemma int_of_four_digits y :
  length y = 4 -> all_digits y -> (0 <= int_of y <= 9999)%Z.
Proof.
  intros L D. destruct y as [|a [|b [|c [|e [|]]]]]; try discriminate.
  unfold all_digits in D. simpl in D.
  repeat (apply andb_true_iff in D as [? D]).
  unfold int_of, digits_val. cbn [fold_left].
  pose proof (digit_val_bound a ltac:(assumption)).
  pose proof (digit_val_bound b ltac:(assumption)).
  pose proof (digit_val_bound c ltac:(assumption)).
  pose proof (digit_val_bound e ltac:(assumption)). lia.
Qed.

Lemma mk_datetime_midnight y m :
  (1 <= y <= 9999)%Z -> (1 <= m <= 12)%Z ->
  mk_datetime y m 1 0 0 0 = Ok (midnight y m).
Proof.
  intros Hy Hm. unfold mk_datetime, between, midnight.
  assert (D : (1 <=? days_in_month y m)%Z = true).
  { unfold days_in_month.
    destruct (m =? 2)%Z; [destruct (is_leap y); reflexivity|].
    destruct (_ || _)%bool; reflexivity. }
  rewrite D.
  replace (1 <=? y)%Z with true by (symmetry; apply Z.leb_le; lia).
  replace (y <=? 9999)%Z with true by (symmetry; apply Z.leb_le; lia).
  replace (1 <=? m)%Z with true by (symmetry; apply Z.leb_le; lia).
  replace (m <=? 12)%Z with true by (symmetry; apply Z.leb_le; lia).
  reflexivity.
Qed.

Lemma parse_period_form period y mo :
  period_form (strip period) y mo ->
  _parse_period period =
  if negb (between 1 (int_of mo) 12) then Ok None
  else
    start <- mk_datetime (int_of y) (int_of mo) 1 0 0 0 ;;
    end_ <- (if (int_of mo =? 12)%Z
             then mk_datetime (int_of y + 1) 1 1 0 0 0
             else mk_datetime (int_of y) (int_of mo + 1) 1 0 0 0) ;;
    Ok (Some (start, end_)).
Proof.
  intros F. destruct (fullmatch_period_form _ _ _ F) as (m & E & G1 & G2).
  unfold _parse_period, group_str. rewrite E, G1, G2. reflexivity.
Qed.

End PeriodFacts.

Section PeriodClaims.
Import Py Re Spec Outlook OutlookSpec Main.

(** C9, as the code has it.  A period is read after trimming blanks at both
    ends.  A period of ASCII characters is rejected (no range; the pipeline
    exits with a non-zero status) when it is not four digits, a hyphen and
    one or two digits; and a period of that form is rejected when its month
    is outside 1..12.  For every other period of that form, of year 1 to
    9999, December 9999 apart, the range runs from the first instant of the
    month (inclusive) to the first instant of the next month (exclusive),
    December of year Y rolling over to January of year Y+1; that range is
    what the mail filter is given. *)
Theorem period_validation :
  (forall period,
     isascii period = true ->
     (forall y m, ~ period_form (strip period) y m) ->
     _parse_period period = Ok None) /\
  (forall period y m,
     period_form (strip period) y m ->
     ~ (1 <= int_of m <= 12)%Z ->
     _parse_period period = Ok None) /\
  (forall period y m,
     period_form (strip period) y m ->
     (1 <= int_of m <= 12)%Z -> (1 <= int_of y)%Z ->
     ~ (int_of y = 9999 /\ int_of m = 12)%Z ->
     _parse_period period =
     Ok (Some (midnight (int_of y) (int_of m),
               next_month (int_of y) (int_of m)))) /\
  (forall fld period start end_ its c,
     _parse_period period = Ok (Some (start, end_)) ->
     Items fld = Ok its -> Sort its = Ok tt ->
     Restrict its {| since := start; before := end_ |} = Ok c ->
     get_items_for_period fld period = Ok (Some c)) /\
  (forall unescape unquote check_bracketed_netloc set_iter subject w period,
     _parse_period period = Ok None ->
     exit_status (run_pipeline unescape unquote check_bracketed_netloc
                    set_iter subject w period) <> 0%Z).
Proof.
  split; [|split; [|split; [|split]]].
  - intros period _ N. unfold _parse_period.
    destruct (fullmatch RE_PERIOD (strip period)) as [m|] eqn:E;
      [|reflexivity].
    apply fullmatch_period_inv in E as (y & mo & F & _).
    destruct (N y mo F).
  - intros period y m F N. rewrite (parse_period_form period y m F).
    unfold between.
    destruct (1 <=? int_of m)%Z eqn:E1; [|reflexivity].
    destruct (int_of m <=? 12)%Z eqn:E2; [|reflexivity].
    apply Z.leb_le in E1, E2. lia.
  - intros period y m F Hm Hy N. rewrite (parse_period_form period y m F).
    destruct F as (_ & Ly & Dy & _).
    pose proof (int_of_four_digits y Ly Dy) as By.
    unfold between.
    replace (1 <=? int_of m)%Z with true by (symmetry; apply Z.leb_le; lia).
    replace (int_of m <=? 12)%Z with true by (symmetry; apply Z.leb_le; lia).
    cbn [andb negb].
    rewrite mk_datetime_midnight by lia. cbn [bind].
    unfold next_month.
    destruct (int_of m =? 12)%Z eqn:E12.
    + apply Z.eqb_eq in E12. rewrite mk_datetime_midnight by lia. reflexivity.
    + apply Z.eqb_neq in E12. rewrite mk_datetime_midnight by lia. reflexivity.
  - intros fld period start end_ its c Ep Ei Es Er.
    unfold get_items_for_period. rewrite Ep. cbn [bind].
    rewrite Ei. cbn [bind]. rewrite Es. cbn [bind]. rewrite Er. reflexivity.
  - intros unescape unquote chk set_iter subject w period Ep.
    unfold run_pipeline, get_items_for_period. rewrite Ep. cbn [bind].
    destruct (mkdir_output w); [|discriminate].
    destruct (connect_outlook w); [|discriminate].
    destruct (get_folder_by_path w) as [fld|]; [|discriminate].
    destruct (its <- Items fld;; Count (members its)); discriminate.
Qed.

Lemma period_validation_witness :
  _parse_period (lit " 2025-12 ")
  = Ok (Some (midnight 2025 12, midnight 2026 1)) /\
  _parse_period (lit "2025-13") = Ok None /\
  _parse_period (lit "2025/12") = Ok None.
Proof.
  destruct period_validation as (H1 & H2 & H3 & _).
  split; [|split].
  - apply (H3 (lit " 2025-12 ") (lit "2025") (lit "12")).
    + repeat split; auto.
    + vm_compute. split; discriminate.
    + vm_compute. discriminate.
    + vm_compute. intros [E _]. discriminate.
  - apply (H2 (lit "2025-13") (lit "2025") (lit "13")).
    + repeat split; auto.
    + vm_compute. intros [_ E]. apply E. reflexivity.
  - apply (H1 (lit "2025/12")); [reflexivity|]. intros y m (E & Ly & _).
    vm_compute in E.
    destruct y as [|a [|b [|c [|e [|]]]]]; try discriminate.
Defined.

(** C9 as stated fails: "2025-1" is not in the form YYYY-MM, yet it is
    accepted and read as January 2025. *)
Lemma period_validation_counterexample :
  ~ yyyy_mm (lit "2025-1") /\
  _parse_period (lit "2025-1") = Ok (Some (midnight 2025 1, midnight 2025 2)).
Proof.
  split; [|vm_compute; reflexivity].
  intros (y & m & E & Ly & _ & Lm & _).
  apply (f_equal (@length ascii)) in E. rewrite length_app in E.
  simpl in E. rewrite Ly, Lm in E. discriminate.
Qed.

End PeriodClaims.
(* ================================================================== *)
(** * More on the money normaliser and the file names *)

Section ClassSubstitution.
Import Py Re Spec.

Lemma consumed_one (c : ascii) (s : str) : consumed (c :: s) s = [c].
Proof.
  unfold consumed. simpl length.
  replace (S (length s) - length s) with 1 by lia. reflexivity.
Qed.

(** Where a one-character pattern is found, and what the match is. *)
Lemma search_cls_some f : forall pre c s p i,
  forallb (fun x => negb (f x)) pre = true -> f c = true ->
  search_at (Cls f) p (pre ++ c :: s) i
  = Some (RMatch (i + length pre) [c] [] (Some c) s).
Proof.
  induction pre as [|x pre IH]; intros c s p i Hpre Hc.
  - rewrite search_at_unfold. simpl. rewrite Hc. unfold match_of. simpl.
    rewrite consumed_one, Nat.add_0_r. reflexivity.
  - simpl in Hpre. apply andb_true_iff in Hpre as [Hx Hpre].
    apply negb_true_iff in Hx.
    rewrite search_at_unfold. simpl. rewrite Hx.
    rewrite (IH c s (Some x) (S i) Hpre Hc).
    replace (S i + length pre) with (i + S (length pre)) by lia. reflexivity.
Qed.

Lemma span_split (f : ascii -> bool) : forall s,
  exists pre t, s = pre ++ t /\ forallb (fun x => negb (f x)) pre = true /\
                match t with [] => True | c :: _ => f c = true end.
Proof.
  induction s as [|x s (pre & t & E & Hp & Ht)].
  - exists [], []. auto.
  - destruct (f x) eqn:Hx.
    + exists [], (x :: s). simpl. auto.
    + exists (x :: pre), t. simpl. rewrite Hx, Hp, E. auto.
Qed.

Lemma flat_map_keep (f : ascii -> bool) (repl : str) : forall pre,
  forallb (fun x => negb (f x)) pre = true ->
  flat_map (fun c => if f c then repl else [c]) pre = pre.
Proof.
  induction pre as [|x pre IH]; simpl; intros H; [reflexivity|].
  apply andb_true_iff in H as [Hx H]. apply negb_true_iff in Hx.
  rewrite Hx, (IH H). reflexivity.
Qed.

Lemma sub_at_cls f repl : forall fuel s p,
  length s < fuel ->
  sub_at (Cls f) repl fuel p s
  = flat_map (fun c => if f c then repl else [c]) s.
Proof.
  induction fuel as [|fuel IH]; intros s p Hl; [lia|].
  destruct (span_split f s) as (pre & t & E & Hp & Ht). subst s.
  destruct t as [|c t].
  - rewrite app_nil_r in *. simpl.
    rewrite (search_cls_none f pre p 0 Hp), flat_map_keep; auto.
  - cbn [sub_at]. rewrite (search_cls_some f pre c t p 0 Hp Ht).
    cbn [m_start m_text m_rest m_prev]. simpl Nat.add.
    rewrite firstn_app, firstn_all, Nat.sub_diag, app_nil_r.
    rewrite flat_map_app, (flat_map_keep f repl pre Hp). simpl flat_map.
    rewrite Ht. f_equal. f_equal. apply IH.
    rewrite length_app in Hl. simpl in Hl. lia.
Qed.

(** Substituting for the characters of a class replaces each of them. *)
Lemma sub_cls f repl s :
  sub (Cls f) repl s = flat_map (fun c => if f c then repl else [c]) s.
Proof. unfold sub. apply sub_at_cls. lia. Qed.

Lemma sub_cls_delete f s : sub (Cls f) [] s = filter (fun c => negb (f c)) s.
Proof.
  rewrite sub_cls. induction s as [|x s IH]; simpl; [reflexivity|].
  destruct (f x); simpl; rewrite IH; reflexivity.
Qed.

Lemma sub_cls_map f (r : ascii) s :
  sub (Cls f) [r] s = map (fun c => if f c then r else c) s.
Proof.
  rewrite sub_cls. induction s as [|x s IH]; simpl; [reflexivity|].
  destruct (f x); simpl; rewrite IH; reflexivity.
Qed.

End ClassSubstitution.
Section MoneyMore.
Import Py Re Spec Utils.

Lemma noise_space c : is_space c = true -> money_noise c = true.
Proof.
  intros H. unfold money_noise. rewrite H. destruct (eqc c "$"); reflexivity.
Qed.

Lemma filter_lstrip (p q : ascii -> bool) :
  (forall c, p c = true -> q c = false) ->
  forall s, filter q (lstrip_by p s) = filter q s.
Proof.
  intros H. induction s as [|c s IH]; simpl; [reflexivity|].
  destruct (p c) eqn:E; [|reflexivity].
  rewrite (H c E). exact IH.
Qed.

Lemma filter_rev_ (q : ascii -> bool) (s : str) :
  filter q (rev s) = rev (filter q s).
Proof.
  induction s as [|c s IH]; simpl; [reflexivity|].
  rewrite filter_app, IH. simpl. destruct (q c); simpl;
    [reflexivity|apply app_nil_r].
Qed.

Lemma filter_strip (p q : ascii -> bool) :
  (forall c, p c = true -> q c = false) ->
  forall s, filter q (strip_by p s) = filter q s.
Proof.
  intros H s. unfold strip_by, rstrip_by.
  rewrite filter_rev_, (filter_lstrip p q H), filter_rev_, rev_involutive.
  apply (filter_lstrip p q H).
Qed.

Lemma filter_all (q : ascii -> bool) (s : str) :
  forallb q s = true -> filter q s = s.
Proof.
  induction s as [|c s IH]; simpl; [reflexivity|].
  intros H. apply andb_true_iff in H as [Hc H]. rewrite Hc, (IH H). reflexivity.
Qed.

Lemma forallb_filter (q : ascii -> bool) (s : str) :
  forallb q (filter q s) = true.
Proof.
  induction s as [|c s IH]; simpl; [reflexivity|].
  destruct (q c) eqn:E; simpl; [rewrite E|]; exact IH.
Qed.

Lemma clean_denoise value : clean value = signs (denoise value).
Proof.
  unfold clean, signs, denoise. rewrite sub_cls_delete.
  unfold strip. rewrite filter_strip; [reflexivity|].
  intros c H. rewrite (noise_space c H). reflexivity.
Qed.

Lemma denoise_idem value : denoise (denoise value) = denoise value.
Proof. unfold denoise. apply filter_all, forallb_filter. Qed.

Lemma money_to_float_nonempty value :
  value <> [] ->
  money_to_float value =
  let '(is_negative, cleaned) := clean value in
  catch (result <- float cleaned ;;
         Ok (if is_negative then fneg result else result))
        (fun e => match e with
                  | ValueError => Ok fzero
                  | _ => Raise e
                  end).
Proof. destruct value; [congruence|reflexivity]. Qed.

End MoneyMore.

Section MoneyExtras.
Import Py Re Spec Utils.

(** X1.  Currency signs, commas, blanks and no-break spaces do not count,
    wherever they stand: [money_to_float] gives the same number for a string
    and for the string without them. *)
Theorem money_to_float_ignores_noise :
  forall value,
    money_to_float value
    = money_to_float (filter (fun c => negb (money_noise c)) value).
Proof.
  intros value. fold (denoise value).
  destruct value as [|c v]; [reflexivity|].
  rewrite (money_to_float_nonempty (c :: v)) by discriminate.
  rewrite clean_denoise.
  destruct (denoise (c :: v)) as [|c' v'] eqn:E.
  - vm_compute. reflexivity.
  - rewrite (money_to_float_nonempty (c' :: v')) by discriminate.
    rewrite clean_denoise, <- E, denoise_idem. reflexivity.
Qed.

Lemma endswith_snoc (c : ascii) (s : str) : endswith [c] (s ++ [c]) = true.
Proof.
  unfold endswith. rewrite rev_app_distr. simpl. rewrite eqc_refl. reflexivity.
Qed.

Lemma removelast_snoc (c : ascii) (s : str) : removelast (s ++ [c]) = s.
Proof. apply removelast_last. Qed.

Lemma signs_paren a :
  startswith (lit "-") a = false ->
  signs ("("%char :: a ++ [")"%char]) = (true, a).
Proof.
  intros Hm. unfold signs.
  change (startswith (lit "(") ("("%char :: a ++ [")"%char])) with true.
  change ("("%char :: a ++ [")"%char]) with (("("%char :: a) ++ [")"%char]).
  change (lit ")") with [")"%char].
  rewrite endswith_snoc. cbn [andb].
  unfold slice_1_m1.
  change (tl (("("%char :: a) ++ [")"%char])) with (a ++ [")"%char]).
  rewrite removelast_snoc, Hm. reflexivity.
Qed.

Lemma signs_paren_minus a :
  signs ("("%char :: "-"%char :: a ++ [")"%char]) = (true, a).
Proof.
  unfold signs.
  change (startswith (lit "(") ("("%char :: "-"%char :: a ++ [")"%char])) with true.
  change ("("%char :: "-"%char :: a ++ [")"%char])
    with (("("%char :: "-"%char :: a) ++ [")"%char]).
  change (lit ")") with [")"%char].
  rewrite endswith_snoc. cbn [andb].
  unfold slice_1_m1.
  change (tl (("("%char :: "-"%char :: a) ++ [")"%char]))
    with (("-"%char :: a) ++ [")"%char]).
  rewrite removelast_snoc. reflexivity.
Qed.

(** X2.  How a sign is written.  For a text [a] without noise that [float] reads
    as [x] and that has no sign of its own: [a] alone gives [x]; a leading
    minus, a pair of parentheses, and both together each give [-x] (the two
    signs do not cancel). *)
Theorem money_to_float_signs :
  forall a x,
    forallb (fun c => negb (money_noise c)) a = true ->
    startswith (lit "(") a = false ->
    startswith (lit "-") a = false ->
    float a = Ok x ->
    money_to_float a = Ok x /\
    money_to_float ("-"%char :: a) = Ok (fneg x) /\
    money_to_float ("("%char :: a ++ [")"%char]) = Ok (fneg x) /\
    money_to_float ("("%char :: "-"%char :: a ++ [")"%char]) = Ok (fneg x).
Proof.
  intros a x Hn Hp Hm Hf.
  assert (Da : denoise a = a) by (apply filter_all, Hn).
  assert (Na : a <> []).
  { intros ->. vm_compute in Hf. discriminate. }
  assert (F : forall b, b <> [] -> denoise b = b -> signs b = (true, a) ->
                        money_to_float b = Ok (fneg x)).
  { intros b Nb Db Sb.
    rewrite (money_to_float_nonempty b Nb), clean_denoise, Db, Sb.
    simpl. rewrite Hf. reflexivity. }
  assert (Dp : forall pre, denoise pre = pre ->
                           denoise (pre ++ a ++ [")"%char]) = pre ++ a ++ [")"%char]).
  { intros pre Dpre. unfold denoise in *.
    rewrite !filter_app, Dpre, Da. reflexivity. }
  repeat match goal with |- _ /\ _ => split end.
  - rewrite (money_to_float_nonempty a Na), clean_denoise, Da.
    unfold signs. rewrite Hp. cbn [andb]. rewrite Hm. simpl. rewrite Hf.
    reflexivity.
  - apply F; [discriminate| |reflexivity].
    unfold denoise in *. simpl. rewrite Da. reflexivity.
  - apply F; [discriminate|exact (Dp ["("%char] eq_refl)|].
    apply signs_paren, Hm.
  - apply F; [discriminate|exact (Dp ["("%char; "-"%char] eq_refl)|].
    apply signs_paren_minus.
Qed.

Lemma money_to_float_signs_witness :
  money_to_float (lit "(-1e3)") = Ok (fneg (literal "1000")).
Proof.
  destruct (money_to_float_signs (lit "1e3") (literal "1000")) as (_ & _ & _ & H);
    [reflexivity|reflexivity|reflexivity|vm_compute; reflexivity|exact H].
Defined.

(** X3.  [sanitize_filename] replaces each of the nine characters that a file
    name may not hold by an underscore and leaves the others alone: the
    result has the length of the name, holds none of the nine, and is left
    as it is by a second pass; a name without them comes back unchanged. *)
Theorem sanitize_filename_safe :
  forall filename,
    sanitize_filename filename
    = map (fun c => if invalid_char c then "_"%char else c) filename /\
    length (sanitize_filename filename) = length filename /\
    forallb (fun c => negb (invalid_char c)) (sanitize_filename filename) = true /\
    sanitize_filename (sanitize_filename filename) = sanitize_filename filename /\
    (forallb (fun c => negb (invalid_char c)) filename = true ->
     sanitize_filename filename = filename).
Proof.
  intros filename.
  assert (E : forall s, sanitize_filename s
              = map (fun c => if invalid_char c then "_"%char else c) s).
  { intros s. unfold sanitize_filename. apply sub_cls_map. }
  assert (S : forall s,
            forallb (fun c => negb (invalid_char c)) (sanitize_filename s) = true).
  { intros s. rewrite E. induction s as [|c s IH]; simpl; [reflexivity|].
    rewrite IH, andb_true_r. destruct (invalid_char c) eqn:Hc;
      [reflexivity|rewrite Hc; reflexivity]. }
  assert (I : forall s, forallb (fun c => negb (invalid_char c)) s = true ->
                        sanitize_filename s = s).
  { intros s. rewrite E. induction s as [|c s IH]; simpl; [reflexivity|].
    intros H. apply andb_true_iff in H as [Hc H].
    apply negb_true_iff in Hc. rewrite Hc, (IH H). reflexivity. }
  repeat match goal with |- _ /\ _ => split end.
  - apply E.
  - rewrite E. apply length_map.
  - apply S.
  - apply I, S.
  - apply I.
Qed.

Lemma sanitize_filename_safe_witness :
  sanitize_filename (lit "order-123.txt") = lit "order-123.txt".
Proof.
  destruct (sanitize_filename_safe (lit "order-123.txt")) as (_ & _ & _ & _ & H).
  apply H. reflexivity.
Defined.

End MoneyExtras.
(* ================================================================== *)
(** * More on the field parser *)

Section AmountFields.
Import Py Re Spec Utils Parsing.

(** A money pattern is only found in a text that has its label. *)
Lemma search_amount_field_mentions (label l : string) tn m :
  lit label <> [] -> lower (lit label) = lit l ->
  search (seqs [WordB; texti label; WordB; star s_; opt (chr "$"); star s_;
                Grp 1 amount2]) tn = Some m ->
  mentions l tn.
Proof.
  intros N El H. apply search_at_lang in H as (pre & suf & -> & L & _).
  destruct L as (w0 & w1 & -> & _ & (w2 & w3 & -> & L & _)).
  apply texti_mentions_part with (l := l) in L;
    [|exact N|rewrite El; exists [], []; rewrite app_nil_r; reflexivity].
  eapply mentions_occurs; [exact L|].
  exists (pre ++ w0), (w3 ++ suf). rewrite <- !app_assoc. reflexivity.
Qed.

Lemma money_field_label (label l : string) text x :
  lit label <> [] -> lower (lit label) = lit l ->
  forallb (fun c => negb (eqc c " ")) (lit l) = true ->
  money_field (seqs [WordB; texti label; WordB; star s_; opt (chr "$");
                     star s_; Grp 1 amount2]) (normalize text) = Ok x ->
  mentions_b l text = false -> x = fzero.
Proof.
  intros N El Hs E Hm. unfold money_field in E.
  destruct (search _ (normalize text)) as [m|] eqn:Es; [|congruence].
  apply (search_amount_field_mentions label l) in Es; auto.
  apply mentions_normalize in Es; [|exact Hs].
  apply mentions_mentions_b in Es. congruence.
Qed.

Lemma money_field_signed r tn x :
  grp_ok amount_group r -> sets 1 r = true ->
  money_field r tn = Ok x -> signed false x.
Proof.
  intros G S E. pose proof (money_field_spec r tn G S) as H.
  destruct (search r tn) as [m|].
  - destruct H as (g & y & _ & A & H). rewrite H in E. inversion E; subst y.
    apply is_magnitude_signed with (w := g). right. exact A.
  - rewrite H in E. inversion E. reflexivity.
Qed.

Lemma signed_false_ge_zero x : signed false x -> fle fzero x = true.
Proof.
  destruct x as [s|s| |s m e]; simpl; intros H; subst; auto; contradiction.
Qed.

(** X4.  Subtotal, delivery, taxes and total are never negative and never NaN,
    whatever the page is; and each of subtotal, taxes and total is exactly
    0.0 on an ASCII page that does not have its label in any case.  (A page
    without "total" has no "subtotal" either.) *)
Theorem amounts_default_and_sign :
  forall text order_no url,
  exists r,
    parse_order_page text order_no url = Ok r /\
    (signed false (subtotal r) /\ fle fzero (subtotal r) = true) /\
    (signed false (delivery r) /\ fle fzero (delivery r) = true) /\
    (signed false (taxes r) /\ fle fzero (taxes r) = true) /\
    (signed false (total r) /\ fle fzero (total r) = true) /\
    (isascii text = true ->
     (mentions_b "subtotal" text = false -> subtotal r = fzero) /\
     (mentions_b "taxes" text = false -> taxes r = fzero) /\
     (mentions_b "total" text = false -> total r = fzero)).
Proof.
  intros text order_no url.
  destruct (parse_order_page_fields text order_no url)
    as (r & E & _ & Ed & Es & Et & Eo & _).
  exists r. split; [exact E|].
  assert (S : forall re x, grp_ok amount_group re -> sets 1 re = true ->
                money_field re (normalize text) = Ok x ->
                signed false x /\ fle fzero x = true).
  { intros re x G S' H. apply money_field_signed in H; auto.
    split; [exact H|apply signed_false_ge_zero, H]. }
  repeat match goal with
         | |- _ /\ _ => split
         | |- isascii _ = true -> _ => intros _
         end.
  - apply (S RE_SUBTOTAL _ (amount_field_ok "Subtotal") eq_refl Es).
  - apply (S RE_SUBTOTAL _ (amount_field_ok "Subtotal") eq_refl Es).
  - apply (S RE_DELIVERY _ RE_DELIVERY_ok eq_refl Ed).
  - apply (S RE_DELIVERY _ RE_DELIVERY_ok eq_refl Ed).
  - apply (S RE_TAXES _ (amount_field_ok "Taxes") eq_refl Et).
  - apply (S RE_TAXES _ (amount_field_ok "Taxes") eq_refl Et).
  - apply (S RE_TOTAL _ (amount_field_ok "Total") eq_refl Eo).
  - apply (S RE_TOTAL _ (amount_field_ok "Total") eq_refl Eo).
  - apply (money_field_label "Subtotal" "subtotal" text); auto; discriminate.
  - apply (money_field_label "Taxes" "taxes" text); auto; discriminate.
  - apply (money_field_label "Total" "total" text); auto; discriminate.
Qed.

Lemma amounts_default_and_sign_witness :
  exists r,
    parse_order_page (lit "Taxes $5.00 Savings $1.00") [] [] = Ok r /\
    total r = fzero.
Proof.
  destruct (amounts_default_and_sign (lit "Taxes $5.00 Savings $1.00") [] [])
    as (r & E & _ & _ & _ & _ & H).
  exists r. split; [exact E|].
  destruct (H eq_refl) as (_ & _ & Ht). apply Ht. vm_compute. reflexivity.
Defined.

End AmountFields.
Section SubtotalAndTotal.
Import Py Re Spec Utils Parsing.

Lemma search_at_first r p s i st :
  first r (start_state p s) st -> search_at r p s i = Some (match_of i s st).
Proof.
  intros (l & E). rewrite search_at_unfold, E. reflexivity.
Qed.

(** Scanning past a stretch of text in which the pattern cannot start. *)
Lemma search_at_nowhere r (no : option ascii -> ascii -> bool) :
  (forall p c s cs, no p c = true -> run r (MState p (c :: s) cs) = []) ->
  forall pre suf p i,
    nowhere no p pre = true ->
    search_at r p (pre ++ suf) i
    = search_at r (prev_after p pre) suf (i + length pre).
Proof.
  intros H. induction pre as [|c pre IH]; intros suf p i N.
  - simpl. rewrite Nat.add_0_r. reflexivity.
  - simpl in N. apply andb_true_iff in N as [Nc N].
    rewrite <- app_comm_cons, search_at_unfold.
    unfold start_state. rewrite (H p c (pre ++ suf) [] Nc).
    rewrite (IH suf (Some c) (S i) N), prev_after_cons.
    simpl length. f_equal. lia.
Qed.

Lemma nowhere_app no : forall a b p,
  nowhere no p (a ++ b) = nowhere no p a && nowhere no (prev_after p a) b.
Proof.
  induction a as [|c a IH]; intros b p; [reflexivity|].
  simpl. rewrite IH, prev_after_cons, andb_assoc. reflexivity.
Qed.

Lemma nowhere_all no (f : ascii -> bool) :
  (forall p c, f c = true -> no p c = true) ->
  forall w p, forallb f w = true -> nowhere no p w = true.
Proof.
  intros H. induction w as [|c w IH]; intros p F; [reflexivity|].
  simpl in *. apply andb_true_iff in F as [Fc F].
  rewrite (H p c Fc), (IH _ F). reflexivity.
Qed.

(** [\bTotal...] cannot start at a character other than t or T, nor right
    after a word character. *)
Lemma total_cannot_start p c s cs :
  no_label_start "t" p c = true -> run RE_TOTAL (MState p (c :: s) cs) = [].
Proof.
  unfold no_label_start. intros H.
  change RE_TOTAL
    with (Seq WordB (Seq (Seq (chri "T") (seqs (map chri (lit "otal"))))
            (seqs [WordB; star s_; opt (chr "$"); star s_; Grp 1 amount2]))).
  cbn [run]. destruct (at_boundary (MState p (c :: s) cs)) eqn:B;
    [|reflexivity].
  cbn [flat_map app]. rewrite app_nil_r.
  cbn [run rest chri].
  destruct (eqc (lower_c c) (lower_c "T")) eqn:Ec; [|reflexivity].
  change (lower_c "T") with "t"%char in Ec. rewrite Ec in H. simpl in H.
  unfold at_boundary in B. cbn [prev rest hd_error is_word_opt] in B.
  rewrite H in B.
  assert (W : is_word c = true).
  { revert Ec. generalize c.
    assert (A : forall c0, implb (eqc (lower_c c0) "t") (is_word c0) = true)
      by ascii_fact.
    intros c0 E0. specialize (A c0). rewrite E0 in A. exact A. }
  rewrite W in B. discriminate.
Qed.

Lemma plain_no_t p c :
  (is_digit c || eqc c "." || eqc c " " || eqc c "$") = true ->
  no_label_start "t" p c = true.
Proof.
  intros H. unfold no_label_start.
  assert (A : forall c0,
            implb (is_digit c0 || eqc c0 "." || eqc c0 " " || eqc c0 "$")
                  (negb (eqc (lower_c c0) "t")) = true) by ascii_fact.
  specialize (A c). rewrite H in A. simpl in A. rewrite A. reflexivity.
Qed.

(** What follows the label in a money pattern, on " $amount". *)
Lemma first_amount_tail p X st' :
  stops is_space X ->
  first (Grp 1 amount2) (MState (Some "$"%char) X []) st' ->
  first (seqs [star s_; opt (chr "$"); star s_; Grp 1 amount2])
        (MState p (" "%char :: "$"%char :: X) []) st'.
Proof.
  intros Hs F.
  change (seqs [star s_; opt (chr "$"); star s_; Grp 1 amount2])
    with (Seq (star s_) (Seq (opt (chr "$")) (Seq (star s_) (Grp 1 amount2)))).
  apply first_seq with (st1 := MState (Some " "%char) ("$"%char :: X) []).
  { apply (first_star_cls is_space [" "%char]); reflexivity. }
  apply first_seq with (st1 := MState (Some "$"%char) X []).
  { apply first_opt_take, first_cls. reflexivity. }
  apply first_seq with (st1 := MState (Some "$"%char) X []).
  { apply (first_star_cls is_space []); [reflexivity|exact Hs]. }
  exact F.
Qed.

Lemma first_subtotal X st' :
  stops is_space X ->
  first (Grp 1 amount2) (MState (Some "$"%char) X []) st' ->
  first RE_SUBTOTAL (start_state None (lit "Subtotal $" ++ X)) st'.
Proof.
  intros Hs F.
  change RE_SUBTOTAL
    with (Seq WordB (Seq (texti "Subtotal") (Seq WordB
            (seqs [star s_; opt (chr "$"); star s_; Grp 1 amount2])))).
  set (T := " "%char :: "$"%char :: X).
  change (start_state None (lit "Subtotal $" ++ X))
    with (MState None (lit "Subtotal" ++ T) []).
  apply first_seq with (st1 := MState None (lit "Subtotal" ++ T) []).
  { apply first_wordb. reflexivity. }
  apply first_seq with (st1 := MState (Some "l"%char) T []).
  { apply (first_texti "Subtotal" (lit "Subtotal") T None []);
      [discriminate|reflexivity]. }
  apply first_seq with (st1 := MState (Some "l"%char) T []).
  { apply first_wordb. reflexivity. }
  subst T. apply first_amount_tail; assumption.
Qed.

Lemma first_total X st' :
  stops is_space X ->
  first (Grp 1 amount2) (MState (Some "$"%char) X []) st' ->
  first RE_TOTAL (start_state (Some " "%char) (lit "Total $" ++ X)) st'.
Proof.
  intros Hs F.
  change RE_TOTAL
    with (Seq WordB (Seq (texti "Total") (Seq WordB
            (seqs [star s_; opt (chr "$"); star s_; Grp 1 amount2])))).
  set (T := " "%char :: "$"%char :: X).
  change (start_state (Some " "%char) (lit "Total $" ++ X))
    with (MState (Some " "%char) (lit "Total" ++ T) []).
  apply first_seq with (st1 := MState (Some " "%char) (lit "Total" ++ T) []).
  { apply first_wordb. reflexivity. }
  apply first_seq with (st1 := MState (Some "l"%char) T []).
  { apply (first_texti "Total" (lit "Total") T (Some " "%char) []);
      [discriminate|reflexivity]. }
  apply first_seq with (st1 := MState (Some "l"%char) T []).
  { apply first_wordb. reflexivity. }
  subst T. apply first_amount_tail; assumption.
Qed.

Lemma stops_space_amount ip t : ip <> [] -> all_digits ip -> stops is_space (ip ++ t).
Proof. apply stops_space_digits. Qed.

(** The subtotal of "Subtotal $amount" followed by anything. *)
Lemma subtotal_amount ip x y t :
  ip <> [] -> all_digits ip -> all_digits [x; y] ->
  money_field RE_SUBTOTAL (lit "Subtotal $" ++ ip ++ "."%char :: x :: y :: t)
  = Ok (decimal_value ip [x; y]).
Proof.
  intros N D Dxy. unfold money_field.
  rewrite (search_first RE_SUBTOTAL _
             (MState (Some y) t [(1, ip ++ "."%char :: [x; y])])).
  2:{ apply (first_subtotal (ip ++ "."%char :: x :: y :: t)).
      - apply stops_space_digits; assumption.
      - apply first_amount2_then; assumption. }
  unfold money_of_group, group. cbn [match_of m_caps caps lookup Nat.eqb].
  apply (money_to_float_plain ip ("."%char :: [x; y]) [x; y] N D Dxy
           (or_intror eq_refl)).
Qed.

Lemma nowhere_amount p ip x y :
  all_digits ip -> all_digits [x; y] ->
  nowhere (no_label_start "t") p (ip ++ "."%char :: [x; y]) = true.
Proof.
  intros D Dxy. apply (nowhere_all _ (fun c => is_digit c || eqc c "." || eqc c " " || eqc c "$")).
  - intros q c. apply plain_no_t.
  - rewrite forallb_app. apply andb_true_iff. split.
    + eapply forallb_imp; [|exact D]. intros c ->. reflexivity.
    + unfold all_digits in Dxy. simpl in *.
      apply andb_true_iff in Dxy as [-> Hy].
      apply andb_true_iff in Hy as [-> _]. reflexivity.
Qed.

Lemma total_at_end p i : search_at RE_TOTAL p [] i = None.
Proof.
  rewrite search_at_unfold. unfold start_state.
  change RE_TOTAL
    with (Seq WordB (Seq (Seq (chri "T") (seqs (map chri (lit "otal"))))
            (seqs [WordB; star s_; opt (chr "$"); star s_; Grp 1 amount2]))).
  cbn [run]. destruct (at_boundary (MState p [] [])); reflexivity.
Qed.

(** No total in "Subtotal $amount". *)
Lemma total_absent ip x y :
  all_digits ip -> all_digits [x; y] ->
  money_field RE_TOTAL (lit "Subtotal $" ++ ip ++ "."%char :: [x; y]) = Ok fzero.
Proof.
  intros D Dxy. unfold money_field, search.
  rewrite <- (app_nil_r (lit "Subtotal $" ++ ip ++ "."%char :: [x; y])).
  rewrite (search_at_nowhere RE_TOTAL (no_label_start "t") total_cannot_start).
  - rewrite total_at_end. reflexivity.
  - rewrite nowhere_app. apply andb_true_iff. split; [reflexivity|].
    apply nowhere_amount; assumption.
Qed.

(** The total of "Subtotal $amount Total $amount". *)
Lemma total_after_subtotal ip x y ip' x' y' :
  all_digits ip -> all_digits [x; y] ->
  ip' <> [] -> all_digits ip' -> all_digits [x'; y'] ->
  money_field RE_TOTAL
    (lit "Subtotal $" ++ ip ++ "."%char :: x :: y ::
     lit " Total $" ++ ip' ++ "."%char :: [x'; y'])
  = Ok (decimal_value ip' [x'; y']).
Proof.
  intros D Dxy N' D' Dxy'. unfold money_field, search.
  set (B := ip' ++ "."%char :: [x'; y']).
  change (lit "Subtotal $" ++ ip ++ "."%char :: x :: y :: lit " Total $" ++ B)
    with (lit "Subtotal $" ++ ip ++ ("."%char :: [x; y]) ++ [" "%char] ++ lit "Total $" ++ B).
  rewrite !app_assoc. rewrite <- (app_assoc _ (lit "Total $") B).
  rewrite (search_at_nowhere RE_TOTAL (no_label_start "t") total_cannot_start).
  2:{ rewrite <- !app_assoc. rewrite nowhere_app. apply andb_true_iff.
      split; [reflexivity|]. rewrite app_assoc, nowhere_app.
      apply andb_true_iff. split; [apply nowhere_amount; assumption|].
      reflexivity. }
  rewrite prev_after_snoc.
  rewrite (search_at_first RE_TOTAL _ _ _
             (MState (Some y') [] [(1, B)])).
  2:{ apply (first_total B).
      - apply stops_space_digits; assumption.
      - apply first_amount2; assumption. }
  unfold money_of_group, group. cbn [match_of m_caps caps lookup Nat.eqb].
  apply (money_to_float_plain ip' ("."%char :: [x'; y']) [x'; y'] N' D' Dxy'
           (or_intror eq_refl)).
Qed.

End SubtotalAndTotal.

Section SubtotalAndTotalClaims.
Import Py Re Spec Utils Parsing.

(** X5.  The total is never read from the subtotal.  A page that reads
    "Subtotal $a", for any amount a with two decimals, has that subtotal and
    the total 0.0; a page that reads "Subtotal $a Total $b" has the subtotal
    a and the total b. *)
Theorem total_is_not_subtotal :
  forall text order_no url,
  exists r,
    parse_order_page text order_no url = Ok r /\
    (forall ip x y,
       ip <> [] -> all_digits ip -> all_digits [x; y] ->
       normalize text = lit "Subtotal $" ++ ip ++ "."%char :: [x; y] ->
       subtotal r = decimal_value ip [x; y] /\ total r = fzero) /\
    (forall ip x y ip' x' y',
       ip <> [] -> all_digits ip -> all_digits [x; y] ->
       ip' <> [] -> all_digits ip' -> all_digits [x'; y'] ->
       normalize text =
         lit "Subtotal $" ++ ip ++ "."%char :: x :: y ::
         lit " Total $" ++ ip' ++ "."%char :: [x'; y'] ->
       subtotal r = decimal_value ip [x; y] /\
       total r = decimal_value ip' [x'; y']).
Proof.
  intros text order_no url.
  destruct (parse_order_page_fields text order_no url)
    as (r & E & _ & _ & Es & _ & Eo & _).
  exists r. split; [exact E|]. split.
  - intros ip x y N D Dxy En. rewrite En in Es, Eo.
    rewrite (subtotal_amount ip x y [] N D Dxy) in Es.
    rewrite (total_absent ip x y D Dxy) in Eo.
    split; congruence.
  - intros ip x y ip' x' y' N D Dxy N' D' Dxy' En. rewrite En in Es, Eo.
    rewrite (subtotal_amount ip x y _ N D Dxy) in Es.
    rewrite (total_after_subtotal ip x y ip' x' y' D Dxy N' D' Dxy') in Eo.
    split; congruence.
Qed.

Lemma total_is_not_subtotal_witness :
  exists r,
    parse_order_page (lit "Subtotal  $12.00	Total $13.56") [] [] = Ok r /\
    subtotal r = literal "12.00" /\ total r = literal "13.56".
Proof.
  destruct (total_is_not_subtotal (lit "Subtotal  $12.00	Total $13.56") [] [])
    as (r & E & _ & H).
  exists r. split; [exact E|].
  apply (H (lit "12") "0"%char "0"%char (lit "13") "5"%char "6"%char);
    [discriminate|reflexivity|reflexivity|discriminate|reflexivity
    |reflexivity|vm_compute; reflexivity].
Defined.

End SubtotalAndTotalClaims.
Section Normalisation.
Import Py Re Spec Utils Parsing.

Lemma run_plus_cls_no f p c s cs :
  f c = false -> run (plus (Cls f)) (MState p (c :: s) cs) = [].
Proof. intros H. unfold plus. cbn [run rest]. rewrite H. reflexivity. Qed.

Lemma run_split (f : ascii -> bool) (s : str) :
  exists pre w t,
    s = pre ++ w ++ t /\ forallb (fun x => negb (f x)) pre = true /\
    forallb f w = true /\ stops f t /\ (w = [] -> t = []).
Proof.
  destruct (span_split f s) as (pre & u & -> & Hp & Hu).
  exists pre.
  assert (A : forall u, exists w t, u = w ++ t /\ forallb f w = true /\ stops f t).
  { clear. induction u as [|x u (w & t & -> & Hw & Ht)].
    - exists [], []. repeat split.
    - destruct (f x) eqn:Hx.
      + exists (x :: w), t. simpl. rewrite Hx, Hw. auto.
      + exists [], (x :: w ++ t). simpl. auto. }
  destruct (A u) as (w & t & -> & Hw & Ht).
  exists w, t. repeat split; auto.
  intros ->. simpl in Hu. destruct t as [|x t]; [reflexivity|].
  simpl in Ht. congruence.
Qed.

Lemma squeeze_keep f repl : forall pre s,
  forallb (fun x => negb (f x)) pre = true ->
  squeeze f repl false (pre ++ s) = pre ++ squeeze f repl false s.
Proof.
  induction pre as [|c pre IH]; intros s H; [reflexivity|].
  simpl in H. apply andb_true_iff in H as [Hc H]. apply negb_true_iff in Hc.
  destruct pre as [|c' pre'].
  - simpl. rewrite Hc. reflexivity.
  - simpl. rewrite Hc. f_equal.
    change (squeeze f repl false ((c' :: pre') ++ s) = (c' :: pre') ++ squeeze f repl false s).
    apply IH, H.
Qed.

Lemma squeeze_stops f repl t :
  stops f t -> squeeze f repl true t = squeeze f repl false t.
Proof. destruct t as [|c t]; simpl; [reflexivity|]. intros ->. reflexivity. Qed.

Lemma squeeze_run f repl : forall w t,
  forallb f w = true -> stops f t ->
  squeeze f repl true (w ++ t) = squeeze f repl false t.
Proof.
  induction w as [|c w IH]; intros t H S.
  - apply squeeze_stops, S.
  - simpl in H. apply andb_true_iff in H as [Hc H].
    simpl. rewrite Hc. apply IH; assumption.
Qed.

Lemma sub_at_plus_cls f repl : forall fuel s p,
  length s < fuel ->
  sub_at (plus (Cls f)) repl fuel p s = squeeze f repl false s.
Proof.
  induction fuel as [|fuel IH]; intros s p Hl; [lia|].
  destruct (run_split f s) as (pre & w & t & -> & Hp & Hw & Ht & Hwt).
  cbn [sub_at].
  rewrite (search_at_nowhere (plus (Cls f)) (fun _ c => negb (f c))).
  2:{ intros q c u cs H. apply run_plus_cls_no, negb_true_iff, H. }
  2:{ apply (nowhere_all _ (fun c => negb (f c))); [auto|exact Hp]. }
  destruct w as [|c w].
  - rewrite (Hwt eq_refl). cbn [app].
    rewrite search_at_unfold. cbn [run plus rest start_state flat_map].
    rewrite squeeze_keep by exact Hp. cbn [squeeze firstn].
    reflexivity.
  - rewrite (search_at_first (plus (Cls f)) _ _ _
               (MState (prev_after (prev_after p pre) (c :: w)) t [])).
    2:{ apply first_plus_cls; [discriminate|exact Hw|exact Ht]. }
    unfold match_of. cbn [m_start m_text m_rest m_prev prev rest caps].
    rewrite consumed_app. simpl Nat.add.
    rewrite firstn_app, firstn_all, Nat.sub_diag, app_nil_r.
    rewrite squeeze_keep by exact Hp. f_equal.
    simpl in Hw. apply andb_true_iff in Hw as [Hc Hw].
    cbn [app squeeze]. rewrite Hc. f_equal.
    rewrite (squeeze_run f repl w t Hw Ht). apply IH.
    rewrite !length_app in Hl. simpl in Hl. lia.
Qed.

Lemma normalize_squeeze text :
  normalize text = squeeze is_blank (lit " ") false text.
Proof. unfold normalize, sub. apply sub_at_plus_cls. lia. Qed.

Lemma squeeze_spaced : forall s b,
  spaced_once b (squeeze is_blank (lit " ") b s) = true.
Proof.
  assert (T : forall c, is_blank c = false ->
                        eqc c "009" = false /\ eqc c " " = false).
  { intros c. unfold is_blank. destruct (eqc c " "), (eqc c "009"); auto;
      discriminate. }
  induction s as [|c s IH]; intros b; [reflexivity|].
  simpl. destruct (is_blank c) eqn:Hc.
  - destruct b; [apply IH|]. simpl. apply IH.
  - destruct (T c Hc) as [H1 H2]. simpl. rewrite H1, H2. apply IH.
Qed.

Lemma spaced_squeeze : forall s b,
  spaced_once b s = true -> squeeze is_blank (lit " ") b s = s.
Proof.
  induction s as [|c s IH]; intros b H; [reflexivity|].
  simpl in *. unfold is_blank.
  destruct (eqc c "009") eqn:H1; [discriminate|].
  destruct (eqc c " ") eqn:H2; simpl.
  - apply andb_true_iff in H as [Hb H]. apply negb_true_iff in Hb. subst b.
    apply eqc_eq in H2. subst c. simpl. f_equal. apply IH, H.
  - f_equal. apply IH, H.
Qed.

Lemma spaced_no_tab : forall s b,
  spaced_once b s = true -> forallb (fun c => negb (eqc c "009")) s = true.
Proof.
  induction s as [|c s IH]; intros b H; [reflexivity|].
  simpl in *. destruct (eqc c "009"); [discriminate|]. simpl.
  destruct (eqc c " ").
  - apply andb_true_iff in H as [_ H]. apply (IH _ H).
  - apply (IH _ H).
Qed.

Lemma spaced_weaken : forall s, spaced_once true s = true -> spaced_once false s = true.
Proof.
  destruct s as [|c s]; simpl; [reflexivity|].
  destruct (eqc c "009"); [discriminate|]. destruct (eqc c " "); [discriminate|auto].
Qed.

Lemma spaced_no_double : forall a b0 s b,
  spaced_once b s = true -> s <> a ++ " "%char :: " "%char :: b0.
Proof.
  induction a as [|x a IH]; intros b0 s b H E; subst s.
  - simpl in H. destruct b; simpl in H; discriminate.
  - simpl in H. destruct (eqc x "009"); [discriminate|].
    destruct (eqc x " ").
    + apply andb_true_iff in H as [_ H]. exact (IH b0 _ true H eq_refl).
    + exact (IH b0 _ false H eq_refl).
Qed.

Lemma no_double_spaced : forall s b,
  forallb (fun c => negb (eqc c "009")) s = true ->
  (forall a b0, s <> a ++ " "%char :: " "%char :: b0) ->
  (b = true -> match s with c :: _ => eqc c " " = false | [] => True end) ->
  spaced_once b s = true.
Proof.
  induction s as [|c s IH]; intros b T D Hb; [reflexivity|].
  simpl in *. apply andb_true_iff in T as [Tc T].
  apply negb_true_iff in Tc. rewrite Tc.
  assert (D' : forall a b0, s <> a ++ " "%char :: " "%char :: b0).
  { intros a b0 E. apply (D (c :: a) b0). rewrite E. reflexivity. }
  destruct (eqc c " ") eqn:Hc.
  - apply andb_true_iff. split.
    + destruct b; [|reflexivity]. specialize (Hb eq_refl). congruence.
    + apply IH; auto. intros _. destruct s as [|c' s]; [exact I|].
      destruct (eqc c' " ") eqn:Hc'; [|reflexivity].
      apply eqc_eq in Hc, Hc'. subst. exfalso. exact (D [] s eq_refl).
  - apply IH; auto. discriminate.
Qed.

Lemma squeeze_filter : forall s b,
  filter (fun c => negb (is_blank c)) (squeeze is_blank (lit " ") b s)
  = filter (fun c => negb (is_blank c)) s.
Proof.
  induction s as [|c s IH]; intros b; [reflexivity|].
  simpl. destruct (is_blank c) eqn:Hc; simpl.
  - destruct b; simpl; apply IH.
  - rewrite Hc. simpl. f_equal. apply IH.
Qed.

Lemma squeeze_length : forall s b,
  length (squeeze is_blank (lit " ") b s) <= length s.
Proof.
  induction s as [|c s IH]; intros b; [reflexivity|].
  simpl. destruct (is_blank c).
  - destruct b; simpl; [apply Nat.le_trans with (length s); auto|apply le_n_S, IH].
  - simpl. apply le_n_S, IH.
Qed.

End Normalisation.

Section NormalisationClaims.
Import Py Re Spec Utils Parsing.

(** X6.  The text the patterns are applied to has no tab and no two blanks in a
    row; normalising keeps every character that is neither a blank nor a
    tab (line breaks included) in place and order, never makes the text
    longer, leaves a text alone that has no tab and no two blanks in a row,
    and so does nothing when applied twice. *)
Theorem normalize_blanks :
  forall text,
    forallb (fun c => negb (eqc c "009")) (normalize text) = true /\
    (forall a b, normalize text <> a ++ " "%char :: " "%char :: b) /\
    filter (fun c => negb (is_blank c)) (normalize text)
    = filter (fun c => negb (is_blank c)) text /\
    length (normalize text) <= length text /\
    normalize (normalize text) = normalize text /\
    (forallb (fun c => negb (eqc c "009")) text = true ->
     (forall a b, text <> a ++ " "%char :: " "%char :: b) ->
     normalize text = text).
Proof.
  intros text.
  pose proof (squeeze_spaced text false) as S.
  rewrite <- normalize_squeeze in S.
  repeat match goal with |- _ /\ _ => split end.
  - apply (spaced_no_tab _ false), S.
  - intros a b. apply (spaced_no_double a b _ false), S.
  - rewrite normalize_squeeze. apply squeeze_filter.
  - rewrite normalize_squeeze. apply squeeze_length.
  - rewrite (normalize_squeeze (normalize text)). apply spaced_squeeze, S.
  - intros T D. rewrite normalize_squeeze. apply spaced_squeeze.
    apply no_double_spaced; auto. discriminate.
Qed.

Lemma normalize_blanks_witness :
  normalize (lit "Total $1.00") = lit "Total $1.00".
Proof.
  destruct (normalize_blanks (lit "Total $1.00")) as (_ & _ & _ & _ & _ & H).
  apply H; [reflexivity|].
  intros a b E.
  assert (F : spaced_once false (lit "Total $1.00") = true) by reflexivity.
  exact (spaced_no_double a b _ false F E).
Defined.

End NormalisationClaims.
Section CustomerName.
Import Py Re Spec Utils Parsing.

Lemma parse_order_page_name text order_no url :
  exists r,
    parse_order_page text order_no url = Ok r /\
    extract_name (normalize text) = Ok (name r) /\
    Parsing.order_no r = order_no /\ Parsing.url r = url.
Proof.
  unfold parse_order_page.
  destruct (extract_date_total (normalize text)) as (d & ->).
  destruct (extract_last4_total (normalize text)) as (l4 & ->).
  destruct (extract_name_total (normalize text)) as (n & En).
  destruct (money_field_total RE_SUBTOTAL (normalize text)) as (a & ->).
  destruct (extract_discount_total (normalize text)) as (b & ->).
  destruct (money_field_total RE_DELIVERY (normalize text)) as (c & ->).
  destruct (money_field_total RE_TAXES (normalize text)) as (e & ->).
  destruct (money_field_total RE_TOTAL (normalize text)) as (f & ->).
  rewrite En. simpl. eexists. split; [reflexivity|]. simpl. auto.
Qed.

(** What group 1 of [RE_ADDRESS_NAME_LINE] captures: a letter first, then
    letters, apostrophes, hyphens and white space. *)
Lemma name_class_b c :
  implb (ci (name_char true) c && negb (is_space c)) (name_char false c) = true.
Proof. revert c. ascii_fact. Qed.

Lemma upper_class_b c :
  implb (ci is_upper_az c)
        (is_alpha_az c && negb (is_space c) && name_char false c) = true.
Proof. revert c. ascii_fact. Qed.

Lemma upper_in_class_b c :
  implb (ci is_upper_az c) (ci (name_char true) c || is_space c) = true.
Proof. revert c. ascii_fact. Qed.

Lemma name_line_lang w :
  lang (seqs [Cls (ci is_upper_az); plus (Cls (ci (name_char true)));
              star (seqs [plus s_; Cls (ci is_upper_az);
                          plus (Cls (ci (name_char true)))])]) w ->
  name_line w.
Proof.
  intros (w1 & w2 & -> & (c & -> & Hc) & (w3 & w4 & -> & L3 & L4)).
  apply lang_plus_cls in L3 as [_ F3].
  exists c, (w3 ++ w4). split; [reflexivity|]. split; [exact Hc|].
  rewrite forallb_app. apply andb_true_iff. split.
  - eapply forallb_imp; [|exact F3]. intros x ->. reflexivity.
  - clear -L4. cbn [lang] in L4. induction L4 as [|u v Lu _ _ IH];
      [reflexivity|].
    rewrite forallb_app, IH, andb_true_r.
    destruct Lu as (u1 & u2 & -> & L1 & (u3 & u4 & -> & (x & -> & Hx) & L5)).
    apply lang_plus_cls in L1 as [_ F1].
    apply lang_plus_cls in L5 as [_ F5].
    rewrite !forallb_app. simpl.
    assert (Hx' : ci (name_char true) x || is_space x = true).
    { pose proof (upper_in_class_b x) as B. rewrite Hx in B. exact B. }
    rewrite Hx'. simpl.
    apply andb_true_iff. split.
    + eapply forallb_imp; [|exact F1]. intros y ->. apply orb_true_r.
    + eapply forallb_imp; [|exact F5]. intros y ->. reflexivity.
Qed.


Lemma RE_ADDRESS_NAME_LINE_ok : grp_ok name_group RE_ADDRESS_NAME_LINE.
Proof.
  assert (G : forall l : str, grp_ok name_group (seqs (map chri l))).
  { induction l as [|c [|c' l] IH]; simpl; auto. }
  unfold RE_ADDRESS_NAME_LINE.
  cbn -[lang texti].
  repeat match goal with |- _ /\ _ => split end; try exact I.
  - apply G.
  - intros w L _. apply name_line_lang, L.
Qed.

(** ** The words of a text *)

Lemma split_ws_aux_word : forall tok cur u,
  forallb (fun c => negb (is_space c)) tok = true ->
  split_ws_aux cur (tok ++ u) = split_ws_aux (rev tok ++ cur) u.
Proof.
  induction tok as [|c tok IH]; intros cur u H; [reflexivity|].
  simpl in H. apply andb_true_iff in H as [Hc H]. apply negb_true_iff in Hc.
  simpl. rewrite Hc, (IH (c :: cur) u H), <- app_assoc. reflexivity.
Qed.

(** The first word of a text that begins with one. *)
Lemma split_ws_first tok u :
  tok <> [] -> forallb (fun c => negb (is_space c)) tok = true ->
  stops (fun c => negb (is_space c)) u ->
  exists ws, split_ws (tok ++ u) = tok :: ws.
Proof.
  intros N H S. unfold split_ws. rewrite (split_ws_aux_word tok [] u H).
  rewrite app_nil_r.
  destruct u as [|x u].
  - simpl. destruct (rev tok) eqn:E.
    + apply (f_equal (@rev ascii)) in E. rewrite rev_involutive in E.
      simpl in E. congruence.
    + rewrite <- E, rev_involutive. eauto.
  - simpl in S. apply negb_false_iff in S. simpl. rewrite S.
    destruct (rev tok) eqn:E.
    + apply (f_equal (@rev ascii)) in E. rewrite rev_involutive in E.
      simpl in E. congruence.
    + rewrite <- E, rev_involutive. eauto.
Qed.

Lemma lstrip_by_app p : forall x y,
  stops p y -> y <> [] -> lstrip_by p (x ++ y) = lstrip_by p x ++ y
  \/ (forallb p x = true /\ lstrip_by p (x ++ y) = y).
Proof.
  induction x as [|c x IH]; intros y S N.
  - right. split; [reflexivity|]. destruct y as [|d y]; [congruence|].
    simpl in *. rewrite S. reflexivity.
  - simpl. destruct (p c) eqn:Hc.
    + destruct (IH y S N) as [E|[F E]]; [left; exact E|].
      right. split; [exact F|exact E].
    + left. reflexivity.
Qed.

Lemma lstrip_by_snoc p : forall r x,
  lstrip_by p (r ++ [x]) = [] \/ exists r', lstrip_by p (r ++ [x]) = r' ++ [x].
Proof.
  induction r as [|d r IH]; intros x; simpl.
  - destruct (p x); [left; reflexivity|right; exists []; reflexivity].
  - destruct (p d); [apply IH|right; exists (d :: r); reflexivity].
Qed.

(** Trimming at the right leaves a first word alone, and what follows it
    is still nothing or white space. *)
Lemma rstrip_after_word tok u :
  tok <> [] -> forallb (fun c => negb (is_space c)) tok = true ->
  stops (fun c => negb (is_space c)) u ->
  exists u', rstrip_by is_space (tok ++ u) = tok ++ u' /\
             stops (fun c => negb (is_space c)) u'.
Proof.
  intros N H S. unfold rstrip_by. rewrite rev_app_distr.
  assert (Sr : stops is_space (rev tok)).
  { destruct (rev tok) as [|c r] eqn:E; [exact I|]. simpl.
    assert (In c tok) by (apply in_rev; rewrite E; left; reflexivity).
    rewrite forallb_forall in H. apply negb_true_iff, H. assumption. }
  assert (Nr : rev tok <> []).
  { intros E. apply (f_equal (@rev ascii)) in E.
    rewrite rev_involutive in E. simpl in E. congruence. }
  destruct (lstrip_by_app is_space (rev u) (rev tok) Sr Nr) as [E|[F E]];
    rewrite E.
  - rewrite rev_app_distr, rev_involutive. eexists. split; [reflexivity|].
    destruct u as [|x u]; [simpl|].
    + exact I.
    + simpl in S. apply negb_false_iff in S.
      simpl rev.
      destruct (lstrip_by_snoc is_space (rev u) x) as [-> | (r' & ->)];
        [exact I|].
      rewrite rev_app_distr. simpl. rewrite S. reflexivity.
  - rewrite rev_involutive. exists []. rewrite app_nil_r. split; [reflexivity|exact I].
Qed.


Lemma name_token_match tok :
  tok <> [] -> forallb (name_char false) tok = true ->
  exists m, match_ RE_NAME_TOKEN tok = Some m.
Proof.
  intros N F.
  assert (H : first RE_NAME_TOKEN (start_state None tok)
                (MState (prev_after None tok) [] [])).
  { change RE_NAME_TOKEN
      with (Seq Bos (Seq (plus (Cls (name_char false))) Eos)).
    apply first_seq with (st1 := start_state None tok).
    { exists []. reflexivity. }
    apply first_seq with (st1 := MState (prev_after None tok) [] []).
    - unfold start_state. rewrite <- (app_nil_r tok) at 1.
      apply first_plus_cls; [exact N|exact F|exact I].
    - exists []. reflexivity. }
  destruct H as (l & E). unfold match_. rewrite E. eauto.
Qed.

(** The name is the first word of what follows "Address". *)
Lemma extract_name_spec tn :
  match search RE_ADDRESS_NAME_LINE tn with
  | Some m =>
      exists g name rest,
        group 1 m = Some g /\ extract_name tn = Ok name /\
        g = name ++ rest /\ stops (fun c => negb (is_space c)) rest /\
        forallb (name_char false) name = true /\
        exists c w, name = c :: w /\ is_alpha_az c = true
  | None => extract_name tn = Ok []
  end.
Proof.
  unfold extract_name.
  destruct (search RE_ADDRESS_NAME_LINE tn) as [m|] eqn:E; [|reflexivity].
  destruct (search_at_group_some RE_ADDRESS_NAME_LINE _ _ _ _ 1 eq_refl E)
    as (g & Eg).
  pose proof (search_at_group RE_ADDRESS_NAME_LINE name_group _ _ _ _ 1 g
                RE_ADDRESS_NAME_LINE_ok E Eg eq_refl) as (c & w' & -> & Hc & Hw).
  pose proof (upper_class_b c) as B. rewrite Hc in B. simpl in B.
  apply andb_true_iff in B as [B Bn]. apply andb_true_iff in B as [Ba Bs].
  destruct (span_split is_space w') as (a & u & -> & Ha & Hu).
  assert (Su : stops (fun x => negb (is_space x)) u).
  { destruct u as [|x u]; [exact I|]. simpl. rewrite Hu. reflexivity. }
  rewrite forallb_app in Hw. apply andb_true_iff in Hw as [Hwa _].
  assert (Fa : forallb (name_char false) a = true).
  { clear -Ha Hwa. induction a as [|x a IH]; [reflexivity|].
    simpl in *. apply andb_true_iff in Ha as [Hx Ha].
    apply andb_true_iff in Hwa as [Hy Hwa].
    rewrite (IH Hwa Ha), andb_true_r.
    pose proof (name_class_b x) as B. rewrite Hx in B.
    apply negb_true_iff in Hx. rewrite Hx, orb_false_r in Hy.
    rewrite Hy in B. exact B. }
  set (tok := c :: a).
  assert (Nt : tok <> []) by discriminate.
  assert (St : forallb (fun x => negb (is_space x)) tok = true).
  { simpl. rewrite Bs, Ha. reflexivity. }
  assert (Ft : forallb (name_char false) tok = true).
  { simpl. rewrite Bn, Fa. reflexivity. }
  exists (c :: a ++ u), tok, u. split; [exact Eg|].
  split; [|split; [reflexivity|split; [exact Su|split; [exact Ft|]]]].
  - unfold group_str. rewrite Eg. cbn [bind].
    unfold strip, strip_by.
    assert (L : lstrip_by is_space (c :: a ++ u) = tok ++ u).
    { simpl. apply negb_true_iff in Bs. rewrite Bs. reflexivity. }
    rewrite L.
    destruct (rstrip_after_word tok u Nt St Su) as (u' & -> & Su').
    destruct (split_ws_first tok u' Nt St Su') as (ws & ->).
    cbn [filter].
    destruct (name_token_match tok Nt Ft) as (m' & ->). reflexivity.
  - exists c, a. split; [reflexivity|exact Ba].
Qed.

End CustomerName.

Section CustomerNameClaims.
Import Py Re Spec Utils Parsing.

(** X7.  The customer name.  The order number and the URL are returned as
    given.  On every page the name holds only letters, apostrophes and
    hyphens, and it is empty when the address pattern is not found.  On an
    ASCII page on which the pattern is found, the name is the first word of
    what was captured after "Address": it is not empty and starts with a
    letter, and what follows it in the capture is nothing or white space; an
    ASCII page that does not have the word "address" in any case has an
    empty name. *)
Theorem customer_name_first_word :
  forall text order_no url,
  exists r,
    parse_order_page text order_no url = Ok r /\
    Parsing.order_no r = order_no /\ Parsing.url r = url /\
    forallb (name_char false) (name r) = true /\
    (search RE_ADDRESS_NAME_LINE (normalize text) = None -> name r = []) /\
    (isascii text = true ->
     (forall m,
        search RE_ADDRESS_NAME_LINE (normalize text) = Some m ->
        exists g rest,
          group 1 m = Some g /\ g = name r ++ rest /\
          stops (fun c => negb (is_space c)) rest /\
          exists c w, name r = c :: w /\ is_alpha_az c = true) /\
     (mentions_b "address" text = false -> name r = [])).
Proof.
  intros text order_no url.
  destruct (parse_order_page_name text order_no url) as (r & E & En & Eo & Eu).
  exists r. split; [exact E|]. split; [exact Eo|]. split; [exact Eu|].
  pose proof (extract_name_spec (normalize text)) as S.
  assert (M : match search RE_ADDRESS_NAME_LINE (normalize text) with
    | Some m =>
        exists g rest,
          group 1 m = Some g /\ g = name r ++ rest /\
          stops (fun c => negb (is_space c)) rest /\
          forallb (name_char false) (name r) = true /\
          exists c w, name r = c :: w /\ is_alpha_az c = true
    | None => name r = []
    end).
  { destruct (search RE_ADDRESS_NAME_LINE (normalize text)) as [m|].
    - destruct S as (g & nm & rest & Eg & Ex & Egn & Sr & Fn & Hn).
      rewrite Ex in En. inversion En; subst nm. exists g, rest. auto.
    - congruence. }
  split; [|split; [|intros _; split]].
  - destruct (search RE_ADDRESS_NAME_LINE (normalize text)) as [m|].
    + destruct M as (g & rest & _ & _ & _ & F & _). exact F.
    + rewrite M. reflexivity.
  - intros N. rewrite N in M. exact M.
  - intros m Em. rewrite Em in M.
    destruct M as (g & rest & Eg & Ex & Sr & _ & Hn). exists g, rest. auto.
  - intros Hm.
    destruct (search RE_ADDRESS_NAME_LINE (normalize text)) as [m|] eqn:Es;
      [|exact M].
    exfalso. apply search_at_lang in Es as (pre & suf & Et & L & _).
    destruct L as (w1 & w2 & Ew & L & _).
    apply texti_mentions_part with (l := "address"%string) in L;
      [|discriminate|exists [], []; reflexivity].
    assert (Mn : mentions "address" (normalize text)).
    { eapply mentions_occurs; [exact L|]. rewrite Et, Ew.
      exists pre, (w2 ++ suf). rewrite <- !app_assoc. reflexivity. }
    apply mentions_normalize in Mn; [|reflexivity].
    apply mentions_mentions_b in Mn. congruence.
Qed.

Lemma customer_name_first_word_witness :
  (exists r,
     parse_order_page (lit "Total $5.00") (lit "77") [] = Ok r /\ name r = []) /\
  (exists r,
     parse_order_page (lit "Delivery address  Mary-Ann O'Neil 12 Main St")
       (lit "77") [] = Ok r /\
     name r = lit "Mary-Ann").
Proof.
  split.
  - destruct (customer_name_first_word (lit "Total $5.00") (lit "77") [])
      as (r & E & _ & _ & _ & _ & H).
    exists r. split; [exact E|].
    destruct (H eq_refl) as [_ Hm]. apply Hm. vm_compute. reflexivity.
  - destruct (customer_name_first_word
                (lit "Delivery address  Mary-Ann O'Neil 12 Main St")
                (lit "77") [])
      as (r & E & _ & _ & _ & _ & H).
    exists r. split; [exact E|].
    destruct (H eq_refl) as [Hs _].
    eassert (Es : search RE_ADDRESS_NAME_LINE
                    (normalize
                       (lit "Delivery address  Mary-Ann O'Neil 12 Main St"))
                  = Some _) by (vm_compute; reflexivity).
    destruct (Hs _ Es) as (g & rest & Eg & Ex & Sr & c & w & En & _).
    vm_compute in E. inversion E; subst r. reflexivity.
Defined.

End CustomerNameClaims.
(* ================================================================== *)
(** * The folder path *)

Section FolderPath.
Import Py Re Spec Outlook OutlookSpec.

Lemma named_lower n1 n2 f :
  lower n1 = lower n2 -> named n1 f = named n2 f.
Proof. intros E. unfold named. rewrite E. reflexivity. Qed.

Lemma find_named_lower n1 n2 fs :
  lower n1 = lower n2 -> find_named n1 fs = find_named n2 fs.
Proof.
  intros E. induction fs as [|f fs IH]; [reflexivity|].
  simpl. rewrite (named_lower n1 n2 f E), IH. reflexivity.
Qed.

Lemma descend_lower : forall names1 names2 f,
  map lower names1 = map lower names2 ->
  descend f names1 = descend f names2.
Proof.
  induction names1 as [|n1 names1 IH]; intros [|n2 names2] f E;
    try discriminate; [reflexivity|].
  simpl in E. inversion E as [[E1 E2]].
  simpl. destruct (Folders f) as [fs|e]; [|reflexivity]. cbn [bind].
  rewrite (find_named_lower n1 n2 fs E1).
  destruct (find_named n2 fs) as [[g|]|e]; cbn [bind]; auto.
Qed.

Lemma try_default_store_lower n1 n2 folders :
  lower n1 = lower n2 ->
  try_default_store folders n1 = try_default_store folders n2.
Proof.
  intros E. unfold try_default_store.
  destruct (Item1 folders) as [[ds|]|e]; cbn [bind]; auto.
  rewrite (named_lower n1 n2 ds E). reflexivity.
Qed.

Lemma named_true name f : named name f = Ok true -> has_name name f.
Proof.
  unfold named, has_name. destruct (Name f) as [n|e]; [|discriminate].
  cbn [bind]. intros H. inversion H as [H']. apply eqs_eq in H'. eauto.
Qed.

Lemma find_named_some name : forall fs f,
  find_named name fs = Ok (Some f) -> In f fs /\ has_name name f.
Proof.
  induction fs as [|g fs IH]; intros f H; [discriminate|].
  simpl in H. destruct (named name g) as [[|]|e] eqn:En; cbn [bind] in H;
    try discriminate.
  - inversion H; subst g. split; [left; reflexivity|apply named_true, En].
  - destruct (IH f H) as [I N]. split; [right; exact I|exact N].
Qed.

Lemma descend_leads : forall names f g,
  descend f names = Ok (Some g) -> leads_to f names g.
Proof.
  induction names as [|name names IH]; intros f g H.
  - inversion H. constructor.
  - simpl in H. destruct (Folders f) as [fs|e] eqn:Ef; [|discriminate].
    cbn [bind] in H.
    destruct (find_named name fs) as [[child|]|e] eqn:En; cbn [bind] in H;
      try discriminate.
    apply find_named_some in En as [I N].
    apply (leads_down f fs name names child g Ef I N). apply IH, H.
Qed.

End FolderPath.

Section FolderPathClaims.
Import Py Re Spec Outlook OutlookSpec.

(** X8.  [get_folder_by_path] never raises.  A path without a part (empty, or
    slashes only) finds nothing, whatever the mailbox.  Two paths whose parts
    are equal up to case (empty parts set aside, so doubled, leading and
    trailing slashes do not count) find the same folder.  A folder that is
    found is reached from a store (one of the stores, or the default store)
    that has the name of the first part, through subfolders that have the
    names of the other parts in turn, names compared without case. *)
Theorem folder_by_path :
  forall namespace,
    (forall path, path_parts path = [] ->
                  get_folder_by_path namespace path = None) /\
    (forall path1 path2,
       map lower (path_parts path1) = map lower (path_parts path2) ->
       get_folder_by_path namespace path1 = get_folder_by_path namespace path2) /\
    (forall path f,
       get_folder_by_path namespace path = Some f ->
       exists folders part0 names root,
         ns_Folders namespace = Ok folders /\
         path_parts path = part0 :: names /\
         (In root (stores folders) \/ Item1 folders = Ok (Some root)) /\
         has_name part0 root /\ leads_to root names f).
Proof.
  intros namespace. split; [|split].
  - intros path H. unfold get_folder_by_path. fold (path_parts path).
    rewrite H. reflexivity.
  - intros path1 path2 E. unfold get_folder_by_path.
    fold (path_parts path1) (path_parts path2).
    destruct (path_parts path1) as [|a1 r1], (path_parts path2) as [|a2 r2];
      try discriminate; [reflexivity|].
    simpl in E. inversion E as [[Ea Er]].
    destruct (ns_Folders namespace) as [folders|e]; [|reflexivity].
    cbn [bind]. rewrite (find_named_lower a1 a2 _ Ea).
    destruct (find_named a2 (stores folders)) as [[root|]|e]; cbn [bind];
      try reflexivity.
    + rewrite (descend_lower r1 r2 root Er). reflexivity.
    + rewrite (try_default_store_lower a1 a2 folders Ea).
      destruct (try_default_store folders a2) as [root|]; [|reflexivity].
      rewrite (descend_lower r1 r2 root Er). reflexivity.
  - intros path f H. unfold get_folder_by_path in H.
    fold (path_parts path) in H.
    destruct (path_parts path) as [|part0 names]; [discriminate|].
    destruct (ns_Folders namespace) as [folders|e]; [|discriminate].
    cbn [bind] in H.
    exists folders, part0, names.
    destruct (find_named part0 (stores folders)) as [[root|]|e] eqn:En;
      cbn [bind] in H; try discriminate.
    + exists root. apply find_named_some in En as [I N].
      destruct (descend root names) as [[g|]|e] eqn:Ed; try discriminate.
      inversion H; subst g. repeat split; auto. apply descend_leads, Ed.
    + destruct (try_default_store folders part0) as [root|] eqn:Et;
        [|discriminate].
      exists root. unfold try_default_store in Et.
      destruct (Item1 folders) as [[ds|]|e] eqn:Ei; cbn [bind] in Et;
        try discriminate.
      destruct (named part0 ds) as [[|]|e] eqn:Ed; cbn [bind] in Et;
        try discriminate.
      inversion Et; subst ds.
      destruct (descend root names) as [[g|]|e] eqn:Eg; try discriminate.
      inversion H; subst g. repeat split; auto.
      * apply named_true, Ed.
      * apply descend_leads, Eg.
Qed.

Lemma folder_by_path_witness :
  get_folder_by_path example_mailbox (lit "/Inbox//WALMART/")
  = get_folder_by_path example_mailbox (lit "inbox/Walmart").
Proof.
  destruct (folder_by_path example_mailbox) as (_ & H & _).
  apply H. reflexivity.
Defined.

End FolderPathClaims.
(* ================================================================== *)
(** * The URLs the link scanner finds *)

Section ScannedUrls.
Import Py Re Spec Outlook OutlookSpec.

(** Every match of an iteration lies in the text and is matched by the
    pattern. *)
Lemma finditer_at_occurs r : forall fuel p s m,
  In m (finditer_at r fuel p s) -> occurs (m_text m) s /\ lang r (m_text m).
Proof.
  induction fuel as [|fuel IH]; intros p s m H; [contradiction|].
  simpl in H. destruct (search_at r p s 0) as [m0|] eqn:E; [|contradiction].
  pose proof (search_at_lang r s p 0 m0 E) as (pre & suf & Es & L & Er & _).
  destruct H as [<-|H].
  - split; [|exact L]. rewrite Es. apply occurs_mid.
  - rewrite Er in H.
    assert (O : forall p' s', (exists a, s = a ++ s') ->
                In m (finditer_at r fuel p' s') ->
                occurs (m_text m) s /\ lang r (m_text m)).
    { intros p' s' (a & Ea) Hi. destruct (IH p' s' m Hi) as [O' L'].
      split; [|exact L']. rewrite Ea. apply occurs_app_l, O'. }
    destruct (m_text m0) as [|t0 t] eqn:Et.
    + destruct suf as [|c suf']; [contradiction|].
      apply (O (Some c) suf'); [|exact H].
      exists (pre ++ [c]). rewrite Es. simpl. rewrite <- app_assoc. reflexivity.
    + apply (O (m_prev m0) suf); [|exact H].
      exists (pre ++ t0 :: t). rewrite Es, <- app_assoc. reflexivity.
Qed.

Lemma lang_text_chars : forall (l : str) w,
  l <> [] -> lang (seqs (map chr l)) w -> w = l.
Proof.
  induction l as [|c l IH]; intros w N L; [congruence|].
  destruct l as [|c' l].
  - simpl in L. destruct L as (x & -> & Hx). apply eqc_eq in Hx. congruence.
  - change (seqs (map chr (c :: c' :: l)))
      with (Seq (chr c) (seqs (map chr (c' :: l)))) in L.
    destruct L as (w1 & w2 & -> & (x & -> & Hx) & L2).
    apply eqc_eq in Hx. subst x. simpl. f_equal. apply IH; [discriminate|exact L2].
Qed.

(** What [URL_RE] matches: http or https, a colon and two slashes, and at
    least one character, none of them white space. *)
Lemma lang_URL_RE w :
  lang URL_RE w ->
  exists scheme body,
    w = scheme ++ body /\
    (scheme = lit "http://" \/ scheme = lit "https://") /\
    body <> [] /\ forallb (fun c => negb (is_space c)) body = true.
Proof.
  intros (w1 & w2 & -> & L1 & (w3 & w4 & -> & L3 & (w5 & w6 & -> & L5 & L6))).
  apply (lang_text_chars (lit "http")) in L1; [|discriminate].
  apply (lang_text_chars (lit "://")) in L5; [|discriminate].
  apply lang_plus_cls in L6 as [N6 F6]. subst w1 w5.
  destruct L3 as [(x & -> & Hx)| ->].
  - apply eqc_eq in Hx. subst x.
    exists (lit "https://"), w6. repeat split; auto.
  - exists (lit "http://"), w6. repeat split; auto.
Qed.

(** ** Trimming at the right *)

Lemma lstrip_by_suffix p : forall s, exists t, s = t ++ lstrip_by p s.
Proof.
  induction s as [|c s (t & E)]; [exists []; reflexivity|].
  simpl. destruct (p c).
  - exists (c :: t). simpl. f_equal. exact E.
  - exists []. reflexivity.
Qed.

Lemma lstrip_by_idem p : forall s, lstrip_by p (lstrip_by p s) = lstrip_by p s.
Proof.
  induction s as [|c s IH]; [reflexivity|].
  simpl. destruct (p c) eqn:E; [exact IH|]. simpl. rewrite E. reflexivity.
Qed.

Lemma rstrip_by_prefix p s : exists t, s = rstrip_by p s ++ t.
Proof.
  unfold rstrip_by. destruct (lstrip_by_suffix p (rev s)) as (t & E).
  exists (rev t). rewrite <- rev_app_distr, <- E, rev_involutive. reflexivity.
Qed.

Lemma rstrip_by_idem p s : rstrip_by p (rstrip_by p s) = rstrip_by p s.
Proof.
  unfold rstrip_by. rewrite rev_involutive, lstrip_by_idem. reflexivity.
Qed.

(** Trimming does not reach into a text that ends with a character that is
    kept. *)
Lemma rstrip_by_app p a c b :
  p c = false ->
  rstrip_by p ((a ++ [c]) ++ b) = (a ++ [c]) ++ rstrip_by p b.
Proof.
  intros Hc. unfold rstrip_by.
  assert (R : rev ((a ++ [c]) ++ b) = rev b ++ c :: rev a)
    by (rewrite !rev_app_distr; reflexivity).
  rewrite R.
  assert (S : stops p (c :: rev a)) by exact Hc.
  destruct (lstrip_by_app p (rev b) (c :: rev a) S ltac:(discriminate))
    as [E|[F E]]; cbn [app] in *; rewrite E.
  - rewrite rev_app_distr. simpl. rewrite rev_involutive, <- app_assoc.
    reflexivity.
  - assert (L : lstrip_by p (rev b) = []).
    { clear -F. induction (rev b) as [|x r IH]; [reflexivity|].
      simpl in *. apply andb_true_iff in F as [-> F]. apply IH, F. }
    rewrite L. simpl. rewrite rev_involutive, app_nil_r. reflexivity.
Qed.

Lemma forallb_prefix (f : ascii -> bool) (a t : str) :
  forallb f (a ++ t) = true -> forallb f a = true.
Proof. rewrite forallb_app. intros H. apply andb_true_iff in H as [H _]. exact H. Qed.

(** A URL of the scanner, trimmed. *)
Lemma found_url_shape s url :
  In url (found_urls s) ->
  (startswith (lit "http://") url = true \/
   startswith (lit "https://") url = true) /\
  forallb (fun c => negb (is_space c)) url = true /\
  rstrip_chars TRAILING url = url /\
  occurs url s.
Proof.
  unfold found_urls. intros H. apply in_map_iff in H as (m & <- & Hm).
  unfold finditer in Hm. apply finditer_at_occurs in Hm as [O L].
  apply lang_URL_RE in L as (scheme & body & Ew & Hs & Nb & Fb).
  rewrite Ew in *.
  assert (R : rstrip_chars TRAILING (scheme ++ body)
              = scheme ++ rstrip_chars TRAILING body).
  { unfold rstrip_chars.
    destruct Hs as [-> | ->].
    - apply (rstrip_by_app _ (lit "http:/") "/"%char body). reflexivity.
    - apply (rstrip_by_app _ (lit "https:/") "/"%char body). reflexivity. }
  destruct (rstrip_by_prefix (fun c => existsb (eqc c) TRAILING) body)
    as (t & Et).
  fold (rstrip_chars TRAILING body) in Et.
  repeat match goal with |- _ /\ _ => split end.
  - rewrite R. destruct Hs as [-> | ->]; [left|right]; apply startswith_app.
  - rewrite R, forallb_app. apply andb_true_iff. split.
    + destruct Hs as [-> | ->]; reflexivity.
    + rewrite Et in Fb. apply forallb_prefix in Fb. exact Fb.
  - unfold rstrip_chars. apply rstrip_by_idem.
  - rewrite R. destruct O as (a & b & Ea). exists a, (t ++ b).
    rewrite Ea. rewrite Et at 1. rewrite <- !app_assoc. reflexivity.
Qed.

Lemma emitted_inv (f : str -> result (list str)) : forall l x,
  In x (emitted (map f l)) ->
  exists u lu, In u l /\ f u = Ok lu /\ In x lu.
Proof.
  induction l as [|u l IH]; intros x H; [contradiction|].
  simpl in H. destruct (f u) as [lu|e] eqn:E; [|contradiction].
  apply in_app_iff in H as [H|H].
  - exists u, lu. repeat split; auto. left. reflexivity.
  - destruct (IH x H) as (u' & lu' & I & E' & I').
    exists u', lu'. repeat split; auto. right. exact I.
Qed.

Lemma startswith_inv : forall w s,
  startswith w s = true -> exists t, s = w ++ t.
Proof.
  induction w as [|c w IH]; intros s H; [exists s; reflexivity|].
  destruct s as [|x s]; [discriminate|]. simpl in H.
  apply andb_true_iff in H as [Hc H]. apply eqc_eq in Hc. subst x.
  destruct (IH s H) as (t & ->). exists t. reflexivity.
Qed.

Lemma contains_occurs w s : occurs w s -> contains w s = true.
Proof.
  intros (a & b & ->). unfold contains.
  pose proof (find_occurs w a b) as F.
  destruct (find w (a ++ w ++ b)); [reflexivity|congruence].
Qed.

End ScannedUrls.

Section ScannedUrlsClaims.
Import Py Re Spec Outlook OutlookSpec.

(** X9.  What the link unwrapper returns.  Every string it returns comes from a
    URL that the scanner found in the text: it is that URL, when its network
    location is not the redirector's, and else the decoded value of its url
    parameter.  Each URL of the scanner occurs in the text, starts with
    http:// or https:// in lower case, has no white space, and does not end
    with one of the trimmed punctuation characters.  So a text without
    "://" gives nothing. *)
Theorem unwrapper_sources :
  forall (unquote : str -> result str)
         (check_bracketed_netloc : str -> result unit) s,
    (forall x,
       In x (_extract_urls_from_safelinks unquote check_bracketed_netloc s) ->
       exists url p,
         In url (found_urls s) /\
         urlparse check_bracketed_netloc url = Ok p /\
         (if contains SAFELINKS_HOST (netloc p)
          then unwrap unquote check_bracketed_netloc url = Ok [x]
          else x = url)) /\
    (forall url,
       In url (found_urls s) ->
       (startswith (lit "http://") url = true \/
        startswith (lit "https://") url = true) /\
       forallb (fun c => negb (is_space c)) url = true /\
       rstrip_chars TRAILING url = url /\
       occurs url s) /\
    (contains (lit "://") s = false ->
     _extract_urls_from_safelinks unquote check_bracketed_netloc s = []).
Proof.
  intros unquote chk s.
  assert (A : _extract_urls_from_safelinks unquote chk s
              = emitted (map (unwrap unquote chk) (found_urls s))).
  { destruct s as [|c s]; [reflexivity|].
    unfold _extract_urls_from_safelinks, found_urls.
    rewrite safelinks_loop_emitted. reflexivity. }
  assert (B : forall x, In x (_extract_urls_from_safelinks unquote chk s) ->
       exists url p,
         In url (found_urls s) /\
         urlparse chk url = Ok p /\
         (if contains SAFELINKS_HOST (netloc p)
          then unwrap unquote chk url = Ok [x]
          else x = url)).
  { intros x H. rewrite A in H.
    apply emitted_inv in H as (url & lu & I & E & Ix).
    exists url. unfold unwrap in *.
    destruct (urlparse chk url) as [p|e]; [|discriminate]. cbn [bind] in *.
    exists p. split; [exact I|]. split; [reflexivity|].
    destruct (contains SAFELINKS_HOST (netloc p)).
    - destruct (parse_qsl unquote (query p)) as [qs|e]; [|discriminate].
      cbn [bind] in *.
      destruct (first_value (lit "url") qs) as [target|];
        [|inversion E; subst lu; contradiction].
      destruct (is_nonempty target);
        [|inversion E; subst lu; contradiction].
      destruct (unquote target) as [t1|e]; [|discriminate]. cbn [bind] in *.
      destruct (unquote t1) as [t2|e]; [|discriminate]. cbn [bind] in *.
      destruct (unquote t2) as [t3|e]; [|discriminate]. cbn [bind] in *.
      inversion E; subst lu. destruct Ix as [->|[]]. reflexivity.
    - inversion E; subst lu. destruct Ix as [->|[]]. reflexivity. }
  split; [exact B|]. split; [apply found_url_shape|].
  intros N. rewrite A.
  destruct (found_urls s) as [|url l] eqn:F; [reflexivity|].
  exfalso.
  assert (X : False); [|contradiction].
  {
    destruct (found_url_shape s url) as (Hs & _ & _ & O).
    { rewrite F. left. reflexivity. }
    assert (O' : occurs (lit "://") url).
    { destruct Hs as [Hs|Hs]; apply startswith_inv in Hs as (u & ->).
      - exists (lit "http"), u. reflexivity.
      - exists (lit "https"), u. reflexivity. }
    pose proof (contains_occurs _ _ (occurs_trans _ _ _ O' O)). congruence. }
Qed.

Lemma unwrapper_sources_witness :
  _extract_urls_from_safelinks (fun s => Ok (unquote_ascii s)) (fun _ => Ok tt)
    (lit "order at www.walmart.ca/orders/12, see http:/x") = [].
Proof.
  destruct (unwrapper_sources (fun s => Ok (unquote_ascii s)) (fun _ => Ok tt)
              (lit "order at www.walmart.ca/orders/12, see http:/x"))
    as (_ & _ & H).
  apply H. vm_compute. reflexivity.
Defined.

End ScannedUrlsClaims.
(* ================================================================== *)
(** * Order links *)

Section OrderLinks.
Import Py Re Spec Outlook OutlookSpec.

(** The match that a search reports is the first match at the leftmost
    position at which the pattern matches. *)
Lemma search_at_leftmost r : forall s p i m,
  search_at r p s i = Some m ->
  exists pre0 suf0 st' l,
    s = pre0 ++ suf0 /\
    run r (start_state (prev_after p pre0) suf0) = st' :: l /\
    m = match_of (i + length pre0) suf0 st' /\
    (forall a c b, pre0 = a ++ c :: b ->
       run r (start_state (prev_after p a) (c :: b ++ suf0)) = []).
Proof.
  induction s as [|x s IH]; intros p i m H; rewrite search_at_unfold in H.
  - destruct (run r (start_state p [])) as [|st' l] eqn:E; [discriminate|].
    inversion H. exists [], [], st', l. rewrite Nat.add_0_r.
    repeat split; auto. intros [|? ?] c b Ea; discriminate.
  - destruct (run r (start_state p (x :: s))) as [|st' l] eqn:E.
    + destruct (IH (Some x) (S i) m H) as (pre0 & suf0 & st' & l & Es & Er & Em & Hl).
      exists (x :: pre0), suf0, st', l. rewrite prev_after_cons.
      simpl length. replace (i + S (length pre0)) with (S i + length pre0) by lia.
      repeat split; auto; [rewrite Es; reflexivity|].
      intros [|y a] c b Ea; simpl in Ea; inversion Ea; subst.
      * exact E.
      * rewrite prev_after_cons. apply Hl. reflexivity.
    + inversion H. exists [], (x :: s), st', l. rewrite Nat.add_0_r.
      repeat split; auto. intros [|? ?] c b Ea; discriminate.
Qed.

(** The fields of the match of a state reached by the pattern. *)
Lemma match_of_fields r p suf st' i :
  In st' (run r (start_state p suf)) ->
  exists t, suf = t ++ rest st' /\ lang r t /\
            m_text (match_of i suf st') = t /\
            m_rest (match_of i suf st') = rest st'.
Proof.
  intros H. apply run_sound in H as (t & E & L). cbn [rest start_state] in E.
  exists t. repeat split; auto. unfold match_of. cbn [m_text].
  rewrite E at 1. apply consumed_app.
Qed.

(** What [ORDER_RE] matches. *)
Lemma lang_ORDER_RE t :
  lang ORDER_RE t ->
  exists w ds, t = w ++ ds /\ lower w = lit "/orders/" /\
               ds <> [] /\ all_digits ds.
Proof.
  intros (w & ds & -> & Lw & Ld).
  apply lang_texti in Lw; [|discriminate].
  apply lang_plus_cls in Ld as [N D]. exists w, ds. auto.
Qed.

Lemma first_order p w n post :
  lower w = lit "/orders/" -> n <> [] -> all_digits n -> stops is_digit post ->
  first ORDER_RE (MState p (w ++ n ++ post) [])
        (MState (prev_after (prev_after p w) n) post [(1, n)]).
Proof.
  intros Ew N D S.
  change ORDER_RE with (Seq (texti "/orders/") (Grp 1 (plus d))).
  apply first_seq with (st1 := MState (prev_after p w) (n ++ post) []).
  - apply first_texti; [discriminate|exact Ew].
  - replace (MState (prev_after (prev_after p w) n) post [(1, n)])
      with (set_group 1 (MState (prev_after p w) (n ++ post) [])
              (MState (prev_after (prev_after p w) n) post [])).
    2:{ unfold set_group. cbn [prev rest caps]. rewrite consumed_app.
        reflexivity. }
    apply first_grp, first_plus_cls; assumption.
Qed.

(** Facts on the characters of an order link. *)
Lemma digit_not_link_b c :
  implb (is_digit c)
        (negb (eqc (lower_c c) "/") && negb (eqc (lower_c c) "o")) = true.
Proof. revert c. ascii_fact. Qed.

Lemma digit_not_link c :
  is_digit c = true -> lower_c c <> "/"%char /\ lower_c c <> "o"%char.
Proof.
  intros H. pose proof (digit_not_link_b c) as B. rewrite H in B. simpl in B.
  apply andb_true_iff in B as [B1 B2].
  apply negb_true_iff in B1, B2.
  split; intros E; rewrite E in *; discriminate.
Qed.

Lemma lower_link w :
  lower w = lit "/orders/" ->
  exists a0 a1 a2 a3 a4 a5 a6 a7,
    w = [a0; a1; a2; a3; a4; a5; a6; a7] /\
    lower_c a0 = "/"%char /\ lower_c a1 = "o"%char /\ lower_c a2 = "r"%char /\
    lower_c a3 = "d"%char /\ lower_c a4 = "e"%char /\ lower_c a5 = "r"%char /\
    lower_c a6 = "s"%char /\ lower_c a7 = "/"%char.
Proof.
  intros H.
  destruct w as [|a0 [|a1 [|a2 [|a3 [|a4 [|a5 [|a6 [|a7 [|a8 w]]]]]]]]];
    try discriminate.
  inversion H. exists a0, a1, a2, a3, a4, a5, a6, a7. repeat split; auto.
Qed.

(** A match of [ORDER_RE] that starts before an order link ends before
    it. *)
Lemma no_overlap t rest0 d w n post :
  lang ORDER_RE t -> d <> [] ->
  t ++ rest0 = d ++ w ++ n ++ post ->
  lower w = lit "/orders/" -> n <> [] -> all_digits n ->
  exists d', d = t ++ d'.
Proof.
  intros Lt Nd E Ew Nn Dn.
  apply lang_ORDER_RE in Lt as (w0 & ds0 & -> & Ew0 & Nds & Dds).
  apply lower_link in Ew0 as (a0 & a1 & a2 & a3 & a4 & a5 & a6 & a7 & -> & A).
  apply lower_link in Ew as (b0 & b1 & b2 & b3 & b4 & b5 & b6 & b7 & -> & B).
  destruct A as (A0 & A1 & A2 & A3 & A4 & A5 & A6 & A7).
  destruct B as (B0 & B1 & B2 & B3 & B4 & B5 & B6 & B7).
  (* the match is a0..a7 ds0; the link is b0..b7 n *)
  assert (X : forall x, In x ds0 -> lower_c x <> "/"%char /\ lower_c x <> "o"%char).
  { intros x Hx. apply digit_not_link.
    unfold all_digits in Dds. rewrite forallb_forall in Dds. apply Dds, Hx. }
  destruct d as [|x0 d]; [congruence|].
  simpl in E.
  (* the link starts at offset 1 .. 7 of the match, or in its digits *)
  destruct d as [|x1 d].
  { exfalso. simpl in E. inversion E as [[E0 E1]].
    rewrite E1, B0 in A1. discriminate. }
  destruct d as [|x2 d].
  { exfalso. simpl in E. inversion E as [[E0 E1 E2]].
    rewrite E2, B0 in A2. discriminate. }
  destruct d as [|x3 d].
  { exfalso. simpl in E. inversion E as [[E0 E1 E2 E3]].
    rewrite E3, B0 in A3. discriminate. }
  destruct d as [|x4 d].
  { exfalso. simpl in E. inversion E as [[E0 E1 E2 E3 E4]].
    rewrite E4, B0 in A4. discriminate. }
  destruct d as [|x5 d].
  { exfalso. simpl in E. inversion E as [[E0 E1 E2 E3 E4 E5]].
    rewrite E5, B0 in A5. discriminate. }
  destruct d as [|x6 d].
  { exfalso. simpl in E. inversion E as [[E0 E1 E2 E3 E4 E5 E6]].
    rewrite E6, B0 in A6. discriminate. }
  destruct d as [|x7 d].
  { exfalso. simpl in E. inversion E as [[E0 E1 E2 E3 E4 E5 E6 E7 Et]].
    destruct ds0 as [|y ds0]; [congruence|].
    simpl in Et. inversion Et as [[Ey Et']].
    destruct (X y (or_introl eq_refl)) as [_ Xo]. rewrite Ey in Xo.
    contradiction. }
  simpl in E. inversion E as [[E0 E1 E2 E3 E4 E5 E6 E7 Et]].
  subst x0 x1 x2 x3 x4 x5 x6 x7.
  (* the link starts in or after the digits of the match *)
  clear -Et X B0.
  revert d Et. induction ds0 as [|y ds0 IH]; intros d Et.
  - exists d. reflexivity.
  - destruct d as [|z d].
    + exfalso. simpl in Et. inversion Et as [[Ey Et']].
      destruct (X y (or_introl eq_refl)) as [Xs _]. rewrite Ey in Xs.
      contradiction.
    + simpl in Et. inversion Et as [[Ey Et']]. subst z.
      destruct (IH (fun x Hx => X x (or_intror Hx)) d Et') as (d' & Ed).
      exists d'. simpl. repeat f_equal.
      simpl in Ed. inversion Ed. reflexivity.
Qed.

End OrderLinks.
Section OrderLinksFound.
Import Py Re Spec Outlook OutlookSpec.

Lemma lang_ORDER_RE_nonempty t : lang ORDER_RE t -> t <> [].
Proof.
  intros L. apply lang_ORDER_RE in L as (w & ds & -> & _ & N & _).
  destruct w; simpl; [exact N|discriminate].
Qed.

(** The iteration over a text reaches every order link in it. *)
Lemma finditer_order_link : forall fuel pre p w n post,
  length (pre ++ w ++ n ++ post) < fuel ->
  lower w = lit "/orders/" -> n <> [] -> all_digits n -> stops is_digit post ->
  exists m, In m (finditer_at ORDER_RE fuel p (pre ++ w ++ n ++ post)) /\
            group 1 m = Some n.
Proof.
  induction fuel as [|fuel IH]; intros pre p w n post Hl Ew Nn Dn Sp; [lia|].
  set (T := w ++ n ++ post) in *.
  pose proof (first_order (prev_after p pre) w n post Ew Nn Dn Sp) as [l1 F].
  fold T in F.
  cbn [finditer_at].
  destruct (search_at ORDER_RE p (pre ++ T) 0) as [m0|] eqn:E.
  2:{ apply search_at_none in E. unfold start_state in E. congruence. }
  destruct (search_at_leftmost ORDER_RE _ _ _ _ E)
    as (pre0 & suf0 & st' & l & Es & Er & Em & Hleft).
  assert (Here : pre0 = pre -> suf0 = T ->
                 exists m, In m (m0 :: match m_text m0, m_rest m0 with
                    | [], [] => []
                    | [], c :: s' => finditer_at ORDER_RE fuel (Some c) s'
                    | _ :: _, s' => finditer_at ORDER_RE fuel (m_prev m0) s'
                    end) /\ group 1 m = Some n).
  { intros -> ->. unfold start_state in Er. rewrite F in Er.
    inversion Er; subst st' l. exists m0. split; [left; reflexivity|].
    rewrite Em. reflexivity. }
  apply app_eq_app in Es as (d & [[Ea Eb]|[Ea Eb]]).
  - (* the match starts at or before the link *)
    destruct d as [|x d].
    { rewrite app_nil_r in Ea. simpl in Eb. apply Here; congruence. }
    assert (Hin : In st' (run ORDER_RE (start_state (prev_after p pre0) suf0)))
      by (rewrite Er; left; reflexivity).
    destruct (match_of_fields ORDER_RE _ _ _ (0 + length pre0) Hin)
      as (t & Et & Lt & Etext & Erest).
    rewrite <- Em in Etext, Erest.
    pose proof (lang_ORDER_RE_nonempty t Lt) as Nt.
    assert (Eo : t ++ rest st' = (x :: d) ++ w ++ n ++ post)
      by (rewrite <- Et; exact Eb).
    destruct (no_overlap t (rest st') (x :: d) w n post Lt
                ltac:(discriminate) Eo Ew Nn Dn) as (d' & Ed).
    rewrite Ed, <- app_assoc in Eo. apply app_inv_head in Eo.
    destruct (IH d' (m_prev m0) w n post) as (m & Hm & Gm); auto.
    { rewrite Ea, Ed in Hl. fold T. rewrite !length_app in *.
      destruct t; [congruence|]. simpl in *. lia. }
    exists m. split; [|exact Gm]. right.
    rewrite Etext, Erest. destruct t as [|t0 t']; [congruence|].
    rewrite Eo. exact Hm.
  - (* the match starts at or after the link *)
    destruct d as [|x d].
    { rewrite app_nil_r in Ea. simpl in Eb. apply Here; congruence. }
    exfalso. specialize (Hleft pre x d Ea).
    unfold start_state in Hleft. rewrite <- app_comm_cons in Eb.
    rewrite <- Eb in Hleft. congruence.
Qed.

(** Every order link of a text is among the numbers read from it. *)
Lemma order_numbers_in_link pre w n post :
  lower w = lit "/orders/" -> n <> [] -> all_digits n -> stops is_digit post ->
  In n (order_numbers_in (pre ++ w ++ n ++ post)).
Proof.
  intros Ew Nn Dn Sp.
  destruct (finditer_order_link (S (length (pre ++ w ++ n ++ post)))
              pre None w n post ltac:(lia) Ew Nn Dn Sp) as (m & Hm & Gm).
  unfold order_numbers_in. apply in_flat_map. exists m. split; [exact Hm|].
  rewrite Gm. left. reflexivity.
Qed.

End OrderLinksFound.
Section Collecting.
Import Py Re Spec Outlook OutlookSpec.

Lemma in_set_add g x numbers :
  In g (set_add x numbers) <-> In g numbers \/ g = x.
Proof.
  unfold set_add. destruct (mem x numbers) eqn:E.
  - split; [auto|]. intros [H| ->]; [exact H|]. apply mem_In, E.
  - rewrite in_app_iff. simpl. intuition.
Qed.

Lemma in_fold_set_add g : forall gs numbers,
  In g (fold_left (fun acc x => set_add x acc) gs numbers)
  <-> In g numbers \/ In g gs.
Proof.
  induction gs as [|x gs IH]; intros numbers; simpl; [intuition|].
  rewrite IH, in_set_add. intuition.
Qed.

Variable unescape : str -> result str.
Variable unquote : str -> result str.
Variable check_bracketed_netloc : str -> result unit.

Let scan := scan_message unescape unquote check_bracketed_netloc.
Let scan_all := scan_items unescape unquote check_bracketed_netloc.

(** What a message adds does not depend on what was collected before. *)
Lemma in_scan_message g subject_exact it numbers :
  In g (scan subject_exact it numbers)
  <-> In g numbers \/ In g (scan subject_exact it []).
Proof.
  unfold scan, scan_message.
  destruct (Subject it) as [subject|e]; [|simpl; intuition].
  match goal with |- context [if ?b then _ else _] => destruct b end;
    [simpl; intuition|].
  rewrite !in_fold_set_add. simpl. intuition.
Qed.

Lemma decode_candidates_head s :
  s <> [] -> exists l, _decode_candidates unescape unquote s = s :: l.
Proof.
  intros N. destruct s as [|c s]; [congruence|].
  assert (A : forall x v, exists l, append_new x ((c :: s) :: v) = (c :: s) :: l).
  { intros x v. unfold append_new. destruct (mem x _); simpl; eauto. }
  unfold _decode_candidates. cbv zeta.
  destruct (unescape (c :: s)) as [h|e]; [|eauto].
  assert (R : forall v, exists l,
            match unquote h with
            | Ok u1 =>
                match unquote u1 with
                | Ok u2 =>
                    match unquote u2 with
                    | Ok u3 =>
                        append_new u3
                          (append_new u2 (append_new u1 ((c :: s) :: v)))
                    | Raise _ =>
                        append_new u2 (append_new u1 ((c :: s) :: v))
                    end
                | Raise _ => append_new u1 ((c :: s) :: v)
                end
            | Raise _ => (c :: s) :: v
            end = (c :: s) :: l).
  { intros v. destruct (unquote h) as [u1|e]; [|eauto].
    destruct (A u1 v) as (v1 & ->).
    destruct (unquote u1) as [u2|e]; [|eauto].
    destruct (A u2 v1) as (v2 & ->).
    destruct (unquote u2) as [u3|e]; [|eauto].
    apply A. }
  destruct (negb (eqs h (c :: s))); [apply (R [h])|apply (R [])].
Qed.

(** A message that passes the filter gives the numbers of the order links
    of its bodies. *)
Lemma scan_message_link subject_exact it body n :
  passes subject_exact it ->
  HTMLBody it = Ok (Some body) \/ Body it = Ok (Some body) ->
  has_order_link n body ->
  In n (scan subject_exact it []).
Proof.
  intros (subject & Es & P) Hb (pre & w & post & Eb & Ew & Nn & Dn & Sp).
  unfold scan, scan_message. rewrite Es.
  assert (K : match subject_exact with
              | Some ((_ :: _) as wanted) =>
                  negb (eqs (lower (strip (or_empty subject)))
                            (lower (strip wanted)))
              | _ => false
              end = false).
  { destruct subject_exact as [[|c wanted]|]; try reflexivity.
    rewrite P, eqs_refl. reflexivity. }
  rewrite K. apply in_fold_set_add. right.
  assert (Nb : body <> []).
  { rewrite Eb. destruct w; [discriminate|]. destruct pre; discriminate. }
  destruct (decode_candidates_head body Nb) as (l & Ed).
  apply in_flat_map. exists body. split.
  - apply in_or_app. left. apply in_or_app.
    destruct Hb as [Hb|Hb]; rewrite Hb; simpl; rewrite Ed;
      [left|right]; left; reflexivity.
  - rewrite Eb. apply order_numbers_in_link; assumption.
Qed.

Lemma scan_items_mono g subject_exact items : forall k i numbers,
  In g numbers -> In g (scan_all subject_exact items i k numbers).
Proof.
  induction k as [|k IH]; intros i numbers H; [exact H|].
  simpl. apply IH. destruct (Item items i); [|exact H].
  apply in_scan_message. left. exact H.
Qed.

Lemma scan_items_reach g subject_exact items it : forall k i0 i numbers,
  i0 <= i < i0 + k -> Item items i = Ok it ->
  In g (scan subject_exact it []) ->
  In g (scan_all subject_exact items i0 k numbers).
Proof.
  induction k as [|k IH]; intros i0 i numbers Hi Ei Hg; [lia|].
  simpl. destruct (Nat.eq_dec i0 i) as [->|Ne].
  - apply scan_items_mono. rewrite Ei. apply in_scan_message. right. exact Hg.
  - apply (IH (S i0) i); auto. lia.
Qed.

(** Scanning a mailbox is scanning its items in turn. *)
Lemma scan_items_mailbox subject_exact : forall l l0 numbers,
  scan_all subject_exact (mailbox_of (l0 ++ l)) (S (length l0)) (length l) numbers
  = fold_left (fun acc x => match x with
                            | Ok it => scan subject_exact it acc
                            | Raise _ => acc
                            end) l numbers.
Proof.
  induction l as [|x l IH]; intros l0 numbers; [reflexivity|].
  cbn [length scan_all scan_items fold_left]. fold scan_all.
  assert (E : Item (mailbox_of (l0 ++ x :: l)) (S (length l0)) = x).
  { cbn [Item mailbox_of].
    replace (S (length l0) - 1) with (length l0) by lia.
    rewrite app_nth2, Nat.sub_diag by lia. reflexivity. }
  rewrite E.
  replace (l0 ++ x :: l) with ((l0 ++ [x]) ++ l) by (rewrite <- app_assoc; reflexivity).
  replace (S (S (length l0))) with (S (length (l0 ++ [x])))
    by (rewrite length_app; simpl; lia).
  rewrite IH. destruct x; reflexivity.
Qed.

Lemma in_scan_list g subject_exact : forall l numbers,
  In g (fold_left (fun acc x => match x with
                                | Ok it => scan subject_exact it acc
                                | Raise _ => acc
                                end) l numbers)
  <-> In g numbers \/
      exists it, In (Ok it) l /\ In g (scan subject_exact it []).
Proof.
  induction l as [|x l IH]; intros numbers.
  - simpl. split; [auto|]. intros [H|(it & [] & _)]. exact H.
  - cbn [fold_left]. rewrite IH. destruct x as [it|e].
    + rewrite in_scan_message. split.
      * intros [[H|H]|(it' & I & H)]; auto.
        -- right. exists it. split; [left; reflexivity|exact H].
        -- right. exists it'. split; [right; exact I|exact H].
      * intros [H|(it' & [I|I] & H)]; auto.
        -- inversion I; subst it'. auto.
        -- right. exists it'. auto.
    + split.
      * intros [H|(it' & I & H)]; auto.
        right. exists it'. split; [right; exact I|exact H].
      * intros [H|(it' & [I|I] & H)]; auto; [discriminate|].
        right. exists it'. auto.
Qed.

End Collecting.
Section ExtractorExtras.
Import Py Re Spec Outlook OutlookSpec.

Lemma sorted_same_members set_iter (N1 N2 : list str) :
  (forall l : list str, Permutation (set_iter l) l) ->
  NoDup N1 -> NoDup N2 -> (forall g, In g N1 <-> In g N2) ->
  sorted (set_iter N1) = sorted (set_iter N2).
Proof.
  intros P D1 D2 M. apply sorted_unique; try apply sorted_sorted.
  rewrite !sorted_perm, !P. apply NoDup_Permutation; assumption.
Qed.

(** The result for a mailbox is settled by what its readable items
    contribute. *)
Lemma mailbox_result unescape unquote chk set_iter subject_exact l1 l2 :
  (forall l : list str, Permutation (set_iter l) l) ->
  (forall it, In (Ok it) l1 <-> In (Ok it) l2) ->
  extract_order_numbers_from_items unescape unquote chk set_iter
    (Some (mailbox_of l1)) subject_exact
  = extract_order_numbers_from_items unescape unquote chk set_iter
      (Some (mailbox_of l2)) subject_exact.
Proof.
  intros P M. unfold extract_order_numbers_from_items.
  cbn [Count mailbox_of].
  pose proof (scan_items_mailbox unescape unquote chk subject_exact l1 [] [])
    as E1.
  pose proof (scan_items_mailbox unescape unquote chk subject_exact l2 [] [])
    as E2.
  cbn [app length] in E1, E2.
  assert (C : forall l, collected
                (scan_items unescape unquote chk subject_exact (mailbox_of l)
                   1 (length l) [])).
  { intros l. apply scan_items_collected. split; constructor. }
  apply sorted_same_members; [exact P|apply C|apply C|].
  intros g. rewrite E1, E2, !in_scan_list.
  split; intros [H|(it & I & H)]; auto; right; exists it;
    (split; [apply M, I|exact H]).
Qed.

End ExtractorExtras.

Section ExtractorExtrasClaims.
Import Py Re Spec Outlook OutlookSpec.

(** X10.  Every order link is found.  When a message of the collection can be
    read, passes the subject filter, and its HTML body or its text body
    holds "/orders/" (in any case) followed by the digits [n], after which
    the body ends or goes on with an ASCII character that is not a digit,
    then [n] is in the result; this holds whatever the decoders do. *)
Theorem order_links_are_found :
  forall (unescape unquote : str -> result str)
         (check_bracketed_netloc : str -> result unit)
         (set_iter : list str -> list str)
         (items : collection) (subject_exact : option str)
         (k i : nat) (it : message) (body pre w n post : str),
    (forall l, Permutation (set_iter l) l) ->
    Count items = Ok k -> 1 <= i <= k -> Item items i = Ok it ->
    passes subject_exact it ->
    HTMLBody it = Ok (Some body) \/ Body it = Ok (Some body) ->
    body = pre ++ w ++ n ++ post ->
    lower w = lit "/orders/" -> is_identifier n -> ends_number post ->
    In n (extract_order_numbers_from_items unescape unquote
            check_bracketed_netloc set_iter (Some items) subject_exact).
Proof.
  intros unescape unquote chk set_iter items subject_exact k i it body
         pre w n post P Ec Hi Ei Hp Hb Eb Ew [Nn Dn] Hs.
  unfold extract_order_numbers_from_items. rewrite Ec.
  eapply Permutation_in; [symmetry; apply sorted_perm|].
  eapply Permutation_in; [symmetry; apply P|].
  apply (scan_items_reach unescape unquote chk n subject_exact items it k 1 i);
    [lia|exact Ei|].
  apply (scan_message_link unescape unquote chk subject_exact it body n);
    try assumption.
  exists pre, w, post. repeat split; try assumption.
  destruct post as [|c post]; [exact I|].
  unfold ends_number in Hs. simpl in Hs.
  apply orb_false_iff in Hs as [Hs _]. exact Hs.
Qed.

Lemma order_links_are_found_witness :
  In (lit "987")
     (extract_order_numbers_from_items
        (fun s => Ok s) (fun s => Ok (unquote_ascii s)) (fun _ => Ok tt)
        (@rev str) (Some example_inbox)
        (Some (lit "Your Walmart order was delivered"))).
Proof.
  apply (order_links_are_found _ _ _ _ _ _ 3 3
           {| Subject := Ok (Some (lit "Your Walmart order was delivered"));
              HTMLBody := Ok None;
              Body := Ok (Some (lit "See www.walmart.ca%2Fen%2Forders%2F1234 and /orders/987")) |}
           (lit "See www.walmart.ca%2Fen%2Forders%2F1234 and /orders/987")
           (lit "See www.walmart.ca%2Fen%2Forders%2F1234 and ")
           (lit "/orders/") (lit "987") []).
  - intros l. symmetry. apply Permutation_rev.
  - reflexivity.
  - lia.
  - reflexivity.
  - eexists. split; [reflexivity|]. reflexivity.
  - right. reflexivity.
  - reflexivity.
  - reflexivity.
  - split; [discriminate|reflexivity].
  - exact I.
Defined.

(** X11.  The order of the messages does not count, and an item that cannot be
    read counts for nothing: two mailboxes whose items are the same up to
    their order give the same result, and so do a mailbox and the same
    mailbox without an unreadable item. *)
Theorem messages_in_any_order :
  forall (unescape unquote : str -> result str)
         (check_bracketed_netloc : str -> result unit)
         (set_iter : list str -> list str) (subject_exact : option str),
    (forall l, Permutation (set_iter l) l) ->
    (forall l1 l2,
       Permutation l1 l2 ->
       extract_order_numbers_from_items unescape unquote
         check_bracketed_netloc set_iter (Some (mailbox_of l1)) subject_exact
       = extract_order_numbers_from_items unescape unquote
           check_bracketed_netloc set_iter (Some (mailbox_of l2)) subject_exact) /\
    (forall l1 e l2,
       extract_order_numbers_from_items unescape unquote
         check_bracketed_netloc set_iter
         (Some (mailbox_of (l1 ++ Raise e :: l2))) subject_exact
       = extract_order_numbers_from_items unescape unquote
           check_bracketed_netloc set_iter
           (Some (mailbox_of (l1 ++ l2))) subject_exact).
Proof.
  intros unescape unquote chk set_iter subject_exact P. split.
  - intros l1 l2 H. apply mailbox_result; [exact P|].
    intros it. split; apply Permutation_in; [exact H|symmetry; exact H].
  - intros l1 e l2. apply mailbox_result; [exact P|].
    intros it. rewrite !in_app_iff. simpl. split.
    + intros [H|[H|H]]; auto. discriminate.
    + intros [H|H]; auto.
Qed.

Lemma messages_in_any_order_witness :
  extract_order_numbers_from_items
    (fun s => Ok s) (fun s => Ok (unquote_ascii s)) (fun _ => Ok tt)
    (fun l => l)
    (Some (mailbox_of
             [Ok {| Subject := Ok None; HTMLBody := Ok None;
                    Body := Ok (Some (lit "/orders/20")) |};
              Ok {| Subject := Ok None; HTMLBody := Ok None;
                    Body := Ok (Some (lit "/orders/100")) |}])) None
  = extract_order_numbers_from_items
      (fun s => Ok s) (fun s => Ok (unquote_ascii s)) (fun _ => Ok tt)
      (fun l => l)
      (Some (mailbox_of
               [Ok {| Subject := Ok None; HTMLBody := Ok None;
                      Body := Ok (Some (lit "/orders/100")) |};
                Ok {| Subject := Ok None; HTMLBody := Ok None;
                      Body := Ok (Some (lit "/orders/20")) |}])) None.
Proof.
  destruct (messages_in_any_order
              (fun s => Ok s) (fun s => Ok (unquote_ascii s)) (fun _ => Ok tt)
              (fun l => l) None) as [H _].
  - intros l. apply Permutation_refl.
  - apply H. apply perm_swap.
Defined.

End ExtractorExtrasClaims.
Section OrderUrl.
Import Py Re Spec Outlook OutlookSpec Fetcher.

Lemma search_at_step r p c s i :
  run r (start_state p (c :: s)) = [] ->
  search_at r p (c :: s) i = search_at r (Some c) s (S i).
Proof. intros H. rewrite search_at_unfold, H. reflexivity. Qed.

Lemma search_at_end r p i :
  run r (start_state p []) = [] -> search_at r p [] i = None.
Proof. intros H. rewrite search_at_unfold, H. reflexivity. Qed.

Lemma finditer_at_one r fuel p s st :
  first r (start_state p s) st -> rest st = [] -> s <> [] ->
  run r (start_state (prev st) []) = [] ->
  finditer_at r (S (S fuel)) p s = [match_of 0 s st].
Proof.
  intros F Er Ns He. cbn [finditer_at].
  rewrite (search_at_first r p s 0 st F).
  destruct s as [|c s]; [congruence|].
  change (m_prev (match_of 0 (c :: s) st)) with (prev st).
  change (m_rest (match_of 0 (c :: s) st)) with (rest st).
  rewrite Er, (search_at_end r _ 0 He).
  destruct (m_text (match_of 0 (c :: s) st)); reflexivity.
Qed.

Lemma skip_site X i :
  search_at ORDER_RE None (lit "https://www.walmart.ca/en" ++ X) i
  = search_at ORDER_RE (Some "n"%char) X (25 + i).
Proof.
  cbn [lit list_ascii_of_string app].
  do 25 (rewrite search_at_step by reflexivity).
  reflexivity.
Qed.

(** The numbers read from the URL of an order: the number of the order. *)
Lemma order_numbers_in_order_url n :
  n <> [] -> all_digits n -> order_numbers_in (order_url n) = [n].
Proof.
  intros N D. unfold order_numbers_in, finditer, order_url.
  pose proof (first_order (Some "n"%char) (lit "/orders/") n [] eq_refl N D I)
    as F.
  rewrite app_nil_r in F.
  set (st := MState (prev_after (prev_after (Some "n"%char) (lit "/orders/")) n)
                    [] [(1, n)]) in *.
  assert (E : forall fuel,
            finditer_at ORDER_RE (S (S fuel)) None
              (lit "https://www.walmart.ca/en/orders/" ++ n)
            = [match_of 25 (lit "/orders/" ++ n) st]).
  { intros fuel.
    change (lit "https://www.walmart.ca/en/orders/" ++ n)
      with (lit "https://www.walmart.ca/en" ++ lit "/orders/" ++ n).
    cbn [finditer_at]. rewrite skip_site.
    rewrite (search_at_first ORDER_RE _ _ (25 + 0) _ F).
    change (m_prev (match_of (25 + 0) (lit "/orders/" ++ n) st)) with (prev st).
    change (m_rest (match_of (25 + 0) (lit "/orders/" ++ n) st)) with (@nil ascii).
    rewrite (search_at_end ORDER_RE _ 0) by reflexivity.
    destruct (m_text _); reflexivity. }
  simpl length. rewrite E. reflexivity.
Qed.


Lemma digit_plain_b c :
  implb (is_digit c)
        (negb (eqc c "009" || eqc c "010" || eqc c "013") && negb (is_space c)
         && negb (existsb (eqc c) TRAILING)) = true.
Proof. revert c. ascii_fact. Qed.

Lemma digit_plain c :
  is_digit c = true ->
  negb (eqc c "009" || eqc c "010" || eqc c "013") = true /\
  negb (is_space c) = true /\ existsb (eqc c) TRAILING = false.
Proof.
  intros H. pose proof (digit_plain_b c) as B. rewrite H in B. simpl in B.
  apply andb_true_iff in B as [B B3]. apply andb_true_iff in B as [B1 B2].
  apply negb_true_iff in B3. auto.
Qed.

(** A text that the decoders leave alone has one variant. *)
Lemma decode_nothing unescape unquote s :
  s <> [] -> unescape s = Ok s -> unquote s = Ok s ->
  _decode_candidates unescape unquote s = [s].
Proof.
  intros N Eu Eq. destruct s as [|c s]; [congruence|].
  assert (A : append_new (c :: s) (@cons str (c :: s) (@nil str))
              = @cons str (c :: s) (@nil str)).
  { unfold append_new. cbn [mem existsb]. rewrite eqs_refl. reflexivity. }
  unfold _decode_candidates. cbv zeta. rewrite Eu, eqs_refl. cbn [negb].
  rewrite Eq. cbv beta iota. rewrite A, Eq. cbv beta iota.
  rewrite A, Eq. cbv beta iota. exact A.
Qed.

Lemma urlparse_order_url chk n :
  all_digits n ->
  exists p, urlparse chk (order_url n) = Ok p /\ netloc p = lit "www.walmart.ca".
Proof.
  intros D. unfold urlparse.
  change (lstrip_by (fun c => code c <=? 32) (order_url n)) with (order_url n).
  rewrite (filter_all _ (order_url n)).
  2:{ unfold order_url. rewrite forallb_app. apply andb_true_iff.
      split; [reflexivity|]. eapply forallb_imp; [|exact D].
      intros c Hc. apply (digit_plain c Hc). }
  unfold order_url. simpl app. lazy -[partition_c bind]. cbn [bind].
  destruct (partition_c "#" _) as [[a b]|];
    destruct (partition_c "?" _) as [[a' b']|];
    eexists; split; reflexivity.
Qed.

Lemma unwrap_order_url unquote chk n :
  all_digits n -> unwrap unquote chk (order_url n) = Ok [order_url n].
Proof.
  intros D. destruct (urlparse_order_url chk n D) as (p & E & En).
  unfold unwrap. rewrite E. cbn [bind]. rewrite En. reflexivity.
Qed.

Lemma rstrip_order_url n :
  n <> [] -> all_digits n -> rstrip_chars TRAILING (order_url n) = order_url n.
Proof.
  intros N D. destruct (exists_last N) as (n' & c & ->).
  unfold all_digits in D. rewrite forallb_app in D.
  apply andb_true_iff in D as [_ Dc]. simpl in Dc.
  apply andb_true_iff in Dc as [Dc _].
  destruct (digit_plain c Dc) as (_ & _ & T).
  unfold rstrip_chars, order_url. rewrite app_assoc.
  rewrite <- (app_nil_r ((_ ++ n') ++ [c])) at 1.
  rewrite rstrip_by_app by exact T. apply app_nil_r.
Qed.

Lemma found_urls_order_url n :
  n <> [] -> all_digits n -> found_urls (order_url n) = [order_url n].
Proof.
  intros N D. unfold found_urls, finditer.
  set (body := lit "www.walmart.ca/en/orders/" ++ n).
  assert (F : first URL_RE (start_state None (order_url n))
                (MState (prev_after (Some "/"%char) body) [] [])).
  { change URL_RE
      with (Seq (text "http") (Seq (opt (chr "s")) (Seq (text "://")
              (plus (Cls (fun c => negb (is_space c))))))).
    change (start_state None (order_url n))
      with (MState None (lit "https://" ++ body) []).
    apply first_seq with (st1 := MState (Some "p"%char) (lit "s://" ++ body) []).
    { exists []. reflexivity. }
    apply first_seq with (st1 := MState (Some "s"%char) (lit "://" ++ body) []).
    { apply first_opt_take, first_cls. reflexivity. }
    apply first_seq with (st1 := MState (Some "/"%char) body []).
    { exists []. reflexivity. }
    rewrite <- (app_nil_r body) at 1.
    apply first_plus_cls; [discriminate| |exact I].
    unfold body. rewrite forallb_app. apply andb_true_iff.
    split; [reflexivity|]. eapply forallb_imp; [|exact D].
    intros c Hc. apply (digit_plain c Hc). }
  assert (L : length (order_url n) = S (S (length n + 31))).
  { unfold order_url. rewrite length_app. simpl. lia. }
  rewrite L.
  rewrite (finditer_at_one URL_RE _ None (order_url n) _ F);
    [|reflexivity|discriminate|reflexivity].
  cbn [map]. unfold match_of. cbn [m_text rest]. unfold consumed.
  cbn [length]. rewrite Nat.sub_0_r, firstn_all.
  rewrite rstrip_order_url by assumption. reflexivity.
Qed.

End OrderUrl.

Section OrderUrlClaims.
Import Py Re Spec Outlook OutlookSpec Fetcher.

(** X12.  From the number of an order to its URL and back.  For every order
    number [n] (digits, at least one), the URL that the fetcher opens for
    [n] holds exactly one order link, the one with the number [n]; the link
    scanner finds that URL whole and the unwrapper returns it as it is; and
    a message whose text body is that URL, with decoders that leave the
    URL alone, gives the result [[n]]. *)
Theorem order_url_round_trip :
  forall (unescape unquote : str -> result str)
         (check_bracketed_netloc : str -> result unit)
         (set_iter : list str -> list str)
         (subject : option str) (n : str),
    (forall l, Permutation (set_iter l) l) ->
    is_identifier n ->
    unescape (order_url n) = Ok (order_url n) ->
    unquote (order_url n) = Ok (order_url n) ->
    order_numbers_in (order_url n) = [n] /\
    has_order_link n (order_url n) /\
    _extract_urls_from_safelinks unquote check_bracketed_netloc (order_url n)
    = [order_url n] /\
    extract_order_numbers_from_items unescape unquote check_bracketed_netloc
      set_iter
      (Some (mailbox_of [Ok {| Subject := Ok subject; HTMLBody := Ok None;
                               Body := Ok (Some (order_url n)) |}]))
      None
    = [n].
Proof.
  intros unescape unquote chk set_iter subject n P [N D] Eu Eq.
  pose proof (order_numbers_in_order_url n N D) as O.
  assert (U : _extract_urls_from_safelinks unquote chk (order_url n)
              = [order_url n]).
  { unfold _extract_urls_from_safelinks.
    change (order_url n) with ("h"%char :: lit "ttps://www.walmart.ca/en/orders/" ++ n) at 1.
    cbv iota.
    change ("h"%char :: lit "ttps://www.walmart.ca/en/orders/" ++ n) with (order_url n).
    rewrite safelinks_loop_emitted. fold (found_urls (order_url n)).
    rewrite found_urls_order_url by assumption.
    cbn [map emitted]. rewrite unwrap_order_url by assumption. reflexivity. }
  assert (C : _decode_candidates unescape unquote (order_url n) = [order_url n]).
  { apply decode_nothing; [discriminate|exact Eu|exact Eq]. }
  split; [exact O|]. split; [|split; [exact U|]].
  - exists (lit "https://www.walmart.ca/en"), (lit "/orders/"), [].
    rewrite app_nil_r. repeat split; auto.
  - unfold extract_order_numbers_from_items.
    cbn [Count mailbox_of length scan_items Item Nat.sub nth].
    unfold scan_message. cbn [Subject HTMLBody Body body_or_empty or_empty].
    cbn [_decode_candidates app]. rewrite C.
    cbn [flat_map app]. rewrite U. cbn [flat_map app]. rewrite C.
    cbn [flat_map app]. rewrite O. cbn [app fold_left].
    unfold set_add. cbn [mem existsb app]. rewrite eqs_refl. cbn [orb].
    pose proof (P [n]) as Pn. apply Permutation_sym in Pn.
    apply Permutation_length_1_inv in Pn. rewrite Pn. reflexivity.
Qed.

Lemma order_url_round_trip_witness :
  extract_order_numbers_from_items
    (fun s => Ok s) (fun s => Ok (unquote_ascii s)) (fun _ => Ok tt)
    (fun l => l)
    (Some (mailbox_of [Ok {| Subject := Ok None; HTMLBody := Ok None;
                             Body := Ok (Some (order_url (lit "4002017"))) |}]))
    None
  = [lit "4002017"].
Proof.
  destruct (order_url_round_trip
              (fun s => Ok s) (fun s => Ok (unquote_ascii s)) (fun _ => Ok tt)
              (fun l => l) None (lit "4002017")) as (_ & _ & _ & H).
  - intros l. apply Permutation_refl.
  - split; [discriminate|reflexivity].
  - reflexivity.
  - vm_compute. reflexivity.
  - exact H.
Defined.

End OrderUrlClaims.
(* ================================================================== *)
(** * The pipeline *)

Section PipelineFacts.
Import Py Re Spec Outlook OutlookSpec.

Lemma extract_collected unescape unquote chk set_iter items subject_exact :
  (forall l : list str, Permutation (set_iter l) l) ->
  collected (extract_order_numbers_from_items unescape unquote chk set_iter
               items subject_exact).
Proof.
  intros P. unfold extract_order_numbers_from_items.
  destruct items as [items|]; [|split; constructor].
  set (numbers := match Count items with
                  | Ok n => scan_items unescape unquote chk subject_exact
                              items 1 n []
                  | Raise _ => []
                  end).
  assert (C : collected numbers).
  { subst numbers. destruct (Count items) as [n|e].
    - apply scan_items_collected. split; constructor.
    - split; constructor. }
  destruct C as [N F].
  assert (Q : Permutation (sorted (set_iter numbers)) numbers).
  { rewrite sorted_perm. apply P. }
  split.
  - apply (Permutation_NoDup (Permutation_sym Q) N).
  - apply (Permutation_Forall (Permutation_sym Q) F).
Qed.

Lemma sorted_collected l : collected l -> collected (sorted l).
Proof.
  intros [N F]. pose proof (sorted_perm l) as Q. split.
  - apply (Permutation_NoDup (Permutation_sym Q) N).
  - apply (Permutation_Forall (Permutation_sym Q) F).
Qed.

(** Sorting what is sorted changes nothing. *)
Lemma sorted_idem l : sorted (sorted l) = sorted l.
Proof.
  apply sorted_unique; try apply sorted_sorted. apply sorted_perm.
Qed.

End PipelineFacts.

Section PipelineClaims.
Import Py Re Spec Outlook OutlookSpec Main MainSpec.

(** X13.  How the pipeline ends, and what it fetches.  The exit status is 0 or 1.
    The pipeline returns normally only for a period that parses to a range.
    The fetcher is only ever called with a list of order numbers that is
    not empty, ascending and without duplicates, each number being what
    the digit group of the order pattern captured in some text, a non-empty
    string (of the digits 0 to 9 when it is made of ASCII characters): two
    worlds that differ only in what the fetcher does on
    other lists end the same way; in particular, when no order number is
    found, the pipeline returns without fetching. *)
Theorem pipeline_exit_and_fetch :
  forall (unescape unquote : str -> result str)
         (check_bracketed_netloc : str -> result unit)
         (set_iter : list str -> list str)
         (EMAIL_SUBJECT_FILTER : option str) (w : world) (period : str),
    (forall l, Permutation (set_iter l) l) ->
    let run := run_pipeline unescape unquote check_bracketed_netloc set_iter
                 EMAIL_SUBJECT_FILTER in
    (exit_status (run w period) = 0 \/ exit_status (run w period) = 1)%Z /\
    (run w period = Returned ->
     exists range, _parse_period period = Ok (Some range)) /\
    (forall w',
       mkdir_output w' = mkdir_output w ->
       connect_outlook w' = connect_outlook w ->
       Main.get_folder_by_path w' = Main.get_folder_by_path w ->
       (forall l, l <> [] -> Sorted str_le l -> NoDup l ->
                  Forall link_capture l -> Forall digits_if_ascii l ->
                  fetch_orders w' l = fetch_orders w l) ->
       run w' period = run w period).
Proof.
  intros unescape unquote chk set_iter subject w period P run.
  subst run. split; [|split].
  - unfold run_pipeline.
    destruct (mkdir_output w); [|right; reflexivity].
    destruct (connect_outlook w); [|right; reflexivity].
    destruct (Main.get_folder_by_path w) as [fld|]; [|right; reflexivity].
    destruct (its <- Items fld;; Count (members its)); [|right; reflexivity].
    destruct (get_items_for_period fld period) as [[c|]|e];
      try (right; reflexivity).
    destruct (Count c); [|right; reflexivity].
    destruct (sorted _) as [|x l]; [left; reflexivity|].
    destruct (fetch_orders w (x :: l)); [left|right]; reflexivity.
  - unfold run_pipeline.
    destruct (mkdir_output w); [|discriminate].
    destruct (connect_outlook w); [|discriminate].
    destruct (Main.get_folder_by_path w) as [fld|]; [|discriminate].
    destruct (its <- Items fld;; Count (members its)); [|discriminate].
    unfold get_items_for_period.
    destruct (_parse_period period) as [[range|]|e]; cbn [bind];
      try discriminate.
    intros _. exists range. reflexivity.
  - intros w' Em Ec Ef Efetch. unfold run_pipeline. rewrite Em, Ec, Ef.
    destruct (mkdir_output w); [|reflexivity].
    destruct (connect_outlook w); [|reflexivity].
    destruct (Main.get_folder_by_path w) as [fld|]; [|reflexivity].
    destruct (its <- Items fld;; Count (members its)); [|reflexivity].
    destruct (get_items_for_period fld period) as [[c|]|e]; try reflexivity.
    destruct (Count c); [|reflexivity].
    set (found := extract_order_numbers_from_items unescape unquote chk set_iter
                    (Some c) subject).
    pose proof (sorted_collected found
                  (extract_collected unescape unquote chk set_iter (Some c)
                     subject P)) as [N F].
    pose proof (sorted_sorted found) as S.
    pose proof (Permutation_Forall (Permutation_sym (sorted_perm found))
                  (extract_forall link_capture order_numbers_in_capture
                     unescape unquote chk set_iter (Some c) subject P)) as Fc.
    destruct (sorted found) as [|x l] eqn:E; [reflexivity|].
    rewrite (Efetch (x :: l)); auto; [discriminate|].
    eapply Forall_impl; [|exact F].
    intros n [Nn Dn]. split; [exact Nn|intros _; exact Dn].
Qed.

Lemma pipeline_exit_and_fetch_witness :
  run_pipeline (fun s => Ok s) (fun s => Ok (unquote_ascii s))
    (fun _ => Ok tt) (fun l => l) None
    (example_world (fun l => match l with
                             | [] => Raise OtherError
                             | _ :: _ => Ok tt
                             end))
    (lit "2025-10")
  = run_pipeline (fun s => Ok s) (fun s => Ok (unquote_ascii s))
      (fun _ => Ok tt) (fun l => l) None
      (example_world (fun _ => Ok tt)) (lit "2025-10").
Proof.
  destruct (pipeline_exit_and_fetch
              (fun s => Ok s) (fun s => Ok (unquote_ascii s))
              (fun _ => Ok tt) (fun l => l) None
              (example_world (fun _ => Ok tt)) (lit "2025-10"))
    as (_ & _ & H).
  - intros l. apply Permutation_refl.
  - apply H; try reflexivity.
    intros l N _ _ _ _. destruct l; [congruence|reflexivity].
Defined.

End PipelineClaims.
(* ================================================================== *)
(** * The period of the reference implementation *)

Section ReferencePeriod.
Import Py Re Spec Outlook OutlookSpec.

(** X14.  The importer reads a period exactly as the reference implementation
    does: the two functions return the same range, reject the same strings
    and raise on the same strings.  (The reference computes the end of the
    range with a quotient and a remainder, the importer with a test for
    December.) *)
Theorem parse_period_agrees_with_reference :
  forall period, Outlook._parse_period period = Reference._parse_period period.
Proof.
  intros period. unfold Outlook._parse_period, Reference._parse_period.
  destruct (fullmatch RE_PERIOD (strip period)) as [m|]; [|reflexivity].
  destruct (group_str 1 m) as [g1|e]; [|reflexivity]. cbn [bind].
  destruct (group_str 2 m) as [g2|e]; [|reflexivity]. cbn [bind].
  destruct (between 1 (int_of g2) 12) eqn:B; [|reflexivity]. cbn [negb].
  destruct (mk_datetime (int_of g1) (int_of g2) 1 0 0 0) as [start|e];
    [|reflexivity].
  cbn [bind].
  unfold between in B. apply andb_true_iff in B as [B1 B2].
  apply Z.leb_le in B1, B2.
  destruct (int_of g2 =? 12)%Z eqn:E.
  - apply Z.eqb_eq in E. rewrite E. reflexivity.
  - apply Z.eqb_neq in E.
    rewrite Z.div_small, Z.mod_small, Z.add_0_r by lia. reflexivity.
Qed.

End ReferencePeriod.
(* ================================================================== *)
(** * What the fetcher reads from the page *)

Section PageFacts.
Import Py Re Spec Utils Parsing Outlook OutlookSpec Fetcher.

Lemma lstrip_by_head p s :
  match lstrip_by p s with [] => True | c :: _ => p c = false end.
Proof.
  induction s as [|c s IH]; simpl; [exact I|].
  destruct (p c) eqn:E; [exact IH|exact E].
Qed.

Lemma lstrip_by_fixed p s :
  match s with [] => True | c :: _ => p c = false end -> lstrip_by p s = s.
Proof. destruct s as [|c s]; simpl; [reflexivity|]. intros ->. reflexivity. Qed.

Lemma rstrip_by_head p s :
  match s with [] => True | c :: _ => p c = false end ->
  match rstrip_by p s with [] => True | c :: _ => p c = false end.
Proof.
  intros H. destruct (rstrip_by_prefix p s) as (t & E).
  destruct (rstrip_by p s) as [|c r]; [exact I|].
  rewrite E in H. exact H.
Qed.

(** Trimming a trimmed text changes nothing. *)
Lemma strip_by_idem p s : strip_by p (strip_by p s) = strip_by p s.
Proof.
  unfold strip_by.
  rewrite (lstrip_by_fixed p (rstrip_by p (lstrip_by p s))).
  - apply rstrip_by_idem.
  - apply rstrip_by_head, lstrip_by_head.
Qed.

Lemma RE_PRICE_ok : grp_ok amount_group RE_PRICE.
Proof.
  unfold RE_PRICE. cbn -[lang].
  repeat match goal with |- _ /\ _ => split end; try exact I.
  intros w L _. apply lang_amount2, L.
Qed.

Lemma float_amount2 w x : is_amount2 w x -> float w = Ok x.
Proof.
  intros (ip & d1 & d2 & -> & N & D & D2 & ->).
  apply (float_plain ip ("."%char :: [d1; d2]) [d1; d2] N D D2
           (or_intror eq_refl)).
Qed.

(** A price read from a text is that of a two-decimal amount; without one
    the price is left as it is. *)
Lemma price_in_spec txt price :
  (exists g x, is_amount2 g x /\ price_in txt price = Ok x) \/
  price_in txt price = Ok price.
Proof.
  unfold price_in. destruct (search RE_PRICE txt) as [m|] eqn:E; [|auto].
  left. destruct (search_amount RE_PRICE txt m RE_PRICE_ok eq_refl E)
    as (g & x & Eg & A).
  exists g, x. split; [exact A|]. unfold group_str. rewrite Eg. cbn [bind].
  apply float_amount2, A.
Qed.

Lemma price_in_signed txt price x :
  signed false price -> price_in txt price = Ok x -> signed false x.
Proof.
  intros S E. destruct (price_in_spec txt price) as [(g & y & A & E')|E'];
    rewrite E' in E; inversion E; subst.
  - apply is_magnitude_signed with (w := g). right. exact A.
  - exact S.
Qed.

Lemma price_in_total txt price : exists x, price_in txt price = Ok x.
Proof.
  destruct (price_in_spec txt price) as [(g & y & A & E')|E']; eauto.
Qed.

Lemma tile_price_signed t : signed false (tile_price t).
Proof.
  unfold tile_price.
  destruct (line_price t) as [price_txt|e]; cbn [bind].
  - destruct (price_in_total (strip price_txt) fzero) as (x & E). rewrite E.
    apply (price_in_signed (strip price_txt) fzero x); [reflexivity|exact E].
  - destruct (tile_text t) as [anytxt|e']; cbn [bind]; [|reflexivity].
    destruct (price_in_total anytxt fzero) as (x & E). rewrite E.
    apply (price_in_signed anytxt fzero x); [reflexivity|exact E].
Qed.

Lemma RE_QTY_ok : grp_ok digits_group RE_QTY.
Proof.
  assert (G : forall l : str, grp_ok digits_group (seqs (map chri l))).
  { induction l as [|c [|c' l] IH]; simpl; auto. }
  unfold RE_QTY. cbn -[lang texti].
  repeat match goal with |- _ /\ _ => split end; try exact I.
  - apply G.
  - intros w L _. apply lang_plus_cls in L. exact L.
Qed.

End PageFacts.

Section PageClaims.
Import Py Re Spec Utils Parsing Outlook OutlookSpec Fetcher.

(** X15.  The items read from the page.  A tile gives at most one item, and the
    items come in the order of the tiles.  Every item has a title that is
    not empty and has no white space at its ends, a quantity that is not
    negative, and a price above zero (never a NaN).  A tile whose product
    name cannot be read, or for which no price other than zero is found,
    gives no item. *)
Theorem dom_items_are_complete_rows :
  forall tiles,
    length (_parse_items_from_dom tiles) <= length tiles /\
    Forall (fun it =>
              title it <> [] /\ strip (title it) = title it /\
              (0 <= qty it)%Z /\
              signed false (price_each it) /\ nonzero (price_each it) = true /\
              fle fzero (price_each it) = true /\
              feq (price_each it) fzero = false)
           (_parse_items_from_dom tiles) /\
    (forall t e, productName t = Raise e -> tile_items t = []) /\
    (forall t, nonzero (tile_price t) = false -> tile_items t = []).
Proof.
  assert (Q : forall txt q,
            match search RE_QTY txt with
            | Some mqty => g <- group_str 1 mqty ;; int g
            | None => Ok 1%Z
            end = Ok q -> (0 <= q)%Z).
  { intros txt q H. destruct (search RE_QTY txt) as [m|]; [|inversion H; lia].
    destruct (group_str 1 m) as [g|e]; [|discriminate]. cbn [bind] in H.
    unfold int in H. destruct (4300 <? length g); [discriminate|].
    inversion H. apply N2Z.is_nonneg. }
  assert (T : forall t,
            tile_items t = [] \/
            exists q, tile_items t =
                      [{| title := stripped_or (productName t) [];
                          qty := q; price_each := tile_price t |}] /\
                      is_nonempty (stripped_or (productName t) []) = true /\
                      nonzero (tile_price t) = true /\ (0 <= q)%Z).
  { intros t. unfold tile_items. cbv zeta.
    match goal with |- context [bind ?c _] => destruct c as [q|e] eqn:Eq end;
      cbn [bind]; [|left; reflexivity].
    destruct (is_nonempty (stripped_or (productName t) [])) eqn:En;
      [|left; reflexivity].
    destruct (nonzero (tile_price t)) eqn:Ez; [|left; reflexivity].
    right. exists q. repeat split; auto. apply (Q _ _ Eq). }
  intros tiles. split; [|split; [|split]].
  - unfold _parse_items_from_dom. induction tiles as [|t tiles IH];
      [reflexivity|].
    simpl. rewrite length_app.
    destruct (T t) as [->|(q & -> & _)]; simpl; lia.
  - unfold _parse_items_from_dom. induction tiles as [|t tiles IH];
      [constructor|].
    simpl. apply Forall_app. split; [|exact IH].
    destruct (T t) as [->|(q & -> & En & Ez & Hq)]; [constructor|].
    constructor; [|constructor]. cbn [title qty price_each].
    pose proof (tile_price_signed t) as S.
    repeat match goal with |- _ /\ _ => split end; auto.
    + intros E. rewrite E in En. discriminate.
    + unfold stripped_or. destruct (productName t); [|reflexivity].
      apply strip_by_idem.
    + apply signed_false_ge_zero, S.
    + destruct (tile_price t) as [s|s| |s m e]; simpl in *;
        try discriminate; try contradiction; subst s; reflexivity.
  - intros t e H. unfold tile_items, stripped_or. rewrite H. cbv zeta.
    match goal with |- context [bind ?c _] => destruct c end; reflexivity.
  - intros t H. unfold tile_items. cbv zeta. rewrite H, andb_false_r.
    match goal with |- context [bind ?c _] => destruct c end; reflexivity.
Qed.

Lemma dom_items_are_complete_rows_witness :
  tile_items {| productName := Ok (lit " Milk 2L ");
                bill_item_quantity := Ok (lit "Qty 2");
                qty_node := Raise OtherError;
                line_price := Ok (lit "$0.00");
                tile_text := Ok (lit "Milk 2L Qty 2 $4.99") |} = [].
Proof.
  destruct (dom_items_are_complete_rows []) as (_ & _ & _ & H).
  apply H. vm_compute. reflexivity.
Defined.

(** X16.  The first name read from the page is empty, or a word of at least two
    characters, all of them letters; it is the one of the first XPath that
    gives such a word. *)
Theorem dom_first_name_is_a_word :
  forall xpaths,
    (_extract_first_name_dom xpaths = [] \/
     (2 <= length (_extract_first_name_dom xpaths) /\
      forallb is_alpha (_extract_first_name_dom xpaths) = true)) /\
    (forall loc xpaths' first,
       xpaths = loc :: xpaths' -> first_name_at loc = Ok (Some first) ->
       _extract_first_name_dom xpaths = first) /\
    (forall loc xpaths',
       xpaths = loc :: xpaths' ->
       (count loc = Ok 0 \/ exists e, count loc = Raise e) ->
       _extract_first_name_dom xpaths = _extract_first_name_dom xpaths').
Proof.
  intros xpaths. split; [|split].
  - induction xpaths as [|loc xpaths IH]; [left; reflexivity|].
    simpl. destruct (first_name_at loc) as [[first|]|e] eqn:E; try exact IH.
    right. unfold first_name_at in E.
    destruct (count loc) as [c|e]; [|discriminate]. cbn [bind] in E.
    destruct (negb (c =? 0)); [|discriminate].
    destruct (inner_text loc) as [t|e]; [|discriminate]. cbn [bind] in E.
    destruct (_ && _); [|discriminate].
    destruct (split_ws (strip t)) as [|f ws]; [discriminate|].
    destruct (1 <? length f) eqn:L; [|discriminate].
    destruct (isalpha f) eqn:A; [|discriminate].
    inversion E; subst f. apply Nat.ltb_lt in L.
    unfold isalpha in A. apply andb_true_iff in A as [_ A]. auto.
  - intros loc xpaths' first -> E. simpl. rewrite E. reflexivity.
  - intros loc xpaths' -> H. simpl. unfold first_name_at.
    destruct H as [->|(e & ->)]; reflexivity.
Qed.

Lemma dom_first_name_is_a_word_witness :
  _extract_first_name_dom
    [ {| count := Ok 0; inner_text := Ok (lit "Zoe") |};
      {| count := Ok 1; inner_text := Ok (lit "  Ana Maria  ") |} ]
  = lit "Ana".
Proof.
  destruct (dom_first_name_is_a_word
              [ {| count := Ok 0; inner_text := Ok (lit "Zoe") |};
                {| count := Ok 1; inner_text := Ok (lit "  Ana Maria  ") |} ])
    as (_ & _ & H).
  rewrite (H _ _ eq_refl (or_introl eq_refl)).
  destruct (dom_first_name_is_a_word
              [ {| count := Ok 1; inner_text := Ok (lit "  Ana Maria  ") |} ])
    as (_ & H' & _).
  apply (H' _ _ _ eq_refl). vm_compute. reflexivity.
Defined.

End PageClaims.
(* ================================================================== *)
(** * The text near a label *)

Section NearLabelFacts.
Import Py Re Spec Utils.

Lemma lang_chri_chars : forall (l : str) w,
  lang (seqs (map chri l)) w -> lower w = lower l.
Proof.
  intros [|c l] w L.
  - simpl in L. subst w. reflexivity.
  - apply lang_texti_chars; [discriminate|exact L].
Qed.

Lemma chri_chars_no_group P : forall l : str, grp_ok P (seqs (map chri l)).
Proof. induction l as [|c [|c' l] IH]; simpl; auto. Qed.

Lemma lazy_upto_no_group P f : forall k, grp_ok P (lazy_upto k (Cls f)).
Proof. induction k as [|k IH]; simpl; auto. Qed.

Lemma lang_lazy_upto f : forall k w,
  lang (lazy_upto k (Cls f)) w -> length w <= k /\ forallb f w = true.
Proof.
  induction k as [|k IH]; intros w L.
  - simpl in L. subst w. split; [simpl; lia|reflexivity].
  - destruct L as [->|(w1 & w2 & -> & (c & -> & Hc) & L2)].
    + split; [simpl; lia|reflexivity].
    + destruct (IH w2 L2) as [Hl Hf]. simpl. rewrite Hc, Hf.
      split; [lia|reflexivity].
Qed.

Lemma lang_lazy_rep_1 f k w :
  1 <= k -> lang (lazy_rep 1 k (Cls f)) w ->
  1 <= length w <= k /\ forallb f w = true.
Proof.
  intros Hk (w1 & w2 & -> & (c & -> & Hc) & L2).
  apply lang_lazy_upto in L2 as [Hl Hf]. simpl. rewrite Hc, Hf.
  split; [lia|reflexivity].
Qed.

Lemma strip_by_part p s : exists a b, s = a ++ strip_by p s ++ b.
Proof.
  unfold strip_by. destruct (lstrip_by_suffix p s) as (a & Ea).
  destruct (rstrip_by_prefix p (lstrip_by p s)) as (b & Eb).
  exists a, b. rewrite <- Eb. exact Ea.
Qed.

Lemma strip_by_forallb p (f : ascii -> bool) s :
  forallb f s = true -> forallb f (strip_by p s) = true.
Proof.
  intros H. destruct (strip_by_part p s) as (a & b & E). rewrite E in H.
  rewrite !forallb_app in H. apply andb_true_iff in H as [_ H].
  apply andb_true_iff in H as [H _]. exact H.
Qed.

Lemma strip_by_length p s : length (strip_by p s) <= length s.
Proof.
  destruct (strip_by_part p s) as (a & b & E). rewrite E at 2.
  rewrite !length_app. lia.
Qed.

(** The pattern for one label, when it compiles. *)
Lemma near_label_ok label n r :
  near_label label n = Ok r ->
  (0 < n < MAXREPEAT)%N /\
  sets 1 r = true /\
  grp_ok (near_group (N.to_nat n)) r /\
  (forall w, lang r w -> exists w1 w2, w = w1 ++ w2 /\ lower w1 = lower label).
Proof.
  unfold near_label. intros H.
  destruct ((n =? 0)%N || (MAXREPEAT <=? n)%N) eqn:B; [discriminate|].
  apply orb_false_iff in B as [B1 B2].
  apply N.eqb_neq in B1. apply N.leb_gt in B2.
  inversion H as [Hr]. clear H.
  split; [lia|]. split; [|split].
  - cbn [seqs sets]. cbn. apply orb_true_r.
  - cbn [seqs grp_ok]. cbn -[lang lazy_rep].
    repeat match goal with |- _ /\ _ => split end; try exact I.
    + apply chri_chars_no_group.
    + intros w L _. apply lang_lazy_rep_1 in L; [exact L|lia].
    + unfold lazy_rep. split; [exact I|apply lazy_upto_no_group].
  - intros w L. cbn [seqs] in L.
    destruct L as (w1 & w2 & -> & L1 & _). exists w1, w2.
    split; [reflexivity|]. apply lang_chri_chars, L1.
Qed.

Lemma near_label_bad label n :
  (n = 0 \/ MAXREPEAT <= n)%N -> near_label label n = Raise OtherError.
Proof.
  intros H. unfold near_label.
  replace ((n =? 0)%N || (MAXREPEAT <=? n)%N) with true; [reflexivity|].
  symmetry. apply orb_true_iff.
  destruct H as [H|H]; [left; apply N.eqb_eq, H|right; apply N.leb_le, H].
Qed.

Lemma near_label_good label n :
  (0 < n < MAXREPEAT)%N -> exists r, near_label label n = Ok r.
Proof.
  intros H. unfold near_label.
  replace ((n =? 0)%N || (MAXREPEAT <=? n)%N) with false; [eauto|].
  symmetry. apply orb_false_iff.
  split; [apply N.eqb_neq; lia|apply N.leb_gt; lia].
Qed.

End NearLabelFacts.

Section NearLabelClaims.
Import Py Re Spec Utils.

(** X17.  The text near a label.  For an empty text or no label the answer is
    [None].  With a distance between 1 and the largest repetition count the
    function never raises, and a text it returns has at most that many
    characters, no line break, no white space at its ends (it can be the
    empty string), and was found after a stretch of the text that has the
    length of one of the labels; when the text and that label are ASCII,
    the stretch is the label in some case.  With the distance 0, or one too
    large for a repetition count, looking for a label in a text that is not
    empty raises. *)
Theorem text_near_label :
  (forall labels n, find_text_near_label [] labels n = Ok None) /\
  (forall text n, find_text_near_label text [] n = Ok None) /\
  (forall text labels n,
     (0 < n < MAXREPEAT)%N ->
     exists r,
       find_text_near_label text labels n = Ok r /\
       forall t, r = Some t ->
         length t <= N.to_nat n /\
         forallb (fun c => negb (eqc c "010")) t = true /\
         strip t = t /\
         exists label w, In label labels /\ occurs w text /\
                         length w = length label /\
                         (isascii text = true -> isascii label = true ->
                          lower w = lower label)) /\
  (forall text labels n,
     text <> [] -> labels <> [] -> (n = 0 \/ MAXREPEAT <= n)%N ->
     find_text_near_label text labels n = Raise OtherError) /\
  find_text_near_label (lit "Total: " ++ ["010"%char]) [lit "total"] 100
  = Ok (Some []).
Proof.
  split; [reflexivity|]. split; [intros [|c text] n; reflexivity|].
  split; [|split].
  - intros text labels n Hn.
    assert (A : exists r,
              near_labels text labels n = Ok r /\
              forall t, r = Some t ->
                length t <= N.to_nat n /\
                forallb (fun c => negb (eqc c "010")) t = true /\
                strip t = t /\
                exists label w, In label labels /\ occurs w text /\
                                length w = length label /\
                                (isascii text = true -> isascii label = true ->
                                 lower w = lower label)).
    { induction labels as [|label labels (r & Er & Hr)].
      - exists None. split; [reflexivity|discriminate].
      - cbn [near_labels].
        destruct (near_label_good label n Hn) as (re & Ere).
        rewrite Ere. cbn [bind].
        destruct (near_label_ok label n re Ere) as (_ & S & G & L).
        destruct (search re text) as [m|] eqn:Es.
        + destruct (search_at_group_some re _ _ _ _ 1 S Es) as (g & Eg).
          pose proof (search_at_group re _ _ _ _ _ 1 g G Es Eg eq_refl)
            as ([_ Hl] & Hf).
          unfold group_str. rewrite Eg. cbn [bind].
          exists (Some (strip g)). split; [reflexivity|].
          intros t Et. inversion Et; subst t.
          split; [|split; [|split]].
          * pose proof (strip_by_length is_space g). unfold strip. lia.
          * apply strip_by_forallb, Hf.
          * apply strip_by_idem.
          * apply search_at_lang in Es as (pre & suf & Et' & Lw & _).
            destruct (L _ Lw) as (w1 & w2 & Ew & El).
            exists label, w1. split; [left; reflexivity|].
            split; [|split; [|intros _ _; exact El]].
            -- exists pre, (w2 ++ suf). rewrite Et', Ew, <- app_assoc.
               reflexivity.
            -- apply (f_equal (@length ascii)) in El. unfold lower in El.
               rewrite !length_map in El. exact El.
        + exists r. split; [exact Er|].
          intros t Et.
          destruct (Hr t Et) as (H1 & H2 & H3 & lb & w & I & O & Lw & E).
          repeat split; auto. exists lb, w. repeat split; auto.
          right. exact I. }
    destruct text as [|c text]; [|exact A].
    exists None. split; [reflexivity|discriminate].
  - intros [|c text] [|label labels] n Nt Nl Hn; try congruence.
    cbn [find_text_near_label near_labels].
    rewrite (near_label_bad label n Hn). reflexivity.
  - vm_compute. reflexivity.
Qed.

Lemma text_near_label_witness :
  exists r,
    find_text_near_label (lit "Order Date - Oct 19, 2025  " ++ ["010"%char])
      [lit "date"] 100 = Ok r /\
    r = Some (lit "Oct 19, 2025") /\
    exists w,
      occurs w (lit "Order Date - Oct 19, 2025  " ++ ["010"%char]) /\
      lower w = lit "date".
Proof.
  destruct text_near_label as (_ & _ & H & _).
  destruct (H (lit "Order Date - Oct 19, 2025  " ++ ["010"%char])
              [lit "date"] 100%N) as (r & E & Hr).
  - split; reflexivity.
  - exists r. split; [exact E|].
    assert (Er : r = Some (lit "Oct 19, 2025"))
      by (vm_compute in E; inversion E; reflexivity).
    split; [exact Er|].
    destruct (Hr _ Er) as (_ & _ & _ & label & w & I & O & _ & El).
    destruct I as [<-|[]]. exists w. split; [exact O|].
    apply El; reflexivity.
Defined.

End NearLabelClaims.
(* ================================================================== *)
(** * How deep a link may be encoded *)

Section EncodedLinks.
Import Py Re Spec Outlook OutlookSpec.

Lemma in_append_new x y l : In x (append_new y l) <-> In x l \/ x = y.
Proof.
  unfold append_new. destruct (mem y l) eqn:E.
  - split; [auto|]. intros [H| ->]; [exact H|]. apply mem_In, E.
  - rewrite in_app_iff. simpl. intuition.
Qed.

(** The variants of a text for decoders that do not raise. *)
Lemma decode_total unescape unquote (s h u1 u2 u3 : str) :
  s <> [] -> unescape s = Ok h -> unquote h = Ok u1 -> unquote u1 = Ok u2 ->
  unquote u2 = Ok u3 ->
  forall x, In x (_decode_candidates unescape unquote s)
            <-> x = s \/ x = h \/ x = u1 \/ x = u2 \/ x = u3.
Proof.
  intros N Eh E1 E2 E3 x. destruct s as [|c s]; [congruence|].
  unfold _decode_candidates. cbv zeta. rewrite Eh, E1, E2, E3.
  rewrite !in_append_new.
  destruct (negb (eqs h (c :: s))) eqn:B.
  - rewrite in_app_iff. simpl. intuition.
  - apply negb_false_iff, eqs_eq in B. subst h. simpl. intuition.
Qed.

Lemma unquote_ascii_plain : forall s,
  forallb (fun c => negb (eqc c "%")) s = true -> unquote_ascii s = s.
Proof.
  induction s as [|c s IH]; intros H; [reflexivity|].
  simpl in H. apply andb_true_iff in H as [Hc H].
  apply negb_true_iff in Hc. simpl. rewrite Hc, (IH H). reflexivity.
Qed.

Lemma digit_link_b c :
  implb (is_digit c) (negb (eqc c "%") && negb (eqc c "/") && negb (eqc c ":"))
  = true.
Proof. revert c. ascii_fact. Qed.

Lemma digits_link n :
  all_digits n ->
  forallb (fun c => negb (eqc c "%")) n = true /\
  forallb (fun c => negb (eqc c "/")) n = true /\
  forallb (fun c => negb (eqc c ":")) n = true.
Proof.
  intros D. repeat split; (eapply forallb_imp; [|exact D]); intros c Hc;
    pose proof (digit_link_b c) as B; rewrite Hc in B; simpl in B;
    apply andb_true_iff in B as [B B3]; apply andb_true_iff in B as [B1 B2];
    assumption.
Qed.

(** No order link without a slash. *)
Lemma order_numbers_in_no_slash s :
  forallb (fun c => negb (eqc c "/")) s = true -> order_numbers_in s = [].
Proof.
  intros H.
  assert (E : search_at ORDER_RE None s 0 = None).
  { rewrite <- (app_nil_r s).
    rewrite (search_at_nowhere ORDER_RE (fun _ c => negb (eqc c "/"))).
    - apply search_at_end. reflexivity.
    - intros p c t cs Hc. apply negb_true_iff in Hc.
      change ORDER_RE
        with (Seq (Seq (chri "/") (seqs (map chri (lit "orders/"))))
                  (Grp 1 (plus d))).
      cbn [run rest chri].
      assert (A : forall c0,
                implb (eqc (lower_c c0) (lower_c "/")) (eqc c0 "/") = true)
        by ascii_fact.
      specialize (A c). rewrite Hc in A.
      destruct (eqc (lower_c c) (lower_c "/")); [discriminate|reflexivity].
    - apply (nowhere_all _ (fun c => negb (eqc c "/"))); auto. }
  unfold order_numbers_in, finditer. cbn [finditer_at]. rewrite E.
  reflexivity.
Qed.

(** No URL without a colon. *)
Lemma extract_urls_no_colon unquote chk s :
  forallb (fun c => negb (eqc c ":")) s = true ->
  _extract_urls_from_safelinks unquote chk s = [].
Proof.
  intros H. destruct s as [|c0 s0] eqn:Es; [reflexivity|]. rewrite <- Es in *.
  assert (F : found_urls s = []).
  { destruct (found_urls s) as [|url l] eqn:F; [reflexivity|]. exfalso.
    destruct (found_url_shape s url) as (Hs & _ & _ & (a & b & O)).
    { rewrite F. left. reflexivity. }
    assert (I : In ":"%char s).
    { rewrite O. apply in_or_app. right. apply in_or_app. left.
      destruct Hs as [Hs|Hs]; apply startswith_inv in Hs as (u & ->);
        simpl; auto 10. }
    rewrite forallb_forall in H. specialize (H _ I). discriminate. }
  unfold _extract_urls_from_safelinks. rewrite Es, <- Es.
  rewrite safelinks_loop_emitted. fold (found_urls s). rewrite F. reflexivity.
Qed.

Section Scan.
Variable unescape : str -> result str.
Variable unquote : str -> result str.
Variable check_bracketed_netloc : str -> result unit.

(** A message that passes the filter gives the numbers of the order links
    of the variants of its bodies. *)
Lemma scan_message_variant subject_exact it body s n :
  passes subject_exact it ->
  HTMLBody it = Ok (Some body) \/ Body it = Ok (Some body) ->
  In s (_decode_candidates unescape unquote body) ->
  In n (order_numbers_in s) ->
  In n (scan_message unescape unquote check_bracketed_netloc
          subject_exact it []).
Proof.
  intros (subject & Es & P) Hb Hs Hn.
  unfold scan_message. rewrite Es.
  assert (K : match subject_exact with
              | Some ((_ :: _) as wanted) =>
                  negb (eqs (lower (strip (or_empty subject)))
                            (lower (strip wanted)))
              | _ => false
              end = false).
  { destruct subject_exact as [[|c wanted]|]; try reflexivity.
    rewrite P, eqs_refl. reflexivity. }
  rewrite K. apply in_fold_set_add. right.
  apply in_flat_map. exists s. split; [|exact Hn].
  apply in_or_app. left. apply in_or_app.
  destruct Hb as [Hb|Hb]; rewrite Hb; simpl; [left|right]; exact Hs.
Qed.

(** The result for a mailbox of one message. *)
Lemma one_message_result set_iter subject body :
  extract_order_numbers_from_items unescape unquote check_bracketed_netloc
    set_iter (Some (one_message subject body)) None
  = sorted (set_iter
              (scan_message unescape unquote check_bracketed_netloc None
                 {| Subject := Ok subject; HTMLBody := Ok None;
                    Body := Ok (Some body) |} [])).
Proof.
  unfold extract_order_numbers_from_items, one_message.
  cbn [Count mailbox_of length scan_items Item nth Nat.sub]. reflexivity.
Qed.

End Scan.

Lemma flat_map_nothing {A B} (f : A -> list B) : forall l,
  (forall x, In x l -> f x = []) -> flat_map f l = [].
Proof.
  induction l as [|x l IH]; intros H; [reflexivity|].
  cbn [flat_map]. rewrite (H x (or_introl eq_refl)). apply IH.
  intros y Hy. apply H. right. exact Hy.
Qed.

Lemma unquote_ascii_app_plain : forall plain tail_,
  forallb (fun c => negb (eqc c "%")) plain = true ->
  unquote_ascii (plain ++ tail_) = plain ++ unquote_ascii tail_.
Proof.
  induction plain as [|c plain IH]; intros tail_ H; [reflexivity|].
  simpl in H. apply andb_true_iff in H as [Hc H].
  apply negb_true_iff in Hc.
  change ((c :: plain) ++ tail_) with (c :: plain ++ tail_).
  simpl. rewrite Hc, (IH tail_ H). reflexivity.
Qed.

Lemma encoded_percent_plain k :
  forallb (fun c => negb (eqc c "%")) (encoded_percent k) = true.
Proof. induction k as [|k IH]; simpl; auto. Qed.

Lemma unquote_encoded_slash k tail_ :
  unquote_ascii (encoded_slash (S k) ++ tail_)
  = encoded_slash k ++ unquote_ascii tail_.
Proof.
  destruct k as [|k].
  - reflexivity.
  - change (encoded_slash (S (S k)) ++ tail_)
      with ("%"%char :: "2"%char :: "5"%char ::
            (encoded_percent k ++ lit "2F") ++ tail_).
    change (unquote_ascii ("%"%char :: "2"%char :: "5"%char ::
                           (encoded_percent k ++ lit "2F") ++ tail_))
      with ("%"%char :: unquote_ascii ((encoded_percent k ++ lit "2F") ++ tail_)).
    rewrite unquote_ascii_app_plain; [reflexivity|].
    rewrite forallb_app, encoded_percent_plain. reflexivity.
Qed.

(** One round of decoding takes one level of encoding off a link. *)
Lemma unquote_encoded_link k n :
  all_digits n ->
  unquote_ascii (encoded_link (S k) n) = encoded_link k n.
Proof.
  intros D. unfold encoded_link.
  rewrite unquote_encoded_slash.
  rewrite (unquote_ascii_app_plain (lit "orders")) by reflexivity.
  rewrite unquote_encoded_slash.
  rewrite unquote_ascii_plain; [reflexivity|apply digits_link, D].
Qed.

Lemma unquote_plain_link n :
  all_digits n -> unquote_ascii (encoded_link 0 n) = encoded_link 0 n.
Proof.
  intros D.
  change (encoded_link 0 n) with (lit "/orders/" ++ n).
  rewrite (unquote_ascii_app_plain (lit "/orders/")) by reflexivity.
  rewrite unquote_ascii_plain; [reflexivity|apply digits_link, D].
Qed.

(** An encoded link has no slash and no colon. *)
Lemma encoded_link_closed k n :
  all_digits n ->
  forallb (fun c => negb (eqc c "/")) (encoded_link (S k) n) = true /\
  forallb (fun c => negb (eqc c ":")) (encoded_link (S k) n) = true.
Proof.
  intros D. destruct (digits_link n D) as (_ & D1 & D2).
  assert (P : forall f : ascii -> bool,
            f "2"%char = true -> f "5"%char = true ->
            forallb f (encoded_percent k) = true).
  { intros f H2 H5. induction k as [|k IH]; simpl; [reflexivity|].
    rewrite H2, H5. exact IH. }
  assert (Q : forall f : ascii -> bool,
            forallb f (lit "%25Forders") = true -> forallb f n = true ->
            forallb f (encoded_link (S k) n) = true).
  { intros f Hf Hn. unfold encoded_link, encoded_slash.
    simpl in Hf. repeat (apply andb_true_iff in Hf as [? Hf]).
    assert (Hp : forallb f (encoded_percent k) = true) by (apply P; assumption).
    assert (Hs : forallb f ("%"%char :: encoded_percent k ++ lit "2F") = true).
    { simpl. rewrite forallb_app, Hp. simpl.
      repeat (apply andb_true_iff; split); auto. }
    rewrite !forallb_app, Hs, Hn. simpl.
    repeat (apply andb_true_iff; split); auto. }
  split; apply Q; auto.
Qed.

Lemma encoded_link_nonempty k n : encoded_link k n <> [].
Proof. destruct k; discriminate. Qed.

End EncodedLinks.

Section EncodedLinksClaims.
Import Py Re Spec Outlook OutlookSpec.

(** X18.  How deep a link may be encoded.  With the decoders of the standard
    library (on a text without character references and with escapes below
    %80 only), a message whose text body is an order link that was
    percent-encoded up to three times gives the number of the link; a link
    that was encoded more than three times gives nothing. *)
Theorem encoded_links_depth :
  forall (check_bracketed_netloc : str -> result unit)
         (set_iter : list str -> list str) (subject : option str)
         (k : nat) (n : str),
    (forall l, Permutation (set_iter l) l) ->
    is_identifier n ->
    let result :=
      extract_order_numbers_from_items
        (fun s => Ok s) (fun s => Ok (unquote_ascii s))
        check_bracketed_netloc set_iter
        (Some (one_message subject (encoded_link k n))) None in
    (k <= 3 -> In n result) /\ (3 < k -> result = []).
Proof.
  intros chk set_iter subject k n P [N D] result. subst result.
  pose (unescape := fun s : str => @Ok str s).
  pose (unquote := fun s : str => Ok (unquote_ascii s)).
  pose (body := encoded_link k n).
  pose (it := {| Subject := Ok subject; HTMLBody := Ok None;
                Body := Ok (Some body) |}).
  rewrite one_message_result. fold unescape unquote it.
  pose proof (decode_total unescape unquote body body
                (unquote_ascii body)
                (unquote_ascii (unquote_ascii body))
                (unquote_ascii (unquote_ascii (unquote_ascii body)))
                (encoded_link_nonempty k n) eq_refl eq_refl eq_refl eq_refl)
    as M.
  split.
  - intros Hk.
    eapply Permutation_in; [symmetry; apply sorted_perm|].
    eapply Permutation_in; [symmetry; apply P|].
    apply (scan_message_variant unescape unquote chk None it body
             (encoded_link 0 n) n).
    + exists subject. split; reflexivity.
    + right. reflexivity.
    + apply M. subst body.
      destruct k as [|[|[|[|k]]]]; [| | | |lia];
        rewrite ?unquote_encoded_link by exact D; auto.
    + pose proof (order_numbers_in_link [] (lit "/orders/") n []
                    eq_refl N D I) as L.
      rewrite app_nil_r in L. exact L.
  - intros Hk.
    assert (C : forall x, In x (_decode_candidates unescape unquote body) ->
                          exists j, x = encoded_link (S j) n).
    { intros x Hx. apply M in Hx. subst body.
      destruct k as [|[|[|[|k]]]]; try lia.
      rewrite !unquote_encoded_link in Hx by exact D.
      destruct Hx as [->|[->|[->|[->| ->]]]]; eauto. }
    assert (Sc : scan_message unescape unquote chk None it [] = []).
    { unfold scan_message. cbn [Subject HTMLBody Body it body_or_empty or_empty].
      cbn [_decode_candidates app].
      set (cands := _decode_candidates unescape unquote body) in *.
      assert (U : flat_map (_extract_urls_from_safelinks unquote chk) cands = []).
      { apply flat_map_nothing. intros x Hx. destruct (C x Hx) as (j & ->).
        apply extract_urls_no_colon, encoded_link_closed, D. }
      rewrite U. cbn [flat_map]. rewrite app_nil_r.
      assert (O : flat_map order_numbers_in cands = []).
      { apply flat_map_nothing. intros x Hx. destruct (C x Hx) as (j & ->).
        apply order_numbers_in_no_slash, encoded_link_closed, D. }
      rewrite O. reflexivity. }
    change (sorted (set_iter (scan_message unescape unquote chk None it []))
            = []).
    rewrite Sc. pose proof (P []) as Pn.
    apply Permutation_sym, Permutation_nil in Pn. rewrite Pn. reflexivity.
Qed.

Lemma encoded_links_depth_witness :
  In (lit "77")
     (extract_order_numbers_from_items
        (fun s => Ok s) (fun s => Ok (unquote_ascii s)) (fun _ => Ok tt)
        (fun l => l)
        (Some (one_message None (lit "%25252Forders%25252F77"))) None)
  /\ extract_order_numbers_from_items
       (fun s => Ok s) (fun s => Ok (unquote_ascii s)) (fun _ => Ok tt)
       (fun l => l)
       (Some (one_message None (lit "%2525252Forders%2525252F77"))) None
     = [].
Proof.
  split.
  - destruct (encoded_links_depth (fun _ => Ok tt) (fun l => l) None 3
                (lit "77")) as [H _].
    + intros l. apply Permutation_refl.
    + split; [discriminate|reflexivity].
    + apply H. lia.
  - destruct (encoded_links_depth (fun _ => Ok tt) (fun l => l) None 4
                (lit "77")) as [_ H].
    + intros l. apply Permutation_refl.
    + split; [discriminate|reflexivity].
    + apply H. lia.
Defined.

End EncodedLinksClaims.
